(* ===== verification/_CoqProject ===== *)
-Q . S2P
Prelude.v
Sdk.v
Utf8.v
ProgramError.v
Runtime.v
SystemInstruction.v
SystemProgram.v
SystemFacts.v
NoPanic.v
SystemExample.v
SystemTheorems.v
Codec.v
ShortVec.v
ConfigProgram.v
ConfigFacts.v
ConfigTheorems.v
MessageCompile.v
MessageFacts.v
Invoke.v
InvokeFacts.v
InvokeRuns.v
MessageTheorems.v
VoteState.v
VoteTower.v
VoteVoters.v
VoteSlots.v
VoteProgram.v
VoteTyped.v
EpochSchedule.v
VoteSafety.v
VoteInvariant.v
VoteExample.v
VoteTheorems.v
BinarySearch.v
StakeState.v
StakeRewards.v
StakeProgram.v
StakeActivation.v
StakeRewardFacts.v
StakeEffect.v
StakeSafety.v
StakeInvariant.v
StakeLayout.v
StakeExample.v
StakeTheorems.v
TokenState.v
TokenInstruction.v
TokenProcessor.v
TokenFacts.v
TokenAuth.v
TokenSpec.v
TokenRefine.v
TokenSafety.v
TokenExample.v
TokenTheorems.v
AssociatedAccount.v
CallerFacts.v
AssociatedFacts.v
LookupTable.v
CallSteps.v
LookupFacts.v
LookupSafety.v
CallerSafety.v
AssociatedExample.v
EscalationExample.v
CallExample.v
LookupExample.v
InvokeTheorems.v
LookupTheorems.v
