(* ===== verification/Prelude.v ===== *)
(** * Verification of the Mundis node: its native programs and their runtime

    Mundis is a blockchain node.  A transaction is a message: a list of account
    keys and of instructions, each naming a program, the accounts it may use and
    its data.  The runtime loads the accounts, runs the instructions in order
    through the builtin programs, and checks after each of them that the program
    changed only what it may change.  A program may call another one, with the
    accounts and the privileges it has itself.  This development models that path, the
    making of messages, and seven of the builtin programs (system, config, vote, stake,
    token, token-account and address lookup tables), and proves what they promise.

    ** Parts and files

    - [Prelude] (this file): results of Rust code ([outcome]: a value, an error,
      or a panic), the state monad of stateful code ([st]), machine integers,
      little-endian bytes, sums over maps, and the tactics [run_inv], which takes
      a successful run apart, and [fwd], which runs a program forward.
    - [Sdk]: public keys, instruction errors, accounts, keyed accounts, the [Pack]
      trait, rent (sdk/src/account.rs, sdk/src/keyed_account.rs, and instruction.rs,
      pubkey.rs, program_pack.rs, rent.rs of sdk/program/src).  A [ledger] maps keys
      to accounts; a program is a [prog], a function on ledgers; two keyed accounts
      with one key are the same account, and borrowing it twice fails as [RefCell]
      does.  [Utf8]: Rust's lossy decoding of strings.  [ProgramError]:
      sdk/program/src/program_error.rs.
    - [Runtime]: compiled messages (sdk/program/src/message/legacy.rs), the message
      processor (runtime/src/message_processor.rs), the invoke context, the
      verification of accounts and the accounts data meter (invoke_context.rs,
      pre_account.rs and accounts_data_meter.rs of program-runtime/src).  Builtins
      are a list of programs; [confined] states what the runtime assumes of one.
    - [SystemInstruction], [SystemProgram]: the system program with durable nonces
      (runtime/src/system_instruction_processor.rs, nonce_keyed_account.rs,
      sdk/src/nonce_account.rs, sdk/program/src/system_instruction.rs, nonce/).
      [SystemFacts] inverts its runs, [SystemTheorems] has the theorems, and
      [SystemExample] an encoding of nonces in the layout of bincode.  [NoPanic] has
      the lemmas and the tactic [np] with which programs are shown not to panic.
    - [MessageCompile]: how instructions become a message (message/legacy.rs and
      instruction.rs of sdk/program/src); [MessageFacts] and [MessageTheorems] say
      that nothing is lost.  [ShortVec]: the compact lengths of short_vec.rs.
      [EpochSchedule]: epoch_schedule.rs.
    - [ConfigProgram]: the config program (lib.rs, config_processor.rs and
      config_instruction.rs of programs/config/src) over bytes, with [ConfigFacts]
      and [ConfigTheorems].
    - [VoteState]: the state of a vote account and the operations on it
      (vote_state/mod.rs, authorized_voters.rs of programs/vote/src), [VoteProgram]:
      the handlers and the dispatch of vote instructions (vote_instruction.rs).
      [VoteTower] treats the tower of lockouts, [VoteVoters] the authorized voters,
      [VoteSlots] the check of a vote against the slot hashes, [VoteTyped] the
      invariant of a vote state, [VoteSafety] what a successful instruction did,
      [VoteInvariant] the ledgers; [Codec] and [VoteExample] give an encoding of
      vote states, [VoteTheorems] the theorems.
    - [BinarySearch]: the binary search of the standard library, and lists kept newest
      first.  [StakeState]: stake accounts, lockups, delegations with their warmup and
      cooldown in IEEE doubles, and the stake history (stake/state.rs,
      stake_history.rs and stake/config.rs of sdk/program/src).  [StakeRewards]: points
      and rewards; [StakeProgram]: the handlers, the dispatch, merging, and the
      builders (stake_state.rs and stake_instruction.rs of programs/stake/src,
      sdk/program/src/stake/instruction.rs).  [StakeActivation] and [StakeRewardFacts]
      treat the arithmetic; [StakeEffect] says what an instruction may do and with
      whose approval, [StakeSafety] that it does no more, [StakeInvariant] what such
      effects keep.  [StakeLayout] has the Borsh code of a stake state and an encoding
      of the accounts, [StakeExample] a ledger, [StakeTheorems] the theorems.
    - [TokenState], [TokenInstruction], [TokenProcessor]: the token program (state.rs,
      token_instruction.rs, token_processor.rs of programs/token/src).  [TokenFacts]
      inverts its handlers, [TokenAuth] says who must sign, [TokenSpec] is the
      abstract machine of mints and balances, [TokenRefine] the simulation,
      [TokenSafety] lifts it to messages and histories, [TokenTheorems] has the
      theorems and [TokenExample] a bank on which they are run.
    - [Invoke]: the invoke context with its stack (invoke_context.rs and pre_account.rs
      of program-runtime/src): calls with their privileges, the verification of accounts
      before and after them, and the message processor on top.  A program that calls is
      a [caller], a function to trees of calls.  [InvokeFacts] says what an instruction
      with its calls may change, [InvokeRuns] that the depth bounds the recursion and
      that without calls the context is the one of [Runtime].
    - [AssociatedAccount]: program-derived addresses (sdk/program/src/pubkey.rs) and the
      token-account program (lib.rs, token_account_instruction.rs and
      token_account_processor.rs of programs/token-account/src), which calls the system
      and the token program.  [CallerFacts] has the callers that write no account
      themselves, [AssociatedFacts] what a successful Create did.  [CallSteps] cuts
      messages with calls into stretches of single programs between their calls, given
      that a program hands what it wrote to the program it calls; [CallerSafety] is the
      simulation of [TokenRefine] for such messages.  [AssociatedExample],
      [EscalationExample] and [CallExample] run messages with calls, [InvokeTheorems]
      has the theorems.
    - [LookupTable]: the slot hashes (sdk/program/src/slot_hashes.rs), the address lookup
      table program (state.rs, processor.rs and instruction.rs of
      programs/address-lookup-table/src) and the loading of addresses from tables
      (runtime/src/accounts.rs).  [LookupFacts] has the layout of tables and what each
      stretch of the program does to them, [LookupSafety] what becomes of them over the
      history of the bank: messages with calls, sweeps of empty accounts, and new slots
      with their slot hashes (runtime/src/bank.rs).  [LookupExample] opens, uses and
      closes a table, [LookupTheorems] has the theorems.

    Every definition keeps the name of the function it models where it can; every
    handler has the checks of the source in their order, with the errors they
    return.

    ** What the theorems show

    - Token program: in every ledger reachable from genesis, by messages with calls too
      when the programs that call hand over what they write, the supply of a mint is
      what its accounts hold, and native accounts are backed by lamports; messages
      refine the abstract machine; nobody spends, mints, freezes or closes without
      the signatures it takes; frozen accounts, fixed supplies and the state of
      programs that are not called stay; account layouts survive packing.
    - Runtime: a message conserves lamports, and the verification of an account is
      exactly the list of rules it documents.  With calls, an instruction keeps to the
      accounts it names, to the write access of the message and to the programs it
      called, as long as no call promotes a signer; messages without calls are processed
      as at the lowest level.
    - Token-account program: a successful Create leaves an initialized, rent-exempt
      token account of the wallet and the mint at their derived address.
    - Lookup tables: they change and close only with the signature of their authority;
      over any history addresses are only appended, so that a lookup means the same
      later; tables that are frozen stay as they are; and a table is closed so late that
      none can be created from its slot again.
    - System program: accounts change only with the signatures of their keys or of
      the keys they derive from; transfers, creations and withdrawals do exactly
      what they say; a nonce is never accepted twice and can always be advanced.
    - Vote program: who must sign what; no instruction panics or takes a vote
      account out of its invariant; an authorized vote succeeds; a tower that
      replaces another keeps its lockouts, and voting is such a replacement; the
      check of a vote is exact and terminates; a new voter votes from its epoch on.
    - Stake program: who must approve what, with no panic; stakes stay backed by
      lamports, and locked lamports stay until the lockup ends or the custodian
      approves; effective stake keeps within the delegation and never grows after a
      deactivation; the history is a map; rewards never exceed those of the round and
      are paid once; a merge gains no credits.
    - Config program: an update is signed by the signers it names, and the
      instruction that [store] builds is accepted exactly when it should be, but for
      the place of the config key.
    - Messages: compiling keeps every key with its flags, and lengths and epochs are
      encoded one to one.
    - Some theorems exhibit behaviour the code does not mean to have: panics on long
      names, on many multisig signers and on foreign mints, a frozen account that
      closes, an error code that is misreported, a signer that loses its write
      access to the one before it, which lets a call write an account that is read-only
      for its caller, a funding account that pays without signing, calls that are not
      metered, a rescinded deactivation that leaves a stake without lamports, and a
      config key that stands in for a signer.

    ** Bounds and fuel

    Integers are [Z]; additions that may exceed the width of their type wrap, fail
    or saturate as the source does it (release builds do not check overflow, and
    Cargo.toml does not turn the checks on).  A subtraction below zero in a size
    that is then allocated is a panic.  These loops take fuel.  The matching of slots
    and the comparison of towers take the sum of the lengths they walk, and every
    turn moves in one of them, which [match_slots_fuel] and [check_lockouts_Ok]
    show to be enough; the lossy decoding takes the length of its input; the binary
    search takes one more than the length and halves it; warmup and cooldown take one
    more than the length of the history, since every turn finds a later entry in it
    ([activation_loop_fuel], [deactivation_loop_fuel]); a compact length has at most
    three bytes; the search for a bump seed counts down from 255.  Calls take one more
    than the depth of the context, above which [push] refuses them, and
    [process_instruction_fuel] shows that more changes nothing.  Towers are for slots
    below 2^63.

    ** What is not modelled

    Bincode, SHA-256 and the test whether a key is a point of the curve are parameters:
    the theorems that need it assume that encoded values are read back and have a bounded
    size, and for lookup tables that what is read fits its fields; instances of these
    laws are proved in the example and layout files; the Borsh encodings of the parts
    of a stake state are parameters of the code that puts them together.
    Programs on the virtual machine are left out, and of the invoke context the
    executors, the compute meter and the return data.  The token-vault program is not
    among the builtins of the bank; the memo and compute budget programs write no
    account and are represented by the assumption that builtins are confined, which is
    proved for the system program.
    The tracing of rewards, the genesis account of the stake configuration and the
    date configurations are left out.  Compute metering, logging and timings do not
    change accounts.  The bank but for the slot hashes of a new one, its storage,
    networking, consensus and the command line are threads and input or output around
    this code. *)

From Stdlib Require Import ZArith Lia.
From Stdlib Require Import Strings.Byte.
From stdpp Require Import prelude gmap list numbers.

#[global] Open Scope Z_scope.

(** ** Outcomes

    A Rust function of type [Result<A, E>] either returns [Ok], returns [Err],
    or panics (index out of range, arithmetic overflow of a checked build,
    allocation failure). *)

Inductive outcome (E A : Type) : Type :=
| Ok (a : A)
| Err (e : E)
| Panic.
Arguments Ok {E A} a.
Arguments Err {E A} e.
Arguments Panic {E A}.

#[global] Instance outcome_ret E : MRet (outcome E) := fun A a => Ok a.
#[global] Instance outcome_bind E : MBind (outcome E) := fun A B f m =>
  match m with Ok a => f a | Err e => Err e | Panic => Panic end.

(** [o.ok_or(e)] *)
Definition ok_or {E A} (o : option A) (e : E) : outcome E A :=
  match o with Some a => Ok a | None => Err e end.

(** [if c { return Err(e) }] *)
Definition fail_if {E} (c : bool) (e : E) : outcome E unit :=
  if c then Err e else Ok tt.

(** [r.map_err(f)] *)
Definition map_err {E F A} (f : E -> F) (m : outcome E A) : outcome F A :=
  match m with Ok a => Ok a | Err e => Err (f e) | Panic => Panic end.

Definition is_Ok {E A} (m : outcome E A) : bool :=
  match m with Ok _ => true | _ => false end.
Lemma is_Ok_ex {E A} (m : outcome E A) : is_Ok m = true -> exists a, m = Ok a.
Proof. destruct m; [eauto|done..]. Qed.

Lemma bind_Ok {E A B} (m : outcome E A) (f : A -> outcome E B) b :
  (m ≫= f) = Ok b <-> exists a, m = Ok a /\ f a = Ok b.
Proof. destruct m; cbn; naive_solver. Qed.

Lemma bind_unit_Ok {E B} (m : outcome E unit) (k : outcome E B) b :
  (_ ← m; k) = Ok b <-> m = Ok tt /\ k = Ok b.
Proof. destruct m as [[]| |]; cbn; naive_solver. Qed.

Lemma bind_Panic {E A B} (m : outcome E A) (f : A -> outcome E B) :
  (m ≫= f) = Panic <-> m = Panic \/ exists a, m = Ok a /\ f a = Panic.
Proof. destruct m; cbn; naive_solver. Qed.

Lemma ok_or_Ok {E A} (o : option A) (e : E) a : ok_or o e = Ok a <-> o = Some a.
Proof. destruct o; cbn; naive_solver. Qed.

Lemma fail_if_Ok {E} c (e : E) u : fail_if c e = Ok u <-> c = false.
Proof. destruct c, u; cbn; naive_solver. Qed.

Lemma map_err_Ok {E F A} (f : E -> F) (m : outcome E A) a :
  map_err f m = Ok a <-> m = Ok a.
Proof. destruct m; cbn; naive_solver. Qed.

(** ** Machine integers

    Rust integers are kept as [Z] together with their range. *)

Definition u8_max : Z := 255.
Definition u16_max : Z := 65535.
Definition u32_max : Z := 4294967295.
Definition u64_max : Z := 18446744073709551615.
Definition u128_max : Z := 340282366920938463463374607431768211455.

Definition in_u8 (x : Z) : Prop := 0 <= x <= u8_max.
Definition in_u64 (x : Z) : Prop := 0 <= x <= u64_max.

(** [u64::checked_add], [u64::checked_sub], [u64::checked_mul] *)
Definition checked_add (a b : Z) : option Z :=
  if a + b <=? u64_max then Some (a + b) else None.
Definition checked_sub (a b : Z) : option Z :=
  if b <=? a then Some (a - b) else None.
Definition checked_mul (a b : Z) : option Z :=
  if a * b <=? u64_max then Some (a * b) else None.

(** [u64::saturating_add], [u64::saturating_sub], [u64::saturating_mul] *)
Definition saturating_add (a b : Z) : Z := Z.min u64_max (a + b).
Definition saturating_sub (a b : Z) : Z := Z.max 0 (a - b).
Definition saturating_mul (a b : Z) : Z := Z.min u64_max (a * b).

(** Arithmetic modulo [2^64], and the cast [x as u8]. *)
Definition wrap64 (x : Z) : Z := x mod (u64_max + 1).
Definition as_u8 (x : Z) : Z := x mod 256.

Lemma checked_add_Some a b c :
  checked_add a b = Some c <-> c = a + b /\ a + b <= u64_max.
Proof. unfold checked_add. destruct (Z.leb_spec (a + b) u64_max); naive_solver lia. Qed.

Lemma checked_sub_Some a b c :
  checked_sub a b = Some c <-> c = a - b /\ b <= a.
Proof. unfold checked_sub. destruct (Z.leb_spec b a); naive_solver lia. Qed.

Lemma checked_mul_Some a b c :
  checked_mul a b = Some c <-> c = a * b /\ a * b <= u64_max.
Proof. unfold checked_mul. destruct (Z.leb_spec (a * b) u64_max); naive_solver lia. Qed.

(** ** Bytes and little-endian encodings *)

Abbreviation bytes := (list byte).

#[global] Instance byte_eq_dec' : EqDecision byte := byte_eq_dec.
#[global] Program Instance byte_countable : Countable byte :=
  inj_countable Byte.to_N Byte.of_N _.
Next Obligation. intros x. apply of_to_N. Qed.

Definition byte_to_Z (b : byte) : Z := Z.of_N (Byte.to_N b).
Definition byte_of_Z (z : Z) : byte :=
  match Byte.of_N (Z.to_N (z mod 256)) with Some b => b | None => x00 end.

Lemma byte_to_Z_range b : 0 <= byte_to_Z b < 256.
Proof. unfold byte_to_Z. pose proof (to_N_bounded b). lia. Qed.

Lemma byte_of_to_Z b : byte_of_Z (byte_to_Z b) = b.
Proof.
  unfold byte_of_Z. rewrite Z.mod_small by apply byte_to_Z_range.
  unfold byte_to_Z. by rewrite N2Z.id, of_to_N.
Qed.

Lemma byte_to_of_Z z : byte_to_Z (byte_of_Z z) = z mod 256.
Proof.
  unfold byte_of_Z, byte_to_Z. pose proof (Z.mod_pos_bound z 256 ltac:(lia)).
  destruct (Byte.of_N (Z.to_N (z mod 256))) as [b|] eqn:Hb.
  - apply to_of_N in Hb. rewrite Hb. lia.
  - apply of_N_None_iff in Hb. lia.
Qed.

Lemma byte_to_Z_inj a b : byte_to_Z a = byte_to_Z b -> a = b.
Proof. intros H. by rewrite <- (byte_of_to_Z a), H, byte_of_to_Z. Qed.

(** [x.to_le_bytes()] on [n] bytes, and [uN::from_le_bytes]. *)
Fixpoint to_le_bytes (n : nat) (x : Z) : bytes :=
  match n with
  | O => []
  | S n => byte_of_Z x :: to_le_bytes n (x / 256)
  end.

Fixpoint from_le_bytes (l : bytes) : Z :=
  match l with
  | [] => 0
  | b :: l => byte_to_Z b + 256 * from_le_bytes l
  end.

Lemma length_to_le_bytes n x : length (to_le_bytes n x) = n.
Proof. revert x. induction n; intros; simpl; auto. Qed.

Lemma from_le_bytes_range l : 0 <= from_le_bytes l < 256 ^ Z.of_nat (length l).
Proof.
  induction l as [|b l IH]; simpl length; [simpl; lia|].
  cbn [from_le_bytes]. pose proof (byte_to_Z_range b).
  rewrite Nat2Z.inj_succ, Z.pow_succ_r by lia. lia.
Qed.

Lemma from_to_le_bytes n x :
  0 <= x < 256 ^ Z.of_nat n -> from_le_bytes (to_le_bytes n x) = x.
Proof.
  revert x. induction n as [|n IH]; intros x Hx.
  - simpl in *. lia.
  - rewrite Nat2Z.inj_succ, Z.pow_succ_r in Hx by lia.
    cbn [to_le_bytes from_le_bytes]. rewrite byte_to_of_Z, IH.
    + pose proof (Z.div_mod x 256). lia.
    + split; [apply Z.div_pos; lia | apply Z.div_lt_upper_bound; lia].
Qed.

Lemma to_from_le_bytes l : to_le_bytes (length l) (from_le_bytes l) = l.
Proof.
  induction l as [|b l IH]; [done|]. cbn [from_le_bytes length to_le_bytes].
  pose proof (byte_to_Z_range b). f_equal.
  - apply byte_to_Z_inj. rewrite byte_to_of_Z.
    rewrite (Z.mul_comm 256), Z.mod_add by lia. by apply Z.mod_small.
  - by rewrite (Z.mul_comm 256), Z.div_add, Z.div_small by lia.
Qed.

Lemma from_le_bytes_u64 l : length l = 8%nat -> in_u64 (from_le_bytes l).
Proof.
  intros Hl. pose proof (from_le_bytes_range l) as H. rewrite Hl in H.
  unfold in_u64, u64_max. change (256 ^ Z.of_nat 8) with 18446744073709551616 in H. lia.
Qed.

Lemma from_to_le_bytes_u64 x : in_u64 x -> from_le_bytes (to_le_bytes 8 x) = x.
Proof.
  intros Hx. apply from_to_le_bytes. unfold in_u64, u64_max in Hx.
  change (256 ^ Z.of_nat 8) with 18446744073709551616. lia.
Qed.

(** ** State and errors

    Handlers thread the accounts they mutate and stop at the first error.  The
    runtime discards every change of a failed instruction, so an error carries
    no state. *)

Definition st (S E A : Type) : Type := S -> outcome E (A * S).

#[global] Instance st_ret S E : MRet (st S E) := fun A a s => Ok (a, s).
#[global] Instance st_bind S E : MBind (st S E) := fun A B f m s =>
  match m s with Ok (a, s') => f a s' | Err e => Err e | Panic => Panic end.

Definition lift {S E A} (o : outcome E A) : st S E A := fun s =>
  match o with Ok a => Ok (a, s) | Err e => Err e | Panic => Panic end.
Definition throw {S E A} (e : E) : st S E A := fun _ => Err e.
Definition panic {S E A} : st S E A := fun _ => Panic.
Definition gets {S E A} (f : S -> A) : st S E A := fun s => Ok (f s, s).
Definition modify {S E} (f : S -> S) : st S E unit := fun s => Ok (tt, f s).

Section StateLemmas.
Context {S E : Type}.
Implicit Types (s : S) (e : E).

Lemma st_bind_Ok {A B} (m : st S E A) (f : A -> st S E B) s b s' :
  (m ≫= f) s = Ok (b, s') <-> exists a s1, m s = Ok (a, s1) /\ f a s1 = Ok (b, s').
Proof. unfold mbind, st_bind. destruct (m s) as [[]| |]; naive_solver. Qed.

Lemma st_bind_Panic {A B} (m : st S E A) (f : A -> st S E B) s :
  (m ≫= f) s = Panic <->
    m s = Panic \/ exists a s1, m s = Ok (a, s1) /\ f a s1 = Panic.
Proof. unfold mbind, st_bind. destruct (m s) as [[]| |]; naive_solver. Qed.

Lemma st_ret_Ok {A} (a : A) s r : (mret a : st S E A) s = Ok r <-> r = (a, s).
Proof. unfold mret, st_ret. naive_solver. Qed.

Lemma lift_Ok {A} (o : outcome E A) s a s' :
  lift o s = Ok (a, s') <-> o = Ok a /\ s' = s.
Proof. unfold lift. destruct o; naive_solver. Qed.

Lemma lift_Panic {A} (o : outcome E A) s :
  (lift o : st S E A) s = Panic <-> o = Panic.
Proof. unfold lift. destruct o; naive_solver. Qed.

Lemma gets_Ok {A} (f : S -> A) s r : (gets f : st S E A) s = Ok r <-> r = (f s, s).
Proof. unfold gets. naive_solver. Qed.

Lemma modify_Ok (f : S -> S) s r : (modify f : st S E unit) s = Ok r <-> r = (tt, f s).
Proof. unfold modify. naive_solver. Qed.

Lemma throw_Ok {A} e s r : (throw e : st S E A) s = Ok r <-> False.
Proof. unfold throw. naive_solver. Qed.

Lemma panic_Ok {A} s r : (panic : st S E A) s = Ok r <-> False.
Proof. unfold panic. naive_solver. Qed.
End StateLemmas.

(** [run_inv] takes a successful run apart: one equation per statement that was
    executed, with the guards turned into hypotheses. *)

Ltac run_inv_step :=
  match goal with
  | H : Ok _ = Ok _ |- _ => injection H; clear H; intros
  | H : Err _ = Ok _ |- _ => discriminate H
  | H : Panic = Ok _ |- _ => discriminate H
  | H : (_ ≫= _) _ = Ok (_, _) |- _ =>
      apply st_bind_Ok in H; destruct H as (? & ? & ? & H); cbn beta in H
  | H : (_ ≫= _) = Ok _ |- _ =>
      apply bind_Ok in H; destruct H as (? & ? & H); cbn beta in H
  | H : lift _ _ = Ok (_, _) |- _ => apply lift_Ok in H; destruct H as [H ?]
  | H : mret _ _ = Ok _ |- _ => apply st_ret_Ok in H
  | H : gets _ _ = Ok _ |- _ => apply gets_Ok in H
  | H : modify _ _ = Ok _ |- _ => apply modify_Ok in H
  | H : throw _ _ = Ok _ |- _ => by apply throw_Ok in H
  | H : panic _ = Ok _ |- _ => by apply panic_Ok in H
  | H : fail_if _ _ = Ok _ |- _ => apply fail_if_Ok in H
  | H : ok_or _ _ = Ok _ |- _ => apply ok_or_Ok in H
  | H : map_err _ _ = Ok _ |- _ => apply map_err_Ok in H
  | H : checked_add _ _ = Some _ |- _ => apply checked_add_Some in H; destruct H
  | H : checked_sub _ _ = Some _ |- _ => apply checked_sub_Some in H; destruct H
  | H : (_, _) = (_, _) |- _ => injection H; clear H; intros
  | H : (let '(_, _) := ?p in _) _ = Ok _ |- _ => destruct p
  | H : (let '(_, _) := ?p in _) = Ok _ |- _ => destruct p
  | p : unit |- _ => destruct p
  | x := _ |- _ => subst x
  end; subst.

Ltac run_inv := repeat run_inv_step.

(** ** Running a program forward *)

Section Forward.
Context {S E : Type}.

Lemma st_bind_run {A B} (m : st S E A) (f : A -> st S E B) s a s' :
  m s = Ok (a, s') -> (m ≫= f) s = f a s'.
Proof. intros H. unfold mbind, st_bind. by rewrite H. Qed.

Lemma st_bind_run_panic {A B} (m : st S E A) (f : A -> st S E B) s :
  m s = Panic -> (m ≫= f) s = Panic.
Proof. intros H. unfold mbind, st_bind. by rewrite H. Qed.

Lemma lift_run {A} (o : outcome E A) (s : S) a : o = Ok a -> lift o s = Ok (a, s).
Proof. by intros ->. Qed.
End Forward.

(** [fwd tac] runs the first statement of a program, whose result [tac] gives. *)
Tactic Notation "fwd" tactic3(tac) := erewrite st_bind_run by tac; cbv beta iota zeta.

(** ** Sums over finite maps *)

Section MapSum.
Context {K V : Type} `{Countable K} (f : V -> Z).
Implicit Types m : gmap K V.

Definition map_sum m : Z := map_fold (fun _ v acc => f v + acc) 0 m.

Lemma map_sum_empty : map_sum ∅ = 0.
Proof. apply map_fold_empty. Qed.

Lemma map_sum_insert_new m k v :
  m !! k = None -> map_sum (<[k := v]> m) = f v + map_sum m.
Proof.
  intros Hk. unfold map_sum. apply (map_fold_insert_L (fun (_ : K) v acc => f v + acc)); [|done].
  intros. lia.
Qed.

Lemma map_sum_delete m k :
  map_sum (delete k m) = map_sum m - from_option f 0 (m !! k).
Proof.
  destruct (m !! k) as [v|] eqn:Hk; cbn.
  - rewrite <- (insert_delete_id m k v Hk) at 2.
    rewrite map_sum_insert_new by apply lookup_delete_eq. lia.
  - rewrite delete_id by done. lia.
Qed.

Lemma map_sum_insert m k v :
  map_sum (<[k := v]> m) = map_sum m - from_option f 0 (m !! k) + f v.
Proof.
  rewrite <- insert_delete_eq, map_sum_insert_new by apply lookup_delete_eq.
  rewrite map_sum_delete. lia.
Qed.

Lemma map_sum_nonneg m : (forall k v, m !! k = Some v -> 0 <= f v) -> 0 <= map_sum m.
Proof.
  induction m as [|k v m Hk IH] using map_ind; intros Hf.
  - rewrite map_sum_empty. lia.
  - rewrite map_sum_insert_new by done.
    assert (0 <= f v) by (eapply Hf, lookup_insert_eq).
    assert (0 <= map_sum m); [|lia]. apply IH. intros k' v' Hk'.
    apply (Hf k'). rewrite lookup_insert_ne; congruence.
Qed.

(** One entry is at most the sum of non-negative entries. *)
Lemma map_sum_lookup_le m k v :
  (forall k v, m !! k = Some v -> 0 <= f v) -> m !! k = Some v -> f v <= map_sum m.
Proof.
  intros Hf Hk.
  assert (0 <= map_sum (delete k m)) as Hd.
  { apply map_sum_nonneg. intros k' v' [_ Hk']%lookup_delete_Some. eauto. }
  rewrite map_sum_delete, Hk in Hd. cbn in Hd. lia.
Qed.

Lemma map_sum_zero m : (forall k v, m !! k = Some v -> f v = 0) -> map_sum m = 0.
Proof.
  induction m as [|k v m Hk IH] using map_ind; intros Hf; [apply map_sum_empty|].
  rewrite map_sum_insert_new by done.
  rewrite (Hf k v) by apply lookup_insert_eq. rewrite IH; [done|].
  intros k' v' Hk'. apply (Hf k'). rewrite lookup_insert_ne; congruence.
Qed.

(** Two maps that agree outside [ks] differ in the sum over [ks]. *)
Lemma map_sum_agree m m' ks :
  NoDup ks -> (forall k, k ∉ ks -> m' !! k = m !! k) ->
  map_sum m' - map_sum m =
  foldr (fun k acc => from_option f 0 (m' !! k) - from_option f 0 (m !! k) + acc) 0 ks.
Proof.
  intros Hnd. revert m. induction Hnd as [|k ks Hk _ IH]; intros m Hks; cbn.
  { replace m' with m; [lia|]. apply map_eq. intros k. symmetry. apply Hks. set_solver. }
  set (m1 := partial_alter (fun _ => m' !! k) k m).
  assert (map_sum m1 = map_sum m - from_option f 0 (m !! k) + from_option f 0 (m' !! k)) as H1.
  { unfold m1. destruct (m' !! k) as [v|]; [apply map_sum_insert|].
    change (partial_alter _ k m) with (delete k m). rewrite map_sum_delete. cbn. lia. }
  assert (forall j, j <> k -> m1 !! j = m !! j) as Hne
    by (intros; by apply lookup_partial_alter_ne).
  assert (foldr (fun k acc => from_option f 0 (m' !! k) - from_option f 0 (m1 !! k) + acc) 0 ks =
    foldr (fun k acc => from_option f 0 (m' !! k) - from_option f 0 (m !! k) + acc) 0 ks) as <-.
  { clear -Hk Hne. induction ks as [|j ks IHks]; [done|]. cbn.
    rewrite Hne, IHks by set_solver. done. }
  rewrite <- IH; [lia|]. intros j Hj. destruct (decide (j = k)) as [->|].
  - unfold m1. by rewrite lookup_partial_alter_eq.
  - rewrite Hne by done. apply Hks. set_solver.
Qed.
End MapSum.

Lemma map_sum_relate {K V W} `{Countable K} (f : V -> Z) (g : W -> Z)
    (m : gmap K V) (m' : gmap K W) :
  (forall k, option_Forall2 (fun v w => f v = g w) (m !! k) (m' !! k)) ->
  map_sum f m = map_sum g m'.
Proof.
  intros Hr. unfold map_sum.
  rewrite <- (map_fold_fmap (fun _ (v : Z) acc => v + acc) f 0 m).
  rewrite <- (map_fold_fmap (fun _ (v : Z) acc => v + acc) g 0 m').
  f_equal. apply map_eq. intros k. rewrite !lookup_fmap.
  destruct (Hr k) as [v w Hvw|]; cbn; congruence.
Qed.

Lemma map_sum_omap {K V W} `{Countable K} (f : W -> Z) (g : V -> option W) (m : gmap K V) :
  map_sum (fun v => from_option f 0 (g v)) m = map_sum f (omap g m).
Proof.
  induction m as [|k v m Hk IH] using map_ind; [by rewrite omap_empty|].
  rewrite map_sum_insert_new, omap_insert, IH by done.
  destruct (g v) as [w|]; cbn.
  - rewrite map_sum_insert_new; [done|]. by rewrite lookup_omap, Hk.
  - rewrite delete_id; [done|]. by rewrite lookup_omap, Hk.
Qed.
