(* ===== verification/Sdk.v ===== *)
(** * The SDK types the programs are written against

    Public keys, instruction errors, accounts and keyed accounts
    (sdk/src/account.rs, sdk/src/keyed_account.rs,
    sdk/program/src/instruction.rs), the [Pack] trait
    (sdk/program/src/program_pack.rs), the raw memory helpers
    (sdk/program/src/usafe_memory_utils.rs) and rent
    (sdk/program/src/rent.rs). *)

From Stdlib Require Import ZArith Lia String.
From Stdlib Require Import Strings.Byte Floats.SpecFloat.
From stdpp Require Import prelude gmap list numbers.
From S2P Require Import Prelude.

(** ** Public keys *)

(** [Pubkey([u8; 32])]: the length is part of the type. *)
Record Pubkey : Type := Pk {
  pk_bytes : bytes;
  pk_len : (length pk_bytes =? 32)%nat = true;
}.

Definition pk_make (l : bytes) : option Pubkey :=
  (if (length l =? 32)%nat as b return ((length l =? 32)%nat = b -> option Pubkey)
   then fun e => Some (Pk l e)
   else fun _ => None) eq_refl.

(** [Pubkey::default()]: thirty-two zero bytes. *)
Definition pk_default : Pubkey := Pk (replicate 32 x00) eq_refl.

(** [Pubkey::new_from_array] takes a [[u8; 32]]; its callers pass slices of
    that length, and the default stands for the ill-typed argument. *)
Definition new_from_array (l : bytes) : Pubkey := default pk_default (pk_make l).

Lemma pk_ext (a b : Pubkey) : pk_bytes a = pk_bytes b -> a = b.
Proof.
  destruct a as [la Ha], b as [lb Hb]; cbn. intros ->. f_equal.
  apply Eqdep_dec.UIP_dec, Bool.bool_dec.
Qed.

Lemma length_pk_bytes k : length (pk_bytes k) = 32%nat.
Proof. destruct k as [l H]; cbn. by apply Nat.eqb_eq. Qed.

Lemma pk_make_bytes k : pk_make (pk_bytes k) = Some k.
Proof.
  destruct k as [l H]; cbn.
  enough (forall b (e : (length l =? 32)%nat = b), b = true ->
    (if b as b' return ((length l =? 32)%nat = b' -> option Pubkey)
     then fun e => Some (Pk l e) else fun _ => None) e = Some (Pk l H)) as Hb
    by (by apply Hb).
  intros b e ->. f_equal. by apply pk_ext.
Qed.

Lemma new_from_array_bytes k : new_from_array (pk_bytes k) = k.
Proof. unfold new_from_array. by rewrite pk_make_bytes. Qed.

Lemma pk_bytes_new l : length l = 32%nat -> pk_bytes (new_from_array l) = l.
Proof.
  intros Hl. apply Nat.eqb_eq in Hl.
  unfold new_from_array. pose proof (pk_make_bytes (Pk l Hl)) as E. cbn in E. by rewrite E.
Qed.

#[global] Instance Pubkey_eq_dec : EqDecision Pubkey.
Proof.
  intros a b. destruct (decide (pk_bytes a = pk_bytes b)) as [H|H].
  - left. by apply pk_ext.
  - right. congruence.
Defined.

#[global] Instance Pubkey_countable : Countable Pubkey :=
  inj_countable pk_bytes pk_make pk_make_bytes.

(** A 32-byte big-endian constant, as [declare_id!] produces from base 58. *)
Definition pk_of_Z (z : Z) : Pubkey := new_from_array (rev (to_le_bytes 32 z)).

(** A 32-byte hash. *)
Abbreviation Hash := Pubkey.

(** ** Instruction errors *)

Inductive InstructionError : Type :=
| GenericError | InvalidArgument | InvalidInstructionData | InvalidAccountData
| AccountDataTooSmall | InsufficientFunds | IncorrectProgramId
| MissingRequiredSignature | AccountAlreadyInitialized | UninitializedAccount
| UnbalancedInstruction | ModifiedProgramId | ExternalAccountLamportSpend
| ExternalAccountDataModified | ReadonlyLamportChange | ReadonlyDataModified
| DuplicateAccountIndex | ExecutableModified | RentEpochModified
| NotEnoughAccountKeys | AccountDataSizeChanged | AccountNotExecutable
| AccountBorrowFailed | AccountBorrowOutstanding | DuplicateAccountOutOfSync
| Custom (code : Z)
| InvalidError | ExecutableDataModified | ExecutableLamportChange
| ExecutableAccountNotRentExempt | UnsupportedProgramId | CallDepth
| MissingAccount | ReentrancyNotAllowed | MaxSeedLengthExceeded | InvalidSeeds
| InvalidRealloc | ComputationalBudgetExceeded | PrivilegeEscalation
| ProgramEnvironmentSetupFailure | ProgramFailedToComplete
| ProgramFailedToCompile | Immutable | IncorrectAuthority
| BorshIoError (msg : string)
| AccountNotRentExempt | InvalidAccountOwner | ArithmeticOverflow
| UnsupportedSysvar | IllegalOwner | MaxAccountsDataSizeExceeded
| ActiveVoteAccountClose.

#[global] Instance InstructionError_eq_dec : EqDecision InstructionError.
Proof. solve_decision. Defined.

(** ** Accounts *)

Record AccountSharedData : Type := mkAccount {
  lamports : Z;
  data : bytes;
  owner : Pubkey;
  executable : bool;
  rent_epoch : Z;
}.

#[global] Instance AccountSharedData_eq_dec : EqDecision AccountSharedData.
Proof. solve_decision. Defined.

(** [AccountSharedData::default()] *)
Definition account_default : AccountSharedData := mkAccount 0 [] pk_default false 0.

Definition set_lamports (x : Z) (a : AccountSharedData) : AccountSharedData :=
  mkAccount x (data a) (owner a) (executable a) (rent_epoch a).
Definition set_data (d : bytes) (a : AccountSharedData) : AccountSharedData :=
  mkAccount (lamports a) d (owner a) (executable a) (rent_epoch a).
Definition set_owner (k : Pubkey) (a : AccountSharedData) : AccountSharedData :=
  mkAccount (lamports a) (data a) k (executable a) (rent_epoch a).
Definition set_rent_epoch (e : Z) (a : AccountSharedData) : AccountSharedData :=
  mkAccount (lamports a) (data a) (owner a) (executable a) e.

(** The accounts a transaction works on: one [RefCell] per key, shared by all
    the keyed accounts with that key.  A key with no entry is a fresh account. *)
Abbreviation ledger := (gmap Pubkey AccountSharedData).

Definition get_account (l : ledger) (k : Pubkey) : AccountSharedData :=
  default account_default (l !! k).

Lemma get_account_insert (l : ledger) k a k' :
  get_account (<[k := a]> l) k' = if decide (k = k') then a else get_account l k'.
Proof. unfold get_account. rewrite lookup_insert. by case_decide. Qed.

Lemma get_account_insert_eq (l : ledger) k a : get_account (<[k := a]> l) k = a.
Proof. rewrite get_account_insert. by case_decide. Qed.

Lemma get_account_insert_ne (l : ledger) k a k' :
  k <> k' -> get_account (<[k := a]> l) k' = get_account l k'.
Proof. intros. rewrite get_account_insert. by case_decide. Qed.

(** ** Keyed accounts *)

Record KeyedAccount : Type := mkKeyed {
  is_signer : bool;
  is_writable : bool;
  unsigned_key : Pubkey;
}.

Definition signer_key (ka : KeyedAccount) : option Pubkey :=
  if is_signer ka then Some (unsigned_key ka) else None.

Abbreviation prog := (st ledger InstructionError).

(** [KeyedAccount::try_account_ref] with no mutable borrow outstanding. *)
Definition account_ref (ka : KeyedAccount) : prog AccountSharedData :=
  gets (fun l => get_account l (unsigned_key ka)).

Definition ka_lamports (ka : KeyedAccount) : prog Z :=
  a ← account_ref ka; mret (lamports a).
Definition ka_data (ka : KeyedAccount) : prog bytes :=
  a ← account_ref ka; mret (data a).
Definition ka_data_len (ka : KeyedAccount) : prog nat :=
  a ← account_ref ka; mret (length (data a)).
Definition ka_owner (ka : KeyedAccount) : prog Pubkey :=
  a ← account_ref ka; mret (owner a).

(** [KeyedAccount::try_account_ref_mut] while the [RefMut]s of the accounts
    [held] are alive: the [RefCell] refuses a second mutable borrow. *)
Definition update_account (held : list Pubkey) (ka : KeyedAccount)
    (f : AccountSharedData -> outcome InstructionError AccountSharedData) : prog unit :=
  _ ← lift (fail_if (bool_decide (unsigned_key ka ∈ held)) AccountBorrowFailed);
  a ← account_ref ka;
  a' ← lift (f a);
  modify (insert (unsigned_key ka) a').

Definition next_keyed_account (iter : list KeyedAccount)
    : prog (KeyedAccount * list KeyedAccount) :=
  match iter with
  | ka :: rest => mret (ka, rest)
  | [] => throw NotEnoughAccountKeys
  end.

Definition keyed_account_at_index (kas : list KeyedAccount) (index : nat)
    : prog KeyedAccount :=
  lift (ok_or (kas !! index) NotEnoughAccountKeys).

(** ** The [Pack] trait *)

Class Pack (T : Type) : Type := {
  LEN : nat;
  is_initialized : T -> bool;
  pack_into_slice : T -> bytes -> outcome InstructionError bytes;
  unpack_from_slice : bytes -> outcome InstructionError T;
}.
Arguments LEN T {_}.

Section PackMethods.
Context {T : Type} `{Pack T}.

Definition unpack_unchecked (input : bytes) : outcome InstructionError T :=
  _ ← fail_if (negb (length input =? LEN T)%nat) InvalidAccountData;
  unpack_from_slice input.

Definition unpack (input : bytes) : outcome InstructionError T :=
  value ← unpack_unchecked input;
  if is_initialized value then Ok value else Err UninitializedAccount.

Definition pack (src : T) (dst : bytes) : outcome InstructionError bytes :=
  _ ← fail_if (negb (length dst =? LEN T)%nat) InvalidAccountData;
  pack_into_slice src dst.

Lemma unpack_unchecked_Ok input v :
  unpack_unchecked input = Ok v <-> length input = LEN T /\ unpack_from_slice input = Ok v.
Proof.
  unfold unpack_unchecked. destruct (Nat.eqb_spec (length input) (LEN T)); naive_solver.
Qed.

Lemma unpack_Ok input v :
  unpack input = Ok v <->
    length input = LEN T /\ unpack_from_slice input = Ok v /\ is_initialized v = true.
Proof.
  unfold unpack. rewrite bind_Ok. setoid_rewrite unpack_unchecked_Ok. split.
  - intros (a & [? ?] & Ha). destruct (is_initialized a) eqn:?; naive_solver.
  - intros (? & ? & Hv). exists v. by rewrite Hv.
Qed.

Lemma pack_Ok src dst d :
  pack src dst = Ok d <-> length dst = LEN T /\ pack_into_slice src dst = Ok d.
Proof.
  unfold pack. destruct (Nat.eqb_spec (length dst) (LEN T)); naive_solver.
Qed.
End PackMethods.

(** What a client of [Pack] relies on: packing a well-formed value into a slice
    of the right length succeeds, keeps the length, and reading it back gives
    the value the format stores ([norm] is the identity unless the format
    changes the value, as the padding of a mint's name does). *)
Class PackSpec (T : Type) `{Pack T} : Type := {
  packable : T -> Prop;
  norm : T -> T;
  pack_total : forall v d, packable v -> length d = LEN T ->
    exists d', pack_into_slice v d = Ok d' /\ length d' = LEN T /\
               unpack_from_slice d' = Ok (norm v);
  norm_initialized : forall v, is_initialized (norm v) = is_initialized v;
}.

(** [T::pack(v, account.data_as_mut_slice())] *)
Definition pack_account {T} `{Pack T} (held : list Pubkey) (ka : KeyedAccount) (v : T)
    : prog unit :=
  update_account held ka (fun a => d ← pack v (data a); Ok (set_data d a)).

(** [account.set_lamports(x)] *)
Definition write_lamports (held : list Pubkey) (ka : KeyedAccount) (x : Z) : prog unit :=
  update_account held ka (fun a => Ok (set_lamports x a)).

(** ** Raw memory helpers

    [None] marks an access outside the slice, which the unsafe code leaves
    undefined. *)

Fixpoint unsafe_memcmp (s1 s2 : bytes) (n : nat) : option Z :=
  match n with
  | O => Some 0
  | S n =>
      match s1, s2 with
      | a :: s1, b :: s2 =>
          if bool_decide (a = b) then unsafe_memcmp s1 s2 n
          else Some (byte_to_Z a - byte_to_Z b)
      | _, _ => None
      end
  end.

Definition unsafe_memset (s : bytes) (c : byte) (n : nat) : option bytes :=
  if (n <=? length s)%nat then Some (replicate n c ++ drop n s) else None.

Lemma unsafe_memset_all s c n : length s = n -> unsafe_memset s c n = Some (replicate n c).
Proof.
  intros <-. unfold unsafe_memset. by rewrite Nat.leb_refl, drop_all, app_nil_r.
Qed.

Lemma unsafe_memcmp_spec s1 s2 :
  length s1 = length s2 ->
  exists z, unsafe_memcmp s1 s2 (length s1) = Some z /\ (z = 0 <-> s1 = s2).
Proof.
  revert s2. induction s1 as [|a s1 IH]; intros [|b s2]; simpl; try done.
  - intros _. by exists 0.
  - intros [= Hl]. destruct (IH s2 Hl) as (z & Hz & Heq).
    case_bool_decide as Hab.
    + exists z. subst. split; [done|]. rewrite Heq. naive_solver.
    + eexists. split; [done|]. split.
      * intros H. destruct Hab. apply byte_to_Z_inj. lia.
      * naive_solver.
Qed.

(** ** Rent

    The exemption threshold is an [f64]: the conversions and the product are
    those of IEEE binary64 ([SpecFloat]), with Rust's truncating, saturating
    cast back to [u64]. *)

Definition f64_of_u64 (x : Z) : spec_float := binary_normalize 53 1024 x 0 false.
Definition f64_mul : spec_float -> spec_float -> spec_float := SFmul 53 1024.
Definition f64_to_u64 (f : spec_float) : Z :=
  match f with
  | S754_zero _ | S754_nan => 0
  | S754_infinity neg => if neg then 0 else u64_max
  | S754_finite neg m e => if neg then 0 else Z.min u64_max (Z.shiftl (Zpos m) e)
  end.

Record Rent : Type := mkRent {
  lamports_per_byte_year : Z;
  exemption_threshold : spec_float;
  burn_percent : Z;
}.

Definition DEFAULT_LAMPORTS_PER_BYTE_YEAR : Z := 1000000000 / 100 * 365 / (1024 * 1024).
Definition DEFAULT_EXEMPTION_THRESHOLD : spec_float := f64_of_u64 1.
Definition DEFAULT_BURN_PERCENT : Z := 50.
Definition ACCOUNT_STORAGE_OVERHEAD : Z := 128.

Definition rent_default : Rent :=
  mkRent DEFAULT_LAMPORTS_PER_BYTE_YEAR DEFAULT_EXEMPTION_THRESHOLD DEFAULT_BURN_PERCENT.

Definition minimum_balance (r : Rent) (data_len : nat) : Z :=
  f64_to_u64 (f64_mul
    (f64_of_u64 (wrap64 (wrap64 (ACCOUNT_STORAGE_OVERHEAD + Z.of_nat data_len)
                         * lamports_per_byte_year r)))
    (exemption_threshold r)).

Definition is_exempt (r : Rent) (balance : Z) (data_len : nat) : bool :=
  minimum_balance r data_len <=? balance.

Lemma minimum_balance_nonneg r n : 0 <= minimum_balance r n.
Proof.
  unfold minimum_balance, f64_to_u64. destruct f64_mul as [| [] | |[] m e]; try done.
  apply Z.min_glb; [done|]. by apply Z.shiftl_nonneg.
Qed.

Lemma minimum_balance_u64 r n : in_u64 (minimum_balance r n).
Proof.
  split; [apply minimum_balance_nonneg|]. unfold minimum_balance, f64_to_u64.
  destruct f64_mul as [| [] | |[] m e]; try done. apply Z.le_min_l.
Qed.

(** [Rent::calculate_burn] *)
Definition calculate_burn (r : Rent) (rent_collected : Z) : Z * Z :=
  let burned_portion := wrap64 (rent_collected * burn_percent r) / 100 in
  (burned_portion, wrap64 (rent_collected - burned_portion)).

(** ** Instructions *)

Record AccountMeta : Type := mkMeta {
  meta_pubkey : Pubkey;
  meta_is_signer : bool;
  meta_is_writable : bool;
}.

(** [AccountMeta::new] and [AccountMeta::new_readonly] *)
Definition meta_new (k : Pubkey) (is_signer : bool) : AccountMeta := mkMeta k is_signer true.
Definition meta_new_readonly (k : Pubkey) (is_signer : bool) : AccountMeta :=
  mkMeta k is_signer false.

Record Instruction : Type := mkInstruction {
  ix_program_id : Pubkey;
  ix_accounts : list AccountMeta;
  ix_data : bytes;
}.

(** The program ids of sdk/program/src/lib.rs (base 58 decoded). *)
Definition system_program_id : Pubkey := pk_default.
Definition token_program_id : Pubkey :=
  pk_of_Z 0x06ddf6e18e39ec3ff0bd527055db02a5337a71c9730cd9fd4892dcc000000000.

(** ** What a run on keyed accounts did *)

Section KeyedFacts.
Implicit Types (l : ledger) (ka : KeyedAccount).

Lemma account_ref_Ok ka l a l' :
  account_ref ka l = Ok (a, l') <-> a = get_account l (unsigned_key ka) /\ l' = l.
Proof. unfold account_ref, gets. naive_solver. Qed.

Lemma ka_data_Ok ka l d l' :
  ka_data ka l = Ok (d, l') <-> d = data (get_account l (unsigned_key ka)) /\ l' = l.
Proof. unfold ka_data, account_ref, gets, mbind, st_bind, mret, st_ret. naive_solver. Qed.

Lemma ka_data_len_Ok ka l n l' :
  ka_data_len ka l = Ok (n, l') <->
    n = length (data (get_account l (unsigned_key ka))) /\ l' = l.
Proof. unfold ka_data_len, account_ref, gets, mbind, st_bind, mret, st_ret. naive_solver. Qed.

Lemma ka_lamports_Ok ka l x l' :
  ka_lamports ka l = Ok (x, l') <->
    x = lamports (get_account l (unsigned_key ka)) /\ l' = l.
Proof. unfold ka_lamports, account_ref, gets, mbind, st_bind, mret, st_ret. naive_solver. Qed.

Lemma ka_owner_Ok ka l k l' :
  ka_owner ka l = Ok (k, l') <-> k = owner (get_account l (unsigned_key ka)) /\ l' = l.
Proof. unfold ka_owner, account_ref, gets, mbind, st_bind, mret, st_ret. naive_solver. Qed.

Lemma next_keyed_account_Ok it l ka it' l' :
  next_keyed_account it l = Ok (ka, it', l') <-> it = ka :: it' /\ l' = l.
Proof. destruct it; cbn; unfold throw, mret, st_ret; naive_solver. Qed.

Lemma update_account_Ok held ka f l u l' :
  update_account held ka f l = Ok (u, l') ->
  (unsigned_key ka ∉ held) /\
  exists a', f (get_account l (unsigned_key ka)) = Ok a' /\
             l' = <[unsigned_key ka := a']> l.
Proof.
  unfold update_account, account_ref. intros H. run_inv.
  apply bool_decide_eq_false in H0. naive_solver.
Qed.

Lemma write_lamports_Ok held ka x l u l' :
  write_lamports held ka x l = Ok (u, l') ->
  (unsigned_key ka ∉ held) /\
  l' = <[unsigned_key ka := set_lamports x (get_account l (unsigned_key ka))]> l.
Proof. intros (? & a' & ? & ->)%update_account_Ok. by simplify_eq. Qed.

Lemma pack_account_Ok {T} `{Pack T} held ka (v : T) l u l' :
  pack_account held ka v l = Ok (u, l') ->
  (unsigned_key ka ∉ held) /\
  exists d', pack v (data (get_account l (unsigned_key ka))) = Ok d' /\
    l' = <[unsigned_key ka := set_data d' (get_account l (unsigned_key ka))]> l.
Proof.
  intros (? & a' & Ha & ->)%update_account_Ok. run_inv. eauto.
Qed.

Lemma keyed_account_at_index_Ok kas i l ka l' :
  keyed_account_at_index kas i l = Ok (ka, l') <-> kas !! i = Some ka /\ l' = l.
Proof.
  unfold keyed_account_at_index, lift, ok_or. destruct (kas !! i); naive_solver.
Qed.

Lemma account_ref_run ka l : account_ref ka l = Ok (get_account l (unsigned_key ka), l).
Proof. done. Qed.
Lemma ka_lamports_run ka l : ka_lamports ka l = Ok (lamports (get_account l (unsigned_key ka)), l).
Proof. done. Qed.
Lemma ka_data_len_run ka l :
  ka_data_len ka l = Ok (length (data (get_account l (unsigned_key ka))), l).
Proof. done. Qed.

Lemma update_account_eq ka f l :
  update_account [] ka f l =
    match f (get_account l (unsigned_key ka)) with
    | Ok a => Ok (tt, <[unsigned_key ka := a]> l)
    | Err e => Err e
    | Panic => Panic
    end.
Proof.
  unfold update_account. rewrite bool_decide_eq_false_2 by apply not_elem_of_nil.
  unfold mbind, st_bind. cbn. by destruct (f _).
Qed.

Lemma update_account_run ka f l a' :
  f (get_account l (unsigned_key ka)) = Ok a' ->
  update_account [] ka f l = Ok (tt, <[unsigned_key ka := a']> l).
Proof. intros Hf. by rewrite update_account_eq, Hf. Qed.

Lemma write_lamports_run ka x l :
  write_lamports [] ka x l
  = Ok (tt, <[unsigned_key ka := set_lamports x (get_account l (unsigned_key ka))]> l).
Proof. by apply update_account_run. Qed.
End KeyedFacts.

(** The account a keyed account stands for. *)
Abbreviation acct l ka := (get_account l (unsigned_key ka)).

(** One step of the inversion of a run on keyed accounts. *)
Ltac keyed_inv_step :=
  match goal with
  | H : account_ref _ _ = Ok (_, _) |- _ => apply account_ref_Ok in H; destruct H
  | H : ka_data _ _ = Ok (_, _) |- _ => apply ka_data_Ok in H; destruct H
  | H : ka_data_len _ _ = Ok (_, _) |- _ => apply ka_data_len_Ok in H; destruct H
  | H : ka_lamports _ _ = Ok (_, _) |- _ => apply ka_lamports_Ok in H; destruct H
  | H : ka_owner _ _ = Ok (_, _) |- _ => apply ka_owner_Ok in H; destruct H
  | H : next_keyed_account _ _ = Ok (_, _, _) |- _ =>
      apply next_keyed_account_Ok in H; destruct H
  | H : keyed_account_at_index _ _ _ = Ok (_, _) |- _ =>
      apply keyed_account_at_index_Ok in H; destruct H
  | H : write_lamports _ _ _ _ = Ok (_, _) |- _ =>
      apply write_lamports_Ok in H; destruct H
  | H : pack_account _ _ _ _ = Ok (_, _) |- _ =>
      apply pack_account_Ok in H; destruct H as (? & ? & ? & ?)
  | H : update_account _ _ _ _ = Ok (_, _) |- _ =>
      apply update_account_Ok in H; destruct H as (? & ? & ? & ?)
  | H : negb _ = false |- _ => apply negb_false_iff in H
  | H : negb _ = true |- _ => apply negb_true_iff in H
  | H : bool_decide _ = true |- _ => apply bool_decide_eq_true in H
  | H : bool_decide _ = false |- _ => apply bool_decide_eq_false in H
  | H : (_ || _)%bool = false |- _ => apply orb_false_iff in H; destruct H
  | H : (_ && _)%bool = true |- _ => apply andb_true_iff in H; destruct H
  | H : (_ <? _) = false |- _ => apply Z.ltb_ge in H
  | H : (_ =? _) = true |- _ => apply Z.eqb_eq in H
  | H : (_ =? _) = false |- _ => apply Z.eqb_neq in H
  end; subst.
Ltac keyed_inv := repeat first [run_inv_step | keyed_inv_step].

Ltac ga_simpl :=
  repeat first
    [ rewrite get_account_insert_eq in *
    | rewrite get_account_insert_ne in * by congruence ];
  cbn [data lamports owner executable rent_epoch set_data set_lamports] in *.

Ltac ledger_eq :=
  apply map_eq; intros ?k; rewrite !lookup_insert; repeat case_decide; subst; congruence.
