(* ===== verification/Utf8.v ===== *)
(** * Rust strings

    A [String] is kept as its UTF-8 bytes.  [String::from_utf8_lossy] decodes
    one character at a time and replaces every maximal ill-formed prefix by
    U+FFFD, as the standard library documents it. *)

From Stdlib Require Import ZArith Lia.
From Stdlib Require Import Strings.Byte.
From stdpp Require Import prelude list numbers.
From S2P Require Import Prelude.

(** Byte [i] of the source, [0] past its end. *)
Definition safe_get (l : bytes) (i : nat) : Z :=
  match l !! i with Some b => byte_to_Z b | None => 0 end.

Definition between (lo x hi : Z) : bool := (lo <=? x) && (x <=? hi).
Definition is_cont (l : bytes) (i : nat) : bool := between 0x80 (safe_get l i) 0xBF.

(** Number of bytes the first byte announces; [0] when it starts no character. *)
Definition utf8_char_width (b : Z) : nat :=
  if b <? 0x80 then 1 else
  if between 0xC2 b 0xDF then 2 else
  if between 0xE0 b 0xEF then 3 else
  if between 0xF0 b 0xF4 then 4 else 0.

(** The ranges of the second byte of a three or four byte character. *)
Definition second_ok (b : Z) (x : Z) : bool :=
  if b =? 0xE0 then between 0xA0 x 0xBF else
  if b =? 0xED then between 0x80 x 0x9F else
  if b =? 0xF0 then between 0x90 x 0xBF else
  if b =? 0xF4 then between 0x80 x 0x8F else between 0x80 x 0xBF.

(** Decodes at the head of a non-empty slice: whether a character is there, and
    how many bytes were consumed. *)
Definition utf8_step (l : bytes) : bool * nat :=
  let b := safe_get l 0 in
  match utf8_char_width b with
  | 1%nat => (true, 1%nat)
  | 2%nat => if is_cont l 1 then (true, 2%nat) else (false, 1%nat)
  | 3%nat =>
      if second_ok b (safe_get l 1) then
        if is_cont l 2 then (true, 3%nat) else (false, 2%nat)
      else (false, 1%nat)
  | 4%nat =>
      if second_ok b (safe_get l 1) then
        if is_cont l 2 then
          if is_cont l 3 then (true, 4%nat) else (false, 3%nat)
        else (false, 2%nat)
      else (false, 1%nat)
  | _ => (false, 1%nat)
  end.

Definition REPLACEMENT : bytes := [xef; xbf; xbd].

(** Every step consumes at least one byte, so the length is enough fuel. *)
Fixpoint lossy_loop (fuel : nat) (l : bytes) : bytes :=
  match fuel, l with
  | S fuel, _ :: _ =>
      let '(ok, n) := utf8_step l in
      (if ok then take n l else REPLACEMENT) ++ lossy_loop fuel (drop n l)
  | _, _ => []
  end.
Definition from_utf8_lossy (l : bytes) : bytes := lossy_loop (length l) l.

Fixpoint valid_loop (fuel : nat) (l : bytes) : bool :=
  match fuel, l with
  | S fuel, _ :: _ =>
      let '(ok, n) := utf8_step l in ok && valid_loop fuel (drop n l)
  | _, _ => true
  end.
(** [std::str::from_utf8(l).is_ok()] *)
Definition valid_utf8 (l : bytes) : bool := valid_loop (length l) l.

(** ** Lemmas *)

Lemma utf8_step_pos l ok n : utf8_step l = (ok, n) -> (0 < n)%nat.
Proof. unfold utf8_step. repeat case_match; intros; simplify_eq; lia. Qed.

Lemma safe_get_nonzero l i : safe_get l i <> 0 -> (i < length l)%nat.
Proof.
  unfold safe_get. destruct (l !! i) eqn:E; [|done]. intros _.
  by apply lookup_lt_Some in E.
Qed.

Lemma between_true lo x hi : between lo x hi = true <-> lo <= x <= hi.
Proof. unfold between. rewrite andb_true_iff, !Z.leb_le. lia. Qed.

Lemma is_cont_lt l i : is_cont l i = true -> (i < length l)%nat.
Proof. unfold is_cont. rewrite between_true. intros. apply safe_get_nonzero. lia. Qed.

Lemma second_ok_lt l b : second_ok b (safe_get l 1) = true -> (1 < length l)%nat.
Proof.
  unfold second_ok. intros H. apply safe_get_nonzero.
  repeat case_match; apply between_true in H; lia.
Qed.

Lemma utf8_step_ok_len l n :
  l <> [] -> utf8_step l = (true, n) -> (n <= length l)%nat.
Proof.
  intros Hl H. assert (0 < length l)%nat by (destruct l; simpl; [done|lia]).
  unfold utf8_step in H.
  repeat case_match; simplify_eq; try lia;
    repeat match goal with H : is_cont _ _ = true |- _ => apply is_cont_lt in H end; lia.
Qed.

(** Decoding a character does not look past it. *)
Lemma safe_get_app l z i : (i < length l)%nat -> safe_get (l ++ z) i = safe_get l i.
Proof. intros. unfold safe_get. by rewrite lookup_app_l. Qed.

Lemma utf8_step_app l z n :
  l <> [] -> utf8_step l = (true, n) -> utf8_step (l ++ z) = (true, n).
Proof.
  intros Hl H. assert (0 < length l)%nat by (destruct l; simpl; [done|lia]).
  unfold utf8_step in *. rewrite safe_get_app by done.
  repeat case_match; simplify_eq; try done;
    repeat match goal with
    | H : is_cont ?l ?i = true, H' : is_cont (?l ++ _) ?i = _ |- _ =>
        pose proof (is_cont_lt _ _ H); unfold is_cont in H';
        rewrite safe_get_app in H' by done; unfold is_cont in H; congruence
    | H : second_ok _ (safe_get ?l 1) = true, H' : second_ok _ (safe_get (?l ++ _) 1) = _ |- _ =>
        pose proof (second_ok_lt _ _ H);
        rewrite safe_get_app in H' by done; congruence
    end.
Qed.

Lemma lossy_loop_valid fuel l :
  (length l <= fuel)%nat -> valid_loop fuel l = true -> lossy_loop fuel l = l.
Proof.
  revert l. induction fuel as [|fuel IH]; intros [|b l] Hf Hv; simpl in *; try done; try lia.
  destruct (utf8_step (b :: l)) as [ok n] eqn:E.
  apply andb_true_iff in Hv as [-> Hv]. pose proof (utf8_step_pos _ _ _ E).
  rewrite IH; [apply take_drop| |done]. rewrite length_drop. simpl. lia.
Qed.

(** On well-formed UTF-8 the lossy conversion is the identity. *)
Lemma from_utf8_lossy_valid l : valid_utf8 l = true -> from_utf8_lossy l = l.
Proof. intros. by apply lossy_loop_valid. Qed.

Lemma valid_loop_fuel fuel1 fuel2 l :
  (length l <= fuel1)%nat -> (length l <= fuel2)%nat ->
  valid_loop fuel1 l = valid_loop fuel2 l.
Proof.
  revert fuel2 l. induction fuel1 as [|f1 IH]; intros [|f2] [|b l] H1 H2;
    simpl in *; try done; try lia.
  destruct (utf8_step (b :: l)) as [ok n] eqn:E. f_equal.
  pose proof (utf8_step_pos _ _ _ E).
  apply IH; rewrite length_drop; simpl; lia.
Qed.

(** Well-formed strings can be concatenated. *)
Lemma valid_utf8_app l z :
  valid_utf8 l = true -> valid_utf8 z = true -> valid_utf8 (l ++ z) = true.
Proof.
  unfold valid_utf8. intros Hl Hz.
  remember (length l) as n eqn:Hn. assert (length l <= n)%nat as Hle by lia. clear Hn.
  revert l Hle Hl. induction n as [|n IH]; intros [|b l] Hle Hl; simpl in *; try done; try lia.
  destruct (utf8_step (b :: l)) as [ok k] eqn:E.
  apply andb_true_iff in Hl as [-> Hl].
  pose proof (utf8_step_pos _ _ _ E).
  pose proof (utf8_step_ok_len (b :: l) k ltac:(done) E).
  change (b :: l ++ z) with ((b :: l) ++ z).
  rewrite (utf8_step_app (b :: l) z k) by done. cbn [andb].
  rewrite drop_app_le by done.
  rewrite (valid_loop_fuel _ (length (drop k (b :: l) ++ z)));
    [| rewrite !length_app, length_drop; simpl in *; lia | lia].
  apply IH; [rewrite length_drop; simpl in *; lia|done].
Qed.

Lemma valid_utf8_zeros n : valid_utf8 (replicate n x00) = true.
Proof. unfold valid_utf8. rewrite length_replicate. induction n; simpl; auto. Qed.
