(* ===== verification/ProgramError.v ===== *)
(** * Program errors (sdk/program/src/program_error.rs)

    The errors of programs, their 64-bit codes, and the conversions between
    them and instruction errors. *)

From Stdlib Require Import ZArith Lia.
From stdpp Require Import prelude strings.
From S2P Require Import Prelude Sdk.

Module ProgramError.

Inductive t : Type :=
| Custom (code : Z)
| InvalidArgument | InvalidInstructionData | InvalidAccountData | AccountDataTooSmall
| InsufficientFunds | IncorrectProgramId | MissingRequiredSignature
| AccountAlreadyInitialized | UninitializedAccount | NotEnoughAccountKeys
| AccountBorrowFailed | MaxSeedLengthExceeded | InvalidSeeds
| BorshIoError (msg : string)
| AccountNotRentExempt | UnsupportedSysvar | IllegalOwner
| MaxAccountsDataSizeExceeded | ActiveVoteAccountClose.

(** Builtin codes occupy the upper 32 bits. *)
Definition to_builtin (n : Z) : Z := Z.shiftl n 32.

Abbreviation CUSTOM_ZERO := (to_builtin 1).
Abbreviation INVALID_ARGUMENT := (to_builtin 2).
Abbreviation INVALID_INSTRUCTION_DATA := (to_builtin 3).
Abbreviation INVALID_ACCOUNT_DATA := (to_builtin 4).
Abbreviation ACCOUNT_DATA_TOO_SMALL := (to_builtin 5).
Abbreviation INSUFFICIENT_FUNDS := (to_builtin 6).
Abbreviation INCORRECT_PROGRAM_ID := (to_builtin 7).
Abbreviation MISSING_REQUIRED_SIGNATURES := (to_builtin 8).
Abbreviation ACCOUNT_ALREADY_INITIALIZED := (to_builtin 9).
Abbreviation UNINITIALIZED_ACCOUNT := (to_builtin 10).
Abbreviation NOT_ENOUGH_ACCOUNT_KEYS := (to_builtin 11).
Abbreviation ACCOUNT_BORROW_FAILED := (to_builtin 12).
Abbreviation MAX_SEED_LENGTH_EXCEEDED := (to_builtin 13).
Abbreviation INVALID_SEEDS := (to_builtin 14).
Abbreviation BORSH_IO_ERROR := (to_builtin 15).
Abbreviation ACCOUNT_NOT_RENT_EXEMPT := (to_builtin 16).
Abbreviation UNSUPPORTED_SYSVAR := (to_builtin 17).
Abbreviation ILLEGAL_OWNER := (to_builtin 18).
Abbreviation MAX_ACCOUNTS_DATA_SIZE_EXCEEDED := (to_builtin 19).
Abbreviation ACTIVE_VOTE_ACCOUNT_CLOSE := (to_builtin 20).

(** [impl From<ProgramError> for u64] *)
Definition to_u64 (e : t) : Z :=
  match e with
  | InvalidArgument => INVALID_ARGUMENT
  | InvalidInstructionData => INVALID_INSTRUCTION_DATA
  | InvalidAccountData => INVALID_ACCOUNT_DATA
  | AccountDataTooSmall => ACCOUNT_DATA_TOO_SMALL
  | InsufficientFunds => INSUFFICIENT_FUNDS
  | IncorrectProgramId => INCORRECT_PROGRAM_ID
  | MissingRequiredSignature => MISSING_REQUIRED_SIGNATURES
  | AccountAlreadyInitialized => ACCOUNT_ALREADY_INITIALIZED
  | UninitializedAccount => UNINITIALIZED_ACCOUNT
  | NotEnoughAccountKeys => NOT_ENOUGH_ACCOUNT_KEYS
  | AccountBorrowFailed => ACCOUNT_BORROW_FAILED
  | MaxSeedLengthExceeded => MAX_SEED_LENGTH_EXCEEDED
  | InvalidSeeds => INVALID_SEEDS
  | BorshIoError _ => BORSH_IO_ERROR
  | AccountNotRentExempt => ACCOUNT_NOT_RENT_EXEMPT
  | UnsupportedSysvar => UNSUPPORTED_SYSVAR
  | IllegalOwner => ILLEGAL_OWNER
  | MaxAccountsDataSizeExceeded => MAX_ACCOUNTS_DATA_SIZE_EXCEEDED
  | ActiveVoteAccountClose => ACTIVE_VOTE_ACCOUNT_CLOSE
  | Custom code => if code =? 0 then CUSTOM_ZERO else code
  end.

(** The arms that [From<u64> for ProgramError] and [From<T> for
    InstructionError] share, in order. *)
Definition builtin_codes : list (Z * t) := [
  (CUSTOM_ZERO, Custom 0);
  (INVALID_ARGUMENT, InvalidArgument);
  (INVALID_INSTRUCTION_DATA, InvalidInstructionData);
  (INVALID_ACCOUNT_DATA, InvalidAccountData);
  (ACCOUNT_DATA_TOO_SMALL, AccountDataTooSmall);
  (INSUFFICIENT_FUNDS, InsufficientFunds);
  (INCORRECT_PROGRAM_ID, IncorrectProgramId);
  (MISSING_REQUIRED_SIGNATURES, MissingRequiredSignature);
  (ACCOUNT_ALREADY_INITIALIZED, AccountAlreadyInitialized);
  (UNINITIALIZED_ACCOUNT, UninitializedAccount);
  (NOT_ENOUGH_ACCOUNT_KEYS, NotEnoughAccountKeys);
  (ACCOUNT_BORROW_FAILED, AccountBorrowFailed);
  (MAX_SEED_LENGTH_EXCEEDED, MaxSeedLengthExceeded);
  (INVALID_SEEDS, InvalidSeeds);
  (BORSH_IO_ERROR, BorshIoError "Unknown");
  (ACCOUNT_NOT_RENT_EXEMPT, AccountNotRentExempt);
  (UNSUPPORTED_SYSVAR, UnsupportedSysvar);
  (ILLEGAL_OWNER, IllegalOwner);
  (MAX_ACCOUNTS_DATA_SIZE_EXCEEDED, MaxAccountsDataSizeExceeded);
  (ACTIVE_VOTE_ACCOUNT_CLOSE, ActiveVoteAccountClose)].

Fixpoint lookup_code (error : Z) (l : list (Z * t)) : option t :=
  match l with
  | [] => None
  | (code, e) :: l => if error =? code then Some e else lookup_code error l
  end.

(** [impl From<u64> for ProgramError]; the last arm is [Custom(error as u32)]. *)
Definition of_u64 (error : Z) : t :=
  match lookup_code error builtin_codes with
  | Some e => e
  | None => Custom (error mod 4294967296)
  end.

(** The instruction error of the same name. *)
Definition to_instruction_error (e : t) : InstructionError :=
  match e with
  | Custom code => Sdk.Custom code
  | InvalidArgument => Sdk.InvalidArgument
  | InvalidInstructionData => Sdk.InvalidInstructionData
  | InvalidAccountData => Sdk.InvalidAccountData
  | AccountDataTooSmall => Sdk.AccountDataTooSmall
  | InsufficientFunds => Sdk.InsufficientFunds
  | IncorrectProgramId => Sdk.IncorrectProgramId
  | MissingRequiredSignature => Sdk.MissingRequiredSignature
  | AccountAlreadyInitialized => Sdk.AccountAlreadyInitialized
  | UninitializedAccount => Sdk.UninitializedAccount
  | NotEnoughAccountKeys => Sdk.NotEnoughAccountKeys
  | AccountBorrowFailed => Sdk.AccountBorrowFailed
  | MaxSeedLengthExceeded => Sdk.MaxSeedLengthExceeded
  | InvalidSeeds => Sdk.InvalidSeeds
  | BorshIoError msg => Sdk.BorshIoError msg
  | AccountNotRentExempt => Sdk.AccountNotRentExempt
  | UnsupportedSysvar => Sdk.UnsupportedSysvar
  | IllegalOwner => Sdk.IllegalOwner
  | MaxAccountsDataSizeExceeded => Sdk.MaxAccountsDataSizeExceeded
  | ActiveVoteAccountClose => Sdk.ActiveVoteAccountClose
  end.

(** [impl<T: ToPrimitive> From<T> for InstructionError], on the 64-bit value. *)
Definition instruction_error_of_u64 (error : Z) : InstructionError :=
  match lookup_code error builtin_codes with
  | Some e => to_instruction_error e
  | None => if Z.shiftr error 32 =? 0 then Sdk.Custom error else Sdk.InvalidError
  end.

(** [impl TryFrom<InstructionError> for ProgramError]; the error is returned
    when there is no program error for it. *)
Definition try_from (e : InstructionError) : t + InstructionError :=
  match e with
  | Sdk.Custom err => inl (Custom err)
  | Sdk.InvalidArgument => inl InvalidArgument
  | Sdk.InvalidInstructionData => inl InvalidInstructionData
  | Sdk.InvalidAccountData => inl InvalidAccountData
  | Sdk.AccountDataTooSmall => inl AccountDataTooSmall
  | Sdk.InsufficientFunds => inl InsufficientFunds
  | Sdk.IncorrectProgramId => inl IncorrectProgramId
  | Sdk.MissingRequiredSignature => inl MissingRequiredSignature
  | Sdk.AccountAlreadyInitialized => inl AccountAlreadyInitialized
  | Sdk.UninitializedAccount => inl UninitializedAccount
  | Sdk.NotEnoughAccountKeys => inl NotEnoughAccountKeys
  | Sdk.AccountBorrowFailed => inl AccountBorrowFailed
  | Sdk.MaxSeedLengthExceeded => inl MaxSeedLengthExceeded
  | Sdk.InvalidSeeds => inl InvalidSeeds
  | Sdk.BorshIoError err => inl (BorshIoError err)
  | Sdk.AccountNotRentExempt => inl AccountNotRentExempt
  | Sdk.UnsupportedSysvar => inl UnsupportedSysvar
  | Sdk.IllegalOwner => inl IllegalOwner
  | Sdk.MaxAccountsDataSizeExceeded => inl MaxAccountsDataSizeExceeded
  | Sdk.ActiveVoteAccountClose => inl ActiveVoteAccountClose
  | e => inr e
  end.

(** ** The codes are faithful *)

(** What survives a trip through the code: everything but the text of a
    serialization error. *)
Definition forget_text (e : t) : t :=
  match e with BorshIoError _ => BorshIoError "Unknown" | e => e end.

Definition in_range (e : t) : Prop :=
  match e with Custom code => 0 <= code < 4294967296 | _ => True end.

Lemma lookup_small error : 0 <= error < 4294967296 -> lookup_code error builtin_codes = None.
Proof.
  intros He. cbv [builtin_codes lookup_code].
  repeat match goal with |- context [error =? ?c] =>
    destruct (Z.eqb_spec error c) as [Hx|_]; [vm_compute in Hx; lia|] end.
  done.
Qed.

Lemma shiftr_small error : 0 <= error < 4294967296 -> Z.shiftr error 32 = 0.
Proof. intros He. rewrite Z.shiftr_div_pow2 by lia. apply Z.div_small. exact He. Qed.

(** Converting a program error to its 64-bit code and back loses nothing but
    the text of a serialization error, and converting the code to an
    instruction error gives the instruction error of the same name, from which
    the program error can be recovered: no two errors share a code. *)
Lemma error_code_roundtrip e :
  in_range e ->
  of_u64 (to_u64 e) = forget_text e /\
  instruction_error_of_u64 (to_u64 e) = to_instruction_error (forget_text e) /\
  try_from (to_instruction_error e) = inl e.
Proof.
  intros He. destruct e; [|by vm_compute..].
  cbn in He. cbn [to_u64]. destruct (Z.eqb_spec code 0) as [->|Hne]; [by vm_compute|].
  unfold of_u64, instruction_error_of_u64. rewrite lookup_small, shiftr_small by lia.
  rewrite Z.mod_small by lia. done.
Qed.

Lemma error_code_roundtrip_witness :
  in_range (Custom 0) /\ of_u64 (to_u64 (Custom 0)) = Custom 0.
Proof.
  split; [cbn; lia|]. apply (error_code_roundtrip (Custom 0)). cbn. lia.
Defined.
End ProgramError.
