(* ===== verification/Runtime.v ===== *)
(** * Instruction processing in the runtime

    Compiled messages (sdk/program/src/message/legacy.rs, instruction.rs), the
    account checks after an instruction (program-runtime/src/pre_account.rs),
    the accounts data meter (program-runtime/src/accounts_data_meter.rs) and
    the top-level path of [InvokeContext::process_instruction]
    (program-runtime/src/invoke_context.rs).  Logging, timings and compute
    metering do not influence the accounts and are left out. *)

From Stdlib Require Import ZArith Lia.
From Stdlib Require Import Strings.Byte.
From stdpp Require Import prelude gmap list numbers.
From S2P Require Import Prelude Sdk.

(** ** Messages *)

Record MessageHeader : Type := mkHeader {
  num_required_signatures : Z;
  num_readonly_signed_accounts : Z;
  num_readonly_unsigned_accounts : Z;
}.

Record CompiledInstruction : Type := mkCompiled {
  program_id_index : nat;
  ci_accounts : list nat;
  ci_data : bytes;
}.

Record Message : Type := mkMessage {
  header : MessageHeader;
  account_keys : list Pubkey;
  recent_blockhash : Hash;
  instructions : list CompiledInstruction;
}.

Definition native_loader_id : Pubkey :=
  pk_of_Z 0x058784bf148ba4282fb012574888a9f153a07dadf765c0455c9a970380000000.

Definition BUILTIN_PROGRAMS_KEYS : list Pubkey := [
  (* Config *)
  pk_of_Z 0x03064aa3002f74dcc86e43310f0c052af8c5da27f6104019a323efa000000000;
  (* Feature *)
  pk_of_Z 0x03c0a0cdcb06d2daefae82d16fee7acf61ec737b23481b21946a767000000000;
  native_loader_id;
  (* Stake *)
  pk_of_Z 0x06a1d8179137542a983437bdfe2a7ab2557f535c8a78722b68a49dc000000000;
  (* StakeConfig *)
  pk_of_Z 0x06a1d817a502050b680791e6ce6db88e1e5b7150f61fc6790a4eb4d100000000;
  (* Vote *)
  pk_of_Z 0x0761481d357474bb7c4d7624ebd3bdb3d8355e73d11043fc0da3538000000000;
  (* Memo *)
  pk_of_Z 0x054a5350c9ed95b0a512c5969b8908e6f5f8b558edb26f585f47410000000000;
  token_program_id;
  (* TokenAccount *)
  pk_of_Z 0x06ddf6e19e57b14ae06d791b39c15e008b9a1aafd56c976b1422bbfc80000000;
  system_program_id].

Definition instructions_sysvar_id : Pubkey :=
  pk_of_Z 0x06a7d517187bd16635dad40455fdc2c0c124c68f215675a5dbbacb5f08000000.

(** sdk/program/src/sysvar/mod.rs, [ALL_IDS]: clock, epoch schedule, fees,
    recent blockhashes, rent, rewards, slot hashes, slot history, stake history,
    instructions. *)
Definition SYSVAR_IDS : list Pubkey := [
  pk_of_Z 0x06a7d51718c774c928566398691d5eb68b5eb8a39b4b6d5c73555b2100000000;
  pk_of_Z 0x06a7d51718dc3fee02d3e47f0100f8b054f7942e60591e3f508719a805000000;
  pk_of_Z 0x06a7d51718e25a8d83503c251a7af07126fd7200df6fc4ed526a9c9000000000;
  pk_of_Z 0x06a7d517192c568ee08a845f73d29788cf035c3145b21ab344d8062ea9400000;
  pk_of_Z 0x06a7d517192c5c51218cc94c3d4af17f58daee089ba1fd44e3dbd98a00000000;
  pk_of_Z 0x06a7d517192c6137cee092d9b6923ee1ccd61903fa82b8a16191578d80000000;
  pk_of_Z 0x06a7d517192f0aafc6f265e3fb77cc7ada82c529d0be3b136e2d005520000000;
  pk_of_Z 0x06a7d517192f0aafc875e2e184577c5069cfc84649e3eb92782f958d48000000;
  pk_of_Z 0x06a7d517193584d0feed9bb3431d13206be544281b57b8566cc5375ff4000000;
  instructions_sysvar_id].

Definition is_key_called_as_program (m : Message) (key_index : nat) : bool :=
  if (key_index <=? 255)%nat
  then existsb (fun ix => (program_id_index ix =? key_index)%nat) (instructions m)
  else false.

Definition msg_is_signer (m : Message) (i : nat) : bool :=
  Z.of_nat i <? num_required_signatures (header m).

(** Past the keys the source indexes out of range; the sanitized indices of an
    instruction never get there. *)
Definition msg_is_writable (m : Message) (i : nat) : bool :=
  let h := header m in
  let i' := Z.of_nat i in
  ((i' <? as_u8 (num_required_signatures h - num_readonly_signed_accounts h))
   || ((num_required_signatures h <=? i')
       && (i' <? wrap64 (Z.of_nat (length (account_keys m))
                         - num_readonly_unsigned_accounts h))))
  && negb match account_keys m !! i with
          | Some key => bool_decide (key ∈ SYSVAR_IDS)
                        || bool_decide (key ∈ BUILTIN_PROGRAMS_KEYS)
          | None => true
          end
  && negb (is_key_called_as_program m i).

(** [CompiledInstruction::visit_each_account]: the indices in order, each once. *)
Fixpoint visit_from (before l : list nat) : list nat :=
  match l with
  | [] => []
  | i :: l =>
      if bool_decide (i ∈ before) then visit_from (before ++ [i]) l
      else i :: visit_from (before ++ [i]) l
  end.
Definition visit_each_account (ix : CompiledInstruction) : list nat :=
  visit_from [] (ci_accounts ix).

(** ** Checks on one account *)

Definition MAX_PERMITTED_DATA_LENGTH : Z := 10 * 1024 * 1024.

(** [PreAccount::is_zeroed]: whole chunks of [1024] bytes, then the remainder. *)
Fixpoint zero_chunks (fuel : nat) (buf : bytes) : bool :=
  match fuel with
  | O => bool_decide (buf = replicate (length buf) x00)
  | S fuel =>
      if (length buf <? 1024)%nat then bool_decide (buf = replicate (length buf) x00)
      else bool_decide (take 1024 buf = replicate 1024 x00) && zero_chunks fuel (drop 1024 buf)
  end.
Definition is_zeroed (buf : bytes) : bool := zero_chunks (length buf) buf.

(** [PreAccount::verify] *)
Definition verify_account (program_id : Pubkey) (writable : bool) (rent : Rent)
    (pre post : AccountSharedData) (do_support_realloc : bool)
    : outcome InstructionError unit :=
  let owned := bool_decide (program_id = owner pre) in
  let owner_changed := negb (bool_decide (owner pre = owner post)) in
  _ ← fail_if (owner_changed
               && (negb writable || executable pre || negb owned
                   || negb (is_zeroed (data post)))) ModifiedProgramId;
  _ ← fail_if (negb owned && (lamports post <? lamports pre)) ExternalAccountLamportSpend;
  let lamports_changed := negb (lamports pre =? lamports post) in
  _ ← (if lamports_changed then
         _ ← fail_if (negb writable) ReadonlyLamportChange;
         fail_if (executable pre) ExecutableLamportChange
       else Ok tt);
  let data_len_changed := negb (length (data pre) =? length (data post))%nat in
  _ ← (if do_support_realloc then
         _ ← fail_if (MAX_PERMITTED_DATA_LENGTH <? Z.of_nat (length (data post)))
               InvalidRealloc;
         fail_if (data_len_changed && negb owned) AccountDataSizeChanged
       else
         fail_if (data_len_changed
                  && (negb (bool_decide (program_id = system_program_id))
                      || negb (bool_decide (owner pre = system_program_id))))
           AccountDataSizeChanged);
  _ ← (if negb (owned && writable && negb (executable pre))
          && negb (bool_decide (data pre = data post)) then
         if executable pre then Err ExecutableDataModified
         else if writable then Err ExternalAccountDataModified
         else Err ReadonlyDataModified
       else Ok tt);
  let executable_changed := negb (Bool.eqb (executable pre) (executable post)) in
  _ ← (if executable_changed then
         _ ← fail_if (negb (is_exempt rent (lamports post) (length (data post))))
               ExecutableAccountNotRentExempt;
         fail_if (negb writable || executable pre
                  || negb (bool_decide (program_id = owner post))) ExecutableModified
       else Ok tt);
  fail_if (negb (rent_epoch pre =? rent_epoch post)) RentEpochModified.

(** ** Accounts data meter *)

Definition MAX_ACCOUNTS_DATA_LEN : Z := 128000000000.
Definition i64_max : Z := 9223372036854775807.
Definition i64_min : Z := - 9223372036854775808.
Definition saturate_i64 (x : Z) : Z := Z.max i64_min (Z.min i64_max x).

Record AccountsDataMeter : Type := mkMeter {
  meter_maximum : Z;
  meter_initial : Z;
  meter_delta : Z;
}.

Definition meter_new (initial : Z) : AccountsDataMeter :=
  mkMeter MAX_ACCOUNTS_DATA_LEN initial 0.
Definition meter_current (m : AccountsDataMeter) : Z :=
  Z.max 0 (Z.min u64_max (meter_initial m + meter_delta m)).
Definition meter_remaining (m : AccountsDataMeter) : Z :=
  saturating_sub (meter_maximum m) (meter_current m).
Definition consume_unchecked (amt : Z) (m : AccountsDataMeter) : AccountsDataMeter :=
  mkMeter (meter_maximum m) (meter_initial m) (saturate_i64 (meter_delta m + amt)).
Definition consume (amt : Z) (m : AccountsDataMeter)
    : outcome InstructionError AccountsDataMeter :=
  _ ← fail_if (meter_remaining m <? amt) MaxAccountsDataSizeExceeded;
  Ok (consume_unchecked amt m).

(** ** Processing an instruction *)

(** A builtin program gets the index of its first instruction account, the
    instruction data and the keyed accounts. *)
Abbreviation builtin := (nat -> bytes -> list KeyedAccount -> prog unit).

(** What does not change during a transaction.  [P] is the type of the builtin
    programs: those of this file make no calls, those of Invoke.v may. *)
Record InvokeContext (P : Type) : Type := mkContext {
  ic_rent : Rent;
  ic_builtin_programs : list (Pubkey * P);
  ic_do_support_realloc : bool;
  ic_cap_accounts_data_len : bool;
  ic_reject_empty : bool;
  ic_max_invoke_depth : nat;
}.
Arguments mkContext {P}.
Arguments ic_rent {P}.
Arguments ic_builtin_programs {P}.
Arguments ic_do_support_realloc {P}.
Arguments ic_cap_accounts_data_len {P}.
Arguments ic_reject_empty {P}.
Arguments ic_max_invoke_depth {P}.

(** sdk/src/transaction/error.rs: the error a failing instruction gives the
    transaction. *)
Inductive TransactionError : Type :=
| TxInstructionError (index : Z) (e : InstructionError).

Fixpoint find_builtin {P} (k : Pubkey) (l : list (Pubkey * P)) : option P :=
  match l with
  | [] => None
  | (k', f) :: l => if bool_decide (k' = k) then Some f else find_builtin k l
  end.

Section Verify.
(** [keys] are the keys of the transaction's accounts: those of the message,
    then the programs loaded for its instructions.  Accounts are shared by key. *)
Context {P : Type} (ic : InvokeContext P) (msg : Message) (keys : list Pubkey).

(** The pre-accounts [push] takes at the lowest level, one per visited index. *)
Fixpoint pre_accounts (l : ledger) (indices : list nat)
    : outcome InstructionError (list AccountSharedData) :=
  match indices with
  | [] => Ok []
  | i :: indices =>
      key ← ok_or (keys !! i) MissingAccount;
      rest ← pre_accounts l indices;
      Ok (get_account l key :: rest)
  end.

(** The program accounts (never signers, never writable), then the accounts
    of the instruction.  An index out of range panics. *)
Fixpoint keyed_accounts (mk : nat -> Pubkey -> KeyedAccount) (indices : list nat)
    : outcome InstructionError (list KeyedAccount) :=
  match indices with
  | [] => Ok []
  | i :: indices =>
      match keys !! i with
      | Some key => rest ← keyed_accounts mk indices; Ok (mk i key :: rest)
      | None => Panic
      end
  end.

(** The program of the last index; an index out of range panics. *)
Definition last_program (program_indices : list nat) : outcome InstructionError (option Pubkey) :=
  match list.last program_indices with
  | None => Ok None
  | Some i => match keys !! i with Some key => Ok (Some key) | None => Panic end
  end.

(** [InvokeContext::push] on an empty stack: the pre-accounts of the
    instruction and the keyed accounts its program gets. *)
Definition push_frame (l : ledger) (ix : CompiledInstruction) (program_indices : list nat)
    : outcome InstructionError (list AccountSharedData * list KeyedAccount) :=
  program_id ← last_program program_indices;
  _ ← fail_if (bool_decide (program_id = None) && ic_reject_empty ic) UnsupportedProgramId;
  pres ← pre_accounts l (visit_each_account ix);
  programs ← keyed_accounts (fun _ k => mkKeyed false false k) program_indices;
  accounts ← keyed_accounts
    (fun i k => mkKeyed (msg_is_signer msg i) (msg_is_writable msg i) k) (ci_accounts ix);
  Ok (pres, programs ++ accounts).

(** The loop of [InvokeContext::verify], with the two sums and the meter. *)
Fixpoint verify_loop (program_id : Pubkey) (post : ledger) (indices : list nat)
    (pres : list AccountSharedData) (pre_sum post_sum : Z) (meter : AccountsDataMeter)
    : outcome InstructionError (Z * Z * AccountsDataMeter) :=
  match indices, pres with
  | [], _ => Ok (pre_sum, post_sum, meter)
  | i :: indices, pre :: pres =>
      match keys !! i with
      | None => Panic
      | Some key =>
          let account := get_account post key in
          _ ← verify_account program_id (msg_is_writable msg i) (ic_rent ic) pre account
                (ic_do_support_realloc ic);
          let pre_sum := pre_sum + lamports pre in
          _ ← fail_if (u128_max <? pre_sum) UnbalancedInstruction;
          let post_sum := post_sum + lamports account in
          _ ← fail_if (u128_max <? post_sum) UnbalancedInstruction;
          let delta := saturate_i64 (Z.of_nat (length (data account))
                                     - Z.of_nat (length (data pre))) in
          meter ← (if ic_cap_accounts_data_len ic then consume delta meter
                   else Ok (consume_unchecked delta meter));
          verify_loop program_id post indices pres pre_sum post_sum meter
      end
  | _ :: _, [] => Panic
  end.

Definition verify_instruction (ix : CompiledInstruction) (pres : list AccountSharedData)
    (post : ledger) (meter : AccountsDataMeter)
    : outcome InstructionError AccountsDataMeter :=
  match account_keys msg !! program_id_index ix with
  | None => Panic
  | Some program_id =>
      '(pre_sum, post_sum, meter) ←
         verify_loop program_id post (visit_each_account ix) pres 0 0 meter;
      _ ← fail_if (negb (pre_sum =? post_sum)) UnbalancedInstruction;
      Ok meter
  end.

End Verify.

Section Process.
Context (ic : InvokeContext builtin) (msg : Message) (keys : list Pubkey).

Definition process_executable_chain (kas : list KeyedAccount) (ix_data : bytes)
    : prog unit :=
  root ← lift (ok_or (kas !! 0%nat) UnsupportedProgramId);
  owner_id ← ka_owner root;
  if bool_decide (owner_id = native_loader_id) then
    f ← lift (ok_or (find_builtin (unsigned_key root) (ic_builtin_programs ic))
                UnsupportedProgramId);
    f 1%nat ix_data kas
  else
    f ← lift (ok_or (find_builtin owner_id (ic_builtin_programs ic)) UnsupportedProgramId);
    f 0%nat ix_data kas.

(** [InvokeContext::process_instruction] with an empty invoke stack. *)
Definition process_instruction (ix : CompiledInstruction) (program_indices : list nat)
    (l : ledger) (meter : AccountsDataMeter)
    : outcome InstructionError (ledger * AccountsDataMeter) :=
  '(pres, kas) ← push_frame ic msg keys l ix program_indices;
  '(_, l') ← process_executable_chain kas (ci_data ix) l;
  meter' ← verify_instruction ic msg keys ix pres l' meter;
  Ok (l', meter').

(** [CompiledInstruction::decompile] *)
Fixpoint decompile_metas (indices : list nat) : outcome InstructionError (list AccountMeta) :=
  match indices with
  | [] => Ok []
  | i :: indices =>
      key ← ok_or (account_keys msg !! i) MissingAccount;
      rest ← decompile_metas indices;
      Ok (mkMeta key (msg_is_signer msg i) (msg_is_writable msg i) :: rest)
  end.
Definition decompile (ix : CompiledInstruction) : outcome InstructionError Instruction :=
  program_id ← ok_or (account_keys msg !! program_id_index ix) MissingAccount;
  metas ← decompile_metas (ci_accounts ix);
  Ok (mkInstruction program_id metas (ci_data ix)).

(** The instructions sysvar, when it is among the accounts of the message, is
    told the index of the instruction ([store_current_index]). *)
Definition store_current_index (d : bytes) (index : Z) : outcome InstructionError bytes :=
  if (length d <? 2)%nat then Panic
  else Ok (take (length d - 2) d ++ to_le_bytes 2 index).
Definition fixup_instructions_sysvar (index : nat) (l : ledger)
    : outcome InstructionError ledger :=
  if bool_decide (instructions_sysvar_id ∈ take (length (account_keys msg)) keys) then
    let a := get_account l instructions_sysvar_id in
    d ← store_current_index (data a) (Z.of_nat index mod 65536);
    Ok (<[instructions_sysvar_id := set_data d a]> l)
  else Ok l.

(** The loop of [MessageProcessor::process_message]: every instruction with
    the indices of its program accounts, until one fails. *)
Fixpoint process_instructions (index : nat) (ixs : list (CompiledInstruction * list nat))
    (l : ledger) (meter : AccountsDataMeter)
    : outcome TransactionError (ledger * AccountsDataMeter) :=
  match ixs with
  | [] => Ok (l, meter)
  | (ix, program_indices) :: ixs =>
      if bool_decide (is_Some (account_keys msg !! program_id_index ix)) then
        '(l', meter') ← map_err (TxInstructionError (as_u8 (Z.of_nat index)))
          (_ ← decompile ix;
           l ← fixup_instructions_sysvar index l;
           process_instruction ix program_indices l meter);
        process_instructions (S index) ixs l' meter'
      else Panic
  end.

Definition process_message (program_indices : list (list nat)) (l : ledger)
    (current_accounts_data_len : Z) : outcome TransactionError (ledger * Z) :=
  '(l', meter) ← process_instructions 0 (zip (instructions msg) program_indices) l
                   (meter_new current_accounts_data_len);
  Ok (l', meter_delta meter).
End Process.

(** ** What the checks mean *)

Lemma zero_chunks_spec fuel buf :
  zero_chunks fuel buf = bool_decide (buf = replicate (length buf) x00).
Proof.
  revert buf. induction fuel as [|fuel IH]; intros buf; [by apply bool_decide_ext|].
  cbn -[replicate take drop Nat.ltb].
  destruct (Nat.ltb_spec (length buf) 1024); [by apply bool_decide_ext|].
  rewrite IH, <- bool_decide_and. apply bool_decide_ext.
  assert (replicate (length buf) x00 = replicate 1024 x00 ++ replicate (length (drop 1024 buf)) x00)
    as ->.
  { rewrite <- replicate_add, length_drop. f_equal. lia. }
  split.
  - intros [H1 H2]. rewrite <- (take_drop 1024 buf) at 1. by rewrite H1, H2 at 1.
  - intros H1. rewrite <- (take_drop 1024 buf) in H1 at 1. apply app_inj_1 in H1; [done|].
    rewrite length_take_le, length_replicate by lia. done.
Qed.

(** The chunked scan accepts exactly the all-zero buffers. *)
Lemma is_zeroed_spec buf : is_zeroed buf = true <-> buf = replicate (length buf) x00.
Proof. unfold is_zeroed. by rewrite zero_chunks_spec, bool_decide_eq_true. Qed.

(** The rules on a change of one account, as the comments of
    [PreAccount::verify] put them. *)
Record change_allowed (pid : Pubkey) (writable : bool) (rent : Rent) (realloc : bool)
    (pre post : AccountSharedData) : Prop := {
  (* only the owner may assign an account, and only writable, non-executable
     and zeroed *)
  ca_owner : owner pre <> owner post ->
    writable = true /\ executable pre = false /\ pid = owner pre /\
    data post = replicate (length (data post)) x00;
  (* an account that is not the program's never loses lamports *)
  ca_spend : pid <> owner pre -> lamports pre <= lamports post;
  ca_lamports : lamports pre <> lamports post -> writable = true /\ executable pre = false;
  ca_length : length (data pre) <> length (data post) ->
    pid = owner pre /\ (realloc = false -> pid = system_program_id);
  ca_realloc : realloc = true -> Z.of_nat (length (data post)) <= MAX_PERMITTED_DATA_LENGTH;
  (* only the owner may change the data of a writable account *)
  ca_data : data pre <> data post ->
    pid = owner pre /\ writable = true /\ executable pre = false;
  (* executable is set once, by the owner, on a rent exempt account *)
  ca_executable : executable pre <> executable post ->
    executable pre = false /\ writable = true /\ pid = owner post /\
    is_exempt rent (lamports post) (length (data post)) = true;
  ca_rent_epoch : rent_epoch pre = rent_epoch post;
}.

(** Reflects the boolean conditions of the checks. *)
Ltac reflect_checks :=
  repeat match goal with
    | H : context [bool_decide ?P] |- _ => destruct (bool_decide_reflect P)
    | |- context [bool_decide ?P] => destruct (bool_decide_reflect P)
    | |- context [?a <? ?b] => destruct (Z.ltb_spec a b)
    | |- context [?a =? ?b] => destruct (Z.eqb_spec a b)
    | |- context [(?a =? ?b)%nat] => destruct (Nat.eqb_spec a b)
    | |- context [is_zeroed ?d] =>
        let E := fresh "Hz" in
        pose proof (is_zeroed_spec d) as E; destruct (is_zeroed d)
    end.

Section VerifyAccount.
Context (pid : Pubkey) (writable : bool) (rent : Rent) (pre post : AccountSharedData).

Ltac check := rewrite ?fail_if_Ok; reflect_checks; try case_match; naive_solver.

Lemma check_owner :
  fail_if (E:=InstructionError)
    (negb (bool_decide (owner pre = owner post))
     && (negb writable || executable pre || negb (bool_decide (pid = owner pre))
         || negb (is_zeroed (data post)))) ModifiedProgramId = Ok tt <->
  (owner pre <> owner post ->
     writable = true /\ executable pre = false /\ pid = owner pre /\
     data post = replicate (length (data post)) x00).
Proof. destruct writable, (executable pre); check. Qed.

Lemma check_spend :
  fail_if (E:=InstructionError)
    (negb (bool_decide (pid = owner pre)) && (lamports post <? lamports pre))
    ExternalAccountLamportSpend = Ok tt <->
  (pid <> owner pre -> lamports pre <= lamports post).
Proof.
  rewrite fail_if_Ok. destruct (Z.ltb_spec (lamports post) (lamports pre)).
  all: case_bool_decide; simpl; naive_solver lia.
Qed.

Lemma check_lamports :
  (if negb (lamports pre =? lamports post) then
     _ ← fail_if (negb writable) ReadonlyLamportChange;
     fail_if (executable pre) ExecutableLamportChange
   else Ok tt) = Ok tt <->
  (lamports pre <> lamports post -> writable = true /\ executable pre = false).
Proof. destruct writable, (executable pre); check. Qed.

Lemma check_length (realloc : bool) :
  (if realloc then
     _ ← fail_if (MAX_PERMITTED_DATA_LENGTH <? Z.of_nat (length (data post))) InvalidRealloc;
     fail_if (negb (length (data pre) =? length (data post))%nat
              && negb (bool_decide (pid = owner pre))) AccountDataSizeChanged
   else
     fail_if (negb (length (data pre) =? length (data post))%nat
              && (negb (bool_decide (pid = system_program_id))
                  || negb (bool_decide (owner pre = system_program_id))))
       AccountDataSizeChanged) = Ok tt <->
  (length (data pre) <> length (data post) ->
     pid = owner pre /\ (realloc = false -> pid = system_program_id)) /\
  (realloc = true -> Z.of_nat (length (data post)) <= MAX_PERMITTED_DATA_LENGTH).
Proof.
  destruct realloc; reflect_checks; simpl; try (naive_solver lia).
  all: split; [done|]; naive_solver congruence.
Qed.

Lemma check_data :
  (if negb (bool_decide (pid = owner pre) && writable && negb (executable pre))
      && negb (bool_decide (data pre = data post)) then
     if executable pre then Err ExecutableDataModified
     else if writable then Err ExternalAccountDataModified
     else Err ReadonlyDataModified
   else Ok tt) = Ok tt <->
  (data pre <> data post -> pid = owner pre /\ writable = true /\ executable pre = false).
Proof. destruct writable, (executable pre); check. Qed.

Lemma check_executable :
  (if negb (Bool.eqb (executable pre) (executable post)) then
     _ ← fail_if (negb (is_exempt rent (lamports post) (length (data post))))
           ExecutableAccountNotRentExempt;
     fail_if (negb writable || executable pre || negb (bool_decide (pid = owner post)))
       ExecutableModified
   else Ok tt) = Ok tt <->
  (executable pre <> executable post ->
     executable pre = false /\ writable = true /\ pid = owner post /\
     is_exempt rent (lamports post) (length (data post)) = true).
Proof.
  destruct writable, (executable pre), (executable post), (is_exempt rent _ _); simpl;
    try case_bool_decide; simpl; naive_solver.
Qed.

Lemma verify_account_Ok realloc :
  verify_account pid writable rent pre post realloc = Ok tt <->
  change_allowed pid writable rent realloc pre post.
Proof.
  unfold verify_account. cbv zeta.
  rewrite !bind_unit_Ok, check_owner, check_spend, check_lamports, check_length, check_data,
    check_executable, fail_if_Ok, negb_false_iff, Z.eqb_eq.
  split; [intros (?&?&?&[? ?]&?&?&?); by constructor | intros []; tauto].
Qed.
End VerifyAccount.

(** ** Visiting accounts *)

Lemma visit_from_spec before l :
  NoDup (visit_from before l) /\
  forall i, i ∈ visit_from before l <-> i ∈ l /\ i ∉ before.
Proof.
  revert before. induction l as [|i l IH]; intros before; simpl.
  { split; [constructor|]. set_solver. }
  destruct (IH (before ++ [i])) as [Hnd Hel]. case_bool_decide as Hi.
  - split; [done|]. intros j. rewrite Hel. set_solver.
  - split.
    + constructor; [|done]. rewrite Hel. set_solver.
    + intros j. rewrite elem_of_cons, Hel. destruct (decide (j = i)); set_solver.
Qed.

(** Every account of the instruction is visited exactly once. *)
Lemma visit_each_account_spec ix :
  NoDup (visit_each_account ix) /\
  forall i, i ∈ visit_each_account ix <-> i ∈ ci_accounts ix.
Proof.
  destruct (visit_from_spec [] (ci_accounts ix)) as [? Hel].
  split; [done|]. intros i. unfold visit_each_account. rewrite Hel. set_solver.
Qed.

(** ** A successful instruction passed every check *)

Section ProcessFacts.
Context (ic : InvokeContext builtin) (msg : Message) (keys : list Pubkey).

Definition keys_of (indices : list nat) : list Pubkey :=
  omap (fun i => keys !! i) indices.

Lemma pre_accounts_Ok l indices pres :
  pre_accounts keys l indices = Ok pres ->
  pres = get_account l <$> keys_of indices.
Proof.
  revert pres. induction indices as [|i indices IH]; cbn; intros pres H; [by simplify_eq|].
  run_inv. unfold keys_of. cbn.
  match goal with H : keys !! i = Some _ |- _ => rewrite H end.
  cbn. f_equal. by apply IH.
Qed.

Lemma keyed_accounts_Ok mk indices kas :
  keyed_accounts keys mk indices = Ok kas ->
  forall ka, ka ∈ kas -> exists i k, i ∈ indices /\ keys !! i = Some k /\ ka = mk i k.
Proof.
  revert kas. induction indices as [|i indices IH]; cbn; intros kas H; [set_solver|].
  intros ka Hka. destruct (keys !! i) as [key|] eqn:Hkey; [|done]. run_inv.
  apply elem_of_cons in Hka as [->|Hka]; [set_solver|].
  match goal with H : keyed_accounts keys mk indices = _ |- _ =>
    destruct (IH _ H ka Hka) as (j & k & ? & ? & ?) end.
  exists j, k. set_solver.
Qed.

(** The two sums of [verify] over the visited keys. *)
Definition lamports_sum (l : ledger) (ks : list Pubkey) : Z :=
  foldr (fun k acc => lamports (get_account l k) + acc) 0 ks.

Lemma verify_loop_Ok pid l l' indices s0 s0' m s1 s1' m' :
  verify_loop ic msg keys pid l' indices (get_account l <$> keys_of indices) s0 s0' m
    = Ok (s1, s1', m') ->
  (forall i k, i ∈ indices -> keys !! i = Some k ->
     change_allowed pid (msg_is_writable msg i) (ic_rent ic) (ic_do_support_realloc ic)
       (get_account l k) (get_account l' k)) /\
  s1 = s0 + lamports_sum l (keys_of indices) /\
  s1' = s0' + lamports_sum l' (keys_of indices).
Proof.
  revert s0 s0' m. induction indices as [|i indices IH]; intros s0 s0' m H.
  { cbn in *. simplify_eq. split; [set_solver|lia]. }
  unfold keys_of in *. cbn -[lamports_sum] in *.
  destruct (keys !! i) as [key|] eqn:Hkey; [|by repeat case_match].
  cbn in *. run_inv.
  destruct (IH _ _ _ H) as (IH1 & IH2 & IH3). split; [|unfold lamports_sum in *; cbn; lia].
  intros j k [->|Hj]%elem_of_cons Hk; [|by eauto].
  rewrite Hkey in Hk. simplify_eq. by apply verify_account_Ok.
Qed.

(** A program writes only the accounts it was given after the first [n]. *)
Definition confined (f : builtin) : Prop :=
  forall n d kas l u l', f n d kas l = Ok (u, l') ->
  forall k, (forall ka, ka ∈ drop n kas -> unsigned_key ka <> k) -> l' !! k = l !! k.

Definition ic_confined : Prop :=
  forall k f, find_builtin k (ic_builtin_programs ic) = Some f -> confined f.

(** The program chain of an instruction is its own program, a builtin. *)
Definition native_program (l : ledger) (ix : CompiledInstruction) (program_indices : list nat)
    (pid : Pubkey) : Prop :=
  exists p, program_indices = [p] /\ keys !! p = Some pid /\
  account_keys msg !! program_id_index ix = Some pid /\
  owner (get_account l pid) = native_loader_id.

(** What a successful instruction of a native program did: the builtin ran on
    the accounts of the instruction, and every change it made was allowed. *)
Lemma process_instruction_Ok l ix program_indices meter l' meter' pid :
  process_instruction ic msg keys ix program_indices l meter = Ok (l', meter') ->
  native_program l ix program_indices pid ->
  exists f kas u,
    find_builtin pid (ic_builtin_programs ic) = Some f /\
    f 1%nat (ci_data ix) (mkKeyed false false pid :: kas) l = Ok (u, l') /\
    (forall ka, ka ∈ kas -> exists i k, i ∈ ci_accounts ix /\ keys !! i = Some k /\
       ka = mkKeyed (msg_is_signer msg i) (msg_is_writable msg i) k) /\
    (forall i k, i ∈ ci_accounts ix -> keys !! i = Some k ->
       change_allowed pid (msg_is_writable msg i) (ic_rent ic) (ic_do_support_realloc ic)
         (get_account l k) (get_account l' k)) /\
    lamports_sum l (keys_of (visit_each_account ix)) =
      lamports_sum l' (keys_of (visit_each_account ix)).
Proof.
  unfold process_instruction, push_frame. intros H (p & -> & Hp & Hpid & Hown).
  cbn [keyed_accounts] in H. rewrite Hp in H. run_inv.
  unfold process_executable_chain in *. cbn [app lookup list_lookup] in *. run_inv.
  unfold ka_owner, account_ref, gets in *. run_inv. simplify_eq/=.
  rewrite Hown, bool_decide_eq_true_2 in * by done. cbn [unsigned_key] in *. run_inv.
  unfold verify_instruction in *. rewrite Hpid in *. run_inv.
  match goal with H : pre_accounts _ _ _ = Ok _ |- _ => apply pre_accounts_Ok in H as -> end.
  match goal with H : verify_loop _ _ _ _ _ _ _ _ _ _ = Ok _ |- _ =>
    apply verify_loop_Ok in H as (Hall & Hpre & Hpost) end.
  eexists _, _, _. split; [eassumption|]. split; [eassumption|]. split.
  { by apply keyed_accounts_Ok. }
  split; [|match goal with H : negb _ = false |- _ => apply negb_false_iff, Z.eqb_eq in H end; lia].
  intros i k Hi Hk. apply Hall; [|done]. by apply visit_each_account_spec.
Qed.

Lemma keys_of_NoDup indices :
  NoDup (account_keys msg) -> (exists programs, keys = account_keys msg ++ programs) ->
  (forall i, i ∈ indices -> (i < length (account_keys msg))%nat) ->
  NoDup indices -> NoDup (keys_of indices).
Proof.
  intros Hk [programs Hkeys] Hlt Hnd. induction Hnd as [|i indices Hi _ IH]; [constructor|].
  unfold keys_of in *. cbn. destruct (keys !! i) as [k|] eqn:E; [|apply IH; set_solver].
  constructor; [|apply IH; set_solver]. intros (j & Hj & Hjk)%list_elem_of_omap. destruct Hi.
  rewrite Hkeys, lookup_app_l in E by (apply Hlt; set_solver).
  rewrite Hkeys, lookup_app_l in Hjk by (apply Hlt; set_solver).
  by rewrite (NoDup_lookup _ _ _ _ Hk E Hjk).
Qed.

Lemma lamports_sum_diff l l' ks :
  NoDup ks -> (forall k, k ∉ ks -> l' !! k = l !! k) ->
  map_sum lamports l' - map_sum lamports l = lamports_sum l' ks - lamports_sum l ks.
Proof.
  intros Hnd Hks. rewrite (map_sum_agree _ l l' ks Hnd Hks). clear.
  induction ks as [|k ks IH]; [done|]. cbn [foldr]. rewrite IH. unfold lamports_sum. cbn [foldr].
  assert (forall m : ledger, from_option lamports 0 (m !! k) = lamports (get_account m k)) as Hg
    by (intros m; unfold get_account; by destruct (m !! k)).
  rewrite !Hg. lia.
Qed.

(** The accounts an instruction of a native program may have changed. *)
Lemma process_instruction_frame l ix program_indices meter l' meter' pid k :
  ic_confined ->
  process_instruction ic msg keys ix program_indices l meter = Ok (l', meter') ->
  native_program l ix program_indices pid ->
  k ∉ keys_of (visit_each_account ix) -> l' !! k = l !! k.
Proof.
  intros Hconf H Hnat Hk.
  destruct (process_instruction_Ok _ _ _ _ _ _ _ H Hnat) as (f & kas & u & Hf & Hrun & Hkas & _).
  apply (Hconf _ _ Hf _ _ _ _ _ _ Hrun). intros ka Hka <-.
  apply Hkas in Hka as (i & k & Hi & Hik & ->). apply Hk, list_elem_of_omap.
  exists i. split; [|done]. by apply visit_each_account_spec.
Qed.

Lemma decompile_metas_Ok indices metas :
  decompile_metas msg indices = Ok metas ->
  forall i, i ∈ indices -> (i < length (account_keys msg))%nat.
Proof.
  revert metas. induction indices as [|j indices IH]; cbn; intros metas H i Hi; [set_solver|].
  run_inv. apply elem_of_cons in Hi as [->|Hi]; [by eapply lookup_lt_Some|by eapply IH].
Qed.

Lemma process_instruction_sum l ix program_indices meter l' meter' pid inst :
  NoDup (account_keys msg) -> (exists programs, keys = account_keys msg ++ programs) ->
  ic_confined -> decompile msg ix = Ok inst ->
  process_instruction ic msg keys ix program_indices l meter = Ok (l', meter') ->
  native_program l ix program_indices pid ->
  map_sum lamports l' = map_sum lamports l.
Proof.
  intros Hnd Hkeys Hconf Hdec H Hnat.
  pose proof (process_instruction_Ok _ _ _ _ _ _ _ H Hnat) as (_ & _ & _ & _ & _ & _ & _ & Hsum).
  assert (NoDup (keys_of (visit_each_account ix))) as Hks.
  { apply keys_of_NoDup; [done|done| |apply visit_each_account_spec].
    intros i Hi%visit_each_account_spec. unfold decompile in Hdec. run_inv.
    by eapply decompile_metas_Ok. }
  pose proof (lamports_sum_diff l l' _ Hks
    (fun k => process_instruction_frame _ _ _ _ _ _ _ k Hconf H Hnat)). lia.
Qed.
End ProcessFacts.

(** ** Messages *)

Section MessageFacts.
Context (ic : InvokeContext builtin) (Hconf : ic_confined ic).
Context (Hloader : find_builtin native_loader_id (ic_builtin_programs ic) = None).
Context (msg : Message) (keys : list Pubkey).

Section Instruction.
Context (l l' : ledger) (ix : CompiledInstruction).
Context (pis : list nat) (meter meter' : AccountsDataMeter) (pid : Pubkey).
Context (Hrun : process_instruction ic msg keys ix pis l meter = Ok (l', meter')).
Context (Hnat : native_program msg keys l ix pis pid).

(** Every account is unchanged or was changed by the rules. *)
Lemma instruction_change k :
  get_account l' k = get_account l k \/
  exists i, keys !! i = Some k /\
    change_allowed pid (msg_is_writable msg i) (ic_rent ic) (ic_do_support_realloc ic)
      (get_account l k) (get_account l' k).
Proof.
  destruct (process_instruction_Ok _ _ _ _ _ _ _ _ _ _ Hrun Hnat)
    as (_ & _ & _ & _ & _ & _ & Hch & _).
  destruct (decide (k ∈ keys_of keys (visit_each_account ix))) as [Hk|Hk].
  - right. apply list_elem_of_omap in Hk as (i & Hi & Hk). exists i. split; [done|].
    apply Hch; [by apply visit_each_account_spec|done].
  - left. unfold get_account.
    by rewrite (process_instruction_frame _ _ _ _ _ _ _ _ _ _ _ Hconf Hrun Hnat Hk).
Qed.

(** The programs of the message stay programs. *)
Lemma instruction_native ix2 pis2 pid2 :
  native_program msg keys l ix2 pis2 pid2 -> native_program msg keys l' ix2 pis2 pid2.
Proof.
  intros (p & ? & ? & ? & Ho). exists p. split_and!; try done.
  destruct (instruction_change pid2) as [->|(i & _ & Hc)]; [done|].
  destruct (decide (owner (get_account l pid2) = owner (get_account l' pid2))) as [|Hne]; [congruence|].
  apply (ca_owner _ _ _ _ _ _ Hc) in Hne as (_ & _ & Hpid & _).
  destruct (process_instruction_Ok _ _ _ _ _ _ _ _ _ _ Hrun Hnat) as (f & _ & _ & Hf & _).
  rewrite Hpid, Ho, Hloader in Hf. done.
Qed.

End Instruction.

Lemma fixup_spec index l l1 :
  fixup_instructions_sysvar msg keys index l = Ok l1 ->
  (forall k, owner (get_account l1 k) = owner (get_account l k) /\
             lamports (get_account l1 k) = lamports (get_account l k)) /\
  (forall k, k <> instructions_sysvar_id -> get_account l1 k = get_account l k).
Proof.
  unfold fixup_instructions_sysvar. intros H. case_bool_decide; run_inv; [|done].
  split; intros k; rewrite get_account_insert; case_decide; by subst.
Qed.

Lemma fixup_sum index l l1 :
  fixup_instructions_sysvar msg keys index l = Ok l1 -> map_sum lamports l1 = map_sum lamports l.
Proof.
  unfold fixup_instructions_sysvar. intros H. case_bool_decide; run_inv; [|done].
  rewrite map_sum_insert. cbn. unfold get_account. destruct (l !! _); cbn; lia.
Qed.

Definition programs_native (l : ledger) (ixs : list (CompiledInstruction * list nat)) : Prop :=
  forall ix pis, (ix, pis) ∈ ixs -> exists pid, native_program msg keys l ix pis pid.

Lemma fixup_native index l l1 ix pis pid :
  fixup_instructions_sysvar msg keys index l = Ok l1 ->
  native_program msg keys l ix pis pid -> native_program msg keys l1 ix pis pid.
Proof.
  intros [Hol _]%fixup_spec (p & ? & ? & ? & ?). exists p. by rewrite (proj1 (Hol _)).
Qed.

(** Every message conserves the lamports. *)
Lemma process_instructions_sum ixs index l meter l' meter' :
  NoDup (account_keys msg) -> (exists programs, keys = account_keys msg ++ programs) ->
  programs_native l ixs ->
  process_instructions ic msg keys index ixs l meter = Ok (l', meter') ->
  map_sum lamports l' = map_sum lamports l.
Proof.
  intros Hnd Hkeys. revert index l meter.
  induction ixs as [|[ix pis] ixs IH]; intros index l meter Hpr H; cbn in H; [by run_inv|].
  case_bool_decide; run_inv.
  match goal with H : fixup_instructions_sysvar _ _ _ _ = Ok ?m |- _ =>
    rename m into l1, H into Hfix end.
  match goal with H : process_instruction _ _ _ _ _ _ _ = Ok (?m, _) |- _ =>
    rename m into l2, H into Hrun end.
  destruct (Hpr ix pis) as (pid & Hpid); [constructor|].
  pose proof (fixup_native _ _ _ _ _ _ Hfix Hpid) as Hpid1.
  erewrite (IH _ l2); [|..|exact H].
  - erewrite process_instruction_sum; [by eapply fixup_sum|done..|exact Hrun|exact Hpid1].
  - intros ix2 pis2 Hin. destruct (Hpr ix2 pis2) as (pid2 & Hn2); [by constructor|].
    exists pid2. eapply instruction_native; [exact Hrun|exact Hpid1|]. by eapply fixup_native.
Qed.
End MessageFacts.
