(* ===== verification/SystemInstruction.v ===== *)
(** * System instructions

    sdk/program/src/system_instruction.rs (errors, the instruction type and its
    builders), the nonce state of sdk/program/src/nonce/state and
    [Pubkey::create_with_seed] of sdk/program/src/pubkey.rs. *)

From Stdlib Require Import ZArith Lia.
From Stdlib Require Import Strings.Byte.
From stdpp Require Import prelude list numbers.
From S2P Require Import Prelude Sdk Runtime.

(** ** Errors *)

Module SystemError.
Inductive t : Type :=
| AccountAlreadyInUse | ResultWithNegativeLamports | InvalidProgramId
| InvalidAccountDataLength | MaxSeedLengthExceeded | AddressWithSeedMismatch
| NonceNoRecentBlockhashes | NonceBlockhashNotExpired | NonceUnexpectedBlockhashValue.

Definition to_u32 (e : t) : Z :=
  match e with
  | AccountAlreadyInUse => 0 | ResultWithNegativeLamports => 1 | InvalidProgramId => 2
  | InvalidAccountDataLength => 3 | MaxSeedLengthExceeded => 4 | AddressWithSeedMismatch => 5
  | NonceNoRecentBlockhashes => 6 | NonceBlockhashNotExpired => 7
  | NonceUnexpectedBlockhashValue => 8
  end.

(** [decode_custom_error_to_enum] *)
Definition from_u32 (code : Z) : option t :=
  match code with
  | 0 => Some AccountAlreadyInUse | 1 => Some ResultWithNegativeLamports
  | 2 => Some InvalidProgramId | 3 => Some InvalidAccountDataLength
  | 4 => Some MaxSeedLengthExceeded | 5 => Some AddressWithSeedMismatch
  | 6 => Some NonceNoRecentBlockhashes | 7 => Some NonceBlockhashNotExpired
  | 8 => Some NonceUnexpectedBlockhashValue
  | _ => None
  end.
End SystemError.

Definition system_err (e : SystemError.t) : InstructionError := Custom (SystemError.to_u32 e).

(** [NonceErrorAdapter] has the same constructors and codes. *)
Inductive NonceError : Type :=
| NoRecentBlockhashes | NotExpired | UnexpectedValue | BadAccountState.

Definition nonce_error_to_u32 (e : NonceError) : Z :=
  match e with
  | NoRecentBlockhashes => 0 | NotExpired => 1 | UnexpectedValue => 2 | BadAccountState => 3
  end.
Definition nonce_error_from_u32 (code : Z) : option NonceError :=
  match code with
  | 0 => Some NoRecentBlockhashes | 1 => Some NotExpired | 2 => Some UnexpectedValue
  | 3 => Some BadAccountState
  | _ => None
  end.

(** [NonceError::X.into()] *)
Definition nonce_err (e : NonceError) : InstructionError := Custom (nonce_error_to_u32 e).

Definition nonce_to_instruction_error (error : NonceError) (use_system_variant : bool)
    : InstructionError :=
  if use_system_variant then
    match error with
    | NoRecentBlockhashes => system_err SystemError.NonceNoRecentBlockhashes
    | NotExpired => system_err SystemError.NonceBlockhashNotExpired
    | UnexpectedValue => system_err SystemError.NonceUnexpectedBlockhashValue
    | BadAccountState => InvalidAccountData
    end
  else nonce_err error.

Definition instruction_to_nonce_error (error : InstructionError) (use_system_variant : bool)
    : option NonceError :=
  if use_system_variant then
    match error with
    | Custom discriminant =>
        match SystemError.from_u32 discriminant with
        | Some SystemError.NonceNoRecentBlockhashes => Some NoRecentBlockhashes
        | Some SystemError.NonceBlockhashNotExpired => Some NotExpired
        | Some SystemError.NonceUnexpectedBlockhashValue => Some UnexpectedValue
        | _ => None
        end
    | InvalidAccountData => Some BadAccountState
    | _ => None
    end
  else
    match error with
    | Custom discriminant => nonce_error_from_u32 discriminant
    | _ => None
    end.

(** ** Addresses derived from a seed *)

Definition MAX_SEED_LEN : nat := 32.
(** "ProgramDerivedAddress" *)
Definition PDA_MARKER : bytes :=
  [x50; x72; x6f; x67; x72; x61; x6d; x44; x65; x72; x69; x76; x65; x64; x41; x64; x64; x72;
   x65; x73; x73].

(** [PubkeyError::MaxSeedLengthExceeded] and [IllegalOwner] convert to the custom
    errors of their discriminants. *)
Definition pubkey_err_max_seed_length : InstructionError := Custom 0.
Definition pubkey_err_illegal_owner : InstructionError := Custom 2.

Section Seed.
(** SHA-256 of the concatenation. *)
Context (hashv : list bytes -> Hash).

Definition create_with_seed (base : Pubkey) (seed : bytes) (owner : Pubkey)
    : outcome InstructionError Pubkey :=
  _ ← fail_if (MAX_SEED_LEN <? length seed)%nat pubkey_err_max_seed_length;
  let owner := pk_bytes owner in
  _ ← fail_if (bool_decide (drop (length owner - length PDA_MARKER) owner = PDA_MARKER))
        pubkey_err_illegal_owner;
  Ok (hashv [pk_bytes base; seed; owner]).
End Seed.

(** ** Nonce state *)

Record NonceData : Type := mkNonceData {
  nonce_authority : Pubkey;
  durable_nonce : Hash;
  nonce_lamports_per_signature : Z;
}.

Inductive NonceState : Type :=
| NonceUninitialized
| NonceInitialized (data : NonceData).

Inductive NonceVersions : Type :=
| NonceLegacy (state : NonceState)
| NonceCurrent (state : NonceState).

Definition versions_new (state : NonceState) (separate_domains : bool) : NonceVersions :=
  if separate_domains then NonceCurrent state else NonceLegacy state.
Definition versions_state (v : NonceVersions) : NonceState :=
  match v with NonceLegacy s => s | NonceCurrent s => s end.
Definition versions_separate_domains (v : NonceVersions) : bool :=
  match v with NonceLegacy _ => false | NonceCurrent _ => true end.

(** [Versions::verify_recent_blockhash] *)
Definition verify_recent_blockhash (v : NonceVersions) (recent_blockhash : Hash)
    (separate_domains : bool) : option NonceData :=
  let check state :=
    match state with
    | NonceUninitialized => None
    | NonceInitialized data =>
        if bool_decide (recent_blockhash = durable_nonce data) then Some data else None
    end in
  match v with
  | NonceLegacy state => if separate_domains then None else check state
  | NonceCurrent state => check state
  end.

(** "DURABLE_NONCE" *)
Definition DURABLE_NONCE_HASH_PREFIX : bytes :=
  [x44; x55; x52; x41; x42; x4c; x45; x5f; x4e; x4f; x4e; x43; x45].

Definition durable_nonce_from_blockhash (hashv : list bytes -> Hash) (blockhash : Hash)
    (separate_domains : bool) : Hash :=
  if separate_domains then hashv [DURABLE_NONCE_HASH_PREFIX; pk_bytes blockhash] else blockhash.

(** The serialized size of an initialized nonce: two tags, the authority, the
    nonce and the fee. *)
Definition NONCE_STATE_SIZE : nat := 80.

(** ** Instructions *)

Inductive SystemInstruction : Type :=
| CreateAccount (lamports space : Z) (owner : Pubkey)
| Assign (owner : Pubkey)
| SysTransfer (lamports : Z)
| CreateAccountWithSeed (base : Pubkey) (seed : bytes) (lamports space : Z) (owner : Pubkey)
| AdvanceNonceAccount
| WithdrawNonceAccount (lamports : Z)
| InitializeNonceAccount (authorized : Pubkey)
| AuthorizeNonceAccount (authorized : Pubkey)
| Allocate (space : Z)
| AllocateWithSeed (base : Pubkey) (seed : bytes) (space : Z) (owner : Pubkey)
| AssignWithSeed (base : Pubkey) (seed : bytes) (owner : Pubkey)
| TransferWithSeed (lamports : Z) (from_seed : bytes) (from_owner : Pubkey).

(** Sysvars (sdk/program/src/sysvar): [ALL_IDS] lists them. *)
Definition recent_blockhashes_id : Pubkey :=
  pk_of_Z 0x06a7d517192c568ee08a845f73d29788cf035c3145b21ab344d8062ea9400000.
Definition rent_sysvar_id : Pubkey :=
  pk_of_Z 0x06a7d517192c5c51218cc94c3d4af17f58daee089ba1fd44e3dbd98a00000000.

Section SystemBuilders.
(** bincode's serialization of the instruction. *)
Context (serialize : SystemInstruction -> bytes).

Definition system_ix (i : SystemInstruction) (metas : list AccountMeta) : Instruction :=
  mkInstruction system_program_id metas (serialize i).

Definition ix_create_account (from to : Pubkey) (lamports space : Z) (owner : Pubkey)
    : Instruction :=
  system_ix (CreateAccount lamports space owner) [meta_new from true; meta_new to true].

Definition ix_create_account_with_seed (from to base : Pubkey) (seed : bytes)
    (lamports space : Z) (owner : Pubkey) : Instruction :=
  system_ix (CreateAccountWithSeed base seed lamports space owner)
    [meta_new from true; meta_new to false; meta_new_readonly base true].

Definition ix_assign (pubkey owner : Pubkey) : Instruction :=
  system_ix (Assign owner) [meta_new pubkey true].

Definition ix_assign_with_seed (address base : Pubkey) (seed : bytes) (owner : Pubkey)
    : Instruction :=
  system_ix (AssignWithSeed base seed owner)
    [meta_new address false; meta_new_readonly base true].

Definition ix_transfer (from to : Pubkey) (lamports : Z) : Instruction :=
  system_ix (SysTransfer lamports) [meta_new from true; meta_new to false].

Definition ix_transfer_with_seed (from from_base : Pubkey) (from_seed : bytes)
    (from_owner to : Pubkey) (lamports : Z) : Instruction :=
  system_ix (TransferWithSeed lamports from_seed from_owner)
    [meta_new from false; meta_new_readonly from_base true; meta_new to false].

Definition ix_allocate (pubkey : Pubkey) (space : Z) : Instruction :=
  system_ix (Allocate space) [meta_new pubkey true].

Definition ix_allocate_with_seed (address base : Pubkey) (seed : bytes) (space : Z)
    (owner : Pubkey) : Instruction :=
  system_ix (AllocateWithSeed base seed space owner)
    [meta_new address false; meta_new_readonly base true].

Definition ix_transfer_many (from : Pubkey) (to_lamports : list (Pubkey * Z))
    : list Instruction :=
  (fun '(to, lamports) => ix_transfer from to lamports) <$> to_lamports.

Definition ix_initialize_nonce (nonce authority : Pubkey) : Instruction :=
  system_ix (InitializeNonceAccount authority)
    [meta_new nonce false; meta_new_readonly recent_blockhashes_id false;
     meta_new_readonly rent_sysvar_id false].

Definition ix_create_nonce_account_with_seed (from nonce base : Pubkey) (seed : bytes)
    (authority : Pubkey) (lamports : Z) : list Instruction :=
  [ix_create_account_with_seed from nonce base seed lamports (Z.of_nat NONCE_STATE_SIZE)
     system_program_id;
   ix_initialize_nonce nonce authority].

Definition ix_create_nonce_account (from nonce authority : Pubkey) (lamports : Z)
    : list Instruction :=
  [ix_create_account from nonce lamports (Z.of_nat NONCE_STATE_SIZE) system_program_id;
   ix_initialize_nonce nonce authority].

Definition ix_advance_nonce_account (nonce authorized : Pubkey) : Instruction :=
  system_ix AdvanceNonceAccount
    [meta_new nonce false; meta_new_readonly recent_blockhashes_id false;
     meta_new_readonly authorized true].

Definition ix_withdraw_nonce_account (nonce authorized to : Pubkey) (lamports : Z)
    : Instruction :=
  system_ix (WithdrawNonceAccount lamports)
    [meta_new nonce false; meta_new to false; meta_new_readonly recent_blockhashes_id false;
     meta_new_readonly rent_sysvar_id false; meta_new_readonly authorized true].

Definition ix_authorize_nonce_account (nonce authorized new_authority : Pubkey) : Instruction :=
  system_ix (AuthorizeNonceAccount new_authority)
    [meta_new nonce false; meta_new_readonly authorized true].
End SystemBuilders.
