(* ===== verification/SystemProgram.v ===== *)
(** * The system program

    runtime/src/system_instruction_processor.rs, the nonce operations of
    runtime/src/nonce_keyed_account.rs, and the checks on nonce accounts of
    sdk/src/nonce_account.rs.  Bincode and SHA-256 are parameters, with the laws
    the program relies on. *)

From Stdlib Require Import ZArith Lia.
From Stdlib Require Import Strings.Byte.
From stdpp Require Import prelude gmap list numbers.
From S2P Require Import Prelude Sdk Runtime SystemInstruction.

(** ** Bincode

    The encoding of a type; the size of a value is the length of its encoding. *)
Class Bincode (T : Type) : Type := {
  bincode_encode : T -> bytes;
  bincode_decode : bytes -> option T;
}.

(** [State::state] and [State::set_state] of a keyed account
    (sdk/src/account_utils.rs). *)
Section AccountState.
Context {T : Type} `{Bincode T}.

Definition account_state (a : AccountSharedData) : outcome InstructionError T :=
  ok_or (bincode_decode (data a)) InvalidAccountData.

Definition account_set_state (v : T) (a : AccountSharedData)
    : outcome InstructionError AccountSharedData :=
  let e := bincode_encode v in
  _ ← fail_if (length (data a) <? length e)%nat AccountDataTooSmall;
  Ok (set_data (e ++ drop (length e) (data a)) a).

Definition ka_state (ka : KeyedAccount) : prog T :=
  a ← account_ref ka; lift (account_state a).
Definition ka_set_state (ka : KeyedAccount) (v : T) : prog unit :=
  update_account [] ka (account_set_state v).
End AccountState.

(** ** Parameters of the program *)

(** The fields of [InvokeContext] the program reads, and its features. *)
Record SystemEnv : Type := mkSystemEnv {
  env_blockhash : Hash;
  env_lamports_per_signature : Z;
  env_merge_nonce_error : bool;
  env_nonce_must_be_writable : bool;
  env_rent_for_sysvars : bool;
}.

(** [get_signers]: the keys of the accounts that signed. *)
Definition get_signers (kas : list KeyedAccount) : gset Pubkey :=
  list_to_set (omap signer_key kas).

(** [from_keyed_account::<S>]: the account must be the sysvar's and decode. *)
Definition from_keyed_account {S} `{Bincode S} (id : Pubkey) (ka : KeyedAccount) : prog S :=
  _ ← lift (fail_if (negb (bool_decide (unsigned_key ka = id))) InvalidArgument);
  a ← account_ref ka;
  lift (ok_or (bincode_decode (data a)) InvalidArgument).

Module System.
Section System.
Context (hashv : list bytes -> Hash).
Context `{Bincode NonceVersions, Bincode (list (Hash * Z)), Bincode Rent}.
Context (env : SystemEnv).
Implicit Types (signers : gset Pubkey) (me from to : KeyedAccount).

(** ** Addresses *)

Record Address : Type := mkAddress {
  address : Pubkey;
  base : option Pubkey;
}.

Definition address_is_signer (a : Address) (signers : gset Pubkey) : bool :=
  match base a with
  | Some base => bool_decide (base ∈ signers)
  | None => bool_decide (address a ∈ signers)
  end.

Definition address_create (addr : Pubkey) (with_seed : option (Pubkey * bytes * Pubkey))
    : outcome InstructionError Address :=
  match with_seed with
  | Some (base, seed, owner) =>
      address_with_seed ← create_with_seed hashv base seed owner;
      _ ← fail_if (negb (bool_decide (addr = address_with_seed)))
            (system_err SystemError.AddressWithSeedMismatch);
      Ok (mkAddress addr (Some base))
  | None => Ok (mkAddress addr None)
  end.

(** ** Allocation and assignment *)

Definition allocate (account : AccountSharedData) (address : Address) (space : Z) (signers : gset Pubkey)
    : outcome InstructionError AccountSharedData :=
  _ ← fail_if (negb (address_is_signer address signers)) MissingRequiredSignature;
  _ ← fail_if (negb (bool_decide (data account = []))
               || negb (bool_decide (owner account = system_program_id)))
        (system_err SystemError.AccountAlreadyInUse);
  _ ← fail_if (MAX_PERMITTED_DATA_LENGTH <? space)
        (system_err SystemError.InvalidAccountDataLength);
  Ok (set_data (replicate (Z.to_nat space) x00) account).

(** [sysvar::check_id] compares with the id of the sysvar program. *)
Definition sysvar_id : Pubkey :=
  pk_of_Z 0x06a7d5171875f729c73d93408f216120067ed88c76e08c287fc1946000000000.

Definition assign (account : AccountSharedData) (address : Address) (new_owner : Pubkey) (signers : gset Pubkey)
    : outcome InstructionError AccountSharedData :=
  if bool_decide (owner account = new_owner) then Ok account else
  _ ← fail_if (negb (address_is_signer address signers)) MissingRequiredSignature;
  _ ← fail_if (negb (env_rent_for_sysvars env) && bool_decide (new_owner = sysvar_id))
        (system_err SystemError.InvalidProgramId);
  Ok (set_owner new_owner account).

Definition allocate_and_assign (to : AccountSharedData) (to_address : Address) (space : Z)
    (new_owner : Pubkey) (signers : gset Pubkey) : outcome InstructionError AccountSharedData :=
  to ← allocate to to_address space signers;
  assign to to_address new_owner signers.

(** ** Lamports *)

(** [checked_sub_lamports] and [checked_add_lamports] of sdk/src/account.rs *)
Definition checked_sub_lamports (x : Z) (a : AccountSharedData)
    : outcome InstructionError AccountSharedData :=
  r ← ok_or (checked_sub (lamports a) x) ArithmeticOverflow; Ok (set_lamports r a).
Definition checked_add_lamports (x : Z) (a : AccountSharedData)
    : outcome InstructionError AccountSharedData :=
  r ← ok_or (checked_add (lamports a) x) ArithmeticOverflow; Ok (set_lamports r a).

Definition transfer_verified (from to : KeyedAccount) (x : Z) : prog unit :=
  len ← ka_data_len from;
  _ ← lift (fail_if (negb (len =? 0)%nat) InvalidArgument);
  balance ← ka_lamports from;
  _ ← lift (fail_if (balance <? x) (system_err SystemError.ResultWithNegativeLamports));
  _ ← update_account [] from (checked_sub_lamports x);
  update_account [] to (checked_add_lamports x).

Definition transfer (from to : KeyedAccount) (x : Z) : prog unit :=
  _ ← lift (fail_if (bool_decide (signer_key from = None)) MissingRequiredSignature);
  transfer_verified from to x.

Definition transfer_with_seed (from from_base : KeyedAccount) (from_seed : bytes) (from_owner : Pubkey) (to : KeyedAccount) (x : Z)
    : prog unit :=
  _ ← lift (fail_if (bool_decide (signer_key from_base = None)) MissingRequiredSignature);
  address_from_seed ← lift (create_with_seed hashv (unsigned_key from_base) from_seed from_owner);
  _ ← lift (fail_if (negb (bool_decide (unsigned_key from = address_from_seed)))
              (system_err SystemError.AddressWithSeedMismatch));
  transfer_verified from to x.

(** The [RefMut] of [to] is dropped before the transfer. *)
Definition create_account (from to : KeyedAccount) (to_address : Address) (x space : Z) (new_owner : Pubkey)
    (signers : gset Pubkey) : prog unit :=
  _ ← update_account [] to (fun a =>
        _ ← fail_if (0 <? lamports a) (system_err SystemError.AccountAlreadyInUse);
        allocate_and_assign a to_address space new_owner signers);
  transfer from to x.

(** ** Nonce accounts *)

Definition get_durable_nonce : Hash * bool :=
  (durable_nonce_from_blockhash hashv (env_blockhash env) true, true).

(** The check that opens every nonce operation. *)
Definition require_writable (me : KeyedAccount) : outcome InstructionError unit :=
  fail_if (env_nonce_must_be_writable env && negb (is_writable me)) InvalidArgument.

Definition nonce_error (e : NonceError) : InstructionError :=
  nonce_to_instruction_error e (env_merge_nonce_error env).

Definition advance_nonce_account (me : KeyedAccount) (signers : gset Pubkey) : prog unit :=
  _ ← lift (require_writable me);
  state ← ka_state (T:=NonceVersions) me;
  match versions_state state with
  | NonceInitialized d =>
      _ ← lift (fail_if (negb (bool_decide (nonce_authority d ∈ signers)))
                  MissingRequiredSignature);
      let '(next_durable_nonce, separate_domains) := get_durable_nonce in
      _ ← lift (fail_if (bool_decide (durable_nonce d = next_durable_nonce))
                  (nonce_error NotExpired));
      ka_set_state me (versions_new (NonceInitialized
        (mkNonceData (nonce_authority d) next_durable_nonce (env_lamports_per_signature env)))
        separate_domains)
  | NonceUninitialized => throw (nonce_error BadAccountState)
  end.

(** The account that must approve a withdrawal; a full withdrawal resets the
    state, a partial one leaves the rent exempt minimum. *)
Definition withdraw_signer (me : KeyedAccount) (x : Z) (rent : Rent) : prog Pubkey :=
  state ← ka_state (T:=NonceVersions) me;
  match versions_state state with
  | NonceUninitialized =>
      balance ← ka_lamports me;
      _ ← lift (fail_if (balance <? x) InsufficientFunds);
      mret (unsigned_key me)
  | NonceInitialized d =>
      balance ← ka_lamports me;
      _ ← (if x =? balance then
             let '(durable, separate_domains) := get_durable_nonce in
             _ ← lift (fail_if (bool_decide (durable_nonce d = durable))
                         (nonce_error NotExpired));
             ka_set_state me (versions_new NonceUninitialized separate_domains)
           else
             len ← ka_data_len me;
             amount ← lift (ok_or (checked_add x (minimum_balance rent len)) InsufficientFunds);
             balance ← ka_lamports me;
             lift (fail_if (balance <? amount) InsufficientFunds));
      mret (nonce_authority d)
  end.

Definition withdraw_nonce_account (me : KeyedAccount) (x : Z) (to : KeyedAccount) (rent : Rent)
    (signers : gset Pubkey) : prog unit :=
  _ ← lift (require_writable me);
  signer ← withdraw_signer me x rent;
  _ ← lift (fail_if (negb (bool_decide (signer ∈ signers))) MissingRequiredSignature);
  nonce_balance ← ka_lamports me;
  new_balance ← lift (ok_or (checked_sub nonce_balance x) ArithmeticOverflow);
  _ ← write_lamports [] me new_balance;
  to_balance ← ka_lamports to;
  new_to ← lift (ok_or (checked_add to_balance x) ArithmeticOverflow);
  write_lamports [] to new_to.

Definition initialize_nonce_account (me : KeyedAccount) (authority : Pubkey) (rent : Rent)
    : prog unit :=
  _ ← lift (require_writable me);
  state ← ka_state (T:=NonceVersions) me;
  match versions_state state with
  | NonceUninitialized =>
      len ← ka_data_len me;
      balance ← ka_lamports me;
      _ ← lift (fail_if (balance <? minimum_balance rent len) InsufficientFunds);
      let '(durable, separate_domains) := get_durable_nonce in
      ka_set_state me (versions_new (NonceInitialized
        (mkNonceData authority durable (env_lamports_per_signature env))) separate_domains)
  | NonceInitialized _ => throw (nonce_error BadAccountState)
  end.

Definition authorize_nonce_account (me : KeyedAccount) (authority : Pubkey) (signers : gset Pubkey) : prog unit :=
  _ ← lift (require_writable me);
  state ← ka_state (T:=NonceVersions) me;
  match versions_state state with
  | NonceInitialized d =>
      _ ← lift (fail_if (negb (bool_decide (nonce_authority d ∈ signers)))
                  MissingRequiredSignature);
      ka_set_state me (versions_new (NonceInitialized
        (mkNonceData authority (durable_nonce d) (nonce_lamports_per_signature d)))
        (versions_separate_domains state))
  | NonceUninitialized => throw (nonce_error BadAccountState)
  end.

(** ** Dispatch *)

(** The check on the recent blockhashes that precedes an advance and an
    initialization: an empty list is [NonceError::NoRecentBlockhashes.into()]. *)
Definition require_blockhashes (ka : KeyedAccount) : prog unit :=
  hashes ← from_keyed_account (S:=list (Hash * Z)) recent_blockhashes_id ka;
  lift (fail_if (bool_decide (hashes = [])) (nonce_err NoRecentBlockhashes)).

Definition execute (kas : list KeyedAccount) (first : nat) (i : SystemInstruction) : prog unit :=
  _ ← keyed_account_at_index kas first;
  let signers := get_signers (drop first kas) in
  match i with
  | CreateAccount x space new_owner =>
      from ← keyed_account_at_index kas first;
      to ← keyed_account_at_index kas (first + 1);
      to_address ← lift (address_create (unsigned_key to) None);
      create_account from to to_address x space new_owner signers
  | CreateAccountWithSeed base seed x space new_owner =>
      from ← keyed_account_at_index kas first;
      to ← keyed_account_at_index kas (first + 1);
      to_address ← lift (address_create (unsigned_key to) (Some (base, seed, new_owner)));
      create_account from to to_address x space new_owner signers
  | Assign new_owner =>
      ka ← keyed_account_at_index kas first;
      addr ← lift (address_create (unsigned_key ka) None);
      update_account [] ka (fun a => assign a addr new_owner signers)
  | SysTransfer x =>
      from ← keyed_account_at_index kas first;
      to ← keyed_account_at_index kas (first + 1);
      transfer from to x
  | TransferWithSeed x from_seed from_owner =>
      from ← keyed_account_at_index kas first;
      base ← keyed_account_at_index kas (first + 1);
      to ← keyed_account_at_index kas (first + 2);
      transfer_with_seed from base from_seed from_owner to x
  | AdvanceNonceAccount =>
      me ← keyed_account_at_index kas first;
      sysvar ← keyed_account_at_index kas (first + 1);
      _ ← require_blockhashes sysvar;
      advance_nonce_account me signers
  | WithdrawNonceAccount x =>
      me ← keyed_account_at_index kas first;
      to ← keyed_account_at_index kas (first + 1);
      sysvar ← keyed_account_at_index kas (first + 2);
      _ ← from_keyed_account (S:=list (Hash * Z)) recent_blockhashes_id sysvar;
      rent_account ← keyed_account_at_index kas (first + 3);
      rent ← from_keyed_account rent_sysvar_id rent_account;
      withdraw_nonce_account me x to rent signers
  | InitializeNonceAccount authorized =>
      me ← keyed_account_at_index kas first;
      sysvar ← keyed_account_at_index kas (first + 1);
      _ ← require_blockhashes sysvar;
      rent_account ← keyed_account_at_index kas (first + 2);
      rent ← from_keyed_account rent_sysvar_id rent_account;
      initialize_nonce_account me authorized rent
  | AuthorizeNonceAccount authorized =>
      me ← keyed_account_at_index kas first;
      authorize_nonce_account me authorized signers
  | Allocate space =>
      ka ← keyed_account_at_index kas first;
      addr ← lift (address_create (unsigned_key ka) None);
      update_account [] ka (fun a => allocate a addr space signers)
  | AllocateWithSeed base seed space new_owner =>
      ka ← keyed_account_at_index kas first;
      addr ← lift (address_create (unsigned_key ka) (Some (base, seed, new_owner)));
      update_account [] ka (fun a => allocate_and_assign a addr space new_owner signers)
  | AssignWithSeed base seed new_owner =>
      ka ← keyed_account_at_index kas first;
      addr ← lift (address_create (unsigned_key ka) (Some (base, seed, new_owner)));
      update_account [] ka (fun a => assign a addr new_owner signers)
  end.

Definition process_instruction (deserialize : bytes -> option SystemInstruction)
    (first : nat) (d : bytes) (kas : list KeyedAccount) : prog unit :=
  i ← lift (ok_or (deserialize d) InvalidInstructionData);
  execute kas first i.

(** ** Kinds of system accounts *)

Inductive SystemAccountKind : Type := KindSystem | KindNonce.

Definition get_system_account_kind (a : AccountSharedData) : option SystemAccountKind :=
  if bool_decide (owner a = system_program_id) then
    if bool_decide (data a = []) then Some KindSystem
    else if (length (data a) =? NONCE_STATE_SIZE)%nat then
      match account_state (T:=NonceVersions) a with
      | Ok v => match versions_state v with
                | NonceUninitialized => None
                | NonceInitialized _ => Some KindNonce
                end
      | _ => None
      end
    else None
  else None.

(** ** Checks of the bank on nonce accounts (sdk/src/nonce_account.rs) *)

Definition verify_nonce_account (a : AccountSharedData) (recent_blockhash : Hash)
    (separate_domains : bool) : option NonceData :=
  if bool_decide (owner a = system_program_id) then
    v ← bincode_decode (T:=NonceVersions) (data a);
    verify_recent_blockhash v recent_blockhash separate_domains
  else None.

Definition lamports_per_signature_of (a : AccountSharedData) : option Z :=
  v ← bincode_decode (T:=NonceVersions) (data a);
  match versions_state v with
  | NonceInitialized d => Some (nonce_lamports_per_signature d)
  | NonceUninitialized => None
  end.
End System.
End System.
