(* ===== verification/SystemFacts.v ===== *)
(** * What a successful system instruction did

    Every account a system instruction touches evolves by the changes of
    [change], which say who must have approved what.  From this follow the two
    promises the bank needs of a builtin program: it writes only the accounts it
    is given, and it keeps balances in range. *)

From Stdlib Require Import ZArith Lia.
From Stdlib Require Import Strings.Byte.
From stdpp Require Import prelude gmap list numbers relations.
From S2P Require Import Prelude Sdk Runtime SystemInstruction SystemProgram.

(** Amounts in an instruction are [u64]. *)
Definition sys_instr_ok (i : SystemInstruction) : Prop :=
  match i with
  | CreateAccount x space _ | CreateAccountWithSeed _ _ x space _ => in_u64 x /\ in_u64 space
  | SysTransfer x | TransferWithSeed x _ _ | WithdrawNonceAccount x => in_u64 x
  | Allocate space | AllocateWithSeed _ _ space _ => in_u64 space
  | _ => True
  end.

Lemma elem_of_get_signers kas k :
  k ∈ get_signers kas <->
  exists ka, ka ∈ kas /\ is_signer ka = true /\ unsigned_key ka = k.
Proof.
  unfold get_signers. rewrite elem_of_list_to_set, list_elem_of_omap.
  unfold signer_key. split.
  - intros (ka & ? & ?). exists ka. destruct (is_signer ka); naive_solver.
  - intros (ka & ? & Hs & ?). exists ka. rewrite Hs. naive_solver.
Qed.

Section Change.
Context (hashv : list bytes -> Hash).
Context `{Bincode NonceVersions, Bincode (list (Hash * Z)), Bincode Rent}.
Context (env : SystemEnv).
Context (signers : gset Pubkey) (l0 : ledger).

(** A key is controlled by the signers when it signed, or when it is derived
    from one of them and a seed. *)
Definition controls (k : Pubkey) : Prop :=
  k ∈ signers \/
  exists base seed own, base ∈ signers /\ create_with_seed hashv base seed own = Ok k.

Definition next_nonce : Hash := durable_nonce_from_blockhash hashv (env_blockhash env) true.

Definition rent_sysvar (rent : Rent) : Prop :=
  bincode_decode (data (get_account l0 rent_sysvar_id)) = Some rent.

(** The life of a nonce. *)
Inductive nonce_step : NonceVersions -> NonceVersions -> Prop :=
| step_initialize v authority :
    versions_state v = NonceUninitialized ->
    nonce_step v (NonceCurrent (NonceInitialized
      (mkNonceData authority next_nonce (env_lamports_per_signature env))))
| step_advance v d :
    versions_state v = NonceInitialized d -> nonce_authority d ∈ signers ->
    durable_nonce d <> next_nonce ->
    nonce_step v (NonceCurrent (NonceInitialized
      (mkNonceData (nonce_authority d) next_nonce (env_lamports_per_signature env))))
| step_authorize v d authority :
    versions_state v = NonceInitialized d -> nonce_authority d ∈ signers ->
    nonce_step v (versions_new (NonceInitialized
      (mkNonceData authority (durable_nonce d) (nonce_lamports_per_signature d)))
      (versions_separate_domains v)).

(** The changes of one account. *)
Inductive change (k : Pubkey) (a : AccountSharedData) : AccountSharedData -> Prop :=
| change_receive x :
    0 <= x -> lamports a + x <= u64_max -> change k a (set_lamports (lamports a + x) a)
| change_spend x :
    controls k -> data a = [] -> 0 <= x <= lamports a ->
    change k a (set_lamports (lamports a - x) a)
| change_allocate n :
    controls k -> data a = [] -> owner a = system_program_id ->
    Z.of_nat n <= MAX_PERMITTED_DATA_LENGTH ->
    change k a (set_data (replicate n x00) a)
| change_assign o : controls k -> change k a (set_owner o a)
| change_nonce v v' a' :
    account_state a = Ok v -> nonce_step v v' -> account_set_state v' a = Ok a' ->
    change k a a'
| change_withdraw v x :
    account_state a = Ok v -> versions_state v = NonceUninitialized -> k ∈ signers ->
    0 <= x <= lamports a -> change k a (set_lamports (lamports a - x) a)
| change_withdraw_part v d x rent :
    account_state a = Ok v -> versions_state v = NonceInitialized d ->
    nonce_authority d ∈ signers -> rent_sysvar rent -> 0 <= x ->
    x + minimum_balance rent (length (data a)) <= lamports a ->
    change k a (set_lamports (lamports a - x) a)
| change_withdraw_all v d a' :
    account_state a = Ok v -> versions_state v = NonceInitialized d ->
    nonce_authority d ∈ signers -> durable_nonce d <> next_nonce ->
    account_set_state (NonceCurrent NonceUninitialized) a = Ok a' ->
    change k a (set_lamports 0 a').

Definition evolves (kas : list KeyedAccount) (l l' : ledger) : Prop :=
  forall k, l' !! k = l !! k \/
    ((exists ka, ka ∈ kas /\ unsigned_key ka = k) /\
     rtc (change k) (get_account l k) (get_account l' k)).

Lemma evolves_refl kas l : evolves kas l l.
Proof. by left. Qed.

Lemma get_account_eq (l l' : ledger) k : l' !! k = l !! k -> get_account l' k = get_account l k.
Proof. unfold get_account. by intros ->. Qed.

Lemma evolves_trans kas l1 l2 l3 : evolves kas l1 l2 -> evolves kas l2 l3 -> evolves kas l1 l3.
Proof.
  intros H12 H23 k. destruct (H12 k) as [E12|[Hin E12]], (H23 k) as [E23|[Hin' E23]].
  - left. congruence.
  - right. by rewrite <- (get_account_eq l1 l2 k E12).
  - right. by rewrite (get_account_eq l2 l3 k E23).
  - right. split; [done|]. by etrans.
Qed.

Lemma evolves_insert kas ka l a :
  ka ∈ kas -> rtc (change (unsigned_key ka)) (acct l ka) a ->
  evolves kas l (<[unsigned_key ka := a]> l).
Proof.
  intros Hin Hch k. destruct (decide (unsigned_key ka = k)) as [<-|Hk].
  - right. rewrite get_account_insert_eq. eauto.
  - left. by rewrite lookup_insert_ne.
Qed.

(** ** Operations *)

Lemma address_controls addr w a :
  System.address_create hashv addr w = Ok a -> System.address_is_signer a signers = true ->
  controls addr.
Proof.
  unfold System.address_create, System.address_is_signer, controls.
  intros Hc Hs. destruct w as [[[base seed] own]|]; keyed_inv; cbn in Hs;
    apply bool_decide_eq_true in Hs; [|by left].
  right. eauto.
Qed.

Lemma allocate_change k w addr a space a' :
  System.address_create hashv k w = Ok addr -> 0 <= space ->
  System.allocate a addr space signers = Ok a' -> change k a a'.
Proof.
  unfold System.allocate. intros Hc ? H'. keyed_inv.
  apply change_allocate; try done; [by eapply address_controls|lia].
Qed.

Lemma assign_change k w addr a o a' :
  System.address_create hashv k w = Ok addr ->
  System.assign env a addr o signers = Ok a' -> rtc (change k) a a'.
Proof.
  unfold System.assign. intros Hc H'. case_bool_decide; keyed_inv; [done|].
  apply rtc_once, change_assign. by eapply address_controls.
Qed.

Lemma allocate_and_assign_change k w addr a space o a' :
  System.address_create hashv k w = Ok addr -> 0 <= space ->
  System.allocate_and_assign env a addr space o signers = Ok a' -> rtc (change k) a a'.
Proof.
  unfold System.allocate_and_assign. intros Hc ? H'. run_inv.
  eapply rtc_l; [by eapply allocate_change|]. by eapply assign_change.
Qed.

Lemma sub_lamports_Ok x a a' :
  System.checked_sub_lamports x a = Ok a' <->
  x <= lamports a /\ a' = set_lamports (lamports a - x) a.
Proof.
  unfold System.checked_sub_lamports, checked_sub.
  destruct (Z.leb_spec x (lamports a)); cbn; naive_solver lia.
Qed.

Lemma add_lamports_Ok x a a' :
  System.checked_add_lamports x a = Ok a' <->
  lamports a + x <= u64_max /\ a' = set_lamports (lamports a + x) a.
Proof.
  unfold System.checked_add_lamports, checked_add.
  destruct (Z.leb_spec (lamports a + x) u64_max); cbn; naive_solver lia.
Qed.

Lemma transfer_verified_Ok from to x l u l' :
  System.transfer_verified from to x l = Ok (u, l') ->
  data (acct l from) = [] /\ x <= lamports (acct l from) /\
  exists l1, l1 = <[unsigned_key from := set_lamports (lamports (acct l from) - x) (acct l from)]> l /\
    lamports (acct l1 to) + x <= u64_max /\
    l' = <[unsigned_key to := set_lamports (lamports (acct l1 to) + x) (acct l1 to)]> l1.
Proof.
  unfold System.transfer_verified. intros H'. keyed_inv.
  repeat match goal with
    | H : System.checked_sub_lamports _ _ = Ok _ |- _ => apply sub_lamports_Ok in H as [? ->]
    | H : System.checked_add_lamports _ _ = Ok _ |- _ => apply add_lamports_Ok in H as [? ->]
    | H : (length _ =? 0)%nat = true |- _ => apply Nat.eqb_eq, nil_length_inv in H
    end. eauto 10.
Qed.

Lemma transfer_verified_evolves kas from to x l u l' :
  from ∈ kas -> to ∈ kas -> 0 <= x -> controls (unsigned_key from) ->
  System.transfer_verified from to x l = Ok (u, l') -> evolves kas l l'.
Proof.
  intros Hf Ht Hx Hc (Hd & Hle & l1 & Hl1 & Hb & ->)%transfer_verified_Ok.
  apply evolves_trans with l1.
  - rewrite Hl1. apply evolves_insert; [done|]. apply rtc_once, change_spend; [done..|lia].
  - apply evolves_insert; [done|]. apply rtc_once, change_receive; [done|lia].
Qed.

Lemma signer_controls kas ka :
  signers = get_signers kas -> ka ∈ kas -> bool_decide (signer_key ka = None) = false ->
  unsigned_key ka ∈ signers.
Proof.
  intros -> Hin Hs%bool_decide_eq_false. apply elem_of_get_signers. exists ka. unfold signer_key in Hs.
  by destruct (is_signer ka).
Qed.

Lemma ka_state_Ok {T} `{Bincode T} ka l v l' :
  ka_state ka l = Ok (v, l') <-> account_state (acct l ka) = Ok v /\ l' = l.
Proof.
  unfold ka_state, account_ref, gets, mbind, st_bind, lift.
  destruct (account_state _); naive_solver.
Qed.

Lemma account_set_state_Ok {T} `{Bincode T} (v : T) a a' :
  account_set_state v a = Ok a' ->
  lamports a' = lamports a /\ owner a' = owner a /\ length (data a') = length (data a).
Proof.
  unfold account_set_state. intros H'. run_inv. split_and!; [done..|]. cbn.
  rewrite length_app, length_drop.
  match goal with H : (_ <? _)%nat = false |- _ => apply Nat.ltb_ge in H end. lia.
Qed.

Lemma withdraw_signer_Ok me x rent l signer l1 :
  System.withdraw_signer hashv env me x rent l = Ok (signer, l1) ->
  exists v, account_state (acct l me) = Ok v /\
    match versions_state v with
    | NonceUninitialized => x <= lamports (acct l me) /\ signer = unsigned_key me /\ l1 = l
    | NonceInitialized d =>
        signer = nonce_authority d /\
        ((x = lamports (acct l me) /\ durable_nonce d <> next_nonce /\
          exists a', account_set_state (NonceCurrent NonceUninitialized) (acct l me) = Ok a' /\
            l1 = <[unsigned_key me := a']> l) \/
         (x + minimum_balance rent (length (data (acct l me))) <= lamports (acct l me) /\ l1 = l))
    end.
Proof.
  unfold System.withdraw_signer. intros H'. apply st_bind_Ok in H' as (v & l2 & Hv & H').
  apply ka_state_Ok in Hv as [Hv ->]. exists v. split; [done|].
  destruct (versions_state v) as [|d]; [by keyed_inv|].
  apply st_bind_Ok in H' as (bal & l3 & Hb & H'). apply ka_lamports_Ok in Hb as [-> ->].
  apply st_bind_Ok in H' as (? & l4 & Hif & H'). run_inv. split; [done|].
  destruct (Z.eqb_spec x (lamports (acct l me))).
  - left. cbn in Hif. unfold ka_set_state in Hif. keyed_inv. eauto.
  - right. keyed_inv. split; [lia|done].
Qed.

Lemma withdraw_Ok me x to rent l u l' :
  System.withdraw_nonce_account hashv env me x to rent signers l = Ok (u, l') ->
  exists signer l1 l2,
    System.withdraw_signer hashv env me x rent l = Ok (signer, l1) /\ signer ∈ signers /\
    x <= lamports (acct l1 me) /\
    l2 = <[unsigned_key me := set_lamports (lamports (acct l1 me) - x) (acct l1 me)]> l1 /\
    lamports (acct l2 to) + x <= u64_max /\
    l' = <[unsigned_key to := set_lamports (lamports (acct l2 to) + x) (acct l2 to)]> l2.
Proof.
  intros H'. unfold System.withdraw_nonce_account in H'.
  apply st_bind_Ok in H' as (? & ? & [Hw ->]%lift_Ok & H').
  apply st_bind_Ok in H' as (signer & l1 & Hsig & H').
  keyed_inv. eexists _, _, _. split_and!; [exact Hsig|done..].
Qed.

Lemma withdraw_evolves kas me x to rent l u l' :
  me ∈ kas -> to ∈ kas -> 0 <= x -> rent_sysvar rent ->
  System.withdraw_nonce_account hashv env me x to rent signers l = Ok (u, l') ->
  evolves kas l l'.
Proof.
  intros Hme Hto Hx Hrent (signer & l1 & l2 & Hsig & Hs & Hle & Hl2 & Hb & ->)%withdraw_Ok.
  apply evolves_trans with l2.
  2: { apply evolves_insert; [done|]. apply rtc_once, change_receive; [done|lia]. }
  apply withdraw_signer_Ok in Hsig as (v & Hv & Hsig). subst l2.
  destruct (versions_state v) as [|d] eqn:Hst.
  - destruct Hsig as (? & -> & ->). apply evolves_insert; [done|].
    apply rtc_once. eapply change_withdraw; [done..|lia].
  - destruct Hsig as [-> [(-> & Hne & a' & Ha' & ->)|[Hmin ->]]].
    + pose proof (account_set_state_Ok _ _ _ Ha') as (El & _).
      rewrite get_account_insert_eq, El, Z.sub_diag, insert_insert_eq.
      apply evolves_insert; [done|]. apply rtc_once. by eapply change_withdraw_all.
    + apply evolves_insert; [done|]. apply rtc_once. by eapply change_withdraw_part.
Qed.

(** The other nonce operations write a step of the nonce's life. *)
Lemma set_state_evolves kas me v v' l u l' :
  me ∈ kas -> account_state (acct l me) = Ok v -> nonce_step v v' ->
  ka_set_state me v' l = Ok (u, l') -> evolves kas l l'.
Proof.
  unfold ka_set_state. intros Hme Hv Hstep (_ & a' & Ha' & ->)%update_account_Ok.
  apply evolves_insert; [done|]. apply rtc_once. by eapply change_nonce.
Qed.

Lemma advance_Ok me l u l' :
  System.advance_nonce_account hashv env me signers l = Ok (u, l') ->
  exists v d, account_state (acct l me) = Ok v /\ versions_state v = NonceInitialized d /\
    nonce_authority d ∈ signers /\ durable_nonce d <> next_nonce /\
    ka_set_state me (NonceCurrent (NonceInitialized
      (mkNonceData (nonce_authority d) next_nonce (env_lamports_per_signature env)))) l
    = Ok (u, l').
Proof.
  unfold System.advance_nonce_account. intros H'.
  apply st_bind_Ok in H' as (? & ? & [Hw ->]%lift_Ok & H').
  apply st_bind_Ok in H' as (v & ? & [Hv ->]%ka_state_Ok & H').
  destruct (versions_state v) as [|d] eqn:Hst; [by apply throw_Ok in H'|].
  cbn in H'. keyed_inv. eauto 10.
Qed.

Lemma initialize_Ok me authority rent l u l' :
  System.initialize_nonce_account hashv env me authority rent l = Ok (u, l') ->
  exists v, account_state (acct l me) = Ok v /\ versions_state v = NonceUninitialized /\
    minimum_balance rent (length (data (acct l me))) <= lamports (acct l me) /\
    ka_set_state me (NonceCurrent (NonceInitialized
      (mkNonceData authority next_nonce (env_lamports_per_signature env)))) l = Ok (u, l').
Proof.
  unfold System.initialize_nonce_account. intros H'.
  apply st_bind_Ok in H' as (? & ? & [Hw ->]%lift_Ok & H').
  apply st_bind_Ok in H' as (v & ? & [Hv ->]%ka_state_Ok & H').
  destruct (versions_state v) as [|d] eqn:Hst; [|by apply throw_Ok in H'].
  cbn in H'. keyed_inv. eauto 10.
Qed.

Lemma authorize_Ok me authority l u l' :
  System.authorize_nonce_account env me authority signers l = Ok (u, l') ->
  exists v d, account_state (acct l me) = Ok v /\ versions_state v = NonceInitialized d /\
    nonce_authority d ∈ signers /\
    ka_set_state me (versions_new (NonceInitialized
      (mkNonceData authority (durable_nonce d) (nonce_lamports_per_signature d)))
      (versions_separate_domains v)) l = Ok (u, l').
Proof.
  unfold System.authorize_nonce_account. intros H'.
  apply st_bind_Ok in H' as (? & ? & [Hw ->]%lift_Ok & H').
  apply st_bind_Ok in H' as (v & ? & [Hv ->]%ka_state_Ok & H').
  destruct (versions_state v) as [|d] eqn:Hst; [by apply throw_Ok in H'|].
  keyed_inv. eauto 10.
Qed.

Lemma from_keyed_account_Ok {T} `{Bincode T} id ka l (v : T) l' :
  from_keyed_account id ka l = Ok (v, l') ->
  l' = l /\ unsigned_key ka = id /\ bincode_decode (data (get_account l id)) = Some v.
Proof. unfold from_keyed_account. intros H'. by keyed_inv. Qed.

Lemma require_blockhashes_Ok ka l u l' :
  System.require_blockhashes ka l = Ok (u, l') -> l' = l.
Proof.
  unfold System.require_blockhashes. intros H'.
  apply st_bind_Ok in H' as (? & ? & Hs & H'). run_inv.
  by apply from_keyed_account_Ok in Hs as (-> & _).
Qed.
End Change.

(** ** Whole instructions *)

Section Execute.
Context (hashv : list bytes -> Hash).
Context `{Bincode NonceVersions, Bincode (list (Hash * Z)), Bincode Rent}.
Context (env : SystemEnv).

Lemma update_evolves kas signers l0 ka f l u l' :
  ka ∈ kas -> update_account [] ka f l = Ok (u, l') ->
  (forall a', f (acct l ka) = Ok a' -> rtc (change hashv env signers l0 (unsigned_key ka)) (acct l ka) a') ->
  evolves hashv env signers l0 kas l l'.
Proof.
  intros Hin (_ & a' & Ha' & ->)%update_account_Ok Hf. apply evolves_insert; auto.
Qed.

Lemma create_account_evolves kas signers l0 from to w addr x space o l u l' :
  signers = get_signers kas -> from ∈ kas -> to ∈ kas -> 0 <= x -> 0 <= space ->
  System.address_create hashv (unsigned_key to) w = Ok addr ->
  System.create_account env from to addr x space o signers l = Ok (u, l') ->
  evolves hashv env signers l0 kas l l'.
Proof.
  intros Hsig Hf Ht Hx Hsp Haddr H'. unfold System.create_account, System.transfer in H'.
  apply st_bind_Ok in H' as (? & l1 & Hup & H'). run_inv.
  apply evolves_trans with l1.
  - eapply update_evolves; [exact Ht|exact Hup|]. intros a' Ha'. cbn beta in Ha'. run_inv.
    eapply allocate_and_assign_change; eauto.
  - eapply transfer_verified_evolves; [..|exact H']; try done. left.
    by eapply signer_controls.
Qed.

Lemma elem_of_drop_lookup {A} (l : list A) n i x :
  l !! (n + i)%nat = Some x -> x ∈ drop n l.
Proof. intros Hl. apply list_elem_of_lookup_2 with i. by rewrite lookup_drop. Qed.

Lemma elem_of_drop_lookup_0 {A} (l : list A) n x : l !! n = Some x -> x ∈ drop n l.
Proof. intros Hl. apply elem_of_drop_lookup with 0%nat. by rewrite Nat.add_0_r. Qed.
#[local] Hint Resolve elem_of_drop_lookup elem_of_drop_lookup_0 : core.

Ltac keyed_at :=
  repeat match goal with
    | H : (keyed_account_at_index _ _ ≫= _) _ = Ok (_, _) |- _ =>
        apply st_bind_Ok in H as (? & ? & [? ->]%keyed_account_at_index_Ok & H)
    | H : (lift _ ≫= _) _ = Ok (_, _) |- _ =>
        apply st_bind_Ok in H as (? & ? & [? ->]%lift_Ok & H)
    | H : fail_if _ _ = Ok _ |- _ => apply fail_if_Ok in H
    | H : (System.require_blockhashes _ ≫= _) _ = Ok (_, _) |- _ =>
        apply st_bind_Ok in H as (? & ? & ->%require_blockhashes_Ok & H)
    | H : (from_keyed_account _ _ ≫= _) _ = Ok (_, _) |- _ =>
        apply st_bind_Ok in H as (? & ? & (-> & ? & ?)%from_keyed_account_Ok & H)
    end.

(** Every account evolves by approved changes, and only accounts given to the
    instruction change. *)
Lemma execute_evolves kas first i l u l' :
  sys_instr_ok i -> System.execute hashv env kas first i l = Ok (u, l') ->
  evolves hashv env (get_signers (drop first kas)) l (drop first kas) l l'.
Proof.
  unfold System.execute. intros Hi H'. apply st_bind_Ok in H' as (? & ? & [? ->]%keyed_account_at_index_Ok & H').
  destruct i; cbv zeta in H'; keyed_at; unfold in_u64 in *; cbn in Hi; unfold in_u64 in Hi.
  - eapply create_account_evolves; [..|exact H']; eauto; lia.
  - eapply update_evolves; [|exact H'|]; eauto. intros a' Ha'. cbn beta in Ha'. eapply assign_change; eauto.
  - unfold System.transfer in H'. keyed_at. eapply transfer_verified_evolves; [..|exact H']; eauto; [lia|].
    left. eapply signer_controls; eauto.
  - eapply create_account_evolves; [..|exact H']; eauto; lia.
  - apply advance_Ok in H' as (v & d & Hv & Hst & Hs & Hne & H').
    eapply set_state_evolves; [..|exact H']; eauto. by apply step_advance.
  - eapply withdraw_evolves; [..|exact H']; eauto; lia.
  - apply initialize_Ok in H' as (v & Hv & Hst & Hm & H').
    eapply set_state_evolves; [..|exact H']; eauto. by apply step_initialize.
  - apply authorize_Ok in H' as (v & d & Hv & Hst & Hs & H').
    eapply set_state_evolves; [..|exact H']; eauto. by apply step_authorize.
  - eapply update_evolves; [|exact H'|]; eauto. intros a' Ha'. cbn beta in Ha'. apply rtc_once.
    eapply allocate_change; eauto. lia.
  - eapply update_evolves; [|exact H'|]; eauto. intros a' Ha'. cbn beta in Ha'.
    eapply allocate_and_assign_change; eauto. lia.
  - eapply update_evolves; [|exact H'|]; eauto. intros a' Ha'. cbn beta in Ha'. eapply assign_change; eauto.
  - unfold System.transfer_with_seed in H'. keyed_at. 
    eapply transfer_verified_evolves; [..|exact H']; eauto; [lia|].
    match goal with
    | H : negb (bool_decide _) = false |- _ =>
        apply negb_false_iff, bool_decide_eq_true in H; rewrite H
    end.
    right. eexists _, _, _. split; [|eassumption]. eapply signer_controls; eauto.
Qed.

(** The promises of a builtin program. *)
Lemma change_in_u64 signers l0 k a a' :
  change hashv env signers l0 k a a' -> in_u64 (lamports a) -> in_u64 (lamports a').
Proof.
  unfold in_u64. intros Hch Ha. destruct Hch; cbn; try lia.
  - by match goal with H : account_set_state _ _ = Ok _ |- _ => 
      apply account_set_state_Ok in H as (-> & _) end.
  - pose proof (minimum_balance_nonneg rent (length (data a))). lia.
Qed.

Lemma execute_balances kas first i l u l' :
  sys_instr_ok i -> System.execute hashv env kas first i l = Ok (u, l') ->
  forall k, in_u64 (lamports (get_account l k)) -> in_u64 (lamports (get_account l' k)).
Proof.
  intros Hi He k Hk. destruct (execute_evolves _ _ _ _ _ _ Hi He k) as [E|[_ Hrtc]].
  - by rewrite (get_account_eq _ _ _ E).
  - revert Hk. induction Hrtc; eauto using change_in_u64.
Qed.

Lemma system_process_Ok deserialize n d kas l u l' :
  System.process_instruction hashv env deserialize n d kas l = Ok (u, l') ->
  exists i, deserialize d = Some i /\ System.execute hashv env kas n i l = Ok (u, l').
Proof. unfold System.process_instruction. intros H'. run_inv. eauto. Qed.

(** ** Lamports are conserved *)

Lemma sum_insert (l : ledger) k a :
  map_sum lamports (<[k := a]> l)
  = map_sum lamports l + (lamports a - lamports (get_account l k)).
Proof.
  rewrite map_sum_insert. unfold get_account. destruct (l !! k); cbn; lia.
Qed.

Lemma transfer_sum from to x l u l' :
  System.transfer_verified from to x l = Ok (u, l') -> map_sum lamports l' = map_sum lamports l.
Proof.
  intros (_ & _ & l1 & -> & _ & ->)%transfer_verified_Ok.
  rewrite !sum_insert. cbn. lia.
Qed.

Lemma update_sum ka f l u l' :
  update_account [] ka f l = Ok (u, l') ->
  (forall a a', f a = Ok a' -> lamports a' = lamports a) ->
  map_sum lamports l' = map_sum lamports l.
Proof.
  intros (_ & a' & Ha' & ->)%update_account_Ok Hf. rewrite sum_insert, (Hf _ _ Ha'). lia.
Qed.

Lemma allocate_lamports a addr space signers a' :
  System.allocate a addr space signers = Ok a' -> lamports a' = lamports a.
Proof. unfold System.allocate. intros H'. by run_inv. Qed.

Lemma assign_lamports a addr o signers a' :
  System.assign env a addr o signers = Ok a' -> lamports a' = lamports a.
Proof. unfold System.assign. intros H'. case_bool_decide; by run_inv. Qed.

Lemma allocate_and_assign_lamports a addr space o signers a' :
  System.allocate_and_assign env a addr space o signers = Ok a' -> lamports a' = lamports a.
Proof.
  unfold System.allocate_and_assign. intros H'. run_inv.
  erewrite assign_lamports by done. by eapply allocate_lamports.
Qed.

Lemma set_state_sum {T} `{Bincode T} me (v : T) l u l' :
  ka_set_state me v l = Ok (u, l') -> map_sum lamports l' = map_sum lamports l.
Proof.
  intros Hs. eapply update_sum; [exact Hs|]. by intros a a' (? & _)%account_set_state_Ok.
Qed.

Lemma withdraw_sum me x to rent signers l u l' :
  System.withdraw_nonce_account hashv env me x to rent signers l = Ok (u, l') ->
  map_sum lamports l' = map_sum lamports l.
Proof.
  intros (signer & l1 & l2 & Hsig & _ & _ & -> & _ & ->)%withdraw_Ok.
  apply withdraw_signer_Ok in Hsig as (v & _ & Hsig).
  assert (map_sum lamports l1 = map_sum lamports l) as Hl1.
  { destruct (versions_state v); [by destruct Hsig as (_ & _ & ->)|].
    destruct Hsig as [_ [(_ & _ & a' & Ha' & ->)|[_ ->]]]; [|done].
    rewrite sum_insert. apply account_set_state_Ok in Ha' as (-> & _). lia. }
  rewrite !sum_insert. cbn. lia.
Qed.

Lemma create_account_sum from to addr x space o signers l u l' :
  System.create_account env from to addr x space o signers l = Ok (u, l') ->
  map_sum lamports l' = map_sum lamports l.
Proof.
  unfold System.create_account, System.transfer. intros H'.
  apply st_bind_Ok in H' as (? & l1 & Hup & H'). keyed_at.
  rewrite (transfer_sum _ _ _ _ _ _ H'). eapply update_sum; [exact Hup|].
  intros a a' Ha. cbn beta in Ha. run_inv. by eapply allocate_and_assign_lamports.
Qed.

Lemma execute_sum kas first i l u l' :
  System.execute hashv env kas first i l = Ok (u, l') ->
  map_sum lamports l' = map_sum lamports l.
Proof.
  unfold System.execute. intros H'.
  apply st_bind_Ok in H' as (? & ? & [? ->]%keyed_account_at_index_Ok & H').
  destruct i; cbv zeta in H'; keyed_at;
    try (by eapply create_account_sum);
    try (eapply update_sum; [exact H'|]; intros a a' Ha; cbn beta in Ha;
         first [by eapply assign_lamports | by eapply allocate_lamports
               | by eapply allocate_and_assign_lamports]).
  - unfold System.transfer in H'. keyed_at. by eapply transfer_sum.
  - apply advance_Ok in H' as (v & d & _ & _ & _ & _ & H'). exact (set_state_sum _ _ _ _ _ H').
  - by eapply withdraw_sum.
  - apply initialize_Ok in H' as (v & _ & _ & _ & H'). exact (set_state_sum _ _ _ _ _ H').
  - apply authorize_Ok in H' as (v & d & _ & _ & _ & H'). exact (set_state_sum _ _ _ _ _ H').
  - unfold System.transfer_with_seed in H'. keyed_at. by eapply transfer_sum.
Qed.
End Execute.
