(* ===== verification/NoPanic.v ===== *)
(** * Runs that do not panic

    The lemmas and the tactic with which the programs are shown not to panic. *)

From Stdlib Require Import ZArith Lia.
From Stdlib Require Import Strings.Byte.
From stdpp Require Import prelude gmap numbers list.
From S2P Require Import Prelude Sdk Runtime SystemInstruction SystemProgram.

Section NoPanic.
Context {S E A B : Type}.

Lemma Ok_np (a : A) : (Ok a : outcome E A) <> Panic. Proof. done. Qed.
Lemma Err_np (e : E) : (Err e : outcome E A) <> Panic. Proof. done. Qed.
Lemma fail_if_np (b : bool) (e : E) : fail_if b e <> Panic. Proof. by destruct b. Qed.
Lemma ok_or_np (o : option A) (e : E) : ok_or o e <> Panic. Proof. by destruct o. Qed.
Lemma bind_np (o : outcome E A) (f : A -> outcome E B) :
  o <> Panic -> (forall a, o = Ok a -> f a <> Panic) -> (o ≫= f) <> Panic.
Proof. destruct o; cbn; naive_solver. Qed.
Lemma lift_np (o : outcome E A) (s : S) : o <> Panic -> lift o s <> Panic.
Proof. by destruct o. Qed.
Lemma ret_np (a : A) (s : S) : (mret a : st S E A) s <> Panic. Proof. done. Qed.
Lemma throw_np (e : E) (s : S) : (throw e : st S E A) s <> Panic. Proof. done. Qed.
Lemma st_bind_np (m : st S E A) (f : A -> st S E B) s :
  m s <> Panic -> (forall a s', m s = Ok (a, s') -> f a s' <> Panic) -> (m ≫= f) s <> Panic.
Proof. unfold mbind, st_bind. destruct (m s) as [[]| |]; naive_solver. Qed.
End NoPanic.

Lemma map_err_np {E E' A} (f : E -> E') (o : outcome E A) : o <> Panic -> map_err f o <> Panic.
Proof. by destruct o. Qed.
Lemma keyed_account_np kas i l : keyed_account_at_index kas i l <> Panic.
Proof. apply lift_np, ok_or_np. Qed.
Lemma ka_state_np {T} `{Bincode T} ka l : ka_state ka l <> Panic.
Proof. unfold ka_state. apply st_bind_np; [done|]. intros. apply lift_np, ok_or_np. Qed.
Lemma update_np ka f (l : ledger) :
  f (acct l ka) <> Panic -> update_account [] ka f l <> Panic.
Proof. rewrite update_account_eq. by destruct (f _). Qed.
Lemma ka_set_state_np {T} `{Bincode T} ka (v : T) l : ka_set_state ka v l <> Panic.
Proof. apply update_np. apply bind_np; [apply fail_if_np|done]. Qed.
Lemma from_keyed_np {T} `{Bincode T} id ka l : from_keyed_account (S:=T) id ka l <> Panic.
Proof.
  unfold from_keyed_account. apply st_bind_np; [apply lift_np, fail_if_np|]. intros.
  apply st_bind_np; [done|]. intros. apply lift_np, ok_or_np.
Qed.

Create HintDb np.
#[export] Hint Resolve Ok_np Err_np fail_if_np ok_or_np lift_np ret_np throw_np map_err_np
  keyed_account_np ka_state_np ka_set_state_np from_keyed_np update_np : np.
#[export] Hint Extern 0 (ka_lamports _ _ <> Panic) => discriminate : np.
#[export] Hint Extern 0 (ka_data_len _ _ <> Panic) => discriminate : np.
#[export] Hint Extern 0 (ka_owner _ _ <> Panic) => discriminate : np.

(** One statement at a time; what is known of its result is kept. *)
Ltac np_step :=
  match goal with
  | |- (_ ≫= _) _ <> Panic => apply st_bind_np; [|intros ? ? ?]
  | |- (_ ≫= _) <> Panic => apply bind_np; [|intros ? ?]
  | |- (if ?b then _ else _) _ <> Panic => destruct b
  | |- (if ?b then _ else _) <> Panic => destruct b
  | _ => solve [eauto with np]
  | |- match ?x with _ => _ end _ <> Panic => destruct x
  | |- match ?x with _ => _ end <> Panic => destruct x
  | |- lift _ _ <> Panic => apply lift_np
  end.
Ltac np := repeat np_step.
