(* ===== verification/SystemExample.v ===== *)
(** * A concrete system program

    An encoding of the nonce state in the layout bincode gives it (fixed-width
    little-endian integers, [u32] tags), which has the laws the theorems about
    nonces assume, and the other parameters of the system program. *)

From Stdlib Require Import ZArith Lia.
From Stdlib Require Import Strings.Byte.
From stdpp Require Import prelude gmap list numbers.
From S2P Require Import Prelude Sdk Runtime SystemInstruction SystemProgram SystemFacts.

(** What the nonce operations rely on in bincode: a value is read back from the
    front of a buffer, whatever follows, and takes at most the size of an
    initialized nonce.  The fee is a [u64]. *)
Definition nonce_valid (v : NonceVersions) : Prop :=
  match versions_state v with
  | NonceInitialized d => in_u64 (nonce_lamports_per_signature d)
  | NonceUninitialized => True
  end.

Class NonceBincode `{Bincode NonceVersions} : Prop := {
  nonce_roundtrip : forall v rest, nonce_valid v ->
    bincode_decode (bincode_encode v ++ rest) = Some v;
  nonce_size : forall v, (length (bincode_encode v) <= NONCE_STATE_SIZE)%nat;
}.

Module SystemExample.
Definition encode_state (s : NonceState) : bytes :=
  match s with
  | NonceUninitialized => to_le_bytes 4 0
  | NonceInitialized d =>
      to_le_bytes 4 1 ++ pk_bytes (nonce_authority d) ++ pk_bytes (durable_nonce d) ++
      to_le_bytes 8 (nonce_lamports_per_signature d)
  end.
Definition encode_nonce (v : NonceVersions) : bytes :=
  to_le_bytes 4 (match v with NonceLegacy _ => 0 | NonceCurrent _ => 1 end) ++
  encode_state (versions_state v).

Definition decode_state (b : bytes) : option NonceState :=
  match from_le_bytes (take 4 b) with
  | 0 => Some NonceUninitialized
  | 1 =>
      if (length b <? 76)%nat then None else
      Some (NonceInitialized (mkNonceData (new_from_array (take 32 (drop 4 b)))
        (new_from_array (take 32 (drop 36 b))) (from_le_bytes (take 8 (drop 68 b)))))
  | _ => None
  end.

Definition decode_nonce (b : bytes) : option NonceVersions :=
  if (length b <? 8)%nat then None else
  s ← decode_state (drop 4 b);
  match from_le_bytes (take 4 b) with
  | 0 => Some (NonceLegacy s)
  | 1 => Some (NonceCurrent s)
  | _ => None
  end.

#[global] Instance nonce_bincode : Bincode NonceVersions := {
  bincode_encode := encode_nonce;
  bincode_decode := decode_nonce;
}.

Lemma length_encode_state s : (4 <= length (encode_state s) <= 76)%nat.
Proof.
  destruct s; cbn [encode_state]; rewrite ?length_app, ?length_to_le_bytes, ?length_pk_bytes; lia.
Qed.

Lemma decode_encode_state s rest :
  match s with
  | NonceInitialized d => in_u64 (nonce_lamports_per_signature d)
  | NonceUninitialized => True
  end ->
  decode_state (encode_state s ++ rest) = Some s.
Proof.
  destruct s as [|d]; [done|]. intros Hfee. unfold decode_state, encode_state.
  rewrite <- !(assoc_L (++)).
  rewrite take_app_length' by done. change (from_le_bytes (to_le_bytes 4 1)) with 1.
  rewrite !length_app, !length_pk_bytes, !length_to_le_bytes.
  destruct (Nat.ltb_spec (4 + (32 + (32 + (8 + length rest)))) 76); [lia|].
  replace 68%nat with (4 + (32 + 32))%nat by done. replace 36%nat with (4 + 32)%nat by done.
  rewrite <- !drop_drop, !drop_app_length' by done.
  rewrite !(drop_app_length' (pk_bytes _)), !(take_app_length' (pk_bytes _))
    by (by rewrite length_pk_bytes).
  rewrite take_app_length' by (by rewrite length_to_le_bytes).
  rewrite !new_from_array_bytes, from_to_le_bytes_u64 by done. by destruct d.
Qed.

#[global] Instance nonce_bincode_laws : NonceBincode.
Proof.
  split.
  - intros v rest Hv. change (decode_nonce (encode_nonce v ++ rest) = Some v).
    unfold decode_nonce, encode_nonce. rewrite <- (assoc_L (++)).
    rewrite drop_app_length', take_app_length' by (by rewrite length_to_le_bytes).
    rewrite decode_encode_state by done. rewrite !length_app, length_to_le_bytes.
    pose proof (length_encode_state (versions_state v)).
    match goal with |- context [(?n <? 8)%nat] => destruct (Nat.ltb_spec n 8); [lia|] end.
    by destruct v.
  - intros v. change (length (encode_nonce v) <= NONCE_STATE_SIZE)%nat.
    unfold encode_nonce, NONCE_STATE_SIZE. rewrite length_app, length_to_le_bytes.
    pose proof (length_encode_state (versions_state v)). lia.
Qed.

(** The other parameters: sysvars whose data is not empty decode, and a hash
    that keeps the end of its input. *)
#[global] Instance blockhashes_bincode : Bincode (list (Hash * Z)) := {
  bincode_encode v := x01 :: concat ((fun '(h, _) => pk_bytes h) <$> v);
  bincode_decode b := match b with [] => None | [_] => Some [] | _ => Some [(pk_default, 0)] end;
}.
#[global] Instance rent_bincode : Bincode Rent := {
  bincode_encode _ := [x01];
  bincode_decode b := match b with [] => None | _ => Some rent_default end;
}.
Definition hashv (l : list bytes) : Hash :=
  new_from_array (rev (take 32 (rev (concat l) ++ replicate 32 x00))).

Definition blockhash : Hash := pk_of_Z 77.
Definition env : SystemEnv := mkSystemEnv blockhash 5000 true true true.
End SystemExample.
