(* ===== verification/SystemTheorems.v ===== *)
(** * The system program: theorems

    Who must approve a change, what transfers and account creation do exactly,
    and why a durable nonce cannot be used twice. *)

From Stdlib Require Import ZArith Lia.
From Stdlib Require Import Strings.Byte.
From stdpp Require Import prelude gmap list numbers relations.
From S2P Require Import Prelude Sdk Runtime SystemInstruction SystemProgram SystemFacts SystemExample.

(** ** Approval and conservation *)


(** The system program conserves lamports by itself, whatever accounts it is
    given, the same account twice included. *)
Lemma system_conserves_lamports hashv
    `{Bincode NonceVersions, Bincode (list (Hash * Z)), Bincode Rent} env deserialize n d kas l u l' :
  System.process_instruction hashv env deserialize n d kas l = Ok (u, l') ->
  map_sum lamports l' = map_sum lamports l.
Proof. intros (i & _ & He)%system_process_Ok. by eapply execute_sum. Qed.

(** ** Transfers *)

Lemma transfer_eq from to x l :
  0 <= x -> lamports (acct l from) <= u64_max ->
  System.transfer from to x l =
    if negb (is_signer from) then Err MissingRequiredSignature
    else if negb (bool_decide (data (acct l from) = [])) then Err InvalidArgument
    else if lamports (acct l from) <? x
      then Err (system_err SystemError.ResultWithNegativeLamports)
    else if bool_decide (unsigned_key from = unsigned_key to)
      then Ok (tt, <[unsigned_key from := acct l from]> l)
    else if u64_max <? lamports (acct l to) + x then Err ArithmeticOverflow
    else Ok (tt, <[unsigned_key to := set_lamports (lamports (acct l to) + x) (acct l to)]>
                 (<[unsigned_key from := set_lamports (lamports (acct l from) - x) (acct l from)]> l)).
Proof.
  intros Hx Hu. unfold System.transfer, signer_key.
  destruct (is_signer from); [|done]. unfold System.transfer_verified.
  fwd (done). fwd (apply ka_data_len_run).
  assert ((length (data (acct l from)) =? 0)%nat = bool_decide (data (acct l from) = [])) as ->
    by (by destruct (data (acct l from))).
  destruct (bool_decide (data (acct l from) = [])); [|done].
  fwd (done). fwd (apply ka_lamports_run).
  destruct (Z.ltb_spec (lamports (acct l from)) x) as [|Hle]; [done|].
  fwd (done). fwd (apply update_account_run, sub_lamports_Ok; done).
  rewrite update_account_eq. unfold System.checked_add_lamports, checked_add.
  destruct (bool_decide_reflect (unsigned_key from = unsigned_key to)) as [Heq|Hne].
  - rewrite <- Heq, get_account_insert_eq. cbn [lamports set_lamports].
    destruct (Z.leb_spec (lamports (acct l from) - x + x) u64_max); [|lia].
    cbn -[get_account]. rewrite insert_insert_eq. do 3 f_equal.
    destruct (acct l from); unfold set_lamports; cbn. f_equal; lia.
  - rewrite get_account_insert_ne by done. 
    destruct (Z.leb_spec (lamports (acct l to) + x) u64_max), (Z.ltb_spec u64_max (lamports (acct l to) + x));
     try lia; done.
Qed.

(** What a transfer does in every case: the errors in their order, a
    transfer to oneself that changes nothing, and otherwise exactly [x] lamports
    moved. *)
Lemma system_transfer_exact from to x l :
  0 <= x -> lamports (acct l from) <= u64_max ->
  System.transfer from to x l =
    if negb (is_signer from) then Err MissingRequiredSignature
    else if negb (bool_decide (data (acct l from) = [])) then Err InvalidArgument
    else if lamports (acct l from) <? x
      then Err (system_err SystemError.ResultWithNegativeLamports)
    else if bool_decide (unsigned_key from = unsigned_key to)
      then Ok (tt, <[unsigned_key from := acct l from]> l)
    else if u64_max <? lamports (acct l to) + x then Err ArithmeticOverflow
    else Ok (tt, <[unsigned_key to := set_lamports (lamports (acct l to) + x) (acct l to)]>
                 (<[unsigned_key from := set_lamports (lamports (acct l from) - x) (acct l from)]> l)).
Proof. apply transfer_eq. Qed.

Definition payer : KeyedAccount := mkKeyed true true (pk_of_Z 1).
Definition payee : KeyedAccount := mkKeyed false true (pk_of_Z 2).
Definition purse : ledger :=
  <[pk_of_Z 1 := mkAccount 100 [] system_program_id false 0]> ∅.

Lemma system_transfer_exact_witness :
  0 <= 30 /\ lamports (acct purse payer) <= u64_max /\
  is_Ok (System.transfer payer payee 30 purse) = true.
Proof.
  assert (lamports (acct purse payer) <= u64_max) as Hu by (by vm_compute).
  split_and!; [lia|done|].
  rewrite (system_transfer_exact payer payee 30 purse ltac:(lia) Hu). by vm_compute.
Defined.

(** The instruction that moves 30 lamports from the payer. *)
Definition pay : outcome InstructionError (unit * ledger) :=
  System.process_instruction SystemExample.hashv SystemExample.env
    (fun _ => Some (SysTransfer 30)) 0 [] [payer; payee] purse.


Lemma system_conserves_lamports_witness :
  exists l' : ledger, pay = Ok (tt, l') /\ map_sum lamports l' = map_sum lamports purse.
Proof.
  assert (is_Ok pay = true) as [[[] l'] E]%is_Ok_ex by (by vm_compute).
  exists l'. split; [done|].
  exact (system_conserves_lamports _ _ _ 0 [] [payer; payee] _ tt l' E).
Defined.

(** ** Creating accounts *)

(** What must hold for [create_account] to succeed. *)
Record creatable (env : SystemEnv) (signers : gset Pubkey) (addr : System.Address)
    (x space : Z) (o : Pubkey) (from to : AccountSharedData) (from_signed : bool) : Prop := {
  cr_lamports : lamports to <= 0;
  cr_data : data to = [];
  cr_owner : owner to = system_program_id;
  cr_signed : System.address_is_signer addr signers = true;
  cr_space : space <= MAX_PERMITTED_DATA_LENGTH;
  cr_sysvar : o = system_program_id \/ env_rent_for_sysvars env = true \/ o <> System.sysvar_id;
  cr_from_signed : from_signed = true;
  cr_from_data : data from = [];
  cr_funds : x <= lamports from;
  cr_overflow : lamports to + x <= u64_max;
}.

(** The account it creates: [x] lamports, zeroed data, the given owner. *)
Definition created (x space : Z) (o : Pubkey) (a : AccountSharedData) : AccountSharedData :=
  set_owner o (set_data (replicate (Z.to_nat space) x00) (set_lamports (lamports a + x) a)).

Lemma set_lamports_created x space o a :
  set_lamports (lamports a + x) (set_owner o (set_data (replicate (Z.to_nat space) x00) a))
  = created x space o a.
Proof. done. Qed.

Lemma allocate_and_assign_Ok env a addr space o signers a' :
  System.allocate_and_assign env a addr space o signers = Ok a' <->
  System.address_is_signer addr signers = true /\ data a = [] /\ owner a = system_program_id /\
  space <= MAX_PERMITTED_DATA_LENGTH /\
  (o = system_program_id \/ env_rent_for_sysvars env = true \/ o <> System.sysvar_id) /\
  a' = set_owner o (set_data (replicate (Z.to_nat space) x00) a).
Proof.
  unfold System.allocate_and_assign, System.allocate, System.assign.
  generalize System.sysvar_id system_program_id. intros sysvar system.
  destruct (System.address_is_signer addr signers); [|naive_solver].
  destruct (bool_decide_reflect (data a = [])) as [Hd|Hd]; [|naive_solver].
  destruct (bool_decide_reflect (owner a = system)) as [Ho|Ho]; [|naive_solver].
  cbn -[MAX_PERMITTED_DATA_LENGTH].
  destruct (Z.ltb_spec MAX_PERMITTED_DATA_LENGTH space); cbn -[MAX_PERMITTED_DATA_LENGTH];
    [naive_solver lia|]. rewrite Ho.
  case_bool_decide as Hs.
  - split; [intros [= <-]|intros (_ & _ & _ & _ & _ & ->)].
    + split_and!; try done; [by left|]. subst. destruct a; cbn in *. by subst.
    + subst. destruct a; cbn in *. by subst.
  - destruct (env_rent_for_sysvars env); cbn; [naive_solver|].
    case_bool_decide; cbn; naive_solver.
Qed.

(** Creating an account succeeds exactly when the address is free (no
    lamports, no data, owned by the system program) and signed for, the size is
    within the limit, and the payer signed, holds no data and has the lamports;
    and then the account has exactly the lamports, the zeroed data and the owner
    asked for, and only the payer is debited. *)
Theorem create_account_exact env from to addr x space o signers l l' :
  unsigned_key from <> unsigned_key to -> 0 <= x -> lamports (acct l from) <= u64_max ->
  System.create_account env from to addr x space o signers l = Ok (tt, l') <->
  creatable env signers addr x space o (acct l from) (acct l to) (is_signer from) /\
  l' = <[unsigned_key to := created x space o (acct l to)]>
         (<[unsigned_key from := set_lamports (lamports (acct l from) - x) (acct l from)]> l).
Proof.
  intros Hne Hx Hu. unfold System.create_account. split.
  - intros H'. apply st_bind_Ok in H' as ([] & l1 & (_ & a & Ha & ->)%update_account_Ok & H').
    unfold System.transfer in H'. run_inv.
    apply allocate_and_assign_Ok in Ha as (? & ? & ? & ? & ? & ->).
    apply transfer_verified_Ok in H' as (Hd & Hf & l1 & -> & Hb & ->).
    ga_simpl. change (lamports (set_owner o (set_data ?d ?a))) with (lamports a) in *. split.
    + split; try done; [by apply Z.ltb_ge|].
      match goal with H : bool_decide (signer_key _ = None) = false |- _ =>
        apply bool_decide_eq_false in H; unfold signer_key in H end.
      by destruct (is_signer from).
    + rewrite set_lamports_created. ledger_eq.
  - intros [[] ->].
    fwd (apply update_account_run; cbn beta;
         destruct (Z.ltb_spec 0 (lamports (acct l to))); [lia|];
         by apply allocate_and_assign_Ok).
    rewrite transfer_eq; ga_simpl; [|done..].
    rewrite cr_from_signed0, cr_from_data0, !bool_decide_eq_true_2, bool_decide_eq_false_2 by done.
    cbn -[u64_max get_account].
    destruct (Z.ltb_spec (lamports (acct l from)) x); [lia|].
    destruct (Z.ltb_spec u64_max (lamports (acct l to) + x)); [lia|].
    rewrite set_lamports_created. do 2 f_equal. ledger_eq.
Qed.

(** A new account for the payee, whose key signs too. *)
Definition signing_payee : KeyedAccount := mkKeyed true true (pk_of_Z 2).

Lemma create_account_exact_witness :
  unsigned_key payer <> unsigned_key signing_payee /\
  exists l', System.create_account SystemExample.env payer signing_payee
    (System.mkAddress (pk_of_Z 2) None) 40 16 (pk_of_Z 9)
    (get_signers [payer; signing_payee]) purse = Ok (tt, l') /\
    acct l' signing_payee = mkAccount 40 (replicate 16 x00) (pk_of_Z 9) false 0.
Proof.
  assert (unsigned_key payer <> unsigned_key signing_payee) as Hne
    by (apply (bool_decide_eq_false (unsigned_key payer = unsigned_key signing_payee)); by vm_compute).
  split; [done|]. eexists. rewrite (create_account_exact _ _ _ _ _ _ _ _ _ _ Hne) by (by vm_compute).
  split; [split; [|reflexivity]|by vm_compute].
  split; try by vm_compute. by right; left.
Defined.

(** ** Durable nonces *)

Section Nonce.
Context (hashv : list bytes -> Hash) `{NonceBincode}.

Lemma state_after_set (v : NonceVersions) a a' :
  nonce_valid v -> account_set_state v a = Ok a' -> account_state a' = Ok v.
Proof.
  unfold account_set_state, account_state. intros Hv Hs. run_inv. cbn.
  by rewrite nonce_roundtrip.
Qed.

Lemma set_state_total (v : NonceVersions) a :
  (NONCE_STATE_SIZE <= length (data a))%nat -> exists a', account_set_state v a = Ok a'.
Proof.
  intros Hl. unfold account_set_state. pose proof (nonce_size v).
  destruct (Nat.ltb_spec (length (data a)) (length (bincode_encode v))); [lia|]. cbn. eauto.
Qed.

(** The operation, on every branch of its match and guards. *)
Lemma advance_eq env me signers (l : ledger) v d :
  (env_nonce_must_be_writable env = true -> is_writable me = true) ->
  account_state (acct l me) = Ok v -> versions_state v = NonceInitialized d ->
  System.advance_nonce_account hashv env me signers l =
    if negb (bool_decide (nonce_authority d ∈ signers)) then Err MissingRequiredSignature
    else if bool_decide (durable_nonce d = next_nonce hashv env)
      then Err (System.nonce_error env NotExpired)
    else ka_set_state me (NonceCurrent (NonceInitialized
      (mkNonceData (nonce_authority d) (next_nonce hashv env) (env_lamports_per_signature env)))) l.
Proof.
  intros Hw Hv Hst. unfold System.advance_nonce_account.
  fwd (apply lift_run; unfold System.require_writable; destruct (env_nonce_must_be_writable env);
       [rewrite Hw by done|]; done).
  fwd (by apply ka_state_Ok). rewrite Hst.
  destruct (bool_decide (nonce_authority d ∈ signers)); [|done].
  change (System.get_durable_nonce hashv env) with (next_nonce hashv env, true).
  fwd (done). by destruct (bool_decide (durable_nonce d = next_nonce hashv env)).
Qed.

Lemma require_writable_Ok env me signers (l : ledger) u l' :
  System.advance_nonce_account hashv env me signers l = Ok (u, l') ->
  env_nonce_must_be_writable env = true -> is_writable me = true.
Proof.
  unfold System.advance_nonce_account. intros H' Hf.
  apply st_bind_Ok in H' as (? & ? & [Hw _]%lift_Ok & _).
  unfold System.require_writable in Hw. rewrite Hf in Hw. by destruct (is_writable me).
Qed.

Definition nonce_of (env : SystemEnv) (d : NonceData) : NonceData :=
  mkNonceData (nonce_authority d) (next_nonce hashv env) (env_lamports_per_signature env).

(** C18: A durable nonce is used once.  After an advance, the value that was
    stored verifies no transaction any more, under either hash domain; the new
    value, derived from the current blockhash, does; and a second advance with
    the same blockhash is refused as not expired. *)
Theorem nonce_not_replayed env me signers l u l' v d :
  in_u64 (env_lamports_per_signature env) ->
  account_state (acct l me) = Ok v -> versions_state v = NonceInitialized d ->
  owner (acct l me) = system_program_id ->
  System.advance_nonce_account hashv env me signers l = Ok (u, l') ->
  (forall sd, System.verify_nonce_account (acct l' me) (durable_nonce d) sd = None) /\
  System.verify_nonce_account (acct l' me) (next_nonce hashv env) true = Some (nonce_of env d) /\
  System.advance_nonce_account hashv env me signers l' = Err (System.nonce_error env NotExpired).
Proof.
  intros Hfee Hv Hst Hown Hadv. pose proof Hadv as Hadv'.
  apply advance_Ok in Hadv as (v' & d' & Hv' & Hst' & Hs & Hne & Hset).
  rewrite Hv in Hv'. injection Hv' as <-. rewrite Hst in Hst'. injection Hst' as <-.
  fold (nonce_of env d) in Hset.
  apply update_account_Ok in Hset as (_ & a' & Ha' & ->). rewrite get_account_insert_eq.
  pose proof (account_set_state_Ok _ _ _ Ha') as (_ & Ho & _).
  pose proof (state_after_set (NonceCurrent (NonceInitialized (nonce_of env d))) _ _ Hfee Ha') as Hst2.
  assert (bincode_decode (data a') = Some (NonceCurrent (NonceInitialized (nonce_of env d)))) as Hdec.
  { unfold account_state in Hst2. by apply ok_or_Ok in Hst2. }
  unfold System.verify_nonce_account. rewrite Ho, Hown, Hdec, !bool_decide_eq_true_2 by done.
  cbn -[next_nonce]. split_and!.
  - intros sd. by rewrite (bool_decide_eq_false_2 _ Hne).
  - by rewrite bool_decide_eq_true_2.
  - rewrite (advance_eq env me signers _ _ (nonce_of env d)
      (require_writable_Ok _ _ _ _ _ _ Hadv') ltac:(by rewrite get_account_insert_eq) eq_refl).
    cbn -[next_nonce]. by rewrite !bool_decide_eq_true_2.
Qed.

(** ** Progress *)

(** Advancing in turn at each block of [envs]. *)
Definition advance_all (envs : list SystemEnv) (me : KeyedAccount) (signers : gset Pubkey)
    : prog unit :=
  foldr (fun env rest => _ ← System.advance_nonce_account hashv env me signers; rest)
    (mret tt) envs.

(** Each block's nonce differs from the one before it. *)
Fixpoint fresh_nonces (n : Hash) (envs : list SystemEnv) : Prop :=
  match envs with
  | [] => True
  | env :: envs => n <> next_nonce hashv env /\ fresh_nonces (next_nonce hashv env) envs
  end.

(** A nonce never gets stuck: from an initialized nonce account with room
    for the state, its authority can advance it at every later block whose
    blockhash is new, any number of times, and each time the stored nonce is the
    one of that block. *)
Theorem nonce_always_advances envs me signers l v d :
  is_writable me = true -> account_state (acct l me) = Ok v ->
  versions_state v = NonceInitialized d -> nonce_authority d ∈ signers ->
  (NONCE_STATE_SIZE <= length (data (acct l me)))%nat ->
  Forall (fun env => in_u64 (env_lamports_per_signature env)) envs ->
  fresh_nonces (durable_nonce d) envs ->
  exists l' v' d', advance_all envs me signers l = Ok (tt, l') /\
    account_state (acct l' me) = Ok v' /\ versions_state v' = NonceInitialized d' /\
    nonce_authority d' = nonce_authority d /\
    durable_nonce d' = default (durable_nonce d) (next_nonce hashv <$> last envs).
Proof.
  intros Hw. revert l v d. induction envs as [|env envs IH]; intros l v d Hv Hst Hs Hlen Hfee Hfresh.
  { exists l, v, d. done. }
  apply Forall_cons in Hfee as [Hf Hfee]. destruct Hfresh as [Hne Hfresh].
  destruct (set_state_total (NonceCurrent (NonceInitialized (nonce_of env d))) _ Hlen) as [a' Ha'].
  pose proof (account_set_state_Ok _ _ _ Ha') as (_ & _ & Hlen').
  destruct (IH (<[unsigned_key me := a']> l) (NonceCurrent (NonceInitialized (nonce_of env d)))
    (nonce_of env d)) as (l' & v' & d' & Hrun & Hv' & Hst' & Ha & Hd).
  - rewrite get_account_insert_eq. by eapply state_after_set.
  - done.
  - done.
  - by rewrite get_account_insert_eq, Hlen'.
  - done.
  - done.
  - exists l', v', d'. split_and!; try done.
    + cbn [advance_all foldr]. fwd (rewrite (advance_eq env me signers l v d) by done;
        rewrite bool_decide_eq_true_2, bool_decide_eq_false_2 by done;
        by apply update_account_run). exact Hrun.
    + rewrite Hd. cbn [nonce_of durable_nonce]. destruct envs; [done|].
      rewrite last_cons_cons. destruct (last (s :: envs)) eqn:El; [done|].
      by apply last_None in El.
Qed.
End Nonce.

(** A nonce account of the example, initialized with an old nonce. *)
Definition nonce_key : KeyedAccount := mkKeyed false true (pk_of_Z 6).
Definition old_nonce : NonceData := mkNonceData (pk_of_Z 1) (pk_of_Z 5) 5000.
Definition nonce_ledger : ledger :=
  <[pk_of_Z 6 := mkAccount 2000000
      (SystemExample.encode_nonce (NonceCurrent (NonceInitialized old_nonce)))
      system_program_id false 0]> purse.

Lemma nonce_not_replayed_witness :
  exists l', System.advance_nonce_account SystemExample.hashv SystemExample.env nonce_key
    (get_signers [payer; nonce_key]) nonce_ledger = Ok (tt, l') /\
  System.verify_nonce_account (acct l' nonce_key) (pk_of_Z 5) true = None.
Proof.
  assert (is_Ok (System.advance_nonce_account SystemExample.hashv SystemExample.env nonce_key
    (get_signers [payer; nonce_key]) nonce_ledger) = true) as [[[] l'] E]%is_Ok_ex
    by (by vm_compute).
  exists l'. split; [done|].
  eapply (nonce_not_replayed SystemExample.hashv SystemExample.env nonce_key
    (get_signers [payer; nonce_key]) nonce_ledger tt l'
    (NonceCurrent (NonceInitialized old_nonce)) old_nonce); [..|exact E]; by vm_compute.
Defined.

Lemma nonce_always_advances_witness :
  exists l' v' d', advance_all SystemExample.hashv
      [SystemExample.env; mkSystemEnv (pk_of_Z 78) 5000 true true true] nonce_key
      (get_signers [payer; nonce_key]) nonce_ledger = Ok (tt, l') /\
    account_state (acct l' nonce_key) = Ok v' /\ versions_state v' = NonceInitialized d' /\
    durable_nonce d' = SystemExample.hashv [DURABLE_NONCE_HASH_PREFIX; pk_bytes (pk_of_Z 78)].
Proof.
  destruct (nonce_always_advances SystemExample.hashv
      [SystemExample.env; mkSystemEnv (pk_of_Z 78) 5000 true true true] nonce_key
      (get_signers [payer; nonce_key]) nonce_ledger
      (NonceCurrent (NonceInitialized old_nonce)) old_nonce)
    as (l' & v' & d' & ? & ? & ? & ? & ?).
  - done.
  - by vm_compute.
  - done.
  - apply (bool_decide_eq_true (nonce_authority old_nonce ∈ get_signers [payer; nonce_key])).
    by vm_compute.
  - apply Nat.leb_le. by vm_compute.
  - repeat constructor; by vm_compute.
  - split; [|split; [|done]].
    + apply (bool_decide_eq_false (durable_nonce old_nonce = next_nonce SystemExample.hashv SystemExample.env)).
      by vm_compute.
    + apply (bool_decide_eq_false (next_nonce SystemExample.hashv SystemExample.env =
        next_nonce SystemExample.hashv (mkSystemEnv (pk_of_Z 78) 5000 true true true))).
      by vm_compute.
  - exists l', v', d'. split_and!; assumption.
Defined.

(** A withdrawal from an initialized nonce account to another account needs
    the signature of its authority, and either empties the account, which is
    then uninitialized and was not advanced in the same block, or leaves the
    rent-exempt minimum and the nonce as it was. *)
Lemma withdraw_keeps_rent_exempt hashv `{NonceBincode} env me x to rent signers l u l' v d :
  account_state (acct l me) = Ok v -> versions_state v = NonceInitialized d ->
  unsigned_key me <> unsigned_key to ->
  System.withdraw_nonce_account hashv env me x to rent signers l = Ok (u, l') ->
  nonce_authority d ∈ signers /\
  lamports (acct l' me) = lamports (acct l me) - x /\
  lamports (acct l' to) = lamports (acct l to) + x /\
  ((lamports (acct l' me) = 0 /\ durable_nonce d <> next_nonce hashv env /\
    account_state (acct l' me) = Ok (NonceCurrent NonceUninitialized)) \/
   (minimum_balance rent (length (data (acct l me))) <= lamports (acct l' me) /\
    data (acct l' me) = data (acct l me))).
Proof.
  intros Hv Hst Hne (signer & l1 & l2 & Hsig & Hs & Hle & -> & Hb & ->)%withdraw_Ok.
  apply withdraw_signer_Ok in Hsig as (v' & Hv' & Hsig).
  rewrite Hv in Hv'. injection Hv' as <-. rewrite Hst in Hsig.
  destruct Hsig as [-> [(-> & Hexp & a' & Ha' & ->)|[Hmin ->]]]; split; try done.
  all: ga_simpl.
  - pose proof (account_set_state_Ok _ _ _ Ha') as (El & _). rewrite El.
    split; [done|]. split; [done|]. left. split_and!; [lia|done|].
    by apply (state_after_set (NonceCurrent NonceUninitialized) (acct l me) a').
  - split; [done|]. split; [done|]. right. split; [lia|done].
Qed.

Lemma withdraw_keeps_rent_exempt_witness :
  exists l', System.withdraw_nonce_account SystemExample.hashv SystemExample.env nonce_key 2000000
      payee rent_default (get_signers [payer; nonce_key]) nonce_ledger = Ok (tt, l') /\
    lamports (acct l' nonce_key) = 0.
Proof.
  assert (is_Ok (System.withdraw_nonce_account SystemExample.hashv SystemExample.env nonce_key 2000000
    payee rent_default (get_signers [payer; nonce_key]) nonce_ledger) = true) as [[[] l'] E]%is_Ok_ex
    by (by vm_compute).
  exists l'. split; [exact E|].
  assert (unsigned_key nonce_key <> unsigned_key payee) as Hne
    by (apply (bool_decide_eq_false (unsigned_key nonce_key = unsigned_key payee)); by vm_compute).
  destruct (withdraw_keeps_rent_exempt SystemExample.hashv SystemExample.env nonce_key 2000000
    payee rent_default (get_signers [payer; nonce_key]) nonce_ledger tt l'
    (NonceCurrent (NonceInitialized old_nonce)) old_nonce ltac:(by vm_compute) eq_refl Hne E)
    as (_ & -> & _). by vm_compute.
Defined.

(** ** Errors *)

(** A nonce error survives its encoding as an instruction error, under both
    numberings, so a client can tell the four nonce errors apart. *)
Lemma nonce_error_roundtrip e b :
  instruction_to_nonce_error (nonce_to_instruction_error e b) b = Some e.
Proof. by destruct e, b. Qed.

(** With the feature that merges nonce errors into system errors, advancing
    a nonce when the recent blockhashes are empty reports the error in the old
    numbering: code 0, which a client decodes as no nonce error and which the
    system program also uses for an account already in use. *)
Lemma no_blockhashes_misreported hashv
    `{Bincode NonceVersions, Bincode (list (Hash * Z)), Bincode Rent} env me sysvar rest l :
  env_merge_nonce_error env = true -> unsigned_key sysvar = recent_blockhashes_id ->
  bincode_decode (data (acct l sysvar)) = Some ([] : list (Hash * Z)) ->
  exists e, System.execute hashv env (me :: sysvar :: rest) 0 AdvanceNonceAccount l = Err e /\
    instruction_to_nonce_error e (env_merge_nonce_error env) = None /\
    e = system_err SystemError.AccountAlreadyInUse.
Proof.
  intros Hm Hk Hd. exists (nonce_err NoRecentBlockhashes). rewrite Hm. split; [|done].
  unfold System.execute. do 3 fwd (done). unfold System.require_blockhashes, from_keyed_account.
  rewrite Hk, bool_decide_eq_true_2 by done. cbn -[recent_blockhashes_id get_account].
  unfold mbind, st_bind, account_ref, gets, lift. cbn -[get_account].
  by rewrite Hd.
Qed.

Definition blockhashes_account : KeyedAccount := mkKeyed false false recent_blockhashes_id.
Lemma no_blockhashes_misreported_witness :
  exists e, System.execute SystemExample.hashv SystemExample.env [nonce_key; blockhashes_account] 0
      AdvanceNonceAccount (<[recent_blockhashes_id := mkAccount 1 [x01] (pk_of_Z 9) false 0]> purse) = Err e /\
    instruction_to_nonce_error e true = None.
Proof.
  destruct (no_blockhashes_misreported SystemExample.hashv SystemExample.env nonce_key
    blockhashes_account [] (<[recent_blockhashes_id := mkAccount 1 [x01] (pk_of_Z 9) false 0]> purse)
    eq_refl eq_refl ltac:(by vm_compute)) as (e & He & Hd & _).
  exists e. split; [exact He|exact Hd].
Defined.
