(* ===== verification/Codec.v ===== *)
(** * Encodings in the layout of bincode

    Fixed-width little-endian integers, tags and lengths, combined into encodings
    of pairs, lists, options and maps, each with its round trip and its size.
    They instantiate the encodings that the programs take as parameters. *)

From Stdlib Require Import ZArith Lia.
From Stdlib Require Import Strings.Byte.
From stdpp Require Import prelude gmap numbers sorting list.
From S2P Require Import Prelude Sdk.

Record codec (A : Type) : Type := mkCodec {
  enc : A -> bytes;
  dec : bytes -> option (A * bytes);
  valid : A -> Prop;
  dec_enc : forall a rest, valid a -> dec (enc a ++ rest) = Some (a, rest);
}.
Arguments enc {A}. Arguments dec {A}. Arguments valid {A}. Arguments dec_enc {A}.

(** The encodings of fixed size. *)
Definition fixed {A} (c : codec A) (n : nat) : Prop := forall a, length (enc c a) = n.

Section Base.

Definition raw_dec (n : nat) (b : bytes) : option (bytes * bytes) :=
  if (length b <? n)%nat then None else Some (take n b, drop n b).

Lemma raw_dec_app n x rest : length x = n -> raw_dec n (x ++ rest) = Some (x, rest).
Proof.
  intros Hx. unfold raw_dec. rewrite length_app.
  destruct (Nat.ltb_spec (length x + length rest) n); [lia|].
  by rewrite take_app_length', drop_app_length'.
Qed.

(** An unsigned integer of [n] bytes. *)
Program Definition uint (n : nat) : codec Z := {|
  enc := to_le_bytes n;
  dec b := '(x, rest) ← raw_dec n b; Some (from_le_bytes x, rest);
  valid z := 0 <= z < 256 ^ Z.of_nat n;
|}.
Next Obligation.
  intros n a rest Ha. cbn. rewrite raw_dec_app by apply length_to_le_bytes. cbn.
  by rewrite from_to_le_bytes.
Qed.

Program Definition key : codec Pubkey := {|
  enc := pk_bytes;
  dec b := '(x, rest) ← raw_dec 32 b; Some (new_from_array x, rest);
  valid _ := True;
|}.
Next Obligation.
  intros a rest _. cbn -[raw_dec]. rewrite raw_dec_app by apply length_pk_bytes. cbn.
  by rewrite new_from_array_bytes.
Qed.
End Base.

Section Combinators.
Context {A B : Type} (c : codec A) (d : codec B).

Program Definition c_pair : codec (A * B) := {|
  enc p := enc c p.1 ++ enc d p.2;
  dec b := '(x, b) ← dec c b; '(y, b) ← dec d b; Some ((x, y), b);
  valid p := valid c p.1 /\ valid d p.2;
|}.
Next Obligation.
  intros [x y] rest [Hx Hy]. cbn in *. rewrite <- (assoc_L (++)), (dec_enc c) by done. cbn.
  by rewrite (dec_enc d).
Qed.

(** A type that is encoded as another one. *)
Program Definition iso (f : B -> A) (g : A -> B) (P : B -> Prop)
    (H : forall b, P b -> valid c (f b) /\ g (f b) = b) : codec B := {|
  enc b := enc c (f b);
  dec b := '(x, b) ← dec c b; Some (g x, b);
  valid := P;
|}.
Next Obligation.
  intros f g P Hfg a rest Ha. cbn. destruct (Hfg a Ha) as [Hv Eg]. rewrite (dec_enc c) by done.
  cbn. by rewrite Eg.
Qed.

Fixpoint dec_n (n : nat) (b : bytes) : option (list A * bytes) :=
  match n with
  | O => Some ([], b)
  | S n => '(x, b) ← dec c b; '(l, b) ← dec_n n b; Some (x :: l, b)
  end.

Lemma dec_n_enc l rest :
  Forall (valid c) l -> dec_n (length l) (concat (enc c <$> l) ++ rest) = Some (l, rest).
Proof.
  induction 1 as [|x l Hx Hl IH]; [done|]. cbn.
  rewrite <- (assoc_L (++)), (dec_enc c) by done. cbn. by rewrite IH.
Qed.

(** An array of [n] elements, without a length. *)
Program Definition c_array (n : nat) : codec (list A) := {|
  enc l := concat (enc c <$> l);
  dec := dec_n n;
  valid l := length l = n /\ Forall (valid c) l;
|}.
Next Obligation. intros n l rest [<- Hl]. by apply dec_n_enc. Qed.

(** A list after its length as a [u64]. *)
Program Definition c_vec : codec (list A) := {|
  enc l := to_le_bytes 8 (Z.of_nat (length l)) ++ concat (enc c <$> l);
  dec b := '(n, b) ← dec (uint 8) b; dec_n (Z.to_nat n) b;
  valid l := in_u64 (Z.of_nat (length l)) /\ Forall (valid c) l;
|}.
Next Obligation.
  intros l rest [Hlen Hl]. rewrite <- (assoc_L (++)).
  change (to_le_bytes 8 (Z.of_nat (length l))) with (enc (uint 8) (Z.of_nat (length l))).
  rewrite dec_enc.
  - cbn [mbind option_bind]. rewrite Nat2Z.id. by apply dec_n_enc.
  - unfold in_u64, u64_max in Hlen. cbn [valid uint].
    change (256 ^ Z.of_nat 8) with 18446744073709551616. lia.
Qed.

(** An option after a tag byte. *)
Definition opt_enc (o : option A) : bytes :=
  match o with Some x => x01 :: enc c x | None => [x00] end.
Definition opt_dec (b : bytes) : option (option A * bytes) :=
  match b with
  | x00 :: b => Some (None, b)
  | x01 :: b => '(x, b) ← dec c b; Some (Some x, b)
  | _ => None
  end.

Program Definition c_opt : codec (option A) := {|
  enc := opt_enc; dec := opt_dec; valid o := forall x, o = Some x -> valid c x;
|}.
Next Obligation. intros [x|] rest Hv; cbn; [|done]. rewrite (dec_enc c) by eauto. done. Qed.

Lemma fixed_pair n m : fixed c n -> fixed d m -> fixed c_pair (n + m).
Proof. intros Hc Hd [x y]. cbn. rewrite length_app, Hc, Hd. done. Qed.

Lemma length_concat_fixed n (l : list A) :
  fixed c n -> length (concat (enc c <$> l)) = (n * length l)%nat.
Proof. intros Hc. induction l as [|x l IH]; cbn; [lia|]. rewrite length_app, Hc, IH. lia. Qed.
End Combinators.

Lemma fixed_uint n : fixed (uint n) n.
Proof. intros a. apply length_to_le_bytes. Qed.
Lemma fixed_key : fixed key 32.
Proof. intros a. apply length_pk_bytes. Qed.

(** A signed integer of 64 bits, in two's complement. *)
Program Definition i64 : codec Z :=
  iso (uint 8) (fun z => z mod 2 ^ 64) (fun z => if z <? 2 ^ 63 then z else z - 2 ^ 64)
    (fun z => - 2 ^ 63 <= z < 2 ^ 63) _.
Next Obligation.
  intros z Hz. cbn beta in Hz |- *. cbn [valid uint]. change (256 ^ Z.of_nat 8) with (2 ^ 64).
  pose proof (Z.mod_pos_bound z (2 ^ 64)) as Hm. split; [lia|].
  destruct (Z.lt_ge_cases z 0).
  - rewrite <- (Z.mod_unique_pos z (2 ^ 64) (-1) (z + 2 ^ 64)) by lia.
    destruct (Z.ltb_spec (z + 2 ^ 64) (2 ^ 63)); lia.
  - rewrite Z.mod_small by lia. destruct (Z.ltb_spec z (2 ^ 63)); lia.
Qed.

Program Definition boolean : codec bool :=
  iso (uint 1) (fun b : bool => if b then 1 else 0) (fun z => z =? 1) (fun _ => True) _.
Next Obligation. by intros [] _. Qed.

(** A map, in the order of its keys. *)
Section Map.
Context {V : Type} (c : codec (Z * V)).

Definition key_le (p q : Z * V) : Prop := p.1 <= q.1.
#[local] Instance key_le_dec p q : Decision (key_le p q).
Proof. unfold key_le. apply _. Defined.

Definition sorted_entries (m : gmap Z V) : list (Z * V) := merge_sort key_le (map_to_list m).

Lemma sorted_entries_perm m : sorted_entries m ≡ₚ map_to_list m.
Proof. apply merge_sort_Permutation. Qed.

Program Definition c_map : codec (gmap Z V) :=
  iso (c_vec c) sorted_entries list_to_map
    (fun m => in_u64 (Z.of_nat (size m)) /\ forall k v, m !! k = Some v -> valid c (k, v)) _.
Next Obligation.
  intros m [Hs Hv]. cbn [valid c_vec]. split_and!.
  - by rewrite sorted_entries_perm, length_map_to_list.
  - rewrite sorted_entries_perm. apply Forall_forall. intros [k v] Hin%elem_of_map_to_list. eauto.
  - rewrite (list_to_map_proper _ (map_to_list m)).
    + apply list_to_map_to_list.
    + rewrite sorted_entries_perm. apply NoDup_fst_map_to_list.
    + apply sorted_entries_perm.
Qed.
End Map.
