(* ===== verification/ShortVec.v ===== *)
(** * Compact lengths (sdk/program/src/short_vec.rs)

    The length of a vector in a message is a [u16] in one to three bytes of seven
    bits each.  The encoding is one to one: every value is read back, and nothing
    but the encoding of a value is accepted. *)

From Stdlib Require Import ZArith Lia.
From Stdlib Require Import Strings.Byte.
From stdpp Require Import prelude numbers list.
From S2P Require Import Prelude Codec.

Definition MAX_ENCODING_LENGTH : nat := 3.

(** ** Encoding *)

(** The loop of [ShortU16::serialize]: seven bits per turn, so three turns for a
    [u16]. *)
Fixpoint serialize_loop (fuel : nat) (rem_val : Z) : bytes :=
  match fuel with
  | O => []
  | S fuel =>
      let elem := Z.land rem_val 0x7f in
      let rem_val := Z.shiftr rem_val 7 in
      if rem_val =? 0 then [byte_of_Z elem]
      else byte_of_Z (Z.lor elem 0x80) :: serialize_loop fuel rem_val
  end.
Definition serialize_shortu16 (v : Z) : bytes := serialize_loop MAX_ENCODING_LENGTH v.

(** ** Decoding *)

Inductive VisitStatus : Type := Done (v : Z) | More (v : Z).

Inductive VisitError : Type :=
| TooLong (len : Z) | TooShort (len : Z) | VisitOverflow (v : Z) | Alias | ByteThreeContinues.

(** [checked_shl] on [u32] *)
Definition checked_shl (x shift : Z) : option Z :=
  if shift <? 32 then Some (Z.shiftl x shift mod 2 ^ 32) else None.

Definition visit_byte (elem : byte) (val : Z) (nth_byte : nat) : outcome VisitError VisitStatus :=
  let elem := byte_to_Z elem in
  _ ← fail_if ((elem =? 0) && negb (nth_byte =? 0)%nat) Alias;
  let elem_val := Z.land elem 0x7f in
  let elem_done := Z.land elem 0x80 =? 0 in
  _ ← (if (MAX_ENCODING_LENGTH <=? nth_byte)%nat then Err (TooLong (Z.of_nat nth_byte + 1))
       else fail_if ((nth_byte =? MAX_ENCODING_LENGTH - 1)%nat && negb elem_done)
              ByteThreeContinues);
  let shift := Z.min u32_max (Z.of_nat nth_byte * 7) in
  let elem_val := default u32_max (checked_shl elem_val shift) in
  let new_val := Z.lor val elem_val in
  _ ← fail_if (u16_max <? new_val) (VisitOverflow new_val);
  Ok (if elem_done then Done new_val else More new_val).

(** The loop of [decode_shortu16_len] over the first three bytes; the value and how
    many bytes it took. *)
Fixpoint decode_loop (bs : bytes) (val : Z) (nth_byte : nat) : outcome unit (Z * nat) :=
  match bs with
  | [] => Err tt
  | b :: bs =>
      match visit_byte b val nth_byte with
      | Ok (More v) => decode_loop bs v (nth_byte + 1)
      | Ok (Done v) => Ok (v, (nth_byte + 1)%nat)
      | Err _ => Err tt
      | Panic => Panic
      end
  end.
Definition decode_shortu16_len (bs : bytes) : outcome unit (Z * nat) :=
  decode_loop (take MAX_ENCODING_LENGTH bs) 0 0.

(** [ShortU16Visitor::visit_seq]: the elements come one by one. *)
Fixpoint visit_seq (fuel : nat) (bs : bytes) (val : Z) (nth_byte : nat)
    : outcome VisitError (Z * bytes) :=
  match fuel with
  | O => Err ByteThreeContinues
  | S fuel =>
      match bs with
      | [] => Err (TooShort (Z.of_nat nth_byte + 1))
      | b :: bs =>
          s ← visit_byte b val nth_byte;
          match s with
          | Done v => Ok (v, bs)
          | More v => visit_seq fuel bs v (nth_byte + 1)
          end
      end
  end.
Definition deserialize_shortu16 (bs : bytes) : outcome VisitError (Z * bytes) :=
  visit_seq MAX_ENCODING_LENGTH bs 0 0.

(** ** Vectors *)

Section ShortVec.
Context {T : Type} (encode : T -> bytes) (decode : bytes -> option (T * bytes)).

(** [None] is the error "length larger than u16". *)
Definition short_vec_serialize (elements : list T) : option bytes :=
  if u16_max <? Z.of_nat (length elements) then None
  else Some (serialize_shortu16 (Z.of_nat (length elements)) ++ concat (encode <$> elements)).

Fixpoint visit_elements (n : nat) (bs : bytes) : option (list T * bytes) :=
  match n with
  | O => Some ([], bs)
  | S n => '(x, bs) ← decode bs; '(l, bs) ← visit_elements n bs; Some (x :: l, bs)
  end.

Definition short_vec_deserialize (bs : bytes) : option (list T * bytes) :=
  match deserialize_shortu16 bs with
  | Ok (len, bs) => visit_elements (Z.to_nat len) bs
  | _ => None
  end.
End ShortVec.

(** ** Bits *)

(** Linear arithmetic with quotients and remainders. *)
Ltac zlia := Z.div_mod_to_equations; lia.

Lemma land_7f z : Z.land z 0x7f = z mod 128.
Proof. change 0x7f with (Z.ones 7). by rewrite Z.land_ones. Qed.

Lemma byte_done b : (Z.land (byte_to_Z b) 0x80 =? 0) = (byte_to_Z b <? 128).
Proof. by destruct b. Qed.

Lemma lor_shift n a b : 0 <= n -> 0 <= a < 2 ^ n -> Z.lor a (Z.shiftl b n) = a + b * 2 ^ n.
Proof.
  intros Hn Ha. rewrite <- Z.shiftl_mul_pow2 by done. symmetry.
  assert (Z.land a (Z.shiftl b n) = 0) as Hland.
  { apply Z.bits_inj'. intros i Hi. rewrite Z.land_spec, Z.bits_0.
    destruct (Z.lt_ge_cases i n).
    - rewrite Z.shiftl_spec_low by done. apply andb_false_r.
    - rewrite <- (Z.mod_small a (2 ^ n)), Z.mod_pow2_bits_high by lia. done. }
  rewrite Z.add_nocarry_lxor by done. by apply Z.lxor_lor.
Qed.

(** ** One byte at a time *)

(** Encoding, by division: seven bits and the rest. *)
Lemma serialize_loop_S fuel v :
  0 <= v ->
  serialize_loop (S fuel) v =
    if v <? 128 then [byte_of_Z v]
    else byte_of_Z (v mod 128 + 128) :: serialize_loop fuel (v / 128).
Proof.
  intros Hv. cbn [serialize_loop]. rewrite land_7f, Z.shiftr_div_pow2 by done.
  change (2 ^ 7) with 128.
  rewrite (lor_shift 7 (v mod 128) 1 : _ -> _ -> Z.lor _ 0x80 = _)
    by first [lia | apply Z.mod_pos_bound; lia].
  destruct (Z.ltb_spec v 128), (Z.eqb_spec (v / 128) 0); [|exfalso; zlia..|done].
  by rewrite Z.mod_small by lia.
Qed.

(** Decoding of the byte [n]: the seven bits go above the [7 * n] bits read. *)
Definition step_value (b : byte) (val : Z) (n : nat) : Z :=
  val + byte_to_Z b mod 128 * 128 ^ Z.of_nat n.

Lemma visit_byte_eq b val n :
  (n < 3)%nat -> 0 <= val < 128 ^ Z.of_nat n ->
  visit_byte b val n =
    if (byte_to_Z b =? 0) && negb (n =? 0)%nat then Err Alias
    else if (n =? 2)%nat && (128 <=? byte_to_Z b) then Err ByteThreeContinues
    else if u16_max <? step_value b val n then Err (VisitOverflow (step_value b val n))
    else Ok (if byte_to_Z b <? 128 then Done (step_value b val n)
             else More (step_value b val n)).
Proof.
  intros Hn Hval. unfold visit_byte, checked_shl, step_value, MAX_ENCODING_LENGTH, u32_max.
  rewrite byte_done, land_7f, Z.leb_antisym.
  pose proof (Z.mod_pos_bound (byte_to_Z b) 128 ltac:(lia)) as Hm.
  set (x := byte_to_Z b mod 128) in *.
  assert (Hp : 128 ^ Z.of_nat n = 2 ^ (Z.of_nat n * 7)).
  { change 128 with (2 ^ 7). rewrite <- Z.pow_mul_r by lia. f_equal. lia. }
  rewrite Z.min_r by lia. destruct (Z.ltb_spec (Z.of_nat n * 7) 32); [|lia].
  assert (Hs : Z.shiftl x (Z.of_nat n * 7) mod 2 ^ 32 = Z.shiftl x (Z.of_nat n * 7)).
  { apply Z.mod_small. rewrite Z.shiftl_mul_pow2 by lia.
    destruct n as [|[|[|]]]; [cbn in *; lia..|lia]. }
  cbn [default from_option id]. rewrite Hs, lor_shift, <- Hp by (rewrite <- ?Hp; lia).
  rewrite (proj2 (Nat.leb_gt 3 n)) by lia. change (3 - 1)%nat with 2%nat. unfold fail_if.
  by destruct ((byte_to_Z b =? 0) && _), ((n =? 2)%nat && _), (u16_max <? _).
Qed.

(** ** Three bytes at most *)

Lemma pow_128_S k : 128 ^ Z.of_nat (k + 1) = 128 * 128 ^ Z.of_nat k.
Proof. rewrite Nat2Z.inj_add, Z.pow_add_r by lia. lia. Qed.

Lemma decode_loop_count bs val k w m : decode_loop bs val k = Ok (w, m) -> (k < m)%nat.
Proof.
  revert val k. induction bs as [|b bs IH]; intros val k; [done|]. cbn [decode_loop].
  destruct (visit_byte b val k) as [[]| |]; try done; [intros [= _ <-]; lia|].
  intros ?%IH. lia.
Qed.

(** What is encoded is read back, at byte [k] with [n] bytes to go. *)
Lemma decode_serialize n k v val rest :
  (n + k = 3)%nat -> 0 <= val < 128 ^ Z.of_nat k -> 0 <= v ->
  (k <> 0%nat -> v <> 0) -> val + v * 128 ^ Z.of_nat k <= u16_max ->
  decode_loop (serialize_loop n v ++ rest) val k
    = Ok (val + v * 128 ^ Z.of_nat k, (k + length (serialize_loop n v))%nat).
Proof.
  revert k v val. induction n as [|n IH]; intros k v val Hk Hval Hv Hnz Hmax.
  { replace k with 3%nat in * by lia. unfold u16_max in *. cbn in *. lia. }
  rewrite serialize_loop_S by done. destruct (Z.ltb_spec v 128) as [Hs|Hs].
  - cbn [app decode_loop length]. rewrite visit_byte_eq by (done || lia).
    unfold step_value. rewrite byte_to_of_Z, (Z.mod_small v 256), (Z.mod_small v 128) by lia.
    destruct (Z.eqb_spec v 0), (Nat.eqb_spec k 0); try (exfalso; lia); cbn [andb negb].
    all: rewrite (proj2 (Z.leb_gt 128 v)), andb_false_r by lia.
    all: rewrite (proj2 (Z.ltb_ge u16_max _)), (proj2 (Z.ltb_lt v 128)) by lia; done.
  - cbn [app decode_loop length]. rewrite visit_byte_eq by (done || lia).
    assert (Hm : 0 <= v mod 128 < 128) by (apply Z.mod_pos_bound; lia).
    unfold step_value. rewrite byte_to_of_Z, (Z.mod_small _ 256) by lia.
    replace ((v mod 128 + 128) mod 128) with (v mod 128) by zlia.
    pose proof (pow_128_S k) as Hpow.
    pose proof (Z.pow_pos_nonneg 128 (Z.of_nat k) ltac:(lia) ltac:(lia)).
    pose proof (Z.div_mod v 128 ltac:(lia)) as Hdm.
    assert (Hk2 : k <> 2%nat).
    { intros ->. unfold u16_max in *. cbn in *. nia. }
    destruct (Z.eqb_spec (v mod 128 + 128) 0); [lia|]. cbn [andb].
    rewrite (proj2 (Nat.eqb_neq k 2)) by done. cbn [andb].
    rewrite (proj2 (Z.ltb_ge u16_max _)), (proj2 (Z.ltb_ge _ 128)) by nia.
    rewrite IH; rewrite ?Hpow; [|lia|nia|zlia|zlia|nia].
    f_equal. f_equal; [nia|lia].
Qed.

(** What is accepted is an encoding. *)
Lemma decode_sound n k bs val w m :
  (n + k = 3)%nat -> 0 <= val < 128 ^ Z.of_nat k -> (length bs <= n)%nat ->
  decode_loop bs val k = Ok (w, m) ->
  exists v, take (m - k) bs = serialize_loop n v /\ w = val + v * 128 ^ Z.of_nat k
    /\ 0 <= v /\ (k <> 0%nat -> v <> 0) /\ w <= u16_max /\ (k < m)%nat.
Proof.
  revert k bs val. induction n as [|n IH]; intros k [|b bs] val Hk Hval Hl Hd; try done.
  { cbn in Hl. lia. }
  cbn in Hl.
  cbn [decode_loop] in Hd. rewrite visit_byte_eq in Hd by (done || lia).
  pose proof (byte_to_Z_range b) as Hb.
  destruct ((byte_to_Z b =? 0) && negb (k =? 0)%nat) eqn:Ha; [done|].
  destruct ((k =? 2)%nat && (128 <=? byte_to_Z b)); [done|].
  destruct (Z.ltb_spec u16_max (step_value b val k)) as [|Hmax]; [done|].
  unfold step_value in *.
  destruct (Z.ltb_spec (byte_to_Z b) 128) as [Hs|Hs].
  - injection Hd as <- <-. exists (byte_to_Z b).
    rewrite serialize_loop_S, (proj2 (Z.ltb_lt _ 128)), byte_of_to_Z by lia.
    rewrite (Z.mod_small _ 128) in * by lia.
    replace (k + 1 - k)%nat with 1%nat by lia.
    split_and!; [done|done|lia| |done|lia].
    intros Hk0 H0. rewrite H0, (proj2 (Nat.eqb_neq k 0)) in Ha by done. done.
  - pose proof (pow_128_S k) as Hpow.
    assert (Hm : byte_to_Z b mod 128 = byte_to_Z b - 128) by zlia.
    rewrite Hm in *.
    apply IH in Hd as (v & Ht & -> & Hv & Hnz & Hw & Hkm); [|lia|rewrite Hpow; nia|lia].
    specialize (Hnz ltac:(lia)). exists (byte_to_Z b - 128 + 128 * v).
    rewrite serialize_loop_S, (proj2 (Z.ltb_ge _ 128)) by lia.
    replace ((byte_to_Z b - 128 + 128 * v) mod 128 + 128) with (byte_to_Z b) by zlia.
    replace ((byte_to_Z b - 128 + 128 * v) / 128) with v by zlia.
    rewrite byte_of_to_Z. replace (m - k)%nat with (S (m - (k + 1))) by lia.
    cbn [take]. rewrite Ht. split_and!; [done|rewrite Hpow; lia|lia|lia|done|lia].
Qed.

(** The decoder over a stream of elements agrees with the one over a slice. *)
Lemma visit_seq_eq n k bs val w rest :
  visit_seq n bs val k = Ok (w, rest) <->
  exists m, decode_loop (take n bs) val k = Ok (w, m) /\ (k < m)%nat /\ rest = drop (m - k) bs.
Proof.
  revert k bs val. induction n as [|n IH]; intros k bs val; [naive_solver|].
  destruct bs as [|b bs]; [naive_solver|]. cbn [visit_seq take decode_loop].
  destruct (visit_byte b val k) as [[v|v]|e|]; cbn; [| |naive_solver..].
  - split.
    + intros [= <- <-]. exists (k + 1)%nat. replace (k + 1 - k)%nat with 1%nat by lia.
      split_and!; [done|lia|done].
    + intros (m & [= <- <-] & _ & ->). by replace (k + 1 - k)%nat with 1%nat by lia.
  - rewrite IH. split; intros (m & Hd & Hm & ->); exists m.
    + replace (m - k)%nat with (S (m - (k + 1))) by lia. split_and!; [done|lia|done].
    + pose proof (decode_loop_count _ _ _ _ _ Hd).
      replace (m - k)%nat with (S (m - (k + 1))) by lia. split_and!; [done|lia|done].
Qed.

Lemma serialize_loop_length n v : (length (serialize_loop n v) <= n)%nat.
Proof.
  revert v. induction n as [|n IH]; intros v; cbn; [lia|].
  case_match; cbn; [lia|]. specialize (IH (Z.shiftr v 7)). lia.
Qed.

Lemma serialize_loop_enough n m v :
  0 <= v < 128 ^ Z.of_nat n -> (0 < n)%nat -> (n <= m)%nat ->
  serialize_loop m v = serialize_loop n v.
Proof.
  revert m v. induction n as [|n IH]; intros [|m] v Hv Hn Hm; [lia..|].
  rewrite !serialize_loop_S by lia. destruct (Z.ltb_spec v 128); [done|].
  destruct n as [|n]; [cbn in Hv; lia|]. f_equal. apply IH; [|lia..].
  replace (S (S n)) with (S n + 1)%nat in Hv by lia. rewrite pow_128_S in Hv. zlia.
Qed.

Lemma decode_serialize_0 v rest :
  0 <= v <= u16_max ->
  decode_loop (serialize_loop 3 v ++ rest) 0 0 = Ok (v, length (serialize_loop 3 v)).
Proof.
  intros Hv. pose proof (decode_serialize 3 0 v 0 rest) as Hd. revert Hd.
  change (128 ^ Z.of_nat 0) with 1. rewrite Z.mul_1_r, Z.add_0_l, Nat.add_0_l.
  intros Hd. apply Hd; lia.
Qed.

Lemma decode_shortu16_len_iff bs v n :
  decode_shortu16_len bs = Ok (v, n) <->
  0 <= v <= u16_max /\ n = length (serialize_shortu16 v)
    /\ exists rest, bs = serialize_shortu16 v ++ rest.
Proof.
  unfold decode_shortu16_len, serialize_shortu16, MAX_ENCODING_LENGTH. split.
  - intros Hd. pose proof Hd as Hd'.
    apply (decode_sound 3 0) in Hd as (v' & Ht & Hw & Hv & _ & Hmax & Hn);
      [|done|done|rewrite length_take; lia].
    change (128 ^ Z.of_nat 0) with 1 in Hw. rewrite Z.mul_1_r, Z.add_0_l in Hw. subst v'.
    rewrite Nat.sub_0_r, take_take in Ht.
    apply (f_equal length) in Ht as Hl. rewrite length_take in Hl.
    pose proof (serialize_loop_length 3 v).
    assert (exists rest, bs = serialize_loop 3 v ++ rest) as [rest ->].
    { exists (drop (n `min` 3) bs). by rewrite <- Ht, take_drop. }
    rewrite take_app_ge in Hd' by lia.
    rewrite decode_serialize_0 in Hd' by done.
    assert (n = length (serialize_loop 3 v)) by congruence. eauto.
  - intros (Hv & -> & rest & ->). pose proof (serialize_loop_length 3 v).
    rewrite take_app_ge by lia. by apply decode_serialize_0.
Qed.

Lemma deserialize_shortu16_iff bs v rest :
  deserialize_shortu16 bs = Ok (v, rest) <->
  0 <= v <= u16_max /\ bs = serialize_shortu16 v ++ rest.
Proof.
  unfold deserialize_shortu16. rewrite visit_seq_eq. fold (decode_shortu16_len bs).
  setoid_rewrite decode_shortu16_len_iff. setoid_rewrite Nat.sub_0_r. split.
  - intros (m & (Hv & -> & r & ->) & _ & ->). by rewrite drop_app_length.
  - intros (Hv & ->). exists (length (serialize_shortu16 v)).
    rewrite drop_app_length. split; [by eauto|]. split; [|done].
    eapply (decode_loop_count (take 3 (serialize_shortu16 v ++ rest)) 0 0 v).
    apply decode_shortu16_len_iff. by eauto.
Qed.

Lemma visit_elements_concat {T} (c : codec T) l rest :
  Forall (valid c) l ->
  visit_elements (dec c) (length l) (concat (enc c <$> l) ++ rest) = Some (l, rest).
Proof.
  induction 1 as [|x l Hx Hl IH]; [done|]. cbn. rewrite <- app_assoc, dec_enc by done.
  cbn. by rewrite IH.
Qed.

Lemma short_vec_read_back {T} (c : codec T) l rest :
  Forall (valid c) l -> Z.of_nat (length l) <= u16_max ->
  exists bs, short_vec_serialize (enc c) l = Some bs
    /\ short_vec_deserialize (dec c) (bs ++ rest) = Some (l, rest).
Proof.
  intros Hl Hlen. unfold short_vec_serialize, short_vec_deserialize.
  destruct (Z.ltb_spec u16_max (Z.of_nat (length l))); [lia|]. eexists. split; [done|].
  rewrite <- app_assoc, (proj2 (deserialize_shortu16_iff _ (Z.of_nat (length l)) _))
    by (split; [lia|done]).
  rewrite Nat2Z.id. by apply visit_elements_concat.
Qed.

(** ** Claims *)

(** C33: compact lengths are one to one.  The slice decoder returns a value exactly
    when the slice starts with the encoding of that [u16], and says how long the
    encoding is; the stream decoder accepts the same and leaves what follows; three
    turns of the encoding loop are all it ever takes.  A vector written with a compact
    length is read back whatever follows it, and one longer than a [u16] can say is
    refused. *)
Theorem short_vec_one_to_one :
  (forall bs v n, decode_shortu16_len bs = Ok (v, n) <->
     0 <= v <= u16_max /\ n = length (serialize_shortu16 v)
       /\ exists rest, bs = serialize_shortu16 v ++ rest)
  /\ (forall bs v rest, deserialize_shortu16 bs = Ok (v, rest) <->
        0 <= v <= u16_max /\ bs = serialize_shortu16 v ++ rest)
  /\ (forall fuel v, (3 <= fuel)%nat -> 0 <= v <= u16_max ->
        serialize_loop fuel v = serialize_shortu16 v)
  /\ (forall T (c : codec T) l rest, Forall (valid c) l ->
        if u16_max <? Z.of_nat (length l) then short_vec_serialize (enc c) l = None
        else exists bs, short_vec_serialize (enc c) l = Some bs
               /\ short_vec_deserialize (dec c) (bs ++ rest) = Some (l, rest)).
Proof.
  split_and!; [apply decode_shortu16_len_iff|apply deserialize_shortu16_iff| |].
  - unfold u16_max, serialize_shortu16, MAX_ENCODING_LENGTH.
    intros fuel v Hf Hv. by apply serialize_loop_enough; cbn; lia.
  - intros T c l rest Hl. destruct (Z.ltb_spec u16_max (Z.of_nat (length l))) as [H|H].
    + unfold short_vec_serialize. by rewrite (proj2 (Z.ltb_lt _ _) H).
    + by apply short_vec_read_back.
Qed.
