(* ===== verification/ConfigProgram.v ===== *)
(** * The config program

    programs/config/src/lib.rs, config_processor.rs and config_instruction.rs.  A config
    account holds a list of keys, some of which must sign its updates, and then data
    that the program does not look at. *)

From Stdlib Require Import ZArith Lia.
From Stdlib Require Import Strings.Byte.
From stdpp Require Import prelude gmap numbers list.
From S2P Require Import Prelude Sdk Runtime SystemInstruction SystemProgram Codec ShortVec.

Definition config_program_id : Pubkey :=
  pk_of_Z 0x03064aa3002f74dcc86e43310f0c052af8c5da27f6104019a323efa000000000.

(** ** The layout of the keys *)

(** A [bool] is the byte 0 or 1, no other is accepted. *)
Definition bool_enc (b : bool) : bytes := if b then [x01] else [x00].
Definition bool_dec (bs : bytes) : option (bool * bytes) :=
  match bs with
  | x00 :: bs => Some (false, bs)
  | x01 :: bs => Some (true, bs)
  | _ => None
  end.
Program Definition strict_bool : codec bool := {|
  enc := bool_enc; dec := bool_dec; valid _ := True;
|}.
Next Obligation. by intros []. Qed.

(** [(Pubkey, bool)] *)
Definition config_key : codec (Pubkey * bool) := c_pair key strict_bool.

(** [ConfigKeys], with its keys in the layout of short_vec.rs *)
Abbreviation ConfigKeys := (list (Pubkey * bool)).

Definition config_keys_serialize (keys : ConfigKeys) : option bytes :=
  short_vec_serialize (enc config_key) keys.
Definition config_keys_deserialize (bs : bytes) : option (ConfigKeys * bytes) :=
  short_vec_deserialize (dec config_key) bs.

(** [ConfigKeys::serialized_size]; [unwrap] panics on more than [u16] keys. *)
Definition config_keys_size {E} (keys : ConfigKeys) : outcome E Z :=
  match config_keys_serialize keys with
  | Some bs => Ok (Z.of_nat (length bs))
  | None => Panic
  end.

(** The data after the keys.  The slice panics when it starts past the end. *)
Definition get_config_data (bs : bytes) : outcome unit bytes :=
  '(keys, _) ← ok_or (config_keys_deserialize bs) tt;
  e ← ok_or (config_keys_serialize keys) tt;
  if (length bs <? length e)%nat then Panic else Ok (drop (length e) bs).

Definition create_config_account (keys : ConfigKeys) (config_data : bytes) (x : Z)
    : outcome InstructionError AccountSharedData :=
  match config_keys_serialize keys with
  | Some e => Ok (mkAccount x (e ++ config_data) config_program_id false 0)
  | None => Panic
  end.

(** ** The processor *)

Definition PACKET_DATA_SIZE : nat := 1232.

(** [limited_deserialize::<ConfigKeys>] *)
Definition limited_keys (d : bytes) : outcome InstructionError ConfigKeys :=
  '(keys, rest) ← ok_or (config_keys_deserialize d) InvalidInstructionData;
  _ ← fail_if (PACKET_DATA_SIZE <? length d - length rest)%nat InvalidInstructionData;
  Ok keys.

(** The keys that are marked as signers *)
Definition signer_entries (keys : ConfigKeys) : list Pubkey :=
  (filter (fun p => p.2 = true) keys).*1.

Section Config.
Context (kas : list KeyedAccount) (config : KeyedAccount) (current : ConfigKeys).

(** The check of one signer of the new keys, the [counter]th *)
Definition check_new_signer (counter : nat) (signer : Pubkey) : outcome InstructionError unit :=
  if bool_decide (signer <> unsigned_key config) then
    signer_account ← ok_or (kas !! (counter + 1)%nat) MissingRequiredSignature;
    match signer_key signer_account with
    | None => Err MissingRequiredSignature
    | Some k =>
        _ ← fail_if (negb (bool_decide (k = signer))) MissingRequiredSignature;
        fail_if (negb (bool_decide (current = []))
                 && negb (bool_decide (signer ∈ signer_entries current)))
          MissingRequiredSignature
    end
  else
    match signer_key config with
    | None => Err MissingRequiredSignature
    | Some _ => Ok tt
    end.

(** The loop over the new signers; [counter] counts them. *)
Fixpoint check_new_signers (counter : nat) (signers : list Pubkey)
    : outcome InstructionError nat :=
  match signers with
  | [] => Ok counter
  | signer :: signers =>
      let counter := (counter + 1)%nat in
      _ ← check_new_signer counter signer;
      check_new_signers counter signers
  end.
End Config.

(** [data_as_mut_slice()[..data.len()].copy_from_slice(data)] *)
Definition write_front (d : bytes) (a : AccountSharedData)
    : outcome InstructionError AccountSharedData :=
  if (length (data a) <? length d)%nat then Panic
  else Ok (set_data (d ++ drop (length d) (data a)) a).

Module ConfigProgram.
Definition process_instruction (first : nat) (d : bytes) (kas : list KeyedAccount) : prog unit :=
  key_list ← lift (limited_keys d);
  config ← keyed_account_at_index kas first;
  a ← account_ref config;
  _ ← lift (fail_if (negb (bool_decide (owner a = config_program_id))) InvalidAccountOwner);
  '(current, _) ← lift (ok_or (config_keys_deserialize (data a)) InvalidAccountData);
  _ ← lift (fail_if (bool_decide (signer_entries current = [])
                     && bool_decide (signer_key config = None)) MissingRequiredSignature);
  counter ← lift (check_new_signers kas config current 0 (signer_entries key_list));
  _ ← lift (fail_if (negb (bool_decide (NoDup key_list))) InvalidArgument);
  _ ← lift (fail_if (counter <? length (signer_entries current))%nat MissingRequiredSignature);
  len ← ka_data_len config;
  _ ← lift (fail_if (len <? length d)%nat InvalidInstructionData);
  update_account [] config (write_front d).

(** ** Building instructions *)

Section Builders.
Context (serialize_system : SystemInstruction -> bytes).

(** [T::default()] and [T::max_space()] are arguments. *)
Definition initialize_account {E} (default_data : bytes) (config : Pubkey) : outcome E Instruction :=
  match config_keys_serialize [] with
  | Some e => Ok (mkInstruction config_program_id [meta_new config true] (e ++ default_data))
  | None => Panic
  end.

Definition create_account {E} (default_data : bytes) (max_space : Z) (from config : Pubkey) (x : Z)
    (keys : ConfigKeys) : outcome E (list Instruction) :=
  size ← config_keys_size keys;
  init ← initialize_account default_data config;
  Ok [ix_create_account serialize_system from config x (wrap64 (max_space + size))
        config_program_id; init].

Definition store {E} (config : Pubkey) (is_config_signer : bool) (keys : ConfigKeys)
    (d : bytes) : outcome E Instruction :=
  let metas := meta_new config is_config_signer ::
    ((fun k => meta_new k true) <$> filter (fun k => k <> config) (signer_entries keys)) in
  match config_keys_serialize keys with
  | Some e => Ok (mkInstruction config_program_id metas (e ++ d))
  | None => Panic
  end.
End Builders.
End ConfigProgram.
