(* ===== verification/ConfigFacts.v ===== *)
(** * Facts about the config program

    The layout of the keys is canonical, an update is signed for, and the instruction that
    [store] builds is accepted. *)

From Stdlib Require Import ZArith Lia.
From Stdlib Require Import Strings.Byte.
From stdpp Require Import prelude gmap numbers list.
From S2P Require Import Prelude Sdk Runtime SystemInstruction SystemProgram SystemFacts NoPanic Codec ShortVec ConfigProgram.

(** ** The layout is canonical *)

Lemma config_key_exact bs x rest : dec config_key bs = Some (x, rest) -> bs = enc config_key x ++ rest.
Proof.
  cbn -[raw_dec]. unfold raw_dec. destruct (Nat.ltb_spec (length bs) 32); [done|]. cbn [mbind option_bind].
  destruct (bool_dec (drop 32 bs)) as [[b bs']|] eqn:Hb; [|done]. intros [= <- <-]. cbn.
  rewrite pk_bytes_new by (rewrite length_take; lia). rewrite <- app_assoc.
  rewrite <- (take_drop 32 bs) at 1. f_equal.
  destruct (drop 32 bs) as [|[] ?]; try done; by injection Hb as <- <-.
Qed.

Lemma visit_elements_exact {T} (c : codec T) n bs l rest :
  (forall bs x rest, dec c bs = Some (x, rest) -> bs = enc c x ++ rest) ->
  visit_elements (dec c) n bs = Some (l, rest) -> length l = n /\ bs = concat (enc c <$> l) ++ rest.
Proof.
  intros Hc. revert bs l. induction n as [|n IH]; intros bs l Hv; cbn in Hv.
  - injection Hv as <- <-. done.
  - destruct (dec c bs) as [[x bs1]|] eqn:Hx; [|done]. cbn in Hv.
    destruct (visit_elements (dec c) n bs1) as [[l1 bs2]|] eqn:Hl; [|done]. cbn in Hv.
    injection Hv as <- <-. apply Hc in Hx as ->. destruct (IH _ _ Hl) as [<- ->]. cbn.
    by rewrite <- app_assoc.
Qed.

Lemma config_keys_exact bs keys rest :
  config_keys_deserialize bs = Some (keys, rest) ->
  exists e, config_keys_serialize keys = Some e /\ bs = e ++ rest.
Proof.
  unfold config_keys_deserialize, short_vec_deserialize, config_keys_serialize, short_vec_serialize.
  destruct (deserialize_shortu16 bs) as [[len bs']| |] eqn:Hd; [|done..].
  apply deserialize_shortu16_iff in Hd as [Hlen ->]. intros Hv.
  apply visit_elements_exact in Hv as [Hl ->]; [|apply config_key_exact].
  assert (Z.of_nat (length keys) = len) as -> by lia.
  destruct (Z.ltb_spec u16_max len); [lia|]. eexists. split; [done|]. by rewrite <- app_assoc.
Qed.

Lemma config_keys_read keys e rest :
  config_keys_serialize keys = Some e -> config_keys_deserialize (e ++ rest) = Some (keys, rest).
Proof.
  intros He. assert (Z.of_nat (length keys) <= u16_max) as Hlen.
  { unfold config_keys_serialize, short_vec_serialize in He. case_match eqn:E; [done|].
    by apply Z.ltb_ge in E. }
  destruct (short_vec_read_back config_key keys rest) as (e' & He' & Hd); [|done|].
  { apply Forall_forall. by intros [? ?] _. }
  unfold config_keys_serialize in He. rewrite He' in He. by injection He as <-.
Qed.

(** The slice in [get_config_data] is in range. *)
Lemma get_config_data_eq bs :
  get_config_data bs = match config_keys_deserialize bs with
                       | Some (_, rest) => Ok rest
                       | None => Err tt
                       end.
Proof.
  unfold get_config_data. destruct (config_keys_deserialize bs) as [[keys rest]|] eqn:Hd; [|done].
  cbn [ok_or mbind outcome_bind]. apply config_keys_exact in Hd as (e & -> & ->).
  cbn [ok_or mbind outcome_bind]. rewrite length_app.
  destruct (Nat.ltb_spec (length e + length rest) (length e)); [lia|].
  by rewrite drop_app_length.
Qed.

(** ** Signers *)

Lemma elem_of_signer_entries k keys : k ∈ signer_entries keys <-> (k, true) ∈ keys.
Proof.
  unfold signer_entries. rewrite list_elem_of_fmap. split.
  - intros ([k' b] & -> & [Hb Hin]%list_elem_of_filter). cbn in *. by subst.
  - intros Hin. exists (k, true). split; [done|]. by apply list_elem_of_filter.
Qed.

Lemma signer_entries_NoDup keys : NoDup keys -> NoDup (signer_entries keys).
Proof.
  intros Hnd. apply NoDup_fmap_2_strong; [|by apply NoDup_filter].
  intros [k b] [k' b'] [Hb _]%list_elem_of_filter [Hb' _]%list_elem_of_filter E. cbn in *. by subst.
Qed.

Section Checks.
Context (kas : list KeyedAccount) (config : KeyedAccount) (current : ConfigKeys).

(** A signer of the new keys signed; unless it is the config key, it was a signer
    before, once there are keys. *)
Definition signer_ok (n : nat) (k : Pubkey) : Prop :=
  if bool_decide (k = unsigned_key config) then is_signer config = true
  else (exists ka, kas !! n = Some ka /\ is_signer ka = true /\ unsigned_key ka = k) /\
       (current = [] \/ k ∈ signer_entries current).

Lemma check_new_signer_iff counter k :
  check_new_signer kas config current counter k = Ok tt <-> signer_ok (counter + 1) k.
Proof.
  unfold check_new_signer, signer_ok, signer_key.
  destruct (bool_decide_reflect (k = unsigned_key config)) as [->|Hk].
  { rewrite bool_decide_false by naive_solver. by destruct (is_signer config). }
  rewrite bool_decide_true by done.
  destruct (kas !! (counter + 1)%nat) as [ka|]; cbn; [|by split; [|intros [(? & ? & _) _]]].
  destruct (is_signer ka) eqn:Hs;
    [|split; [done|]; intros [(? & [= <-] & ? & _) _]; congruence].
  destruct (bool_decide_reflect (unsigned_key ka = k)) as [Ek|Ek]; cbn;
    [|split; [done|]; by intros [(? & [= <-] & _ & ?) _]].
  trans (current = [] \/ k ∈ signer_entries current); [|split; [eauto 10|by intros [_ ?]]].
  destruct (bool_decide_reflect (current = [])), (bool_decide_reflect (k ∈ signer_entries current));
    cbn; (split; [try done; auto|intros [?|?]; done]).
Qed.

Lemma check_new_signer_np counter k : check_new_signer kas config current counter k <> Panic.
Proof.
  unfold check_new_signer, signer_key. destruct (bool_decide _).
  - destruct (kas !! _) as [ka|]; cbn; [|done]. destruct (is_signer ka); [|done].
    destruct (bool_decide (unsigned_key ka = k)); cbn; [|done]. by destruct (_ && _)%bool.
  - by destruct (is_signer config).
Qed.

(** The only error *)
Lemma check_new_signer_err counter k :
  check_new_signer kas config current counter k = Ok tt \/
  check_new_signer kas config current counter k = Err MissingRequiredSignature.
Proof.
  unfold check_new_signer, signer_key. destruct (bool_decide _).
  - destruct (kas !! _) as [ka|]; cbn; [|auto]. destruct (is_signer ka); [|auto].
    destruct (bool_decide (unsigned_key ka = k)); cbn; [|auto]. destruct (_ && _)%bool; cbn; auto.
  - destruct (is_signer config); auto.
Qed.

Lemma check_new_signers_iff counter signers n :
  check_new_signers kas config current counter signers = Ok n <->
  n = (counter + length signers)%nat /\
  forall j k, signers !! j = Some k -> signer_ok (counter + j + 2) k.
Proof.
  revert counter. induction signers as [|k signers IH]; intros counter; cbn.
  - split; [intros [= <-]; split; [lia|done]|]. intros [-> _]. f_equal. lia.
  - rewrite bind_Ok. setoid_rewrite IH. split.
    + intros ([] & Hk%check_new_signer_iff & -> & Hrest). split; [lia|]. intros [|j] k' Hj.
      * injection Hj as <-. by replace (counter + 0 + 2)%nat with (counter + 1 + 1)%nat by lia.
      * replace (counter + S j + 2)%nat with (counter + 1 + j + 2)%nat by lia. by apply Hrest.
    + intros [-> Hall]. exists tt. split_and!.
      * apply check_new_signer_iff. replace (counter + 1 + 1)%nat with (counter + 0 + 2)%nat by lia.
        by apply Hall.
      * lia.
      * intros j k' Hj. replace (counter + 1 + j + 2)%nat with (counter + S j + 2)%nat by lia.
        by apply Hall.
Qed.

Lemma check_new_signers_err counter signers :
  (exists n, check_new_signers kas config current counter signers = Ok n) \/
  check_new_signers kas config current counter signers = Err MissingRequiredSignature.
Proof.
  revert counter. induction signers as [|k signers IH]; intros counter; cbn; [eauto|].
  destruct (check_new_signer_err (counter + 1) k) as [-> | ->]; cbn; auto.
Qed.
End Checks.

(** ** Updates *)

Record updated (first : nat) (d : bytes) (kas : list KeyedAccount) (l l' : ledger)
    (config : KeyedAccount) (keys current : ConfigKeys) : Prop := {
  up_config : kas !! first = Some config;
  up_keys : limited_keys d = Ok keys;
  up_owner : owner (acct l config) = config_program_id;
  up_current : exists rest, config_keys_deserialize (data (acct l config)) = Some (current, rest);
  up_config_signed : signer_entries current = [] -> is_signer config = true;
  up_signed : forall j k, signer_entries keys !! j = Some k -> signer_ok kas config current (j + 2) k;
  up_nodup : NoDup keys;
  up_enough : (length (signer_entries current) <= length (signer_entries keys))%nat;
  up_fits : (length d <= length (data (acct l config)))%nat;
  up_ledger : l' = <[unsigned_key config := set_data (d ++ drop (length d) (data (acct l config)))
                                              (acct l config)]> l;
}.

Lemma write_front_Ok d a a' :
  write_front d a = Ok a' <->
  (length d <= length (data a))%nat /\ a' = set_data (d ++ drop (length d) (data a)) a.
Proof. unfold write_front. destruct (Nat.ltb_spec (length (data a)) (length d)); naive_solver lia. Qed.

Lemma config_process_Ok first d kas l u l' :
  ConfigProgram.process_instruction first d kas l = Ok (u, l') ->
  exists config keys current, updated first d kas l l' config keys current.
Proof.
  unfold ConfigProgram.process_instruction. intros Hrun.
  apply st_bind_Ok in Hrun as (keys & ? & [Hkeys ->]%lift_Ok & Hrun).
  apply st_bind_Ok in Hrun as (config & ? & [Hconfig ->]%keyed_account_at_index_Ok & Hrun).
  apply st_bind_Ok in Hrun as (a & ? & [-> ->]%account_ref_Ok & Hrun).
  apply st_bind_Ok in Hrun as ([] & ? & [Ho%fail_if_Ok%negb_false_iff%bool_decide_eq_true ->]%lift_Ok & Hrun).
  apply st_bind_Ok in Hrun as ([current rest] & ? & [Hcur%ok_or_Ok ->]%lift_Ok & Hrun).
  apply st_bind_Ok in Hrun as ([] & ? & [Hcs%fail_if_Ok ->]%lift_Ok & Hrun).
  apply st_bind_Ok in Hrun as (n & ? & [[-> Hsig]%check_new_signers_iff ->]%lift_Ok & Hrun).
  apply st_bind_Ok in Hrun as ([] & ? & [Hnd%fail_if_Ok%negb_false_iff%bool_decide_eq_true ->]%lift_Ok & Hrun).
  apply st_bind_Ok in Hrun as ([] & ? & [Hn%fail_if_Ok%Nat.ltb_ge ->]%lift_Ok & Hrun).
  apply st_bind_Ok in Hrun as (? & ? & [-> ->]%ka_data_len_Ok & Hrun).
  apply st_bind_Ok in Hrun as ([] & ? & [Hlen ->]%lift_Ok & Hrun).
  apply update_account_Ok in Hrun as (_ & a' & [Hfits ->]%write_front_Ok & ->).
  exists config, keys, current. split; try done; [by eauto|].
  intros E. rewrite bool_decide_true in Hcs by done. cbn in Hcs.
  apply bool_decide_eq_false in Hcs. unfold signer_key in Hcs. by destruct (is_signer config).
Qed.

Lemma limited_keys_np d : limited_keys d <> Panic.
Proof.
  unfold limited_keys. destruct (config_keys_deserialize d) as [[keys rest]|]; [|done]. cbn -[Nat.ltb].
  by destruct (_ <? _)%nat.
Qed.

Lemma config_process_np first d kas l : ConfigProgram.process_instruction first d kas l <> Panic.
Proof.
  unfold ConfigProgram.process_instruction.
  apply st_bind_np; [apply lift_np, limited_keys_np|intros keys ? _].
  apply st_bind_np; [np|intros config ? _]. apply st_bind_np; [done|intros a ? _].
  apply st_bind_np; [np|intros _ ? _]. apply st_bind_np; [np|intros [current rest] ? _].
  apply st_bind_np; [np|intros _ ? _].
  apply st_bind_np.
  { apply lift_np. destruct (check_new_signers_err kas config current 0 (signer_entries keys))
      as [[n ->]| ->]; done. }
  intros n ? _. apply st_bind_np; [np|intros _ ? _]. apply st_bind_np; [np|intros _ l1 _].
  apply st_bind_np; [np|intros len ? [-> ->]%ka_data_len_Ok].
  apply st_bind_np; [np|intros _ ? [Hlen%fail_if_Ok%Nat.ltb_ge ->]%lift_Ok].
  apply update_np. by rewrite (proj2 (write_front_Ok d _ _) (conj Hlen eq_refl)).
Qed.

Lemma filter_ne_all (k : Pubkey) (S : list Pubkey) :
  k ∉ S -> filter (fun k' => k' <> k) S = S.
Proof.
  induction S as [|x S IH]; [done|]. intros [Hx HS]%not_elem_of_cons.
  rewrite filter_cons_True by done. by rewrite IH.
Qed.

Lemma filter_ne_length (k : Pubkey) (S : list Pubkey) :
  NoDup S -> (length S <= length (filter (fun k' => k' <> k) S) + 1)%nat.
Proof.
  induction 1 as [|x S Hx HS IH]; [cbn; lia|]. destruct (decide (x = k)) as [->|Hne].
  - rewrite filter_cons_False, filter_ne_all by naive_solver. cbn. lia.
  - rewrite filter_cons_True by done. cbn. lia.
Qed.

Section Updated.
Context {first : nat} {d : bytes} {kas : list KeyedAccount} {l l' : ledger}.
Context {config : KeyedAccount} {keys current : ConfigKeys}.
Context (Hup : updated first d kas l l' config keys current).

Lemma updated_reads :
  exists rest, config_keys_deserialize (data (acct l' config)) = Some (keys, rest).
Proof.
  pose proof (up_keys _ _ _ _ _ _ _ _ Hup) as Hk. unfold limited_keys in Hk.
  destruct (config_keys_deserialize d) as [[keys' rest]|] eqn:Hd; [|done]. cbn -[Nat.ltb] in Hk.
  destruct (_ <? _)%nat; [done|]. injection Hk as ->.
  apply config_keys_exact in Hd as (e & He & Ed).
  rewrite (up_ledger _ _ _ _ _ _ _ _ Hup), get_account_insert_eq. cbn [data set_data].
  generalize (drop (length d) (data (acct l config))). intros r. rewrite Ed, <- app_assoc.
  eexists. by apply config_keys_read.
Qed.

Lemma new_signers_signed k : k ∈ signer_entries keys -> k ∈ get_signers kas.
Proof.
  intros [j Hj]%list_elem_of_lookup. apply (up_signed _ _ _ _ _ _ _ _ Hup) in Hj.
  unfold signer_ok in Hj. apply elem_of_get_signers.
  case_bool_decide; [|destruct Hj as [(ka & Hka & ? & ?) _]; exists ka; split; [|done];
    by eapply list_elem_of_lookup_2].
  exists config. split_and!; [|done..]. eapply list_elem_of_lookup_2, up_config, Hup.
Qed.

Lemma new_signers_known k :
  current <> [] -> k ∈ signer_entries keys -> k = unsigned_key config \/ k ∈ signer_entries current.
Proof.
  intros Hc [j Hj]%list_elem_of_lookup. apply (up_signed _ _ _ _ _ _ _ _ Hup) in Hj.
  unfold signer_ok in Hj. case_bool_decide; [by left|]. destruct Hj as [_ [?|?]]; [done|by right].
Qed.

(** Stored signers that did not sign, and the new signers other than the config key,
    are as many as the stored signers at most. *)
Lemma missing_signers M :
  current <> [] -> NoDup M -> (forall k, k ∈ M -> k ∈ signer_entries current /\ k ∉ get_signers kas) ->
  (length M + length (filter (fun k => k <> unsigned_key config) (signer_entries keys)) <=
   length (signer_entries keys))%nat.
Proof.
  intros Hc HM Hmiss. pose proof (up_enough _ _ _ _ _ _ _ _ Hup).
  rewrite <- length_app. etrans; [|done]. apply submseteq_length, NoDup_submseteq.
  - apply NoDup_app. split_and!; [done| |].
    + intros k HkM [_ Hk]%list_elem_of_filter. apply (Hmiss k HkM). by apply new_signers_signed.
    + apply NoDup_filter, signer_entries_NoDup, Hup.
  - intros k [HkM|[Hne Hk]%list_elem_of_filter]%elem_of_app; [by apply Hmiss|].
    by destruct (new_signers_known k Hc Hk).
Qed.
End Updated.

(** ** Stored by [store] *)

(** The accounts a program gets for an instruction: the program itself comes first. *)
Definition accounts_for (ix : Instruction) : list KeyedAccount :=
  mkKeyed false false (ix_program_id ix) ::
  ((fun m => mkKeyed (meta_is_signer m) (meta_is_writable m) (meta_pubkey m)) <$> ix_accounts ix).

(** The config key comes after the other signers, if it is one. *)
Definition config_last (c : Pubkey) (S : list Pubkey) : Prop :=
  forall j, S !! j = Some c -> length S = (j + 1)%nat.

Lemma config_last_cases c S :
  NoDup S ->
  (config_last c S /\ ((c ∉ S) \/ exists pre, S = pre ++ [c] /\ c ∉ pre)) \/
  (~ config_last c S /\ exists pre k post, S = pre ++ c :: k :: post /\ (c ∉ pre) /\ k <> c /\
     (c ∉ post) /\ (k ∉ post)).
Proof.
  intros Hnd. destruct (decide (c ∈ S)) as [Hc|Hc].
  2: { left. split; [|by left]. intros j Hj. by apply list_elem_of_lookup_2 in Hj. }
  apply list_elem_of_split in Hc as (pre & post & ->).
  apply NoDup_app in Hnd as (_ & Hdis & [Hc Hnd]%NoDup_cons).
  assert (c ∉ pre) as Hpre by (intros Hin; by apply (Hdis c Hin), list_elem_of_here).
  destruct post as [|k post].
  - left. split; [|eauto]. intros j Hj. rewrite length_app. cbn.
    apply lookup_app_Some in Hj as [Hj|[Hle Hj]]; [by apply list_elem_of_lookup_2 in Hj|].
    apply lookup_lt_Some in Hj. cbn in Hj. lia.
  - right. apply not_elem_of_cons in Hc as [Hck Hc]. apply NoDup_cons in Hnd as [Hk _]. split.
    + intros Hlast. specialize (Hlast (length pre)). rewrite list_lookup_middle in Hlast by done.
      specialize (Hlast eq_refl). rewrite length_app in Hlast. cbn in Hlast. lia.
    + exists pre, k, post. by split_and!.
Qed.

Section Store.
Context (config : Pubkey) (csigner : bool) (keys current : ConfigKeys) (d e rest : bytes).
Context (l : ledger).

Record storable : Prop := {
  sb_nodup : NoDup keys;
  sb_encoding : config_keys_serialize keys = Some e;
  sb_limit : (length e <= PACKET_DATA_SIZE)%nat;
  sb_owner : owner (get_account l config) = config_program_id;
  sb_current : config_keys_deserialize (data (get_account l config)) = Some (current, rest);
  sb_fits : (length (e ++ d) <= length (data (get_account l config)))%nat;
  sb_config : signer_entries current = [] \/ config ∈ signer_entries keys -> csigner = true;
  sb_known : forall k, current <> [] -> k ∈ signer_entries keys ->
    k = config \/ k ∈ signer_entries current;
  sb_enough : (length (signer_entries current) <= length (signer_entries keys))%nat;
}.
Context (Hs : storable).

Definition store_ix : Instruction :=
  mkInstruction config_program_id
    (meta_new config csigner ::
     ((fun k => meta_new k true) <$> filter (fun k => k <> config) (signer_entries keys))) (e ++ d).

Lemma store_eq {E} : ConfigProgram.store (E:=E) config csigner keys d = Ok store_ix.
Proof. unfold ConfigProgram.store. by rewrite (sb_encoding Hs). Qed.

Lemma store_account j :
  accounts_for store_ix !! (j + 2)%nat =
  (fun k => mkKeyed true true k) <$> filter (fun k => k <> config) (signer_entries keys) !! j.
Proof.
  replace (j + 2)%nat with (S (S j)) by lia. unfold accounts_for, store_ix. cbn [ix_accounts].
  rewrite fmap_cons, !lookup_cons, !list_lookup_fmap.
  by destruct (filter _ _ !! j).
Qed.

Lemma limited_store : limited_keys (e ++ d) = Ok keys.
Proof.
  unfold limited_keys. rewrite (config_keys_read keys e d) by apply Hs. cbn [ok_or mbind outcome_bind].
  rewrite length_app. pose proof (sb_limit Hs).
  destruct (Nat.ltb_spec PACKET_DATA_SIZE (length e + length d - length d)); [lia|done].
Qed.

Abbreviation config_ka := (mkKeyed csigner true config).

Lemma store_signed j k :
  config_last config (signer_entries keys) -> signer_entries keys !! j = Some k ->
  signer_ok (accounts_for store_ix) config_ka current (j + 2) k.
Proof.
  intros Hlast Hj. unfold signer_ok. cbn [unsigned_key is_signer].
  pose proof (list_elem_of_lookup_2 _ _ _ Hj) as Hin.
  case_bool_decide as Hk; [subst; apply (sb_config Hs); by right|]. split.
  - exists (mkKeyed true true k). split; [|done]. rewrite store_account.
    destruct (config_last_cases config _ (signer_entries_NoDup _ (sb_nodup Hs)))
      as [[_ Hc]|[? _]]; [|done].
    destruct Hc as [Hc|(pre & E & Hc)]; [by rewrite filter_ne_all, Hj|].
    rewrite E in Hj |- *. rewrite filter_app, filter_cons_False, filter_ne_all by naive_solver.
    rewrite filter_nil, app_nil_r.
    apply lookup_app_Some in Hj as [-> |[_ Hj]]; [done|].
    apply list_elem_of_lookup_2, list_elem_of_singleton in Hj. done.
  - destruct (decide (current = [])); [by left|right]. by destruct (sb_known Hs k).
Qed.

Lemma store_unsigned :
  ~ config_last config (signer_entries keys) ->
  exists j k, signer_entries keys !! j = Some k /\
    ~ signer_ok (accounts_for store_ix) config_ka current (j + 2) k.
Proof.
  intros Hlast.
  destruct (config_last_cases config _ (signer_entries_NoDup _ (sb_nodup Hs)))
    as [[? _]|(_ & pre & k & post & E & Hpre & Hk & Hpost & Hkp)]; [done|].
  exists (length pre + 1)%nat, k. split.
  { rewrite E, lookup_app_r by lia. by replace (length pre + 1 - length pre)%nat with 1%nat by lia. }
  unfold signer_ok. cbn [unsigned_key]. rewrite bool_decide_false by done.
  intros [(ka & Hka & _ & Eka) _]. rewrite store_account, E in Hka.
  rewrite filter_app, filter_cons_False, filter_cons_True, !filter_ne_all in Hka by naive_solver.
  rewrite lookup_app_r in Hka by lia.
  replace (length pre + 1 - length pre)%nat with 1%nat in Hka by lia. cbn in Hka.
  destruct (post !! 0%nat) as [k'|] eqn:Hk'; [|done]. cbn in Hka. injection Hka as <-.
  cbn in Eka. subst. by apply list_elem_of_lookup_2 in Hk'.
Qed.

(** The statements before the signers are checked *)
Lemma store_prefix :
  ConfigProgram.process_instruction 1 (e ++ d) (accounts_for store_ix) l =
  (counter ← lift (check_new_signers (accounts_for store_ix) config_ka current 0 (signer_entries keys));
   _ ← lift (fail_if (negb (bool_decide (NoDup keys))) InvalidArgument);
   _ ← lift (fail_if (counter <? length (signer_entries current))%nat MissingRequiredSignature);
   len ← ka_data_len config_ka;
   _ ← lift (fail_if (len <? length (e ++ d))%nat InvalidInstructionData);
   update_account [] config_ka (write_front (e ++ d))) l.
Proof.
  unfold ConfigProgram.process_instruction. fwd (apply lift_run, limited_store).
  assert (keyed_account_at_index (accounts_for store_ix) 1 l = Ok (config_ka, l)) as Hme by done.
  assert (account_ref config_ka l = Ok (get_account l config, l)) as Ha by done.
  fwd (exact Hme). fwd (exact Ha).
  fwd (apply lift_run; rewrite bool_decide_true by apply Hs; done).
  fwd (apply lift_run; by rewrite (sb_current Hs)).
  assert (bool_decide (signer_entries current = []) && bool_decide (signer_key config_ka = None)
          = false) as Hcs.
  { unfold signer_key. cbn [is_signer unsigned_key].
    destruct (bool_decide_reflect (signer_entries current = [])) as [Hc|]; [|done].
    by rewrite (sb_config Hs) by auto. }
  fwd (apply (lift_run _ _ tt), fail_if_Ok, Hcs). done.
Qed.

Lemma store_result :
  (config_last config (signer_entries keys) ->
   ConfigProgram.process_instruction 1 (ix_data store_ix) (accounts_for store_ix) l =
   Ok (tt, <[config := set_data ((e ++ d) ++ drop (length (e ++ d)) (data (get_account l config)))
                         (get_account l config)]> l)) /\
  (~ config_last config (signer_entries keys) ->
   ConfigProgram.process_instruction 1 (ix_data store_ix) (accounts_for store_ix) l =
   Err MissingRequiredSignature).
Proof.
  cbn [ix_data store_ix]. rewrite store_prefix. split; intros Hlast.
  - fwd (apply lift_run, check_new_signers_iff; split; [done|]; intros j k Hj; by apply store_signed).
    fwd (apply lift_run; by rewrite bool_decide_true by apply Hs).
    pose proof (sb_enough Hs). pose proof (sb_fits Hs).
    fwd (apply (lift_run _ _ tt), fail_if_Ok, Nat.ltb_ge; lia).
    fwd (apply ka_data_len_run). fwd (apply (lift_run _ _ tt), fail_if_Ok, Nat.ltb_ge; done).
    by apply update_account_run, write_front_Ok.
  - destruct (check_new_signers_err (accounts_for store_ix) config_ka current 0 (signer_entries keys))
      as [[n Hn]|Herr].
    + apply check_new_signers_iff in Hn as [_ Hall].
      destruct (store_unsigned Hlast) as (j & k & Hj & Hno). by destruct (Hno (Hall j k Hj)).
    + unfold mbind at 1, st_bind at 1, lift at 1. by rewrite Herr.
Qed.
End Store.
