(* ===== verification/ConfigTheorems.v ===== *)
(** * Theorems about the config program *)

From Stdlib Require Import ZArith Lia.
From Stdlib Require Import Strings.Byte.
From stdpp Require Import prelude gmap numbers list.
From S2P Require Import Prelude Sdk Runtime SystemInstruction SystemProgram SystemFacts Codec ShortVec ConfigProgram ConfigFacts.


(** An update built by [store] for an account it fits, with the signatures it asks
    for, is applied: the keys and then the data are read back.  It takes that the config
    key, if it signs, is the last signer of the list: [store] leaves it out of the
    accounts while the program counts it, so that with the config key before another
    signer the same update is refused. *)
Theorem config_store_exact config csigner keys current d e rest l :
  storable config csigner keys current d e rest l ->
  exists ix, ConfigProgram.store (E:=InstructionError) config csigner keys d = Ok ix /\
    (config_last config (signer_entries keys) ->
     exists l' rest',
       ConfigProgram.process_instruction 1 (ix_data ix) (accounts_for ix) l = Ok (tt, l') /\
       config_keys_deserialize (data (get_account l' config)) = Some (keys, d ++ rest') /\
       get_config_data (data (get_account l' config)) = Ok (d ++ rest')) /\
    (~ config_last config (signer_entries keys) ->
     ConfigProgram.process_instruction 1 (ix_data ix) (accounts_for ix) l =
     Err MissingRequiredSignature).
Proof.
  intros Hs. exists (store_ix config csigner keys d e). split; [by eapply store_eq|].
  destruct (store_result _ _ _ _ _ _ _ _ Hs) as [Hok Herr]. split; [|done]. intros Hlast.
  eexists _, _. split; [by apply Hok|]. rewrite get_account_insert_eq. cbn [data set_data].
  rewrite get_config_data_eq, <- app_assoc, (config_keys_read keys e) by apply Hs. done.
Qed.

(** The config key takes the place of a stored signer: with A and B stored, an update
    that lists A and the config key is applied with their signatures alone, and removes
    B. *)
Theorem config_key_replaces_signer config A B d l rest :
  config <> A -> config <> B -> A <> B ->
  owner (get_account l config) = config_program_id ->
  config_keys_deserialize (data (get_account l config)) = Some ([(A, true); (B, true)], rest) ->
  (67 + length d <= length (data (get_account l config)))%nat ->
  exists ix l' rest',
    ConfigProgram.store (E:=InstructionError) config true [(A, true); (config, true)] d = Ok ix /\
    ConfigProgram.process_instruction 1 (ix_data ix) (accounts_for ix) l = Ok (tt, l') /\
    config_keys_deserialize (data (get_account l' config))
      = Some ([(A, true); (config, true)], d ++ rest') /\
    B ∉ get_signers (accounts_for ix).
Proof.
  intros HA HB HAB Ho Hc Hlen. set (keys := [(A, true); (config, true)]).
  destruct (config_keys_serialize keys) as [e|] eqn:He; [|done].
  assert (length e = 67%nat) as Hel.
  { injection He as <-. cbn. by rewrite !length_app, !length_pk_bytes. }
  assert (storable config true keys [(A, true); (B, true)] d e rest l) as Hs.
  { split; try done.
    - apply NoDup_cons. split; [|apply NoDup_singleton]. intros ?%list_elem_of_singleton. congruence.
    - rewrite Hel. unfold PACKET_DATA_SIZE. lia.
    - rewrite length_app. lia.
    - intros k _ [-> |[-> |[]%not_elem_of_nil]%elem_of_cons]%elem_of_cons; [right; by left|by left]. }
  destruct (store_result _ _ _ _ _ _ _ _ Hs) as [Hok _].
  eexists _, _, _. split_and!; [by eapply store_eq|apply Hok| |].
  - intros [|[|j]] Hj; [|done|done]. injection Hj as ->. done.
  - rewrite get_account_insert_eq. cbn [data set_data].
    by rewrite <- app_assoc, (config_keys_read keys e).
  - intros (ka & Hin & Hsig & Ek)%elem_of_get_signers. revert Hin. unfold accounts_for, store_ix.
    cbn [ix_accounts ix_program_id]. unfold keys. cbn [signer_entries].
    change (signer_entries [(A, true); (config, true)]) with [A; config].
    rewrite filter_cons_True, filter_cons_False by naive_solver. rewrite filter_nil, !fmap_cons.
    intros [-> |Hin]%elem_of_cons; [discriminate Hsig|].
    apply elem_of_cons in Hin as [-> |Hin]; [cbn in Ek; congruence|].
    apply elem_of_cons in Hin as [-> |Hin]; [cbn in Ek; congruence|].
    by apply not_elem_of_nil in Hin.
Qed.

(** ** An account with two signers *)

Module ConfigExample.
Definition C : Pubkey := pk_of_Z 3.
Definition A : Pubkey := pk_of_Z 1.
Definition B : Pubkey := pk_of_Z 2.
Definition keys : ConfigKeys := [(A, true); (B, true)].
Definition encoded : bytes := default [] (config_keys_serialize keys).
Definition ledger0 : ledger :=
  {[ C := mkAccount 1 (encoded ++ replicate 20 x00) config_program_id false 0 ]}.

Lemma account0 :
  config_keys_deserialize (data (get_account ledger0 C)) = Some (keys, replicate 20 x00) /\
  owner (get_account ledger0 C) = config_program_id /\ length (data (get_account ledger0 C)) = 87%nat.
Proof. split_and!; vm_compute; reflexivity. Qed.

Lemma storable0 : storable C false keys keys [x05] encoded (replicate 20 x00) ledger0.
Proof.
  destruct account0 as (Hk & Ho & Hlen). split.
  - apply (bool_decide_eq_true_1 _). vm_compute. reflexivity.
  - vm_compute. reflexivity.
  - apply Nat.leb_le. vm_compute. reflexivity.
  - exact Ho.
  - exact Hk.
  - rewrite Hlen. apply Nat.leb_le. vm_compute. reflexivity.
  - intros Hc. exfalso. destruct Hc as [Hc|Hc]; [vm_compute in Hc; discriminate Hc|].
    apply (bool_decide_eq_true_2 _) in Hc. vm_compute in Hc. discriminate Hc.
  - intros k _ Hk'. right. exact Hk'.
  - apply Nat.leb_le. vm_compute. reflexivity.
Qed.

Lemma last0 : config_last C (signer_entries keys).
Proof.
  intros j Hj. exfalso. assert (C ∈ signer_entries keys) as Hin
    by (eapply list_elem_of_lookup_2; exact Hj).
  apply (bool_decide_eq_true_2 _) in Hin. vm_compute in Hin. discriminate Hin.
Qed.

End ConfigExample.


Lemma config_store_exact_witness :
  exists ix, ConfigProgram.store (E:=InstructionError) ConfigExample.C false ConfigExample.keys [x05]
             = Ok ix /\
    exists l', ConfigProgram.process_instruction 1 (ix_data ix) (accounts_for ix)
                 ConfigExample.ledger0 = Ok (tt, l').
Proof.
  destruct (config_store_exact _ _ _ _ _ _ _ _ ConfigExample.storable0) as (ix & Hix & Hok & _).
  exists ix. split; [exact Hix|]. destruct (Hok ConfigExample.last0) as (l' & rest & Hl' & _).
  exists l'. exact Hl'.
Defined.

Lemma config_key_replaces_signer_witness :
  exists ix l', ConfigProgram.process_instruction 1 (ix_data ix) (accounts_for ix)
                  ConfigExample.ledger0 = Ok (tt, l') /\
    ConfigExample.B ∉ get_signers (accounts_for ix).
Proof.
  destruct ConfigExample.account0 as (Hk & Ho & Hlen).
  destruct (config_key_replaces_signer ConfigExample.C ConfigExample.A ConfigExample.B [x05]
    ConfigExample.ledger0 (replicate 20 x00)) as (ix & l' & rest & _ & Hrun & _ & HB).
  - apply (bool_decide_eq_true_1 _). vm_compute. reflexivity.
  - apply (bool_decide_eq_true_1 _). vm_compute. reflexivity.
  - apply (bool_decide_eq_true_1 _). vm_compute. reflexivity.
  - exact Ho.
  - exact Hk.
  - rewrite Hlen. apply Nat.leb_le. vm_compute. reflexivity.
  - exists ix, l'. split; [exact Hrun|exact HB].
Defined.
