(* ===== verification/MessageCompile.v ===== *)
(** * Building and sanitizing messages

    sdk/program/src/message/legacy.rs: how a list of instructions is compiled to a
    message that lists every key once, signers first and read-only keys last of
    their kind, and the checks on a message that arrives from outside. *)

From Stdlib Require Import ZArith Lia.
From Stdlib Require Import Strings.Byte.
From stdpp Require Import prelude gmap numbers relations sorting list.
From S2P Require Import Prelude Sdk Runtime SystemInstruction.

(** ** Compiling instructions *)

(** [unwrap] panics on a key that is not listed; the index is cast to [u8]. *)
Definition position {E} (keys : list Pubkey) (key : Pubkey) : outcome E nat :=
  match list_find (fun k => k = key) keys with
  | Some (i, _) => Ok (i mod 256)%nat
  | None => Panic
  end.

Definition compile_instruction {E} (ix : Instruction) (keys : list Pubkey)
    : outcome E CompiledInstruction :=
  accounts ← mapM (fun m => position keys (meta_pubkey m)) (ix_accounts ix);
  program_id_index ← position keys (ix_program_id ix);
  Ok (mkCompiled program_id_index accounts (ix_data ix)).

Definition compile_instructions {E} (ixs : list Instruction) (keys : list Pubkey)
    : outcome E (list CompiledInstruction) :=
  mapM (fun ix => compile_instruction ix keys) ixs.

(** ** Collecting keys *)

Record InstructionKeys : Type := mkInstructionKeys {
  signed_keys : list Pubkey;
  unsigned_keys : list Pubkey;
  ik_readonly_signed : Z;
  ik_readonly_unsigned : Z;
}.

(** The ids that are not in the set yet, which they then enter. *)
Fixpoint fresh_ids (seen : gset Pubkey) (ids : list Pubkey) : list Pubkey :=
  match ids with
  | [] => []
  | k :: ids => if bool_decide (k ∈ seen) then fresh_ids seen ids
                else k :: fresh_ids ({[k]} ∪ seen) ids
  end.
Definition get_program_ids (ixs : list Instruction) : list Pubkey :=
  fresh_ids ∅ (ix_program_id <$> ixs).

(** [y.is_signer.cmp(&x.is_signer).then(y.is_writable.cmp(&x.is_writable))] *)
Definition bool_cmp (a b : bool) : comparison :=
  match a, b with
  | true, false => Gt
  | false, true => Lt
  | _, _ => Eq
  end.
Definition meta_cmp (x y : AccountMeta) : comparison :=
  match bool_cmp (meta_is_signer y) (meta_is_signer x) with
  | Eq => bool_cmp (meta_is_writable y) (meta_is_writable x)
  | c => c
  end.

(** [sort_by], which is stable. *)
Fixpoint insert_meta (x : AccountMeta) (l : list AccountMeta) : list AccountMeta :=
  match l with
  | [] => [x]
  | y :: l' => match meta_cmp x y with
               | Gt => y :: insert_meta x l'
               | _ => x :: l
               end
  end.
Definition sort_metas (l : list AccountMeta) : list AccountMeta := foldr insert_meta [] l.

(** A key that is listed already is promoted to writable, another one is pushed. *)
Fixpoint push_meta (l : list AccountMeta) (m : AccountMeta) : list AccountMeta :=
  match l with
  | [] => [m]
  | x :: l => if bool_decide (meta_pubkey x = meta_pubkey m)
              then mkMeta (meta_pubkey x) (meta_is_signer x)
                     (meta_is_writable x || meta_is_writable m) :: l
              else x :: push_meta l m
  end.
Definition unique_metas (l : list AccountMeta) : list AccountMeta := foldl push_meta [] l.

(** The metas of all instructions and of the programs, sorted, after the payer. *)
Definition sorted_metas (ixs : list Instruction) (payer : option Pubkey) : list AccountMeta :=
  let programs := (fun k => mkMeta k false false) <$> get_program_ids ixs in
  let keys_and_signed := sort_metas (mjoin (ix_accounts <$> ixs) ++ programs) in
  match payer with
  | Some payer => mkMeta payer true true :: keys_and_signed
  | None => keys_and_signed
  end.

Definition count_readonly (l : list AccountMeta) : Z :=
  as_u8 (Z.of_nat (length (filter (fun m => meta_is_writable m = false) l))).

Definition get_keys (ixs : list Instruction) (payer : option Pubkey) : InstructionKeys :=
  let unique := unique_metas (sorted_metas ixs payer) in
  let signed := filter (fun m => meta_is_signer m = true) unique in
  let unsigned := filter (fun m => meta_is_signer m = false) unique in
  mkInstructionKeys (meta_pubkey <$> signed) (meta_pubkey <$> unsigned)
    (count_readonly signed) (count_readonly unsigned).

(** ** Messages *)

Definition new_with_compiled_instructions (num_required num_ro_signed num_ro_unsigned : Z)
    (account_keys : list Pubkey) (recent_blockhash : Hash)
    (instructions : list CompiledInstruction) : Message :=
  mkMessage (mkHeader num_required num_ro_signed num_ro_unsigned) account_keys recent_blockhash
    instructions.

Definition new_with_blockhash {E} (ixs : list Instruction) (payer : option Pubkey)
    (blockhash : Hash) : outcome E Message :=
  let ks := get_keys ixs payer in
  let num_required_signatures := as_u8 (Z.of_nat (length (signed_keys ks))) in
  let keys := signed_keys ks ++ unsigned_keys ks in
  instructions ← compile_instructions ixs keys;
  Ok (new_with_compiled_instructions num_required_signatures (ik_readonly_signed ks)
        (ik_readonly_unsigned ks) keys blockhash instructions).

Definition message_new {E} (ixs : list Instruction) (payer : option Pubkey) : outcome E Message :=
  new_with_blockhash ixs payer pk_default.

Definition new_with_nonce {E} (serialize : SystemInstruction -> bytes) (ixs : list Instruction)
    (payer : option Pubkey) (nonce_account nonce_authority : Pubkey) : outcome E Message :=
  message_new (ix_advance_nonce_account serialize nonce_account nonce_authority :: ixs) payer.

(** ** Accessors *)

(** Indexing out of range panics. *)
Definition key_at {E} (m : Message) (i : nat) : outcome E Pubkey :=
  match account_keys m !! i with Some k => Ok k | None => Panic end.

Definition program_index (m : Message) (i : nat) : option nat :=
  program_id_index <$> instructions m !! i.
Definition program_id {E} (m : Message) (i : nat) : outcome E (option Pubkey) :=
  match instructions m !! i with
  | Some ci => k ← key_at m (program_id_index ci); Ok (Some k)
  | None => Ok None
  end.
Definition program_ids {E} (m : Message) : outcome E (list Pubkey) :=
  mapM (fun ci => key_at m (program_id_index ci)) (instructions m).

Definition is_key_passed_to_program (m : Message) (key_index : nat) : bool :=
  if (key_index <=? 255)%nat
  then existsb (fun ci => bool_decide (key_index ∈ ci_accounts ci)) (instructions m)
  else false.
Definition is_non_loader_key (m : Message) (key_index : nat) : bool :=
  negb (is_key_called_as_program m key_index) || is_key_passed_to_program m key_index.

(** [position] does not look at the key when there is no program. *)
Definition program_position {E} (m : Message) (index : nat) : outcome E (option nat) :=
  ids ← program_ids m;
  match ids with
  | [] => Ok None
  | _ => k ← key_at m index; Ok (fst <$> list_find (fun k' => k' = k) ids)
  end.
Definition maybe_executable {E} (m : Message) (i : nat) : outcome E bool :=
  p ← program_position m i; Ok (bool_decide (is_Some p)).

Definition get_account_keys_by_lock_type (m : Message) : list Pubkey * list Pubkey :=
  let indexed := imap (fun i k => (msg_is_writable m i, k)) (account_keys m) in
  (snd <$> filter (fun p => p.1 = true) indexed, snd <$> filter (fun p => p.1 = false) indexed).

Definition signer_keys (m : Message) : list Pubkey :=
  take (length (account_keys m) `min` Z.to_nat (num_required_signatures (header m)))
    (account_keys m).

(** The pairs are compared from the front: [keys[i..].contains(&keys[i - 1])]. *)
Fixpoint has_duplicate_keys (keys : list Pubkey) : bool :=
  match keys with
  | [] => false
  | k :: keys => bool_decide (k ∈ keys) || has_duplicate_keys keys
  end.
Definition has_duplicates (m : Message) : bool := has_duplicate_keys (account_keys m).

(** ** Sanitizing *)

Inductive SanitizeError : Type := IndexOutOfBounds | ValueOutOfBounds | InvalidValue.

Definition sanitize_instruction (n : nat) (ci : CompiledInstruction) : outcome SanitizeError unit :=
  _ ← fail_if (n <=? program_id_index ci)%nat IndexOutOfBounds;
  _ ← fail_if (program_id_index ci =? 0)%nat IndexOutOfBounds;
  fail_if (existsb (fun ai => n <=? ai)%nat (ci_accounts ci)) IndexOutOfBounds.

Fixpoint sanitize_instructions (n : nat) (cis : list CompiledInstruction)
    : outcome SanitizeError unit :=
  match cis with
  | [] => Ok tt
  | ci :: cis => _ ← sanitize_instruction n ci; sanitize_instructions n cis
  end.

(** The keys, the hash and the instructions have nothing more to check. *)
Definition sanitize (m : Message) : outcome SanitizeError unit :=
  let h := header m in
  let n := length (account_keys m) in
  _ ← fail_if (Z.of_nat n <? num_required_signatures h + num_readonly_unsigned_accounts h)
        IndexOutOfBounds;
  _ ← fail_if (num_required_signatures h <=? num_readonly_signed_accounts h) IndexOutOfBounds;
  sanitize_instructions n (instructions m).
