(* ===== verification/MessageFacts.v ===== *)
(** * What a compiled message says

    The keys of a compiled message, and which of them sign and may be written. *)

From Stdlib Require Import ZArith Lia.
From Stdlib Require Import Strings.Byte.
From stdpp Require Import prelude gmap numbers relations sorting list.
From S2P Require Import Prelude Sdk Runtime SystemInstruction MessageCompile.

(** ** The order of metas *)

Definition rank (m : AccountMeta) : nat :=
  (if meta_is_signer m then 2 else 0) + (if meta_is_writable m then 1 else 0).

Lemma meta_cmp_rank x y : meta_cmp x y = Gt <-> (rank x < rank y)%nat.
Proof.
  unfold meta_cmp, rank. destruct x as [k s w], y as [k' s' w']; cbn.
  destruct s, w, s', w'; cbn; split; intros; try done; lia.
Qed.

Definition ranked (l : list AccountMeta) : Prop :=
  StronglySorted (fun x y => rank y <= rank x)%nat l.

Lemma insert_meta_perm x l : insert_meta x l ≡ₚ x :: l.
Proof.
  induction l as [|y l IH]; [done|]. cbn. destruct (meta_cmp x y); [done..|].
  rewrite IH. apply Permutation_swap.
Qed.

Lemma sort_metas_perm l : sort_metas l ≡ₚ l.
Proof. induction l as [|x l IH]; [done|]. cbn. by rewrite insert_meta_perm, IH. Qed.

Lemma insert_meta_ranked x l : ranked l -> ranked (insert_meta x l).
Proof.
  induction 1 as [|y l Hl IH Hy]; cbn; [by repeat constructor|].
  destruct (meta_cmp x y) eqn:E.
  1, 2: assert (rank y <= rank x)%nat by
    (destruct (Nat.le_gt_cases (rank y) (rank x)) as [|H%meta_cmp_rank]; [done|congruence]);
    constructor; [by constructor|]; constructor; [done|];
    eapply Forall_impl; [exact Hy|]; cbn; lia.
  apply meta_cmp_rank in E. constructor; [done|]. rewrite insert_meta_perm.
  constructor; [lia|done].
Qed.

Lemma sort_metas_ranked l : ranked (sort_metas l).
Proof. induction l as [|x l IH]; [constructor|]. by apply insert_meta_ranked. Qed.

(** ** Unique metas *)

(** The flags of [x] include those of [m]. *)
Definition dominates (x m : AccountMeta) : Prop :=
  (meta_is_signer m = true -> meta_is_signer x = true) /\
  (meta_is_writable m = true -> meta_is_writable x = true).

(** Every key has a meta with all the flags the key is given anywhere. *)
Definition joined (l : list AccountMeta) : Prop :=
  forall m, m ∈ l -> exists d, d ∈ l /\ meta_pubkey d = meta_pubkey m /\
    forall m', m' ∈ l -> meta_pubkey m' = meta_pubkey m -> dominates d m'.

Definition dominates_b (x m : AccountMeta) : bool :=
  implb (meta_is_signer m) (meta_is_signer x) && implb (meta_is_writable m) (meta_is_writable x).
Definition joined_b (l : list AccountMeta) : bool :=
  forallb (fun m => existsb (fun d => bool_decide (meta_pubkey d = meta_pubkey m) &&
    forallb (fun m' => implb (bool_decide (meta_pubkey m' = meta_pubkey m)) (dominates_b d m')) l) l) l.

Lemma dominates_b_spec x m : dominates_b x m = true -> dominates x m.
Proof.
  unfold dominates_b, dominates.
  destruct (meta_is_signer m), (meta_is_signer x), (meta_is_writable m), (meta_is_writable x); done.
Qed.

Lemma joined_b_spec l : joined_b l = true -> joined l.
Proof.
  unfold joined_b. rewrite forallb_forall. intros Hl m Hm%list_elem_of_In.
  apply Hl, existsb_exists in Hm as (d & Hd & [Hk%bool_decide_eq_true Hall]%andb_prop).
  rewrite forallb_forall in Hall. exists d. split_and!; [by apply list_elem_of_In|done|].
  intros m' Hm'%list_elem_of_In Hk'. specialize (Hall m' Hm').
  rewrite bool_decide_eq_true_2 in Hall by done. by apply dominates_b_spec.
Qed.

Lemma dominates_rank x m : dominates x m -> (rank m <= rank x)%nat.
Proof.
  intros [Hs Hw]. unfold rank. destruct (meta_is_signer m), (meta_is_writable m); cbn;
    repeat case_match; try lia; naive_solver.
Qed.

Lemma same_rank x y :
  rank x = rank y -> meta_is_signer x = meta_is_signer y /\ meta_is_writable x = meta_is_writable y.
Proof.
  unfold rank. destruct (meta_is_signer x), (meta_is_signer y), (meta_is_writable x),
    (meta_is_writable y); cbn; (done || lia).
Qed.

Record unique_of (seen all acc : list AccountMeta) : Prop := {
  uq_covers : forall m, m ∈ seen -> exists x, x ∈ acc /\ meta_pubkey x = meta_pubkey m;
  uq_from : forall x, x ∈ acc -> x ∈ seen;
  uq_nodup : NoDup (meta_pubkey <$> acc);
  uq_ranked : ranked acc;
  uq_dominates : forall x m, x ∈ acc -> m ∈ all -> meta_pubkey m = meta_pubkey x -> dominates x m;
}.

Lemma push_new acc m :
  meta_pubkey m ∉ meta_pubkey <$> acc -> push_meta acc m = acc ++ [m].
Proof.
  induction acc as [|x acc IH]; [done|]. cbn. rewrite not_elem_of_cons. intros [Hx Hacc].
  rewrite bool_decide_false by congruence. by rewrite IH.
Qed.

Lemma push_old acc m :
  meta_pubkey m ∈ meta_pubkey <$> acc ->
  (forall x, x ∈ acc -> meta_pubkey m = meta_pubkey x -> dominates x m) -> push_meta acc m = acc.
Proof.
  induction acc as [|x acc IH]; cbn; [by intros ?%not_elem_of_nil|]. intros Hin Hdom.
  case_bool_decide as Hk.
  - f_equal. destruct (Hdom x) as [_ Hw]; [by left|done|]. destruct x as [k s w]. cbn in *. f_equal.
    destruct w; [done|]. destruct (meta_is_writable m); [by discriminate Hw|done].
  - f_equal. apply IH.
    + apply elem_of_cons in Hin as [|]; [congruence|done].
    + intros y Hy. apply Hdom. by right.
Qed.

Lemma ranked_snoc l m : ranked l -> (forall x, x ∈ l -> rank m <= rank x)%nat -> ranked (l ++ [m]).
Proof.
  induction 1 as [|x l Hl IH Hx]; intros Hm; cbn; [by repeat constructor|].
  constructor.
  - apply IH. intros y Hy. apply Hm. by right.
  - apply Forall_app. split; [done|]. apply Forall_singleton, Hm. by left.
Qed.

Lemma unique_step seen m rest acc :
  ranked (seen ++ m :: rest) -> joined (seen ++ m :: rest) ->
  unique_of seen (seen ++ m :: rest) acc ->
  unique_of (seen ++ [m]) (seen ++ m :: rest) (push_meta acc m).
Proof.
  intros Hr Hj [Hc Hf Hn Hs Hd]. destruct (decide (meta_pubkey m ∈ meta_pubkey <$> acc)) as [Hin|Hin].
  - rewrite push_old by (done || (intros; apply Hd; set_solver)). split; try done.
    + intros m' [Hm'| ->%list_elem_of_singleton]%elem_of_app; [by apply Hc|].
      apply list_elem_of_fmap in Hin as (x & Hx & ?). eauto.
    + intros x Hx. apply elem_of_app. left. by apply Hf.
  - rewrite push_new by done. split.
    + intros m' [Hm'| ->%list_elem_of_singleton]%elem_of_app.
      * destruct (Hc m' Hm') as (x & ? & ?). exists x. set_solver.
      * exists m. set_solver.
    + set_solver.
    + rewrite fmap_app. apply NoDup_app. split_and!; [done| |by apply NoDup_singleton].
      intros k Hk Hk'%list_elem_of_singleton. by subst.
    + apply ranked_snoc; [done|]. intros x Hx%Hf.
      eapply StronglySorted_app_1_elem_of in Hr; [exact Hr|done|by left].
    + intros x m' [Hx| ->%list_elem_of_singleton]%elem_of_app; [by apply Hd|]. intros Hm' Hk.
      destruct (Hj m) as (d & Hd' & Hkd & Hdom); [set_solver|].
      enough (rank d = rank m) as [Es Ew]%same_rank.
      { destruct (Hdom m' Hm' Hk) as [H1 H2]. split; [rewrite <- Es|rewrite <- Ew]; done. }
      apply Nat.le_antisymm; [|apply dominates_rank, Hdom; [set_solver|done]].
      apply elem_of_app in Hd' as [Hd'|Hd'].
      * destruct (Hc d Hd') as (y & Hy & Hky). destruct Hin.
        rewrite <- Hkd, <- Hky. by apply list_elem_of_fmap_2.
      * apply elem_of_cons in Hd' as [->|Hd']; [done|].
        apply StronglySorted_app_1_r in Hr. apply StronglySorted_inv in Hr as [_ Hall].
        by apply (proj1 (Forall_forall _ _) Hall).
Qed.

Lemma unique_fold seen rest acc :
  ranked (seen ++ rest) -> joined (seen ++ rest) -> unique_of seen (seen ++ rest) acc ->
  unique_of (seen ++ rest) (seen ++ rest) (foldl push_meta acc rest).
Proof.
  revert seen acc. induction rest as [|m rest IH]; intros seen acc Hr Hj Hu; cbn.
  { by rewrite app_nil_r in *. }
  replace (seen ++ m :: rest) with ((seen ++ [m]) ++ rest) in * by (by rewrite <- (assoc_L (++))).
  apply IH; [done..|]. rewrite <- (assoc_L (++)) in *. cbn in *. by apply unique_step.
Qed.

Lemma unique_metas_spec l : ranked l -> joined l -> unique_of l l (unique_metas l).
Proof.
  intros Hr Hj. apply (unique_fold [] l []); [done..|]. split; try set_solver; constructor.
Qed.

(** ** Lists split by a flag *)

Section Split.
Context {A : Type} (p : A -> bool).
Abbreviation yes l := (filter (fun x => p x = true) l).
Abbreviation no l := (filter (fun x => p x = false) l).

Lemma split_sorted (R : A -> A -> Prop) l :
  StronglySorted R l -> (forall x y, x ∈ l -> y ∈ l -> R x y -> p y = true -> p x = true) ->
  l = yes l ++ no l.
Proof.
  induction 1 as [|x l Hl IH Hx]; intros Hp; [done|].
  assert (l = yes l ++ no l) as Hsplit by (apply IH; intros; eapply Hp; [by right..|done|done]).
  rewrite !filter_cons. destruct (p x) eqn:Ex.
  - rewrite decide_True, decide_False by done. cbn. by f_equal.
  - rewrite decide_False, decide_True by done.
    assert (yes l = []) as E.
    { destruct (yes l) as [|y ys] eqn:Ey; [done|]. exfalso.
      assert (y ∈ yes l) as [Hy Hin]%list_elem_of_filter by (rewrite Ey; by left).
      assert (p x = true); [|congruence]. apply (Hp x y); [by left|by right| |done].
      by apply (proj1 (Forall_forall _ _) Hx). }
    rewrite E in *. cbn in *. by f_equal.
Qed.

Lemma split_lookup l j x :
  l = yes l ++ no l -> l !! j = Some x -> p x = true <-> (j < length (yes l))%nat.
Proof.
  intros Hs Hj. rewrite Hs in Hj. apply lookup_app_Some in Hj as [Hj|[Hge Hj]].
  - pose proof (lookup_lt_Some _ _ _ Hj). apply list_elem_of_lookup_2, list_elem_of_filter in Hj as [? _].
    naive_solver.
  - apply list_elem_of_lookup_2, list_elem_of_filter in Hj as [? _]. split; [congruence|lia].
Qed.

Lemma split_length l : length l = (length (yes l) + length (no l))%nat.
Proof.
  induction l as [|x l IH]; [done|]. rewrite !filter_cons. destruct (p x) eqn:Ex.
  - rewrite decide_True, decide_False by done. cbn. lia.
  - rewrite decide_False, decide_True by done. cbn. lia.
Qed.
End Split.

Lemma mapM_all {E A B} (f : A -> outcome E B) (Q : A -> B -> Prop) l :
  (forall x, x ∈ l -> exists y, f x = Ok y /\ Q x y) ->
  exists ys, mapM f l = Ok ys /\ Forall2 Q l ys.
Proof.
  induction l as [|x l IH]; intros Hf; [by exists []|].
  destruct (Hf x) as (y & Hy & Hq); [by left|].
  destruct IH as (ys & Hys & Hall); [intros z Hz; apply Hf; by right|].
  exists (y :: ys). cbn. rewrite Hy. cbn. rewrite Hys. split; [done|by constructor].
Qed.

(** ** Compiling *)

(** The metas of the instructions, of their programs and of the payer. *)
Definition requested (ixs : list Instruction) (payer : option Pubkey) : list AccountMeta :=
  option_list ((fun k => mkMeta k true true) <$> payer) ++
  mjoin (ix_accounts <$> ixs) ++ ((fun k => mkMeta k false false) <$> get_program_ids ixs).

Definition wants_signer (l : list AccountMeta) (k : Pubkey) : Prop :=
  exists m, m ∈ l /\ meta_pubkey m = k /\ meta_is_signer m = true.
Definition wants_writable (l : list AccountMeta) (k : Pubkey) : Prop :=
  exists m, m ∈ l /\ meta_pubkey m = k /\ meta_is_writable m = true.

Lemma sorted_metas_perm ixs payer : sorted_metas ixs payer ≡ₚ requested ixs payer.
Proof. unfold sorted_metas, requested. destruct payer; cbn; by rewrite sort_metas_perm. Qed.

Lemma rank_le m : (rank m <= 3)%nat.
Proof. unfold rank. repeat case_match; lia. Qed.

Lemma sorted_metas_ranked ixs payer : ranked (sorted_metas ixs payer).
Proof.
  unfold sorted_metas. destruct payer; [|apply sort_metas_ranked].
  constructor; [apply sort_metas_ranked|]. apply Forall_forall. intros m _. apply rank_le.
Qed.

Lemma fresh_ids_elem seen ids k : k ∈ ids -> k ∉ seen -> k ∈ fresh_ids seen ids.
Proof.
  revert seen. induction ids as [|i ids IH]; intros seen Hin Hseen; [by apply not_elem_of_nil in Hin|].
  cbn. apply elem_of_cons in Hin as [->|Hin].
  - rewrite bool_decide_false by done. by left.
  - case_bool_decide; [by apply IH|]. destruct (decide (k = i)) as [->|]; [by left|].
    right. apply IH; [done|set_solver].
Qed.

Lemma program_requested ixs payer ix :
  ix ∈ ixs -> ix_program_id ix ∈ meta_pubkey <$> requested ixs payer.
Proof.
  intros Hix. apply list_elem_of_fmap. exists (mkMeta (ix_program_id ix) false false). split; [done|].
  unfold requested. apply elem_of_app. right. apply elem_of_app. right.
  apply list_elem_of_fmap. exists (ix_program_id ix). split; [done|]. apply fresh_ids_elem; [|set_solver].
  by apply list_elem_of_fmap_2.
Qed.

Lemma account_requested ixs payer ix m :
  ix ∈ ixs -> m ∈ ix_accounts ix -> m ∈ requested ixs payer.
Proof.
  intros Hix Hm. unfold requested. apply elem_of_app. right. apply elem_of_app. left.
  apply list_elem_of_join. exists (ix_accounts ix). split; [done|]. by apply list_elem_of_fmap_2.
Qed.

Lemma position_Ok {E} keys k :
  NoDup keys -> (length keys <= 256)%nat -> k ∈ keys ->
  exists i, position (E:=E) keys k = Ok i /\ keys !! i = Some k.
Proof.
  intros Hnd Hlen [i Hi]%list_elem_of_lookup. exists i. split; [|done]. unfold position.
  assert (list_find (fun k' => k' = k) keys = Some (i, k)) as ->.
  { apply list_find_Some. split_and!; [done..|]. intros j y Hj Hji ->.
    assert (j = i) by (by eapply NoDup_lookup). lia. }
  f_equal. apply Nat.mod_small. apply lookup_lt_Some in Hi. lia.
Qed.

Lemma joined_perm l l' : l ≡ₚ l' -> joined l -> joined l'.
Proof.
  intros Hp Hj m Hm. destruct (Hj m) as (d & Hd & Hk & Hdom); [by rewrite Hp|].
  exists d. split_and!; [by rewrite <- Hp|done|]. intros m' Hm'. apply Hdom. by rewrite Hp.
Qed.

Lemma push_meta_head x acc m :
  exists y acc', push_meta (x :: acc) m = y :: acc' /\ meta_pubkey y = meta_pubkey x.
Proof. cbn. case_bool_decide; eauto. Qed.

Lemma unique_head x l acc :
  exists y acc', foldl push_meta (x :: acc) l = y :: acc' /\ meta_pubkey y = meta_pubkey x.
Proof.
  revert x acc. induction l as [|m l IH]; intros x acc; [cbn; eauto|].
  change (foldl push_meta (x :: acc) (m :: l)) with (foldl push_meta (push_meta (x :: acc) m) l).
  destruct (push_meta_head x acc m) as (y & acc' & -> & Hk).
  destruct (IH y acc') as (z & acc'' & -> & Hz). exists z, acc''. split; [done|congruence].
Qed.

(** Instruction [ci] of a message with these keys is [ix]. *)
Definition compiles_to (keys : list Pubkey) (ix : Instruction) (ci : CompiledInstruction) : Prop :=
  keys !! program_id_index ci = Some (ix_program_id ix) /\
  Forall2 (fun m i => keys !! i = Some (meta_pubkey m)) (ix_accounts ix) (ci_accounts ci) /\
  ci_data ci = ix_data ix.

(** A message that says what the instructions ask for: every key once, the payer
    first; a key signs, or may be written, when some meta asks for it, and is
    neither a sysvar, a builtin nor a program that is called. *)
Record faithful (ixs : list Instruction) (payer : option Pubkey) (m : Message) : Prop := {
  fa_nodup : NoDup (account_keys m);
  fa_keys : forall k, k ∈ account_keys m <-> k ∈ meta_pubkey <$> requested ixs payer;
  fa_payer : forall p, payer = Some p -> account_keys m !! 0%nat = Some p;
  fa_signer : forall j k, account_keys m !! j = Some k ->
    msg_is_signer m j = true <-> wants_signer (requested ixs payer) k;
  fa_writable : forall j k, account_keys m !! j = Some k ->
    msg_is_writable m j = true <-> wants_writable (requested ixs payer) k /\
      (k ∉ SYSVAR_IDS) /\ (k ∉ BUILTIN_PROGRAMS_KEYS) /\ (k ∉ ix_program_id <$> ixs);
  fa_instructions : Forall2 (compiles_to (account_keys m)) ixs (instructions m);
}.

Lemma sanitize_all keys ixs cis p :
  keys !! 0%nat = Some p -> p ∉ ix_program_id <$> ixs -> Forall2 (compiles_to keys) ixs cis ->
  sanitize_instructions (length keys) cis = Ok tt.
Proof.
  intros H0 Hp Hall. induction Hall as [|ix ci ixs cis (Hprog & Hacc & _) _ IH]; [done|].
  rewrite fmap_cons, not_elem_of_cons in Hp. destruct Hp as [Hne Hp]. cbn.
  assert (sanitize_instruction (length keys) ci = Ok tt) as ->; [|by apply IH].
  unfold sanitize_instruction. pose proof (lookup_lt_Some _ _ _ Hprog).
  destruct (Nat.leb_spec (length keys) (program_id_index ci)); [lia|]. cbn.
  destruct (Nat.eqb_spec (program_id_index ci) 0) as [E|]; [rewrite E in Hprog; congruence|]. cbn.
  apply fail_if_Ok, not_true_iff_false. rewrite existsb_exists. intros (i & Hi & Hge%Nat.leb_le).
  apply list_elem_of_In, list_elem_of_lookup in Hi as [j Hj].
  destruct (Forall2_lookup_r _ _ _ _ _ Hacc Hj) as (m & _ & Hm). apply lookup_lt_Some in Hm. lia.
Qed.

Section Compiled.
Context (ixs : list Instruction) (payer : option Pubkey).
Let U := unique_metas (sorted_metas ixs payer).
Let req := requested ixs payer.
Context (Hj : joined req) (Hlen : (length U <= 255)%nat).

Lemma unique_ok : unique_of (sorted_metas ixs payer) (sorted_metas ixs payer) U.
Proof.
  apply unique_metas_spec; [apply sorted_metas_ranked|].
  eapply joined_perm; [|exact Hj]. symmetry. apply sorted_metas_perm.
Qed.

Lemma unique_signer u : u ∈ U -> meta_is_signer u = true <-> wants_signer req (meta_pubkey u).
Proof.
  intros Hu. pose proof unique_ok as [_ Hf _ _ Hd]. split.
  - intros Hs. exists u. split_and!; try done. unfold req. rewrite <- sorted_metas_perm. by apply Hf.
  - intros (m & Hm & Hk & Hs). unfold req in Hm. rewrite <- sorted_metas_perm in Hm.
    by apply (Hd u m Hu Hm Hk).
Qed.

Lemma unique_writable u : u ∈ U -> meta_is_writable u = true <-> wants_writable req (meta_pubkey u).
Proof.
  intros Hu. pose proof unique_ok as [_ Hf _ _ Hd]. split.
  - intros Hs. exists u. split_and!; try done. unfold req. rewrite <- sorted_metas_perm. by apply Hf.
  - intros (m & Hm & Hk & Hs). unfold req in Hm. rewrite <- sorted_metas_perm in Hm.
    by apply (Hd u m Hu Hm Hk).
Qed.

Abbreviation signed := (filter (fun m => meta_is_signer m = true) U).
Abbreviation unsigned := (filter (fun m => meta_is_signer m = false) U).

Lemma unique_split : U = signed ++ unsigned.
Proof.
  apply (split_sorted _ _ _ (uq_ranked _ _ _ unique_ok)). intros x y _ _ Hr Hy. clear Hlen.
  unfold rank in Hr. rewrite Hy in Hr. destruct (meta_is_signer x); [done|].
  repeat case_match; lia.
Qed.

Lemma flag_split s l :
  ranked l -> Forall (fun m => meta_is_signer m = s) l ->
  l = filter (fun m => meta_is_writable m = true) l ++ filter (fun m => meta_is_writable m = false) l.
Proof.
  intros Hr Hs. apply (split_sorted _ _ _ Hr). intros x y Hx Hy Hxy Hw.
  rewrite Forall_forall in Hs. unfold rank in Hxy. rewrite (Hs x Hx), (Hs y Hy), Hw in Hxy.
  destruct (meta_is_writable x); [done|]. destruct s; lia.
Qed.

Lemma ranked_sublist l l' : l `sublist_of` l' -> ranked l' -> ranked l.
Proof.
  induction 1 as [|x l l' Hsub IH|x l l' Hsub IH]; intros Hr; [constructor| |].
  - apply StronglySorted_inv in Hr as [Hr Hx]. constructor; [by apply IH|].
    apply Forall_forall. intros y Hy. apply (proj1 (Forall_forall _ _) Hx).
    by eapply elem_of_sublist.
  - apply StronglySorted_inv in Hr as [Hr _]. by apply IH.
Qed.

Lemma flag_lookup s l j x :
  l = filter (fun m => meta_is_signer m = s) U -> l !! j = Some x ->
  meta_is_writable x = true <->
  (j < length l - length (filter (fun m => meta_is_writable m = false) l))%nat.
Proof.
  intros Hl Hjx. rewrite (split_lookup meta_is_writable l j x).
  - pose proof (split_length meta_is_writable l). lia.
  - apply (flag_split s).
    + subst l. eapply ranked_sublist; [apply sublist_filter|apply (uq_ranked _ _ _ unique_ok)].
    + subst l. apply Forall_forall. by intros m [? _]%list_elem_of_filter.
  - done.
Qed.

Lemma keys_split :
  (meta_pubkey <$> signed) ++ (meta_pubkey <$> unsigned) = meta_pubkey <$> U.
Proof. rewrite <- fmap_app. by rewrite <- unique_split. Qed.

Lemma keys_requested k : k ∈ meta_pubkey <$> U <-> k ∈ meta_pubkey <$> req.
Proof.
  pose proof unique_ok as [Hc Hf _ _ _]. unfold req. rewrite !list_elem_of_fmap. split.
  - intros (u & -> & Hu%Hf). exists u. split; [done|]. by rewrite <- sorted_metas_perm.
  - intros (m & -> & Hm). rewrite <- sorted_metas_perm in Hm.
    destruct (Hc m Hm) as (x & ? & ?). exists x. split; [congruence|done].
Qed.

Lemma compile_all {E} :
  exists cis, compile_instructions (E:=E) ixs (meta_pubkey <$> U) = Ok cis /\
    Forall2 (compiles_to (meta_pubkey <$> U)) ixs cis.
Proof.
  pose proof unique_ok as [_ _ Hn _ _].
  assert (forall k, k ∈ meta_pubkey <$> U ->
    exists i, position (E:=E) (meta_pubkey <$> U) k = Ok i /\ (meta_pubkey <$> U) !! i = Some k) as Hpos.
  { intros k Hk. apply position_Ok; [done| |done]. rewrite length_fmap. lia. }
  apply mapM_all. intros ix Hix. unfold compile_instruction.
  destruct (mapM_all (E:=E) (fun m => position (meta_pubkey <$> U) (meta_pubkey m))
    (fun m i => (meta_pubkey <$> U) !! i = Some (meta_pubkey m)) (ix_accounts ix)) as (ps & Hps & Hall).
  { intros m Hm. apply Hpos, keys_requested, list_elem_of_fmap_2. by eapply account_requested. }
  destruct (Hpos (ix_program_id ix)) as (p & Hp & Hkp).
  { by apply keys_requested, program_requested. }
  rewrite Hps. cbn. rewrite Hp. cbn. eexists. split; [done|]. by split_and!.
Qed.

Lemma as_u8_small (n : nat) : (n <= 255)%nat -> as_u8 (Z.of_nat n) = Z.of_nat n.
Proof. intros. unfold as_u8. apply Z.mod_small. lia. Qed.

Lemma called_as_program m j k :
  account_keys m = meta_pubkey <$> U -> Forall2 (compiles_to (meta_pubkey <$> U)) ixs (instructions m) ->
  (meta_pubkey <$> U) !! j = Some k ->
  is_key_called_as_program m j = true <-> k ∈ ix_program_id <$> ixs.
Proof.
  intros Hk Hall Hjk. pose proof (lookup_lt_Some _ _ _ Hjk) as Hlt. rewrite length_fmap in Hlt.
  unfold is_key_called_as_program. destruct (Nat.leb_spec j 255); [|lia].
  rewrite existsb_exists, list_elem_of_fmap. split.
  - intros (ci & Hci & Hp%Nat.eqb_eq). apply list_elem_of_In, list_elem_of_lookup in Hci as [i Hi].
    destruct (Forall2_lookup_r _ _ _ _ _ Hall Hi) as (ix & Hix & Hc & _).
    exists ix. split; [congruence|]. by eapply list_elem_of_lookup_2.
  - intros (ix & -> & [i Hi]%list_elem_of_lookup).
    destruct (Forall2_lookup_l _ _ _ _ _ Hall Hi) as (ci & Hci & Hc & _).
    exists ci. split; [apply list_elem_of_In; by eapply list_elem_of_lookup_2|]. apply Nat.eqb_eq.
    eapply (NoDup_lookup (meta_pubkey <$> U)); [apply (uq_nodup _ _ _ unique_ok)|done..].
Qed.

Lemma header_writable m j u :
  account_keys m = meta_pubkey <$> U ->
  header m = mkHeader (Z.of_nat (length signed))
    (Z.of_nat (length (filter (fun m => meta_is_writable m = false) signed)))
    (Z.of_nat (length (filter (fun m => meta_is_writable m = false) unsigned))) ->
  U !! j = Some u ->
  (Z.of_nat j <? as_u8 (num_required_signatures (header m) - num_readonly_signed_accounts (header m)))
  || ((num_required_signatures (header m) <=? Z.of_nat j)
      && (Z.of_nat j <? wrap64 (Z.of_nat (length (account_keys m))
                                - num_readonly_unsigned_accounts (header m))))
  = meta_is_writable u.
Proof.
  intros Hk Hh Hju. rewrite Hk, Hh, length_fmap. cbn.
  pose proof (split_length meta_is_signer U). pose proof (split_length meta_is_writable signed).
  pose proof (split_length meta_is_writable unsigned).
  rewrite <- Nat2Z.inj_sub, as_u8_small by lia.
  replace (wrap64 (Z.of_nat (length U) - _)) with (Z.of_nat (length U)
    - Z.of_nat (length (filter (fun m => meta_is_writable m = false) unsigned)))
    by (unfold wrap64, u64_max; rewrite Z.mod_small; lia).
  rewrite unique_split in Hju. apply lookup_app_Some in Hju as [Hju|[Hge Hju]].
  - pose proof (flag_lookup true _ j u eq_refl Hju) as Hw. pose proof (lookup_lt_Some _ _ _ Hju).
    apply eq_true_iff_eq. rewrite orb_true_iff, andb_true_iff, !Z.ltb_lt, Z.leb_le, Hw. lia.
  - pose proof (flag_lookup false _ _ u eq_refl Hju) as Hw. pose proof (lookup_lt_Some _ _ _ Hju).
    apply eq_true_iff_eq. rewrite orb_true_iff, andb_true_iff, !Z.ltb_lt, Z.leb_le, Hw. lia.
Qed.

Lemma payer_first p : payer = Some p -> (meta_pubkey <$> U) !! 0%nat = Some p.
Proof.
  intros Hp. unfold U, unique_metas, sorted_metas. rewrite Hp. cbn [foldl push_meta].
  destruct (unique_head (mkMeta p true true) (sort_metas (mjoin (ix_accounts <$> ixs) ++
    ((fun k => mkMeta k false false) <$> get_program_ids ixs))) []) as (y & acc & -> & Hy).
  cbn. by rewrite Hy.
Qed.

(** The message, when nothing is truncated. *)
Definition compiled_message (blockhash : Hash) (cis : list CompiledInstruction) : Message :=
  mkMessage (mkHeader (Z.of_nat (length signed))
      (Z.of_nat (length (filter (fun m => meta_is_writable m = false) signed)))
      (Z.of_nat (length (filter (fun m => meta_is_writable m = false) unsigned))))
    (meta_pubkey <$> U) blockhash cis.

Lemma compile_eq {E} blockhash :
  exists cis, new_with_blockhash (E:=E) ixs payer blockhash = Ok (compiled_message blockhash cis) /\
    Forall2 (compiles_to (meta_pubkey <$> U)) ixs cis.
Proof.
  destruct (compile_all (E:=E)) as (cis & Hcis & Hall). exists cis. split; [|done].
  unfold new_with_blockhash, get_keys. cbn [signed_keys unsigned_keys ik_readonly_signed ik_readonly_unsigned].
  fold U. rewrite keys_split, Hcis. cbn [mbind outcome_bind].
  unfold new_with_compiled_instructions, count_readonly, compiled_message.
  pose proof (split_length meta_is_signer U). pose proof (split_length meta_is_writable signed).
  pose proof (split_length meta_is_writable unsigned).
  by rewrite length_fmap, !as_u8_small by lia.
Qed.

Lemma compiled_faithful blockhash cis :
  Forall2 (compiles_to (meta_pubkey <$> U)) ixs cis ->
  faithful ixs payer (compiled_message blockhash cis).
Proof.
  intros Hall. set (m := compiled_message blockhash cis).
  assert (forall j k, account_keys m !! j = Some k -> exists u, U !! j = Some u /\ k = meta_pubkey u) as Hat.
  { intros j k Hk. cbn in Hk. rewrite list_lookup_fmap in Hk.
    apply fmap_Some in Hk as (u & ? & ->). eauto. }
  split.
  - apply (uq_nodup _ _ _ unique_ok).
  - apply keys_requested.
  - apply payer_first.
  - fold req. intros j k (u & Hu & ->)%Hat. unfold msg_is_signer. cbn [header m compiled_message num_required_signatures].
    rewrite <- (unique_signer u) by (by eapply list_elem_of_lookup_2).
    rewrite (split_lookup meta_is_signer U j u unique_split Hu), Z.ltb_lt. lia.
  - fold req. intros j k Hjk. destruct (Hat j k Hjk) as (u & Hu & ->). unfold msg_is_writable. cbv zeta.
    rewrite (header_writable m j u eq_refl eq_refl Hu), Hjk, !andb_true_iff.
    rewrite (unique_writable u) by (by eapply list_elem_of_lookup_2).
    rewrite !negb_true_iff, orb_false_iff, !bool_decide_eq_false, <- not_true_iff_false.
    rewrite (called_as_program m j _ eq_refl Hall Hjk). tauto.
  - exact Hall.
Qed.

Lemma compiled_sanitizes blockhash cis p :
  payer = Some p -> p ∉ ix_program_id <$> ixs ->
  Forall2 (compiles_to (meta_pubkey <$> U)) ixs cis ->
  sanitize (compiled_message blockhash cis) = Ok tt.
Proof.
  intros Hp Hprog Hall.
  pose proof (split_length meta_is_signer U). pose proof (split_length meta_is_writable signed).
  pose proof (split_length meta_is_writable unsigned).
  pose proof (payer_first p Hp) as Hfirst.
  assert (0 < length (filter (fun m => meta_is_writable m = true) signed))%nat as Hpos.
  { pose proof Hfirst as Hu'. rewrite list_lookup_fmap in Hu'. apply fmap_Some in Hu' as (u & Hu & ->).
    assert (u ∈ U) as Hin by (by eapply list_elem_of_lookup_2).
    assert (mkMeta (meta_pubkey u) true true ∈ req) as Hreq by (unfold req, requested; rewrite Hp; by left).
    assert (u ∈ filter (fun m => meta_is_writable m = true) signed) as Hw.
    { apply list_elem_of_filter. split; [apply unique_writable; [done|]; eexists; by split_and!|].
      apply list_elem_of_filter. split; [apply unique_signer; [done|]; eexists; by split_and!|done]. }
    destruct (filter _ signed); [by apply not_elem_of_nil in Hw|cbn; lia]. }
  unfold sanitize. cbn [header compiled_message account_keys instructions num_required_signatures
    num_readonly_signed_accounts num_readonly_unsigned_accounts].
  rewrite length_fmap. destruct (Z.ltb_spec (Z.of_nat (length U)) (Z.of_nat (length signed)
    + Z.of_nat (length (filter (fun m => meta_is_writable m = false) unsigned)))); [lia|].
  destruct (Z.leb_spec (Z.of_nat (length signed))
    (Z.of_nat (length (filter (fun m => meta_is_writable m = false) signed)))); [lia|].
  cbn [fail_if mbind outcome_bind]. rewrite <- (length_fmap meta_pubkey U).
  by eapply sanitize_all.
Qed.
End Compiled.
