(* ===== verification/Invoke.v ===== *)
(** * Cross-program invocation

    The invoke context of program-runtime/src/invoke_context.rs with its stack: a
    builtin program may call another one through [native_invoke].  Before and after
    a call the runtime compares the accounts that take part with their pre-accounts,
    which it then updates (pre_account.rs).  Compute metering, return data, logging
    and timings are left out. *)

From Stdlib Require Import ZArith Lia.
From Stdlib Require Import Strings.Byte.
From stdpp Require Import prelude gmap list numbers.
From S2P Require Import Prelude Sdk Runtime SystemInstruction MessageCompile.

(** ** Programs that call programs

    A run of a program ends, or stops at a call with the ledger at that point and goes
    on from the ledger the call leaves.  The error of a call is the error of the
    program: every caller in the source applies [?] to it. *)
Inductive tree (A : Type) : Type :=
| TRet (a : A) (l : ledger)
| TErr (e : InstructionError)
| TPanic
| TCall (ix : Instruction) (signers : list Pubkey) (l : ledger) (k : ledger -> tree A).
Arguments TRet {A}.
Arguments TErr {A}.
Arguments TPanic {A}.
Arguments TCall {A}.

Definition cpi (A : Type) : Type := ledger -> tree A.

Fixpoint tree_bind {A B} (f : A -> cpi B) (t : tree A) : tree B :=
  match t with
  | TRet a l => f a l
  | TErr e => TErr e
  | TPanic => TPanic
  | TCall ix signers l k => TCall ix signers l (fun l' => tree_bind f (k l'))
  end.

#[global] Instance cpi_ret : MRet cpi := fun A a l => TRet a l.
#[global] Instance cpi_bind : MBind cpi := fun A B f m l => tree_bind f (m l).

(** A stretch of a program without calls *)
Definition local {A} (p : prog A) : cpi A := fun l =>
  match p l with
  | Ok (a, l') => TRet a l'
  | Err e => TErr e
  | Panic => TPanic
  end.

(** [invoke_context.native_invoke(ix, signers)?] *)
Definition invoke (ix : Instruction) (signers : list Pubkey) : cpi unit :=
  fun l => TCall ix signers l (TRet tt).

Abbreviation caller := (nat -> bytes -> list KeyedAccount -> cpi unit).
(** A program that makes no calls *)
Definition no_calls (f : builtin) : caller := fun n d kas => local (f n d kas).

(** ** The state of the context *)

Record StackFrame : Type := mkFrame {
  number_of_program_accounts : nat;
  frame_keyed_accounts : list KeyedAccount;
}.

Definition frame_program_id (f : StackFrame) : option Pubkey :=
  unsigned_key <$> frame_keyed_accounts f !! (number_of_program_accounts f - 1)%nat.

(** The flag [changed] is read by the timings only. *)
Record PreAccount : Type := mkPre {
  pre_key : Pubkey;
  pre_account : AccountSharedData;
}.

(** [PreAccount::update]: all but the rent epoch *)
Definition pre_update (account : AccountSharedData) (p : PreAccount) : PreAccount :=
  mkPre (pre_key p) (set_rent_epoch (rent_epoch (pre_account p)) account).

(** The part of [InvokeContext] that changes.  The stack has its last frame first; the
    trace has the recorded instructions with the height of the stack, the last first. *)
Record InvokeState : Type := mkState {
  invoke_stack : list StackFrame;
  st_pre_accounts : list PreAccount;
  st_ledger : ledger;
  accounts_data_meter : AccountsDataMeter;
  instruction_trace : list (nat * Instruction);
}.

Definition set_stack (s : list StackFrame) (st : InvokeState) : InvokeState :=
  mkState s (st_pre_accounts st) (st_ledger st) (accounts_data_meter st) (instruction_trace st).
Definition set_pre_accounts (p : list PreAccount) (st : InvokeState) : InvokeState :=
  mkState (invoke_stack st) p (st_ledger st) (accounts_data_meter st) (instruction_trace st).
Definition set_ledger (l : ledger) (st : InvokeState) : InvokeState :=
  mkState (invoke_stack st) (st_pre_accounts st) l (accounts_data_meter st)
    (instruction_trace st).
Definition set_meter (m : AccountsDataMeter) (st : InvokeState) : InvokeState :=
  mkState (invoke_stack st) (st_pre_accounts st) (st_ledger st) m (instruction_trace st).

Definition record_instruction (ix : Instruction) (st : InvokeState) : InvokeState :=
  mkState (invoke_stack st) (st_pre_accounts st) (st_ledger st) (accounts_data_meter st)
    ((length (invoke_stack st), ix) :: instruction_trace st).

Module Invoke.
Section Invoke.
Context (ic : InvokeContext caller) (keys : list Pubkey).

(** ** Pushing a frame *)

(** The index of an account among those of the transaction: the indices of an
    instruction of the message itself are such indices. *)
Definition account_index (account_indices : list nat) (i : nat) : outcome InstructionError nat :=
  match account_indices with
  | [] => Ok i
  | _ => match account_indices !! i with Some j => Ok j | None => Panic end
  end.

Fixpoint instruction_accounts (msg : Message) (account_indices indices : list nat)
    : outcome InstructionError (list KeyedAccount) :=
  match indices with
  | [] => Ok []
  | i :: indices =>
      j ← account_index account_indices i;
      match keys !! j with
      | Some key =>
          rest ← instruction_accounts msg account_indices indices;
          Ok (mkKeyed (msg_is_signer msg i) (msg_is_writable msg i) key :: rest)
      | None => Panic
      end
  end.

(** A program may be called again only by itself. *)
Definition check_reentrancy (stack : list StackFrame) (program_id : option Pubkey)
    : outcome InstructionError unit :=
  let contains := existsb (fun f => bool_decide (frame_program_id f = program_id)) stack in
  let is_last := match stack with
                 | f :: _ => bool_decide (frame_program_id f = program_id)
                 | [] => false
                 end in
  fail_if (contains && negb is_last) ReentrancyNotAllowed.

Definition push (st : InvokeState) (msg : Message) (ix : CompiledInstruction)
    (program_indices account_indices : list nat) : outcome InstructionError InvokeState :=
  _ ← fail_if (ic_max_invoke_depth ic <? length (invoke_stack st))%nat CallDepth;
  program_id ← last_program keys program_indices;
  _ ← fail_if (bool_decide (program_id = None) && ic_reject_empty ic) UnsupportedProgramId;
  pres ← match invoke_stack st with
         | [] =>
             accounts ← pre_accounts keys (st_ledger st) (visit_each_account ix);
             Ok (zip_with mkPre (keys_of keys (visit_each_account ix)) accounts)
         | stack => _ ← check_reentrancy stack program_id; Ok (st_pre_accounts st)
         end;
  programs ← keyed_accounts keys (fun _ k => mkKeyed false false k) program_indices;
  accounts ← instruction_accounts msg account_indices (ci_accounts ix);
  Ok (set_stack (mkFrame (length program_indices) (programs ++ accounts) :: invoke_stack st)
        (set_pre_accounts pres st)).

Definition pop (st : InvokeState) : InvokeState := set_stack (tail (invoke_stack st)) st.

(** ** Verifying the accounts of a call *)

(** The loop of [verify_and_update].  The change of the length of the data is taken
    after the pre-account is updated, as in the source. *)
Fixpoint verify_and_update_loop (program_id : Pubkey) (account_indices : list nat)
    (write_privileges : list bool) (post : ledger) (indices : list nat) (pres : list PreAccount)
    (pre_sum post_sum : Z) (meter : AccountsDataMeter)
    : outcome InstructionError (list PreAccount * Z * Z * AccountsDataMeter) :=
  match indices with
  | [] => Ok (pres, pre_sum, post_sum, meter)
  | i :: indices =>
      match write_privileges !! i, account_indices !! i with
      | Some is_writable, Some j =>
          match keys !! j with
          | None => Panic
          | Some key =>
              '(n, pre) ← ok_or (list_find (fun p => pre_key p = key) pres) MissingAccount;
              let account := get_account post key in
              _ ← verify_account program_id is_writable (ic_rent ic) (pre_account pre) account
                    (ic_do_support_realloc ic);
              let pre_sum := pre_sum + lamports (pre_account pre) in
              _ ← fail_if (u128_max <? pre_sum) UnbalancedInstruction;
              let post_sum := post_sum + lamports account in
              _ ← fail_if (u128_max <? post_sum) UnbalancedInstruction;
              let pre := if is_writable && negb (executable (pre_account pre))
                         then pre_update account pre else pre in
              let delta := saturate_i64 (Z.of_nat (length (data account))
                                         - Z.of_nat (length (data (pre_account pre)))) in
              meter ← (if ic_cap_accounts_data_len ic then consume delta meter
                       else Ok (consume_unchecked delta meter));
              verify_and_update_loop program_id account_indices write_privileges post indices
                (<[n := pre]> pres) pre_sum post_sum meter
          end
      | _, _ => Err MissingAccount
      end
  end.

Definition verify_and_update (st : InvokeState) (ix : CompiledInstruction)
    (account_indices : list nat) (write_privileges : list bool)
    : outcome InstructionError InvokeState :=
  program_id ← ok_or (head (invoke_stack st) ≫= frame_program_id) CallDepth;
  '(pres, pre_sum, post_sum, meter) ←
    verify_and_update_loop program_id account_indices write_privileges (st_ledger st)
      (visit_each_account ix) (st_pre_accounts st) 0 0 (accounts_data_meter st);
  _ ← fail_if (negb (pre_sum =? post_sum)) UnbalancedInstruction;
  Ok (set_meter meter (set_pre_accounts pres st)).

(** [InvokeContext::verify], at the lowest level *)
Definition verify (st : InvokeState) (msg : Message) (ix : CompiledInstruction)
    : outcome InstructionError InvokeState :=
  meter ← verify_instruction ic msg keys ix (pre_account <$> st_pre_accounts st) (st_ledger st)
            (accounts_data_meter st);
  Ok (set_meter meter st).

(** ** Calling *)

Definition get_instruction_keyed_accounts (st : InvokeState)
    : outcome InstructionError (list KeyedAccount) :=
  f ← ok_or (head (invoke_stack st)) CallDepth;
  if (length (frame_keyed_accounts f) <? number_of_program_accounts f)%nat then Panic
  else Ok (drop (number_of_program_accounts f) (frame_keyed_accounts f)).

(** The last index of a key *)
Definition get_account_index (key : Pubkey) : option nat :=
  match list_find (fun k => k = key) (reverse keys) with
  | Some (i, _) => Some (length keys - 1 - i)%nat
  | None => None
  end.

Definition find_keyed (key : Pubkey) (kas : list KeyedAccount)
    : outcome InstructionError KeyedAccount :=
  ok_or (snd <$> list_find (fun ka => unsigned_key ka = key) kas) MissingAccount.

(** The check for privilege escalation *)
Fixpoint check_privileges (callees : list KeyedAccount) (signers : list Pubkey)
    (metas : list AccountMeta) : outcome InstructionError unit :=
  match metas with
  | [] => Ok tt
  | account :: metas =>
      ka ← find_keyed (meta_pubkey account) callees;
      _ ← fail_if (meta_is_writable account && negb (is_writable ka)) PrivilegeEscalation;
      _ ← fail_if (meta_is_signer account
                   && negb (bool_decide (is_Some (signer_key ka))
                            || bool_decide (meta_pubkey account ∈ signers)))
            PrivilegeEscalation;
      check_privileges callees signers metas
  end.

Definition create_message (st : InvokeState) (ix : Instruction) (signers : list Pubkey)
    : outcome InstructionError (Message * list bool * list nat) :=
  msg ← message_new [ix] None;
  callers ← get_instruction_keyed_accounts st;
  callees ← mapM (fun k => find_keyed k callers) (account_keys msg);
  _ ← check_privileges callees signers (ix_accounts ix);
  _ ← find_keyed (ix_program_id ix) callees;
  program_index ← ok_or (get_account_index (ix_program_id ix)) MissingAccount;
  _ ← fail_if (negb (executable (get_account (st_ledger st) (ix_program_id ix))))
        AccountNotExecutable;
  Ok (msg, is_writable <$> callees, [program_index]).

(** Whether a call changed the length of an account that was not empty *)
Definition check_sizes (l l' : ledger) (ks : list Pubkey) : outcome InstructionError unit :=
  fail_if (negb (ic_do_support_realloc ic)
           && existsb (fun k => negb (length (data (get_account l k))
                                      =? length (data (get_account l' k)))%nat
                                && negb (length (data (get_account l k)) =? 0)%nat) ks)
    InvalidRealloc.

(** [native_invoke], given [process_instruction] *)
Definition native_invoke
    (process : InvokeState -> Message -> CompiledInstruction -> list nat -> list nat ->
               list bool -> outcome InstructionError InvokeState)
    (ix : Instruction) (signers : list Pubkey) (st : InvokeState)
    : outcome InstructionError InvokeState :=
  '(msg, caller_write_privileges, program_indices) ← create_message st ix signers;
  account_indices ← mapM (fun k => ok_or (get_account_index k) MissingAccount) (account_keys msg);
  match instructions msg !! 0%nat with
  | None => Panic
  | Some ci =>
      st' ← process (record_instruction ix st) msg ci program_indices account_indices
              caller_write_privileges;
      _ ← check_sizes (st_ledger st) (st_ledger st') (account_keys msg);
      Ok st'
  end.

(** The run of a program, given what a call does *)
Fixpoint run_tree (call : Instruction -> list Pubkey -> InvokeState ->
                          outcome InstructionError InvokeState)
    (t : tree unit) (st : InvokeState) : outcome InstructionError InvokeState :=
  match t with
  | TRet _ l => Ok (set_ledger l st)
  | TErr e => Err e
  | TPanic => Panic
  | TCall ix signers l k =>
      st' ← call ix signers (set_ledger l st);
      run_tree call (k (st_ledger st')) st'
  end.

(** The program of the first keyed account, or its owner as a loader *)
Definition find_entry (st : InvokeState) (ix_data : bytes)
    : outcome InstructionError (tree unit) :=
  f ← ok_or (head (invoke_stack st)) CallDepth;
  let kas := frame_keyed_accounts f in
  root ← ok_or (kas !! 0%nat) UnsupportedProgramId;
  let owner_id := owner (get_account (st_ledger st) (unsigned_key root)) in
  if bool_decide (owner_id = native_loader_id) then
    f ← ok_or (find_builtin (unsigned_key root) (ic_builtin_programs ic)) UnsupportedProgramId;
    Ok (f 1%nat ix_data kas (st_ledger st))
  else
    f ← ok_or (find_builtin owner_id (ic_builtin_programs ic)) UnsupportedProgramId;
    Ok (f 0%nat ix_data kas (st_ledger st)).

(** [fuel] bounds the height of the stack, which [push] bounds too. *)
Fixpoint process_instruction (fuel : nat) (st : InvokeState) (msg : Message)
    (ix : CompiledInstruction) (program_indices account_indices : list nat)
    (caller_write_privileges : list bool) : outcome InstructionError InvokeState :=
  let lowest := bool_decide (invoke_stack st = []) in
  st ← (if lowest then Ok st
        else verify_and_update st ix account_indices caller_write_privileges);
  st ← push st msg ix program_indices account_indices;
  match account_keys msg !! program_id_index ix, fuel with
  | None, _ => Panic
  | Some _, O => Err CallDepth
  | Some _, S fuel =>
      t ← find_entry st (ci_data ix);
      st ← run_tree (native_invoke (process_instruction fuel)) t st;
      st ← (if lowest then verify st msg ix
            else verify_and_update st ix account_indices
                   (msg_is_writable msg <$> seq 0 (length (account_keys msg))));
      Ok (pop st)
  end.

(** An instruction of a transaction, with all the fuel it needs *)
Definition process_top (msg : Message) (ix : CompiledInstruction) (program_indices : list nat)
    (top : Instruction) (l : ledger) (meter : AccountsDataMeter)
    : outcome InstructionError InvokeState :=
  process_instruction (S (ic_max_invoke_depth ic)) (mkState [] [] l meter [(1%nat, top)]) msg ix
    program_indices [] [].

(** The loop of [MessageProcessor::process_message] *)
Fixpoint process_instructions (msg : Message) (index : nat)
    (ixs : list (CompiledInstruction * list nat)) (l : ledger) (meter : AccountsDataMeter)
    : outcome TransactionError (ledger * AccountsDataMeter) :=
  match ixs with
  | [] => Ok (l, meter)
  | (ix, program_indices) :: ixs =>
      if bool_decide (is_Some (account_keys msg !! program_id_index ix)) then
        st ← map_err (TxInstructionError (as_u8 (Z.of_nat index)))
          (top ← decompile msg ix;
           l ← fixup_instructions_sysvar msg keys index l;
           process_top msg ix program_indices top l meter);
        process_instructions msg (S index) ixs (st_ledger st) (accounts_data_meter st)
      else Panic
  end.

Definition process_message (msg : Message) (program_indices : list (list nat)) (l : ledger)
    (current_accounts_data_len : Z) : outcome TransactionError (ledger * Z) :=
  '(l', meter) ← process_instructions msg 0 (zip (instructions msg) program_indices) l
                   (meter_new current_accounts_data_len);
  Ok (l', meter_delta meter).
End Invoke.
End Invoke.
