(* ===== verification/InvokeFacts.v ===== *)
(** * What cross-program calls keep

    Every change of an account during an instruction is checked against its pre-account
    for the program that made it.  [inv] states what holds of the context while
    programs run: the pre-accounts are reached from the accounts at the start by changes
    the rules allow, and their lamports add up. *)

From Stdlib Require Import ZArith Lia.
From Stdlib Require Import Strings.Byte.
From stdpp Require Import prelude gmap list numbers.
From S2P Require Import Prelude Sdk Runtime SystemInstruction MessageCompile MessageFacts Invoke.
Import Invoke.

(** ** Changes of one account *)

Lemma account_ext a b :
  lamports a = lamports b -> data a = data b -> owner a = owner b ->
  executable a = executable b -> rent_epoch a = rent_epoch b -> a = b.
Proof. destruct a, b. cbn. by intros -> -> -> -> ->. Qed.

Section Changes.
Context (rent : Rent) (realloc : bool).

(** What may not be written does not change. *)
Lemma fixed_change p w a b :
  change_allowed p w rent realloc a b -> w = false \/ executable a = true -> a = b.
Proof.
  intros [Ho _ Hl _ _ Hd He Hr] Hw. symmetry. apply account_ext; [| | | |done].
  all: apply dec_stable; intros Hne.
  - destruct Hl as [??]; [done|]. destruct Hw; congruence.
  - destruct Hd as (? & ? & ?); [done|]. destruct Hw; congruence.
  - destruct Ho as (? & ? & ? & ?); [done|]. destruct Hw; congruence.
  - destruct He as (? & ? & ? & ?); [done|]. destruct Hw; congruence.
Qed.

(** [b] comes from [a] by changes of the programs [R]; the account is written only
    when [W]. *)
Inductive reaches (R : list Pubkey) (W : bool) (a : AccountSharedData)
    : AccountSharedData -> Prop :=
| reaches_refl : reaches R W a a
| reaches_step b c p w :
    reaches R W a b -> p ∈ R -> (w = true -> W = true) ->
    change_allowed p w rent realloc b c -> reaches R W a c.

Lemma reaches_mono R R' W a b : R ⊆ R' -> reaches R W a b -> reaches R' W a b.
Proof.
  intros HR. induction 1 as [|b c p w _ IH Hp Hw Hc]; [constructor|].
  by apply (reaches_step _ _ _ b c p w); auto.
Qed.

Lemma reaches_readonly R a b : reaches R false a b -> b = a.
Proof.
  induction 1 as [|b c p w _ IH Hp Hw Hc]; [done|]. subst.
  symmetry. eapply fixed_change; [done|]. left. destruct w; [|done]. by discriminate Hw.
Qed.

Lemma reaches_executable R W a b : executable a = true -> reaches R W a b -> b = a.
Proof.
  intros Ha. induction 1 as [|b c p w _ IH Hp Hw Hc]; [done|]. subst.
  symmetry. eapply fixed_change; [done|by right].
Qed.

(** An account none of whose programs runs keeps its data and loses nothing. *)
Lemma reaches_foreign R W a b :
  owner a ∉ R -> reaches R W a b ->
  owner b = owner a /\ data b = data a /\ lamports a <= lamports b.
Proof.
  intros Ha. induction 1 as [|b c p w _ (Ho & Hd & Hl) Hp Hw Hc]; [done|].
  assert (p <> owner b) as Hne by (intros ->; by rewrite Ho in Hp).
  destruct Hc as [Hco Hcs _ _ _ Hcd _ _]. rewrite <- Ho, <- Hd.
  split_and!.
  - apply dec_stable. intros Hx. destruct Hco as (_ & _ & ? & _); congruence.
  - symmetry. apply dec_stable. intros Hx. by destruct Hcd.
  - specialize (Hcs Hne). lia.
Qed.
End Changes.

(** ** The loop of [verify_and_update] *)

Section Facts.
Context (ic : InvokeContext caller) (keys : list Pubkey).
#[local] Abbreviation allowed p w :=
  (change_allowed p w (ic_rent ic) (ic_do_support_realloc ic)).

Definition pre_sum (pres : list PreAccount) : Z :=
  foldr (fun p acc => lamports (pre_account p) + acc) 0 pres.

Lemma pre_sum_insert n p p' pres :
  pres !! n = Some p ->
  pre_sum (<[n := p']> pres)
  = pre_sum pres - lamports (pre_account p) + lamports (pre_account p').
Proof.
  revert n. induction pres as [|q pres IH]; intros [|n] Hn; try done.
  - cbn in *. simplify_eq. lia.
  - change (<[S n := p']> (q :: pres)) with (q :: <[n := p']> pres).
    cbn [pre_sum foldr]. unfold pre_sum in *. rewrite (IH n Hn). lia.
Qed.

(** After the check the pre-account is the account. *)
Definition updated_pre (w : bool) (account : AccountSharedData) (p : PreAccount) : PreAccount :=
  if w && negb (executable (pre_account p)) then pre_update account p else p.
Lemma updated_pre_account w account p prog :
  allowed prog w (pre_account p) account -> pre_account (updated_pre w account p) = account.
Proof.
  intros Hc. unfold updated_pre. destruct (w && negb (executable (pre_account p))) eqn:E.
  - destruct Hc as [_ _ _ _ _ _ _ Hr]. by apply account_ext.
  - eapply fixed_change; [done|]. apply andb_false_iff in E as [->|E]; [by left|right].
    by apply negb_false_iff in E.
Qed.
Lemma updated_pre_key w account p : pre_key (updated_pre w account p) = pre_key p.
Proof. unfold updated_pre. by case_match. Qed.

Definition meter_typed (m : AccountsDataMeter) : Prop := i64_min <= meter_delta m <= i64_max.

Lemma consume_nothing m :
  meter_typed m -> consume_unchecked 0 m = m.
Proof.
  intros Hm. unfold consume_unchecked, saturate_i64. destruct m as [? ? delta].
  unfold meter_typed in Hm. cbn in *. f_equal. lia.
Qed.

Section Loop.
Context (prog : Pubkey) (ais : list nat) (ws : list bool) (post : ledger).

(** What is visited: the key with the index [i] and whether it may be written *)
Definition visits (i : nat) (w : bool) (k : Pubkey) : Prop :=
  exists j, ws !! i = Some w /\ ais !! i = Some j /\ keys !! j = Some k.

Lemma verify_and_update_loop_Ok (P : Pubkey -> AccountSharedData -> Prop) idxs pres s0 s0' m
    pres' s1 s1' m' :
  verify_and_update_loop ic keys prog ais ws post idxs pres s0 s0' m = Ok (pres', s1, s1', m') ->
  (forall i w k a, i ∈ idxs -> visits i w k -> P k a -> allowed prog w a (get_account post k) ->
     P k (get_account post k)) ->
  Forall (fun p => P (pre_key p) (pre_account p)) pres ->
  Forall (fun p => P (pre_key p) (pre_account p)) pres' /\
  (forall i, i ∈ idxs -> exists w k, visits i w k /\ P k (get_account post k)) /\
  pre_key <$> pres' = pre_key <$> pres /\
  pre_sum pres' - pre_sum pres = (s1' - s0') - (s1 - s0) /\
  (meter_typed m -> m' = m).
Proof.
  revert pres s0 s0' m. induction idxs as [|i idxs IH]; intros pres s0 s0' m Hrun HP Hpres.
  { cbn in Hrun. simplify_eq. split_and!; [done| |done|lia|done].
    intros i Hi. by apply not_elem_of_nil in Hi. }
  cbn in Hrun. destruct (ws !! i) as [w|] eqn:Hw; [|done].
  destruct (ais !! i) as [j|] eqn:Hj; [|done]. destruct (keys !! j) as [k|] eqn:Hk; [|done].
  run_inv. fold (updated_pre w (get_account post k) p) in *.
  match goal with H : list_find _ _ = _ |- _ => apply list_find_Some in H as (Hn & Hkey & _) end.
  match goal with H : verify_account _ _ _ _ _ _ = _ |- _ => apply verify_account_Ok in H as Hc end.
  pose proof (updated_pre_account _ _ _ _ Hc) as Hup.
  match goal with H : (if ic_cap_accounts_data_len ic then _ else _) = Ok ?x |- _ =>
    assert (x = consume_unchecked 0 m) as -> by
      (rewrite Hup, Z.sub_diag in H; change (saturate_i64 0) with 0 in H; unfold consume in H;
       destruct (ic_cap_accounts_data_len ic); run_inv; done) end.
  assert (P k (get_account post k)) as HPk.
  { eapply (HP i w k); [by left|by exists j| |exact Hc].
    rewrite <- Hkey. by apply (proj1 (Forall_lookup _ _) Hpres n p). }
  destruct (IH _ _ _ _ Hrun) as (Hall & Hvis & Hkeys & Hsum & Hmeter).
  { intros i' w' k' a Hi'. apply HP. by right. }
  { apply Forall_insert; [done|]. by rewrite updated_pre_key, Hup, Hkey. }
  split_and!; [done| | | |].
  - intros i' [->|Hi']%elem_of_cons; [|by apply Hvis]. exists w, k. split; [by exists j|done].
  - rewrite Hkeys, list_fmap_insert, updated_pre_key. apply list_insert_id.
    by rewrite list_lookup_fmap, Hn.
  - rewrite (pre_sum_insert _ _ _ _ Hn), Hup in Hsum. lia.
  - intros Hm. rewrite consume_nothing in Hmeter by done. by apply Hmeter.
Qed.
End Loop.

(** ** Programs

    A program writes only accounts of its instruction, makes no account executable, and
    calls programs while every executable account is one of the native loader, with
    instructions whose keys have a meta with all their flags. *)

Definition agree_outside (ks : list Pubkey) (l l' : ledger) : Prop :=
  forall k, k ∉ ks -> l' !! k = l !! k.
Definition same_executable (l l' : ledger) : Prop :=
  forall k, executable (get_account l' k) = executable (get_account l k).
Definition native_ok (l : ledger) : Prop :=
  forall k, executable (get_account l k) = true -> owner (get_account l k) = native_loader_id.

Fixpoint confined_tree (ks : list Pubkey) (l : ledger) (t : tree unit) : Prop :=
  match t with
  | TRet _ l' => agree_outside ks l l' /\ same_executable l l'
  | TCall ix _ l' k =>
      agree_outside ks l l' /\ same_executable l l' /\ native_ok l' /\
      joined (requested [ix] None) /\
      forall l'', native_ok l'' -> confined_tree ks l'' (k l'')
  | _ => True
  end.

Definition caller_ok (f : caller) : Prop :=
  forall d root kas l, native_ok l ->
  confined_tree (unsigned_key <$> kas) l (f 1%nat d (root :: kas) l).

(** ** The invariant *)

Section Invariant.
Context (l0 : ledger) (W : Pubkey -> bool) (K : list Pubkey).

(** The programs that were called so far *)
Definition ran (st : InvokeState) : list Pubkey :=
  (fun p => ix_program_id p.2) <$> instruction_trace st.

Definition frame_ok (R : list Pubkey) (f : StackFrame) : Prop :=
  (forall p, frame_program_id f = Some p -> p ∈ R) /\
  (forall ka, ka ∈ drop (number_of_program_accounts f) (frame_keyed_accounts f) ->
     unsigned_key ka ∈ K /\ (is_writable ka = true -> W (unsigned_key ka) = true)).

Record inv (st : InvokeState) : Prop := {
  inv_keys : pre_key <$> st_pre_accounts st = K;
  inv_sum : pre_sum (st_pre_accounts st) = lamports_sum l0 K;
  inv_reaches : Forall (fun p => reaches (ic_rent ic) (ic_do_support_realloc ic) (ran st)
    (W (pre_key p)) (get_account l0 (pre_key p)) (pre_account p)) (st_pre_accounts st);
  inv_frame : agree_outside K l0 (st_ledger st);
  inv_executable : same_executable l0 (st_ledger st);
  inv_stack : Forall (frame_ok (ran st)) (invoke_stack st);
}.

Lemma inv_record ix st : inv st -> inv (record_instruction ix st).
Proof.
  intros [Hk Hs Hr Hf He Hst]. split; try done.
  - eapply Forall_impl; [|exact Hr]. intros p. apply reaches_mono. cbn. set_solver.
  - eapply Forall_impl; [|exact Hst]. intros f [Hp Ha]. split; [|done].
    intros p Hfp. right. by apply Hp.
Qed.

Lemma inv_ledger l ks st :
  inv st -> (forall k, k ∈ ks -> k ∈ K) -> agree_outside ks (st_ledger st) l ->
  same_executable (st_ledger st) l -> inv (set_ledger l st).
Proof.
  intros [Hk Hs Hr Hf He Hst] Hks Hag Hex. split; try done.
  - intros k Hnk. rewrite <- Hf by done. apply Hag. auto.
  - intros k. by rewrite <- He.
Qed.

(** What a check of the accounts of a call keeps *)
Lemma verify_and_update_inv st ci ais ws st' :
  verify_and_update ic keys st ci ais ws = Ok st' -> inv st ->
  (forall i w k, visits ais ws i w k -> w = true -> W k = true) ->
  inv st' /\
  (forall i, i ∈ ci_accounts ci -> exists w k, visits ais ws i w k /\
     reaches (ic_rent ic) (ic_do_support_realloc ic) (ran st) (W k) (get_account l0 k)
       (get_account (st_ledger st) k)) /\
  invoke_stack st' = invoke_stack st /\ st_ledger st' = st_ledger st /\
  instruction_trace st' = instruction_trace st /\
  (meter_typed (accounts_data_meter st) -> accounts_data_meter st' = accounts_data_meter st).
Proof.
  intros Hrun [Hk Hs Hr Hf He Hst] HW. unfold verify_and_update in Hrun. run_inv.
  match goal with H : verify_and_update_loop _ _ ?p _ _ _ _ _ _ _ _ = _ |- _ =>
    eapply (verify_and_update_loop_Ok p ais ws (st_ledger st)
      (fun k a => reaches (ic_rent ic) (ic_do_support_realloc ic) (ran st) (W k) (get_account l0 k) a))
      in H as (Hall & Hvis & Hkeys & Hsum & Hmeter); [| |exact Hr] end.
  - match goal with H : negb _ = false |- _ => apply negb_false_iff, Z.eqb_eq in H end.
    split_and!; try done; [|by intros i Hi%visit_each_account_spec; apply Hvis].
    split; try done; cbn [st_pre_accounts set_meter set_pre_accounts];
      [congruence|lia].
  - intros i w k b _ Hv Ha Hc. eapply reaches_step; [exact Ha| |by apply (HW i)|exact Hc].
    match goal with H : _ = Some ?p |- ?p ∈ _ => apply bind_Some in H as (f & Hhead & Hp) end.
    destruct (invoke_stack st) as [|f' S]; [done|]. cbn in Hhead. simplify_eq.
    inversion_clear Hst as [|? ? [Hfp _] _]. by apply Hfp.
Qed.

(** ** The message of a call *)

Lemma get_account_index_Some k i : get_account_index keys k = Some i -> keys !! i = Some k.
Proof.
  unfold get_account_index. intros H. destruct (list_find _ _) as [[j k']|] eqn:E; [|done].
  apply list_find_Some in E as (Hj & -> & _). simplify_eq.
  pose proof (lookup_lt_Some _ _ _ Hj) as Hlt. rewrite length_reverse in Hlt.
  rewrite reverse_lookup in Hj by done. rewrite <- Hj. f_equal. lia.
Qed.

Lemma find_keyed_Ok k kas ka : find_keyed k kas = Ok ka -> ka ∈ kas /\ unsigned_key ka = k.
Proof.
  unfold find_keyed. intros H. destruct (list_find _ kas) as [[j ka']|] eqn:E; [|done].
  apply list_find_Some in E as (Hj & ? & _). cbn in H. simplify_eq.
  split; [by eapply list_elem_of_lookup_2|done].
Qed.

Lemma check_privileges_Ok callees signers metas :
  check_privileges callees signers metas = Ok tt ->
  forall m, m ∈ metas -> exists ka, find_keyed (meta_pubkey m) callees = Ok ka /\
    (meta_is_writable m = true -> is_writable ka = true) /\
    (meta_is_signer m = true -> is_signer ka = true \/ meta_pubkey m ∈ signers).
Proof.
  induction metas as [|m metas IH]; intros H m' Hm'; [by apply not_elem_of_nil in Hm'|].
  cbn in H. run_inv. apply elem_of_cons in Hm' as [->|Hm']; [|by apply IH].
  eexists. split; [eassumption|]. split.
  - intros Hw. rewrite Hw in *. by destruct (is_writable _).
  - intros Hs. rewrite Hs in *. cbn in *. unfold signer_key in *.
    destruct (is_signer _); [by left|right]. cbn in *. by case_bool_decide.
Qed.

Lemma mapM_Ok {E A B} (f : A -> outcome E B) l ys :
  mapM f l = Ok ys -> Forall2 (fun x y => f x = Ok y) l ys.
Proof.
  revert ys. induction l as [|x l IH]; intros ys H.
  - injection H as <-. constructor.
  - cbn in H. apply bind_Ok in H as (y & Hy & H). apply bind_Ok in H as (ys' & Hys & H).
    injection H as <-. constructor; [done|]. by apply IH.
Qed.

(** The message of a call, and the frame it is called from *)
Record called (f : StackFrame) (l : ledger) (ix : Instruction) (signers : list Pubkey)
    (msg : Message) (ws : list bool) (ais pis : list nat) : Prop := {
  cd_program : exists p, pis = [p] /\ keys !! p = Some (ix_program_id ix);
  cd_executable : executable (get_account l (ix_program_id ix)) = true;
  cd_length : length ais = length (account_keys msg);
  cd_index : forall i j, ais !! i = Some j ->
    exists k, account_keys msg !! i = Some k /\ keys !! j = Some k;
  cd_caller : forall i k, account_keys msg !! i = Some k -> exists ka,
    ka ∈ drop (number_of_program_accounts f) (frame_keyed_accounts f) /\ unsigned_key ka = k /\
    ws !! i = Some (is_writable ka);
  cd_metas : forall m, m ∈ ix_accounts ix -> exists ka,
    ka ∈ drop (number_of_program_accounts f) (frame_keyed_accounts f) /\
    unsigned_key ka = meta_pubkey m /\ (meta_is_writable m = true -> is_writable ka = true) /\
    (meta_is_signer m = true -> is_signer ka = true \/ meta_pubkey m ∈ signers);
  cd_message : message_new (E:=InstructionError) [ix] None = Ok msg;
}.

Lemma create_message_Ok st f S ix signers msg ws pis ais :
  invoke_stack st = f :: S ->
  create_message keys st ix signers = Ok (msg, ws, pis) ->
  mapM (fun k => ok_or (get_account_index keys k) MissingAccount) (account_keys msg) = Ok ais ->
  called f (st_ledger st) ix signers msg ws ais pis.
Proof.
  intros Hst Hcm Hais. unfold create_message, get_instruction_keyed_accounts in Hcm.
  rewrite Hst in Hcm. cbn [head mbind outcome_bind ok_or] in Hcm. run_inv.
  match goal with H : (if _ then Panic else Ok _) = Ok ?c |- _ =>
    rename c into callers; case_match; [done|injection H as <-] end.
  match goal with H : mapM (fun k => find_keyed k _) _ = Ok ?c |- _ =>
    rename c into callees; apply mapM_Ok in H as Hcallees end.
  apply mapM_Ok in Hais.
  assert (forall ka, ka ∈ callees ->
    ka ∈ drop (number_of_program_accounts f) (frame_keyed_accounts f)) as Hin.
  { intros ka [i Hi]%list_elem_of_lookup.
    destruct (Forall2_lookup_r _ _ _ _ _ Hcallees Hi) as (k & _ & Hk). by apply find_keyed_Ok in Hk as [? _]. }
  split.
  - eexists. split; [done|]. by apply get_account_index_Some.
  - by apply negb_false_iff.
  - symmetry. by eapply Forall2_length.
  - intros i j Hij. destruct (Forall2_lookup_r _ _ _ _ _ Hais Hij) as (k & Hk & Hj).
    exists k. split; [done|]. apply get_account_index_Some. by destruct (get_account_index keys k); simplify_eq/=.
  - intros i k Hik. destruct (Forall2_lookup_l _ _ _ _ _ Hcallees Hik) as (ka & Hka & Hf).
    exists ka. apply find_keyed_Ok in Hf as [??]. rewrite list_lookup_fmap, Hka. by split_and!.
  - intros m Hm. match goal with H : check_privileges _ _ _ = _ |- _ =>
      destruct (check_privileges_Ok _ _ _ H m Hm) as (ka & Hka & Hw & Hs) end.
    apply find_keyed_Ok in Hka as [??]. exists ka. split_and!; auto.
  - done.
Qed.

(** A callee may write only what its caller may write. *)
Lemma called_writable f l ix signers msg ws ais pis R :
  called f l ix signers msg ws ais pis -> frame_ok R f -> joined (requested [ix] None) ->
  (length K <= 255)%nat ->
  forall i k, account_keys msg !! i = Some k ->
  k ∈ K /\ (msg_is_writable msg i = true -> W k = true).
Proof.
  intros Hc [_ Hf] Hj HK i k Hik.
  assert (forall i k, account_keys msg !! i = Some k -> k ∈ K) as HinK.
  { intros i' k' Hik'. destruct (cd_caller _ _ _ _ _ _ _ _ Hc _ _ Hik') as (ka & Hka & <- & _).
    by apply Hf. }
  split; [by eapply HinK|]. intros Hw.
  set (U := unique_metas (sorted_metas [ix] None)).
  assert (length U <= 255)%nat as HU.
  { pose proof (uq_nodup _ _ _ (unique_ok [ix] None Hj)) as Hnd. fold U in Hnd.
    rewrite <- (length_fmap meta_pubkey U). etrans; [|exact HK]. apply submseteq_length.
    apply NoDup_submseteq; [done|]. intros k' Hk'.
    assert (account_keys msg = meta_pubkey <$> U) as Heq.
    { pose proof (cd_message _ _ _ _ _ _ _ _ Hc) as Hm. unfold message_new, new_with_blockhash, get_keys in Hm.
      cbn [signed_keys unsigned_keys ik_readonly_signed ik_readonly_unsigned] in Hm.
      rewrite (keys_split [ix] None Hj) in Hm. apply bind_Ok in Hm as (cis & _ & Hm).
      injection Hm as <-. done. }
    rewrite <- Heq in Hk'. apply list_elem_of_lookup in Hk' as [i' Hi']. by eapply HinK. }
  destruct (compile_eq [ix] None Hj HU (E:=InstructionError) pk_default) as (cis & Hm & Hall).
  pose proof (cd_message _ _ _ _ _ _ _ _ Hc) as Hm'. unfold message_new in Hm'.
  rewrite Hm in Hm'. injection Hm' as <-.
  apply (fa_writable _ _ _ (compiled_faithful [ix] None Hj HU pk_default cis Hall) i k Hik) in Hw
    as [(m & Hmr & Hmk & Hmw) _].
  apply elem_of_app in Hmr as [Hmr|Hmr]; [by apply not_elem_of_nil in Hmr|].
  apply elem_of_app in Hmr as [Hmr|Hmr].
  - cbn in Hmr. rewrite app_nil_r in Hmr.
    destruct (cd_metas _ _ _ _ _ _ _ _ Hc m Hmr) as (ka & Hka & Hkk & Hkw & _).
    rewrite <- Hmk, <- Hkk. apply Hf; auto.
  - apply list_elem_of_fmap in Hmr as (? & -> & _). done.
Qed.

(** ** Runs *)

Lemma instruction_accounts_Ok msg ais idxs kas :
  instruction_accounts keys msg ais idxs = Ok kas ->
  forall ka, ka ∈ kas -> exists i j k, i ∈ idxs /\ account_index ais i = Ok j /\
    keys !! j = Some k /\ ka = mkKeyed (msg_is_signer msg i) (msg_is_writable msg i) k.
Proof.
  revert kas. induction idxs as [|i idxs IH]; intros kas H ka Hka.
  { cbn in H. run_inv. by apply not_elem_of_nil in Hka. }
  cbn in H. apply bind_Ok in H as (j & Hj & H). destruct (keys !! j) as [k|] eqn:Hk; [|done].
  apply bind_Ok in H as (rest & Hrest & H). injection H as <-.
  apply elem_of_cons in Hka as [->|Hka].
  - exists i, j, k. split_and!; [by left|done..].
  - destruct (IH _ Hrest ka Hka) as (i' & j' & k' & ? & ? & ? & ?).
    exists i', j', k'. split_and!; [by right|done..].
Qed.

(** What a call, or the run of a program with the accounts [A], leaves behind *)
Record kept (A : list Pubkey) (st st' : InvokeState) : Prop := {
  kp_inv : inv st';
  kp_stack : invoke_stack st' = invoke_stack st;
  kp_agree : agree_outside A (st_ledger st) (st_ledger st');
  kp_meter : meter_typed (accounts_data_meter st) ->
    accounts_data_meter st' = accounts_data_meter st;
}.

Lemma kept_trans A st1 st2 st3 : kept A st1 st2 -> kept A st2 st3 -> kept A st1 st3.
Proof.
  intros [_ Hs1 Ha1 Hm1] [Hi2 Hs2 Ha2 Hm2]. split; [done|congruence| |].
  - intros k Hk. by rewrite Ha2, Ha1.
  - intros Hm. rewrite Hm2; [by apply Hm1|]. by rewrite Hm1.
Qed.

Abbreviation frame_keys f :=
  (unsigned_key <$> drop (number_of_program_accounts f) (frame_keyed_accounts f)).

Lemma frame_keys_in st f S :
  inv st -> invoke_stack st = f :: S -> forall k, k ∈ frame_keys f -> k ∈ K.
Proof.
  intros Hinv Hst k (ka & -> & Hka)%list_elem_of_fmap.
  pose proof (inv_stack _ Hinv) as Hf. rewrite Hst in Hf.
  inversion_clear Hf as [|? ? [_ Hf'] _]. by apply Hf'.
Qed.

Definition call_spec
    (call : Instruction -> list Pubkey -> InvokeState -> outcome InstructionError InvokeState)
    : Prop :=
  forall ix signers st st' f S, invoke_stack st = f :: S -> call ix signers st = Ok st' ->
  inv st -> native_ok (st_ledger st) -> joined (requested [ix] None) ->
  kept (frame_keys f) st st' /\ native_ok (st_ledger st').

Lemma run_tree_kept call f S : call_spec call -> forall t st st',
  run_tree call t st = Ok st' -> invoke_stack st = f :: S -> inv st ->
  confined_tree (frame_keys f) (st_ledger st) t -> kept (frame_keys f) st st'.
Proof.
  intros Hcall. induction t as [a l|e| |ix signers l k IH]; intros st st' Hrun Hst Hinv Hc;
    cbn [run_tree] in Hrun; cbn [confined_tree] in Hc; try done.
  - injection Hrun as <-. destruct Hc as [Hag Hex]. split; try done.
    apply (inv_ledger _ (frame_keys f)); [done|by eapply frame_keys_in|done..].
  - destruct Hc as (Hag & Hex & Hnat & Hj & Hk). apply bind_Ok in Hrun as (st1 & Hc1 & Hrun).
    assert (inv (set_ledger l st)) as Hinv1.
    { apply (inv_ledger _ (frame_keys f)); [done|by eapply frame_keys_in|done..]. }
    destruct (Hcall ix signers (set_ledger l st) st1 f S Hst Hc1 Hinv1 Hnat Hj) as [Hkept Hnat1].
    apply (kept_trans _ _ (set_ledger l st)).
    { by split. }
    apply (kept_trans _ _ st1 _ Hkept). apply (IH _ _ _ Hrun).
    + by rewrite (kp_stack _ _ _ Hkept).
    + apply (kp_inv _ _ _ Hkept).
    + by apply Hk.
Qed.

Context (HK : (length K <= 255)%nat) (Hl0 : native_ok l0).
Context (Hprograms : forall k f, find_builtin k (ic_builtin_programs ic) = Some f -> caller_ok f).

(** The frame of a call that is about to run *)
Lemma push_called st f S ix signers msg ws ais pis ci st' :
  called f (st_ledger st) ix signers msg ws ais pis ->
  invoke_stack st = f :: S -> inv st -> ix_program_id ix ∈ ran st ->
  joined (requested [ix] None) -> is_Some (account_keys msg !! program_id_index ci) ->
  push ic keys st msg ci pis ais = Ok st' ->
  exists accts, st' = set_stack (mkFrame 1 (mkKeyed false false (ix_program_id ix) :: accts)
                                 :: f :: S) st /\
    inv st' /\ (unsigned_key <$> accts) ⊆ frame_keys f /\
    (forall ka, ka ∈ accts -> exists i j, i ∈ ci_accounts ci /\ ais !! i = Some j /\
       keys !! j = Some (unsigned_key ka)).
Proof.
  intros Hc Hst Hinv Hran Hj Hprog Hp. unfold push in Hp. rewrite Hst in Hp.
  destruct (cd_program _ _ _ _ _ _ _ _ Hc) as (p & -> & Hkp).
  cbn [keyed_accounts] in Hp. rewrite Hkp in Hp. run_inv.
  match goal with H : instruction_accounts _ _ _ _ = Ok ?a |- _ =>
    rename a into accts; pose proof (instruction_accounts_Ok _ _ _ _ H) as Hacc end.
  assert (forall ka, ka ∈ accts -> exists i j, i ∈ ci_accounts ci /\ ais !! i = Some j /\
    keys !! j = Some (unsigned_key ka) /\ account_keys msg !! i = Some (unsigned_key ka) /\
    is_writable ka = msg_is_writable msg i) as Hat.
  { intros ka Hka. destruct (Hacc ka Hka) as (i & j & k & Hi & Hij & Hjk & ->).
    unfold account_index in Hij. destruct ais as [|a0 ais'] eqn:Hais.
    { pose proof (cd_length _ _ _ _ _ _ _ _ Hc) as Hlen. cbn in Hlen.
      destruct (account_keys msg); [by destruct Hprog|done]. }
    rewrite <- Hais in *. destruct (ais !! i) as [j'|] eqn:Hj'; [|done]. simplify_eq.
    destruct (cd_index _ _ _ _ _ _ _ _ Hc i j Hj') as (k' & Hk' & Hjk'). simplify_eq.
    exists i, j. by split_and!. }
  exists accts. split; [by destruct st; cbn in *; subst|]. split_and!.
  - destruct Hinv as [Hk Hs Hr Hf He Hstk]. split; try done. cbn. constructor; [|by rewrite <- Hst].
    split.
    + intros q Hq. cbn in Hq. by simplify_eq.
    + cbn. intros ka Hka. rewrite drop_0 in Hka. destruct (Hat ka Hka) as (i & j & _ & _ & _ & Hik & ->).
      rewrite Hst in Hstk. inversion_clear Hstk as [|? ? Hfr _].
      by apply (called_writable _ _ _ _ _ _ _ _ _ Hc Hfr Hj HK).
  - intros k (ka & -> & Hka)%list_elem_of_fmap. destruct (Hat ka Hka) as (i & j & _ & _ & _ & Hik & _).
    destruct (cd_caller _ _ _ _ _ _ _ _ Hc _ _ Hik) as (ka' & Hka' & <- & _).
    by apply list_elem_of_fmap_2.
  - intros ka Hka. destruct (Hat ka Hka) as (i & j & ? & ? & ? & _). by exists i, j.
Qed.

(** The programs of executable accounts run as themselves. *)
Lemma find_entry_native st root accts S d t :
  find_entry ic st d = Ok t -> invoke_stack st = mkFrame 1 (root :: accts) :: S ->
  native_ok (st_ledger st) ->
  owner (get_account (st_ledger st) (unsigned_key root)) = native_loader_id ->
  confined_tree (unsigned_key <$> accts) (st_ledger st) t.
Proof.
  intros Ht Hst Hnat Hroot. unfold find_entry in Ht. rewrite Hst in Ht.
  cbn [head mbind outcome_bind ok_or frame_keyed_accounts lookup list_lookup] in Ht.
  rewrite Hroot, bool_decide_eq_true_2 in Ht by done.
  apply bind_Ok in Ht as (g & Hg & Ht). injection Ht as <-.
  apply ok_or_Ok in Hg. by apply (Hprograms _ _ Hg).
Qed.

(** Accounts that a call leaves are native programs or not executable. *)
Lemma native_after A st st' :
  native_ok (st_ledger st) -> inv st' -> agree_outside A (st_ledger st) (st_ledger st') ->
  (forall k, k ∈ A -> exists R, reaches (ic_rent ic) (ic_do_support_realloc ic) R (W k)
     (get_account l0 k) (get_account (st_ledger st') k)) ->
  native_ok (st_ledger st').
Proof.
  intros Hnat Hinv Hag HA k Hk. destruct (decide (k ∈ A)) as [Hin|Hout].
  - destruct (HA k Hin) as [R Hr]. rewrite (inv_executable _ Hinv) in Hk.
    rewrite (reaches_executable _ _ _ _ _ _ Hk Hr). by apply Hl0.
  - unfold get_account in *. rewrite (Hag k Hout) in *. by apply Hnat.
Qed.

(** The steps of a successful call *)
Record invoked (fuel : nat) (f : StackFrame) (ix : Instruction) (signers : list Pubkey)
    (st st' : InvokeState) (msg : Message) (ci : CompiledInstruction) (ws : list bool)
    (ais pis : list nat) (st1 st2 st3 st4 : InvokeState) (t : tree unit) : Prop := {
  iv_called : called f (st_ledger st) ix signers msg ws ais pis;
  iv_instruction : instructions msg !! 0%nat = Some ci;
  iv_caller : verify_and_update ic keys (record_instruction ix st) ci ais ws = Ok st1;
  iv_push : push ic keys st1 msg ci pis ais = Ok st2;
  iv_program : is_Some (account_keys msg !! program_id_index ci);
  iv_entry : find_entry ic st2 (ci_data ci) = Ok t;
  iv_run : run_tree (native_invoke ic keys (process_instruction ic keys fuel)) t st2 = Ok st3;
  iv_callee : verify_and_update ic keys st3 ci ais
    (msg_is_writable msg <$> seq 0 (length (account_keys msg))) = Ok st4;
  iv_result : st' = pop st4;
}.

Lemma native_invoke_Ok fuel ix signers st st' f S :
  invoke_stack st = f :: S ->
  native_invoke ic keys (process_instruction ic keys fuel) ix signers st = Ok st' ->
  exists n msg ci ws ais pis st1 st2 st3 st4 t, fuel = Datatypes.S n /\
    invoked n f ix signers st st' msg ci ws ais pis st1 st2 st3 st4 t.
Proof.
  intros Hst Hrun. unfold native_invoke in Hrun.
  apply bind_Ok in Hrun as ([[msg ws] pis] & Hcm & Hrun).
  apply bind_Ok in Hrun as (ais & Hais & Hrun).
  pose proof (create_message_Ok _ _ _ _ _ _ _ _ _ Hst Hcm Hais) as Hc.
  destruct (instructions msg !! 0%nat) as [ci|] eqn:Hci; [|done].
  apply bind_Ok in Hrun as (st5 & Hrun & Hsz). apply bind_Ok in Hsz as (_ & _ & Hsz).
  injection Hsz as <-.
  assert (bool_decide (invoke_stack (record_instruction ix st) = []) = false) as Hlow.
  { apply bool_decide_eq_false_2. cbn. by rewrite Hst. }
  destruct fuel as [|n]; cbn [process_instruction] in Hrun; rewrite Hlow in Hrun;
    apply bind_Ok in Hrun as (st1 & Hv1 & Hrun); apply bind_Ok in Hrun as (st2 & Hp & Hrun);
    destruct (account_keys msg !! program_id_index ci) as [pid|] eqn:Hpid; try done.
  apply bind_Ok in Hrun as (t & Ht & Hrun). apply bind_Ok in Hrun as (st3 & Hr & Hrun).
  apply bind_Ok in Hrun as (st4 & Hv2 & Hrun). injection Hrun as <-.
  exists n, msg, ci, ws, ais, pis, st1, st2, st3, st4, t. split; [done|].
  by split; try done; rewrite Hpid.
Qed.

Lemma native_invoke_kept fuel :
  call_spec (native_invoke ic keys (process_instruction ic keys fuel)).
Proof.
  induction fuel as [|fuel IH]; intros ix signers st st' f S Hst Hrun Hinv Hnat Hj;
    destruct (native_invoke_Ok _ _ _ _ _ _ _ Hst Hrun)
      as (n & msg & ci & ws & ais & pis & st1 & st2 & st3 & st4 & t & Hn & Hiv); [done|].
  injection Hn as <-. destruct Hiv as [Hc Hci Hv1 Hp Hprog Ht Hr Hv2 ->].
  pose proof (inv_stack _ Hinv) as Hframes. rewrite Hst in Hframes.
  inversion_clear Hframes as [|? ? Hframe _].
  destruct (verify_and_update_inv _ _ _ _ _ Hv1 (inv_record ix _ Hinv)) as (Hinv1 & _ & Hst1 & Hl1 & Htr1 & Hm1).
  { intros i w k (j & Hw & Hj' & Hk) ->. destruct (cd_index _ _ _ _ _ _ _ _ Hc i j Hj') as (k' & Hk' & ?).
    assert (k' = k) as -> by congruence.
    destruct (cd_caller _ _ _ _ _ _ _ _ Hc i k Hk') as (ka & Hka & <- & Hw').
    apply Hframe; congruence. }
  assert (called f (st_ledger st1) ix signers msg ws ais pis) as Hc1 by (by rewrite Hl1).
  assert (ix_program_id ix ∈ ran st1) as Hran by (unfold ran; rewrite Htr1; by left).
  destruct (push_called _ _ _ _ _ _ _ _ _ _ _ Hc1 (eq_trans Hst1 Hst) Hinv1 Hran Hj Hprog Hp) as
    (accts & -> & Hinv2 & Hsub & Hat).
  set (st2 := set_stack _ st1) in *. set (fr := mkFrame 1 _) in st2.
  assert (frame_keys fr = unsigned_key <$> accts) as Hfr by (cbn; by rewrite drop_0).
  assert (kept (frame_keys fr) st2 st3) as Hk3.
  { apply (run_tree_kept _ fr (f :: S) IH t _ _ Hr eq_refl Hinv2). rewrite Hfr.
    apply (find_entry_native _ _ _ _ _ _ Ht eq_refl); cbn; rewrite Hl1; [exact Hnat|].
    by apply Hnat, (cd_executable _ _ _ _ _ _ _ _ Hc). }
  destruct (verify_and_update_inv _ _ _ _ _ Hv2 (kp_inv _ _ _ Hk3)) as (Hinv4 & Hvis & Hst4 & Hl4 & _ & Hm4).
  { intros i w k (j & Hw & Hj' & Hk) ->. destruct (cd_index _ _ _ _ _ _ _ _ Hc i j Hj') as (k' & Hk' & ?).
    assert (k' = k) as -> by congruence.
    apply (called_writable _ _ _ _ _ _ _ _ _ Hc Hframe Hj HK i k Hk').
    apply list_lookup_fmap_Some in Hw as (i' & Hw & [-> _]%lookup_seq). by rewrite Hw. }
  assert (invoke_stack (pop st4) = invoke_stack st) as Hpop.
  { cbn. by rewrite Hst4, (kp_stack _ _ _ Hk3), Hst. }
  assert (inv (pop st4)) as Hinv5.
  { destruct Hinv4 as [Hk Hs Hre Hf He Hstk]. split; try done. cbn.
    destruct (invoke_stack st4); [done|]. by inversion_clear Hstk. }
  assert (agree_outside (unsigned_key <$> accts) (st_ledger st) (st_ledger (pop st4))) as Hag.
  { intros k Hk. cbn. rewrite Hl4. rewrite (kp_agree _ _ _ Hk3) by (by rewrite Hfr). cbn.
    by rewrite Hl1. }
  split; [split; [done..| |]|].
  - intros k Hk. apply Hag. set_solver.
  - intros Hm. cbn. rewrite Hm4, (kp_meter _ _ _ Hk3); cbn; rewrite ?Hm1; try done.
    rewrite (kp_meter _ _ _ Hk3); cbn; by rewrite ?Hm1.
  - apply (native_after _ _ _ Hnat Hinv5 Hag). intros k (ka & -> & Hka)%list_elem_of_fmap.
    destruct (Hat ka Hka) as (i & j & Hi & Hij & Hjk). destruct (Hvis i Hi) as (w & k & (j' & _ & ? & ?) & Hre).
    exists (ran st3). cbn. rewrite Hl4. assert (unsigned_key ka = k) as -> by congruence. done.
Qed.
End Invariant.

(** ** The lowest level *)

Lemma verify_loop_pres msg pid l' idxs pres s0 s0' m s1 s1' m' :
  verify_loop ic msg keys pid l' idxs (pre_account <$> pres) s0 s0' m = Ok (s1, s1', m') ->
  pre_key <$> pres = keys_of keys idxs ->
  (forall p, p ∈ pres -> exists i, i ∈ idxs /\ keys !! i = Some (pre_key p) /\
     allowed pid (msg_is_writable msg i) (pre_account p) (get_account l' (pre_key p))) /\
  s1 = s0 + pre_sum pres /\ s1' = s0' + lamports_sum l' (keys_of keys idxs).
Proof.
  revert pres s0 s0' m. induction idxs as [|i idxs IH]; intros pres s0 s0' m Hrun Hk.
  { destruct pres; [|done]. cbn in Hrun. simplify_eq. split_and!; [|cbn; lia..].
    intros p Hp. by apply not_elem_of_nil in Hp. }
  unfold keys_of in *. destruct (keys !! i) as [k|] eqn:Hi.
  2: { cbn in Hrun. rewrite Hi in Hrun. by repeat case_match. }
  cbn in Hk. rewrite Hi in Hk. cbn in Hk. destruct pres as [|p pres]; [done|].
  injection Hk as Hpk Hk. cbn in Hrun. rewrite Hi in Hrun. run_inv.
  destruct (IH _ _ _ _ Hrun Hk) as (Hall & Hs & Hs'). cbn. rewrite Hi. cbn.
  unfold pre_sum, lamports_sum in *. split_and!; [|cbn; lia..].
  intros q [->|Hq]%elem_of_cons.
  - exists i. split_and!; [by left|done|]. by apply verify_account_Ok.
  - destruct (Hall q Hq) as (i' & ? & ? & ?). exists i'. split_and!; [by right|done..].
Qed.

Lemma zip_pre_account l ks :
  pre_account <$> zip_with mkPre ks (get_account l <$> ks) = get_account l <$> ks.
Proof. induction ks as [|k ks IH]; [done|]. cbn. by f_equal. Qed.

Section Top.
Context (msg : Message) (ci : CompiledInstruction) (pis : list nat) (top : Instruction).
Context (l : ledger) (pid : Pubkey).
Context (Hnd : NoDup (account_keys msg)) (Hlen : (length (account_keys msg) <= 255)%nat).
Context (Hkeys : exists programs, keys = account_keys msg ++ programs).
Context (Htop : decompile msg ci = Ok top) (Hnative : native_program msg keys l ci pis pid).
Context (Hl : native_ok l).
Context (Hprograms : forall k f, find_builtin k (ic_builtin_programs ic) = Some f -> caller_ok f).

Abbreviation K := (keys_of keys (visit_each_account ci)).
Definition writes (k : Pubkey) : bool :=
  existsb (fun i => bool_decide (keys !! i = Some k) && msg_is_writable msg i) (ci_accounts ci).

Lemma top_index i : i ∈ ci_accounts ci -> (i < length (account_keys msg))%nat.
Proof.
  pose proof Htop as H. unfold decompile in H. apply bind_Ok in H as (p & _ & H).
  apply bind_Ok in H as (metas & Hm & _). by eapply decompile_metas_Ok.
Qed.

Lemma top_keys_nodup : NoDup K.
Proof.
  apply (keys_of_NoDup msg); [done|done| |apply visit_each_account_spec].
  intros i Hi%visit_each_account_spec. by apply top_index.
Qed.

Lemma top_keys_length : (length K <= 255)%nat.
Proof.
  etrans; [|exact Hlen]. apply submseteq_length, NoDup_submseteq; [apply top_keys_nodup|].
  intros k (i & Hi & Hk)%list_elem_of_omap. apply visit_each_account_spec in Hi.
  pose proof (top_index _ Hi). destruct Hkeys as [programs ->].
  rewrite lookup_app_l in Hk by done. by eapply list_elem_of_lookup_2.
Qed.

Lemma top_index_unique i j k :
  i ∈ ci_accounts ci -> (j < length (account_keys msg))%nat ->
  keys !! i = Some k -> keys !! j = Some k -> i = j.
Proof.
  intros Hi%top_index Hj. destruct Hkeys as [programs ->]. rewrite !lookup_app_l by done.
  intros. by eapply NoDup_lookup.
Qed.

Lemma top_program : ix_program_id top = pid.
Proof.
  destruct Hnative as (_ & _ & _ & Hpid & _). pose proof Htop as H. unfold decompile in H.
  rewrite Hpid in H. cbn in H. apply bind_Ok in H as (metas & _ & H). by injection H as <-.
Qed.

(** The state in which the program of the instruction starts *)
Lemma push_top meter st1 :
  push ic keys (mkState [] [] l meter [(1%nat, top)]) msg ci pis [] = Ok st1 ->
  exists accts, invoke_stack st1 = [mkFrame 1 (mkKeyed false false pid :: accts)] /\
    st_ledger st1 = l /\ accounts_data_meter st1 = meter /\
    instruction_trace st1 = [(1%nat, top)] /\ inv l writes K st1.
Proof.
  intros Hp. pose proof top_program as Htp. pose proof Hnative as (p & Hpis & Hkp & Hpid & Hown).
  unfold push in Hp. rewrite Hpis in Hp.
  cbn [keyed_accounts invoke_stack st_ledger] in Hp. rewrite Hkp in Hp. run_inv.
  match goal with H : instruction_accounts _ _ _ _ = Ok ?a |- _ =>
    rename a into accts; pose proof (instruction_accounts_Ok _ _ _ _ H) as Hacc end.
  match goal with H : pre_accounts _ _ _ = Ok _ |- _ => apply pre_accounts_Ok in H as -> end.
  exists accts. split_and!; [done..|]. split; cbn.
  - clear. induction (keys_of keys (visit_each_account ci)) as [|k ks IH]; [done|]. cbn. by f_equal.
  - clear. unfold lamports_sum. induction (keys_of keys (visit_each_account ci)) as [|k ks IH]; [done|].
    cbn. unfold pre_sum in IH. by rewrite <- IH.
  - clear. induction (keys_of keys (visit_each_account ci)) as [|k ks IH]; [constructor|].
    cbn. constructor; [constructor|done].
  - done.
  - done.
  - constructor; [|constructor]. split; cbn.
    + intros q [= <-]. by left.
    + intros ka Hka. rewrite drop_0 in Hka. destruct (Hacc ka Hka) as (i & j & k & Hi & Hij & Hk & ->).
      cbn in Hij. simplify_eq. cbn. split.
      * apply list_elem_of_omap. exists j. split; [by apply visit_each_account_spec|done].
      * intros Hw. unfold writes. apply existsb_exists. exists j. split; [by apply list_elem_of_In|].
        by rewrite Hw, bool_decide_eq_true_2.
Qed.

(** What an instruction with all its calls did *)
Lemma process_top_Ok meter st' :
  process_top ic keys msg ci pis top l meter = Ok st' ->
  invoke_stack st' = [] /\ pid ∈ ran st' /\
  (forall k, k ∉ K -> st_ledger st' !! k = l !! k) /\
  (forall k, k ∈ K -> reaches (ic_rent ic) (ic_do_support_realloc ic) (ran st') (writes k)
     (get_account l k) (get_account (st_ledger st') k)) /\
  lamports_sum l K = lamports_sum (st_ledger st') K.
Proof.
  intros Hrun. unfold process_top in Hrun. cbn [process_instruction] in Hrun.
  rewrite bool_decide_eq_true_2 in Hrun by done. cbn [mbind outcome_bind] in Hrun.
  apply bind_Ok in Hrun as (st1 & Hp & Hrun).
  destruct (push_top _ _ Hp) as (accts & Hst1 & Hl1 & _ & Htr1 & Hinv1).
  pose proof Hnative as (p & _ & _ & Hpid & Hown). rewrite Hpid in Hrun.
  apply bind_Ok in Hrun as (t & Ht & Hrun). apply bind_Ok in Hrun as (st2 & Hr & Hrun).
  apply bind_Ok in Hrun as (st3 & Hv & Hrun). injection Hrun as <-.
  set (f := mkFrame 1 (mkKeyed false false pid :: accts)) in *.
  assert (kept l writes K (unsigned_key <$> drop 1 (frame_keyed_accounts f)) st1 st2) as Hk2.
  { eapply (run_tree_kept l writes K _ f []); [|exact Hr|done|done|].
    - by apply native_invoke_kept; [apply top_keys_length|..].
    - cbn. rewrite drop_0. eapply find_entry_native; [done|exact Ht|exact Hst1|by rewrite Hl1..]. }
  unfold verify, verify_instruction in Hv. rewrite Hpid in Hv.
  apply bind_Ok in Hv as (m' & Hv & Hst3). injection Hst3 as <-.
  apply bind_Ok in Hv as ([[s1 s1'] m''] & Hloop & Hv). apply bind_Ok in Hv as ([] & Hsums & _).
  apply fail_if_Ok, negb_false_iff, Z.eqb_eq in Hsums.
  destruct Hk2 as [Hinv2 Hstk _ _]. pose proof Hinv2 as [Hk Hs Hre Hf _ _].
  destruct (verify_loop_pres _ _ _ _ _ _ _ _ _ _ _ Hloop Hk) as (Hall & -> & ->).
  assert (pid ∈ ran st2) as Hran.
  { pose proof (inv_stack _ _ _ _ Hinv2) as Hfr. rewrite Hstk, Hst1 in Hfr.
    inversion_clear Hfr as [|? ? [Hfp _] _]. by apply Hfp. }
  split_and!; [cbn; by rewrite Hstk, Hst1|done|done| |cbn [st_ledger pop set_stack set_meter]; lia].
  intros k Hin. rewrite <- Hk in Hin. apply list_elem_of_fmap in Hin as (pre & -> & Hpre).
  destruct (Hall pre Hpre) as (i & Hi & Hik & Hc).
  eapply reaches_step; [apply (proj1 (Forall_forall _ _) Hre pre), list_elem_of_In, Hpre|exact Hran| |exact Hc].
  intros Hw. unfold writes. apply existsb_exists. exists i.
  split; [by apply list_elem_of_In, visit_each_account_spec|]. by rewrite Hw, bool_decide_eq_true_2.
Qed.
End Top.
End Facts.
