(* ===== verification/InvokeRuns.v ===== *)
(** * Runs of programs that call programs

    What every run leaves of the context, whatever the programs do, and the runs of
    programs that make no calls. *)

From Stdlib Require Import ZArith Lia.
From stdpp Require Import prelude gmap list numbers.
From S2P Require Import Prelude Sdk Runtime SystemInstruction MessageCompile MessageFacts.
From S2P Require Import Invoke InvokeFacts.

Import Invoke.

Lemma bind_ext {E A B} (m : outcome E A) (f g : A -> outcome E B) :
  (forall a, f a = g a) -> m ≫= f = m ≫= g.
Proof. intros H. destruct m; [apply H|done..]. Qed.

Lemma bind_ext_Ok {E A B} (m : outcome E A) (f g : A -> outcome E B) :
  (forall a, m = Ok a -> f a = g a) -> m ≫= f = m ≫= g.
Proof. intros H. destruct m; [by apply H|done..]. Qed.

Lemma bind_assoc {E A B C} (m : outcome E A) (f : A -> outcome E B) (g : B -> outcome E C) :
  m ≫= (fun a => f a ≫= g) = (m ≫= f) ≫= g.
Proof. by destruct m. Qed.

Section Runs.
Context (ic : InvokeContext caller) (keys : list Pubkey).

(** ** The stack and the meter *)

Record steady (st st' : InvokeState) : Prop := {
  sd_stack : invoke_stack st' = invoke_stack st;
  sd_meter : meter_typed (accounts_data_meter st) ->
    accounts_data_meter st' = accounts_data_meter st;
}.

#[local] Instance steady_preorder : PreOrder steady.
Proof.
  split; [by split|]. intros st1 st2 st3 [Hs1 Hm1] [Hs2 Hm2].
  split; [congruence|]. intros Hm. rewrite Hm2; [by apply Hm1|]. by rewrite Hm1.
Qed.

Lemma verify_and_update_steady st ci ais ws st' :
  verify_and_update ic keys st ci ais ws = Ok st' ->
  steady st st' /\ st_ledger st' = st_ledger st.
Proof.
  unfold verify_and_update. intros H. run_inv.
  match goal with H : verify_and_update_loop _ _ _ _ _ _ _ _ _ _ _ = _ |- _ =>
    eapply (verify_and_update_loop_Ok _ _ _ _ _ _ (fun _ _ => True)) in H
      as (_ & _ & _ & _ & Hmeter); [by repeat split|done|by apply Forall_true] end.
Qed.

Lemma push_steady st msg ci pis ais st' :
  push ic keys st msg ci pis ais = Ok st' ->
  steady st (pop st') /\ st_ledger st' = st_ledger st /\
  accounts_data_meter st' = accounts_data_meter st /\ invoke_stack st' <> [].
Proof.
  unfold push. intros H. repeat (apply bind_Ok in H as (? & _ & H)). injection H as <-. done.
Qed.

Definition steady_call
    (call : Instruction -> list Pubkey -> InvokeState -> outcome InstructionError InvokeState)
    : Prop :=
  forall ix signers st st', call ix signers st = Ok st' -> steady st st'.

Lemma run_tree_steady call t st st' :
  steady_call call -> run_tree call t st = Ok st' -> steady st st'.
Proof.
  intros Hcall. revert st st'. induction t as [a l|e| |ix signers l k IH]; intros st st' Hrun;
    cbn in Hrun; try done.
  - injection Hrun as <-. by split.
  - apply bind_Ok in Hrun as (st1 & Hc & Hrun).
    etrans; [|by eapply IH]. etrans; [|by eapply Hcall]. by split.
Qed.

Lemma native_invoke_stack process ix signers st st' :
  native_invoke ic keys process ix signers st = Ok st' -> exists f S, invoke_stack st = f :: S.
Proof.
  unfold native_invoke, create_message, get_instruction_keyed_accounts.
  destruct (invoke_stack st) as [|f S]; [|by exists f, S].
  intros (? & (? & _ & H)%bind_Ok & _)%bind_Ok. done.
Qed.

Lemma native_invoke_steady fuel :
  steady_call (native_invoke ic keys (process_instruction ic keys fuel)).
Proof.
  induction fuel as [|fuel IH]; intros ix signers st st' Hrun;
    destruct (native_invoke_stack _ _ _ _ _ Hrun) as (f & S & Hst);
    destruct (native_invoke_Ok _ _ _ _ _ _ _ _ _ Hst Hrun)
      as (n & msg & ci & ws & ais & pis & st1 & st2 & st3 & st4 & t & Hn & Hiv); [done|].
  injection Hn as <-. destruct Hiv as [_ _ Hv1 Hp _ _ Hr Hv2 ->].
  apply verify_and_update_steady in Hv1 as [Hs1 _]. apply verify_and_update_steady in Hv2 as [Hs4 _].
  apply push_steady in Hp as ([Hst2 _] & _ & Hm2 & Hne).
  apply (run_tree_steady _ _ _ _ IH) in Hr as Hs3.
  assert (steady st2 st4) as [Hst4 Hm4] by (by etrans).
  etrans; [|etrans; [exact Hs1|]]; [by split|].
  split; [cbn in *; by rewrite Hst4|]. cbn. rewrite <- Hm2. exact Hm4.
Qed.

(** ** The depth of calls *)

Lemma run_tree_ext call call' t st :
  steady_call call ->
  (forall ix signers st', invoke_stack st' = invoke_stack st ->
     call ix signers st' = call' ix signers st') ->
  run_tree call t st = run_tree call' t st.
Proof.
  intros Hs Hext. revert st Hext. induction t as [a l|e| |ix signers l k IH]; intros st Hext; try done.
  cbn. rewrite <- Hext by done.
  destruct (call ix signers (set_ledger l st)) as [st1| |] eqn:Hc; [|done..]. cbn.
  apply IH. intros ix' signers' st' Hst'. apply Hext. rewrite Hst'. by apply Hs in Hc as [-> _].
Qed.

Lemma push_length st msg ci pis ais st' :
  push ic keys st msg ci pis ais = Ok st' ->
  (length (invoke_stack st) <= ic_max_invoke_depth ic)%nat /\
  length (invoke_stack st') = S (length (invoke_stack st)).
Proof.
  unfold push. intros (u & Hd%fail_if_Ok & H)%bind_Ok. apply Nat.ltb_ge in Hd.
  repeat (apply bind_Ok in H as (? & _ & H)). by injection H as <-.
Qed.

Lemma process_instruction_fuel fuel fuel' st msg ci pis ais ws :
  (ic_max_invoke_depth ic < fuel + length (invoke_stack st))%nat ->
  (ic_max_invoke_depth ic < fuel' + length (invoke_stack st))%nat ->
  process_instruction ic keys fuel st msg ci pis ais ws
  = process_instruction ic keys fuel' st msg ci pis ais ws.
Proof.
  revert fuel' st msg ci pis ais ws.
  induction fuel as [|fuel IH]; intros [|fuel'] st msg ci pis ais ws Hf Hf';
    cbn [process_instruction]; [done|..]; apply bind_ext_Ok; intros st1 Hst1;
    (assert (invoke_stack st1 = invoke_stack st) as Hs1 by
      (destruct (bool_decide _); [by injection Hst1 as <-|];
       by apply verify_and_update_steady in Hst1 as [[? _] _]));
    apply bind_ext_Ok; intros st2 Hp; destruct (push_length _ _ _ _ _ _ Hp) as [Hd Hl];
    rewrite Hs1 in Hd, Hl; [lia..|].
  destruct (account_keys msg !! program_id_index ci); [|done].
  apply bind_ext; intros t. f_equal. apply run_tree_ext; [apply native_invoke_steady|].
  intros ix signers st3 Hst3. unfold native_invoke. apply bind_ext; intros [[msg' ws'] pis'].
  apply bind_ext; intros ais'. destruct (instructions msg' !! 0%nat); [|done]. f_equal.
  apply IH; cbn; rewrite Hst3, Hl; lia.
Qed.
End Runs.

(** ** Programs without calls *)

Section NoCalls.
Context (ic : InvokeContext builtin) (msg : Message) (keys : list Pubkey).

(** The same context, for programs that could call others *)
Definition callers : InvokeContext caller :=
  mkContext (ic_rent ic) (prod_map id no_calls <$> ic_builtin_programs ic)
    (ic_do_support_realloc ic) (ic_cap_accounts_data_len ic) (ic_reject_empty ic)
    (ic_max_invoke_depth ic).

Lemma find_builtin_callers k (l : list (Pubkey * builtin)) :
  find_builtin k (prod_map id no_calls <$> l) = no_calls <$> find_builtin k l.
Proof. induction l as [|[k' f] l IH]; [done|]. cbn. by case_bool_decide. Qed.

Lemma instruction_accounts_top indices :
  instruction_accounts keys msg [] indices
  = keyed_accounts keys (fun i k => mkKeyed (msg_is_signer msg i) (msg_is_writable msg i) k) indices.
Proof. induction indices as [|i indices IH]; [done|]. cbn. by rewrite IH. Qed.

Lemma verify_loop_callers pid l' idxs pres s0 s0' m :
  verify_loop callers msg keys pid l' idxs pres s0 s0' m
  = verify_loop ic msg keys pid l' idxs pres s0 s0' m.
Proof.
  revert pres s0 s0' m. induction idxs as [|i idxs IH]; intros pres s0 s0' m; [done|].
  destruct pres as [|p pres]; [done|]. cbn. destruct (keys !! i); [|done].
  repeat (apply bind_ext; intros). apply IH.
Qed.

Lemma verify_callers st ci :
  verify callers keys st msg ci
  = (m ← verify_instruction ic msg keys ci (pre_account <$> st_pre_accounts st) (st_ledger st)
           (accounts_data_meter st); Ok (set_meter m st)).
Proof.
  unfold verify, verify_instruction. destruct (account_keys msg !! program_id_index ci); [|done].
  by rewrite verify_loop_callers.
Qed.

(** The state the program of the instruction starts in *)
Lemma push_callers l meter top ci pis :
  push callers keys (mkState [] [] l meter [(1%nat, top)]) msg ci pis []
  = ('(pres, kas) ← push_frame ic msg keys l ci pis;
     Ok (mkState [mkFrame (length pis) kas]
           (zip_with mkPre (keys_of keys (visit_each_account ci)) pres) l meter
           [(1%nat, top)])).
Proof.
  unfold push, push_frame. cbn [invoke_stack length]. rewrite instruction_accounts_top.
  cbn [fail_if Nat.ltb Nat.leb mbind outcome_bind].
  destruct (last_program keys pis) as [pid| |]; [|done..]. cbn.
  destruct (fail_if _ _); [|done..]. cbn.
  destruct (pre_accounts keys l _) as [pres| |]; [|done..]. cbn.
  destruct (keyed_accounts keys _ pis) as [programs| |]; [|done..]. cbn.
  by destruct (keyed_accounts keys _ (ci_accounts ci)) as [accts| |].
Qed.

Lemma run_callers call l meter f pres tr d :
  (t ← find_entry callers (mkState [f] pres l meter tr) d;
   run_tree call t (mkState [f] pres l meter tr))
  = ('(_, l') ← process_executable_chain ic (frame_keyed_accounts f) d l;
     Ok (mkState [f] pres l' meter tr)).
Proof.
  unfold find_entry, process_executable_chain, ka_owner, account_ref, gets, lift.
  cbv [mbind mret st_bind st_ret outcome_bind]. cbn [head invoke_stack ok_or].
  destruct (frame_keyed_accounts f !! 0%nat) as [root|]; [|done].
  cbn [ok_or st_ledger callers ic_builtin_programs]. case_bool_decide.
  - rewrite find_builtin_callers.
    destruct (find_builtin _ (ic_builtin_programs ic)) as [g|]; [|done]. cbn. unfold no_calls, local.
    by destruct (g _ _ _ _) as [[] | |].
  - rewrite find_builtin_callers.
    destruct (find_builtin _ (ic_builtin_programs ic)) as [g|]; [|done]. cbn. unfold no_calls, local.
    by destruct (g _ _ _ _) as [[] | |].
Qed.

Lemma process_top_callers l meter top ci pis :
  is_Some (account_keys msg !! program_id_index ci) ->
  (st ← process_top callers keys msg ci pis top l meter;
   Ok (st_ledger st, accounts_data_meter st))
  = Runtime.process_instruction ic msg keys ci pis l meter.
Proof.
  intros [pid Hpid]. unfold process_top, Runtime.process_instruction.
  cbn [process_instruction]. rewrite bool_decide_eq_true_2 by done. cbn [mbind outcome_bind].
  rewrite push_callers, Hpid.
  destruct (push_frame ic msg keys l ci pis) as [[pres kas]| |] eqn:Hp; [|done..].
  cbn [mbind outcome_bind]. rewrite bind_assoc, run_callers.
  cbn [frame_keyed_accounts].
  destruct (process_executable_chain ic kas (ci_data ci) l) as [[[] l']| |]; [|done..].
  cbn [mbind outcome_bind]. rewrite verify_callers. cbn [st_pre_accounts st_ledger accounts_data_meter].
  unfold push_frame in Hp. run_inv.
  match goal with H : pre_accounts _ _ _ = Ok _ |- _ => apply pre_accounts_Ok in H as -> end.
  rewrite zip_pre_account. by destruct (verify_instruction _ _ _ _ _ _ _).
Qed.

Lemma process_instructions_callers index ixs l meter :
  process_instructions callers keys msg index ixs l meter
  = Runtime.process_instructions ic msg keys index ixs l meter.
Proof.
  revert index l meter. induction ixs as [|[ci pis] ixs IH]; intros index l meter; [done|].
  cbn [process_instructions Runtime.process_instructions].
  case_bool_decide as Hpid; [|done].
  destruct (decompile msg ci) as [top| |]; [|done..]. cbn [mbind outcome_bind].
  destruct (fixup_instructions_sysvar msg keys index l) as [l1| |]; [|done..].
  cbn [mbind outcome_bind]. rewrite <- (process_top_callers _ _ top) by done.
  destruct (process_top callers keys msg ci pis top l1 meter) as [st| |]; [|done..].
  cbn. apply IH.
Qed.
End NoCalls.
