(* ===== verification/MessageTheorems.v ===== *)
(** * Theorems on compiled messages

    A message says what its instructions ask for, as long as no signer gets its
    write access from a meta that does not sign; otherwise it may not. *)

From Stdlib Require Import ZArith Lia.
From Stdlib Require Import Strings.Byte.
From stdpp Require Import prelude gmap numbers list.
From S2P Require Import Prelude Sdk Runtime SystemInstruction MessageCompile MessageFacts.

(** ** Keys of the examples *)

Definition nth_key (b : byte) : Pubkey := new_from_array (replicate 32 b).
Definition swap_ix (p a b : Pubkey) : Instruction :=
  mkInstruction p [mkMeta a true false; mkMeta b false true] [x07].

(** C31: When every key has a meta with all the flags it is given anywhere, there are at
    most 255 keys and the payer is not called as a program, the instructions compile.
    The message lists every key once, the payer first; a key signs, or is writable,
    exactly when an instruction asks for it and it is not reserved or called; the
    instructions are the ones given; and the message is one that sanitizes. *)
Theorem message_compile_faithful {E} ixs p blockhash :
  joined (requested ixs (Some p)) ->
  (length (unique_metas (sorted_metas ixs (Some p))) <= 255)%nat ->
  p ∉ ix_program_id <$> ixs ->
  exists m, new_with_blockhash (E:=E) ixs (Some p) blockhash = Ok m /\
    faithful ixs (Some p) m /\ sanitize m = Ok tt /\ recent_blockhash m = blockhash.
Proof.
  intros Hj Hlen Hp. destruct (compile_eq ixs (Some p) Hj Hlen (E:=E) blockhash) as (cis & Hm & Hc).
  eexists. split; [exact Hm|]. split_and!; [|by eapply compiled_sanitizes|done].
  by apply compiled_faithful.
Qed.

Lemma message_compile_faithful_witness :
  let ixs := [swap_ix (nth_key x10) (nth_key x02) (nth_key x03);
              swap_ix (nth_key x10) (nth_key x04) (nth_key x03)] in
  exists m, new_with_blockhash (E:=unit) ixs (Some (nth_key x01)) (nth_key x20) = Ok m /\
    faithful ixs (Some (nth_key x01)) m /\ sanitize m = Ok tt /\
    recent_blockhash m = nth_key x20.
Proof.
  intros ixs. apply (message_compile_faithful ixs (nth_key x01) (nth_key x20)).
  - apply joined_b_spec. vm_compute. reflexivity.
  - vm_compute. lia.
  - apply (bool_decide_eq_true_1 _). vm_compute. reflexivity.
Defined.

(** A signer that is listed read-only, and as writable by a meta that does not sign,
    is promoted where it stands.  It stays behind another read-only signer and the
    header counts one read-only signer, so the message makes the other one writable,
    which no instruction asks for, and it read-only. *)
Theorem promoted_signer_loses_write {E} a b c p blockhash d :
  NoDup [a; b; c; p] -> c ∉ SYSVAR_IDS -> c ∉ BUILTIN_PROGRAMS_KEYS ->
  let ixs := [mkInstruction p [mkMeta c true false; mkMeta b true false; mkMeta b false true] d] in
  exists m, new_with_blockhash (E:=E) ixs (Some a) blockhash = Ok m /\
    account_keys m = [a; c; b; p] /\
    msg_is_writable m 1 = true /\ ~ wants_writable (requested ixs (Some a)) c /\
    msg_is_writable m 2 = false /\ wants_writable (requested ixs (Some a)) b.
Proof.
  rewrite !NoDup_cons, !not_elem_of_cons. intros Hn Hs Hb ixs.
  destruct_and! Hn.
  assert (get_keys ixs (Some a) = mkInstructionKeys [a; c; b] [p] 1 1) as Hk.
  { unfold get_keys, sorted_metas, get_program_ids, ixs. cbn.
    repeat (rewrite bool_decide_eq_false_2 by done; cbn).
    rewrite (bool_decide_eq_true_2 (b = b)) by done. cbn.
    repeat (rewrite bool_decide_eq_false_2 by done; cbn). done. }
  assert (compile_instructions (E:=E) ixs [a; c; b; p] = Ok [mkCompiled 3 [1; 2; 2]%nat d]) as Hc.
  { unfold compile_instructions, compile_instruction, position, ixs. cbn.
    repeat first [rewrite decide_False by done | rewrite decide_True by done | progress cbn]. done. }
  unfold new_with_blockhash. rewrite Hk. cbn -[compile_instructions]. rewrite Hc.
  eexists. split; [reflexivity|]. split; [done|]. split_and!.
  - unfold msg_is_writable. cbn.
    rewrite (bool_decide_eq_false_2 (c ∈ SYSVAR_IDS)), (bool_decide_eq_false_2 (c ∈ BUILTIN_PROGRAMS_KEYS)) by done.
    done.
  - intros (m & Hm & Hmk & Hw). cbn in Hm.
    repeat (apply elem_of_cons in Hm as [->|Hm]; [by cbn in *; congruence|]).
    by apply elem_of_nil in Hm.
  - done.
  - exists (mkMeta b false true). split_and!; [|done..]. cbn. do 3 right. left.
Qed.

Lemma promoted_signer_loses_write_witness :
  let c := nth_key x03 in
  let ixs := [mkInstruction (nth_key x10) [mkMeta c true false; mkMeta (nth_key x02) true false;
                mkMeta (nth_key x02) false true] [x07]] in
  exists m, new_with_blockhash (E:=unit) ixs (Some (nth_key x01)) (nth_key x20) = Ok m /\
    account_keys m = [nth_key x01; c; nth_key x02; nth_key x10] /\
    msg_is_writable m 1 = true /\ ~ wants_writable (requested ixs (Some (nth_key x01))) c /\
    msg_is_writable m 2 = false /\
    wants_writable (requested ixs (Some (nth_key x01))) (nth_key x02).
Proof.
  apply (promoted_signer_loses_write (nth_key x01) (nth_key x02) (nth_key x03) (nth_key x10));
    apply (bool_decide_eq_true_1 _); vm_compute; reflexivity.
Defined.
