(* ===== verification/VoteState.v ===== *)
(** * Vote state (programs/vote/src/vote_state/mod.rs, authorized_voters.rs)

    The state of a vote account: the tower of recent votes with their lockouts,
    the root, the voters authorized for each epoch, and the credits.  Slots,
    epochs and credits are [u64]; additions that may exceed it wrap, as they do
    in a release build. *)

From Stdlib Require Import ZArith Lia.
From Stdlib Require Import Strings.Byte.
From stdpp Require Import prelude gmap numbers relations list.
From S2P Require Import Prelude Sdk Runtime SystemInstruction.

(** ** Errors *)

Inductive VoteError : Type :=
| VoteTooOld | SlotsMismatch | SlotHashMismatch | EmptySlots | TimestampTooOld
| TooSoonToReauthorize | LockoutConflict | NewVoteStateLockoutMismatch | SlotsNotOrdered
| ConfirmationsNotOrdered | ZeroConfirmations | ConfirmationTooLarge | RootRollBack
| ConfirmationRollBack | SlotSmallerThanRoot | TooManyVotes.

Definition vote_error_code (e : VoteError) : Z :=
  match e with
  | VoteTooOld => 0 | SlotsMismatch => 1 | SlotHashMismatch => 2 | EmptySlots => 3
  | TimestampTooOld => 4 | TooSoonToReauthorize => 5 | LockoutConflict => 6
  | NewVoteStateLockoutMismatch => 7 | SlotsNotOrdered => 8 | ConfirmationsNotOrdered => 9
  | ZeroConfirmations => 10 | ConfirmationTooLarge => 11 | RootRollBack => 12
  | ConfirmationRollBack => 13 | SlotSmallerThanRoot => 14 | TooManyVotes => 15
  end.
Definition vote_err (e : VoteError) : InstructionError := Custom (vote_error_code e).

(** ** Votes and lockouts *)

Definition MAX_LOCKOUT_HISTORY : nat := 31.
Definition INITIAL_LOCKOUT : Z := 2.
Definition MAX_EPOCH_CREDITS_HISTORY : nat := 64.

Record Vote : Type := mkVote {
  vote_slots : list Z;
  vote_hash : Hash;
  vote_timestamp : option Z;
}.

Definition vote_new (slots : list Z) (hash : Hash) : Vote := mkVote slots hash None.
Definition vote_last_voted_slot (v : Vote) : option Z := last (vote_slots v).
Definition last_voted_slot_hash (v : Vote) : option (Z * Hash) :=
  (fun slot => (slot, vote_hash v)) <$> last (vote_slots v).

Record Lockout : Type := mkLockout {
  lo_slot : Z;
  confirmation_count : Z;
}.

Definition lockout_new (slot : Z) : Lockout := mkLockout slot 1.

(** The number of slots for which the vote is locked. *)
Definition lockout (v : Lockout) : Z := wrap64 (INITIAL_LOCKOUT ^ confirmation_count v).
Definition last_locked_out_slot (v : Lockout) : Z := wrap64 (lo_slot v + lockout v).
Definition is_locked_out_at_slot (v : Lockout) (slot : Z) : bool :=
  slot <=? last_locked_out_slot v.

Record VoteInit : Type := mkVoteInit {
  init_node_pubkey : Pubkey;
  init_authorized_voter : Pubkey;
  init_authorized_withdrawer : Pubkey;
  init_commission : Z;
}.

Inductive VoteAuthorize : Type := AuthorizeVoter | AuthorizeWithdrawer.

Record BlockTimestamp : Type := mkBlockTimestamp {
  ts_slot : Z;
  ts_timestamp : Z;
}.

(** The clock sysvar (sdk/program/src/clock.rs). *)
Record Clock : Type := mkClock {
  clock_slot : Z;
  clock_epoch_start_timestamp : Z;
  clock_epoch : Z;
  clock_leader_schedule_epoch : Z;
  clock_unix_timestamp : Z;
}.

(** ** A circular buffer *)

Definition MAX_ITEMS : nat := 32.

Record CircBuf (I : Type) : Type := mkCircBuf {
  cb_buf : list I;
  cb_idx : nat;
  cb_is_empty : bool;
}.
Arguments mkCircBuf {I}. Arguments cb_buf {I}. Arguments cb_idx {I}. Arguments cb_is_empty {I}.

Definition circbuf_default {I} (x : I) : CircBuf I :=
  mkCircBuf (replicate MAX_ITEMS x) (MAX_ITEMS - 1) true.
Definition circbuf_append {I} (item : I) (b : CircBuf I) : CircBuf I :=
  let idx := ((cb_idx b + 1) mod MAX_ITEMS)%nat in
  mkCircBuf (<[idx := item]> (cb_buf b)) idx false.
Definition circbuf_last {I} (b : CircBuf I) : option I :=
  if cb_is_empty b then None else cb_buf b !! cb_idx b.

(** ** Authorized voters

    A [BTreeMap] from epochs to keys. *)

Abbreviation AuthorizedVoters := (gmap Z Pubkey).

(** [range(0..epoch).next_back()] *)
Definition last_before (m : AuthorizedVoters) (epoch : Z) : option (Z * Pubkey) :=
  map_fold (fun k v acc =>
    if k <? epoch then
      match acc with
      | Some (k', _) => if k' <? k then Some (k, v) else acc
      | None => Some (k, v)
      end
    else acc) None m.

(** [iter().next_back()]: no key exceeds a [u64]. *)
Definition voters_last (m : AuthorizedVoters) : option (Z * Pubkey) :=
  last_before m (u64_max + 1).

Definition voters_new (epoch : Z) (k : Pubkey) : AuthorizedVoters := {[epoch := k]}.

Definition get_or_calculate_authorized_voter_for_epoch (m : AuthorizedVoters) (epoch : Z)
    : option (Pubkey * bool) :=
  match m !! epoch with
  | Some k => Some (k, true)
  | None => (fun '(_, k) => (k, false)) <$> last_before m epoch
  end.

Definition voters_get (m : AuthorizedVoters) (epoch : Z) : option Pubkey :=
  fst <$> get_or_calculate_authorized_voter_for_epoch m epoch.

Definition get_and_cache_authorized_voter_for_epoch (m : AuthorizedVoters) (epoch : Z)
    : option Pubkey * AuthorizedVoters :=
  match get_or_calculate_authorized_voter_for_epoch m epoch with
  | Some (k, existed) => (Some k, if existed : bool then m else <[epoch := k]> m)
  | None => (None, m)
  end.

(** Asserts that a voter is left. *)
Definition purge_authorized_voters {E} (m : AuthorizedVoters) (current_epoch : Z)
    : outcome E AuthorizedVoters :=
  let m' := filter (fun '(k, _) => current_epoch <= k) m in
  if bool_decide (m' = ∅) then Panic else Ok m'.

(** ** The state *)

Record VoteState : Type := mkVoteState {
  node_pubkey : Pubkey;
  authorized_withdrawer : Pubkey;
  commission : Z;
  votes : list Lockout;
  root_slot : option Z;
  authorized_voters : AuthorizedVoters;
  prior_voters : CircBuf (Pubkey * Z * Z);
  epoch_credits : list (Z * Z * Z);
  last_timestamp : BlockTimestamp;
}.

Definition set_votes (v : list Lockout) (s : VoteState) : VoteState :=
  mkVoteState (node_pubkey s) (authorized_withdrawer s) (commission s) v (root_slot s)
    (authorized_voters s) (prior_voters s) (epoch_credits s) (last_timestamp s).
Definition set_root_slot (r : option Z) (s : VoteState) : VoteState :=
  mkVoteState (node_pubkey s) (authorized_withdrawer s) (commission s) (votes s) r
    (authorized_voters s) (prior_voters s) (epoch_credits s) (last_timestamp s).
Definition set_authorized_voters (m : AuthorizedVoters) (s : VoteState) : VoteState :=
  mkVoteState (node_pubkey s) (authorized_withdrawer s) (commission s) (votes s) (root_slot s)
    m (prior_voters s) (epoch_credits s) (last_timestamp s).
Definition set_prior_voters (b : CircBuf (Pubkey * Z * Z)) (s : VoteState) : VoteState :=
  mkVoteState (node_pubkey s) (authorized_withdrawer s) (commission s) (votes s) (root_slot s)
    (authorized_voters s) b (epoch_credits s) (last_timestamp s).
Definition set_epoch_credits (c : list (Z * Z * Z)) (s : VoteState) : VoteState :=
  mkVoteState (node_pubkey s) (authorized_withdrawer s) (commission s) (votes s) (root_slot s)
    (authorized_voters s) (prior_voters s) c (last_timestamp s).
Definition set_last_timestamp (t : BlockTimestamp) (s : VoteState) : VoteState :=
  mkVoteState (node_pubkey s) (authorized_withdrawer s) (commission s) (votes s) (root_slot s)
    (authorized_voters s) (prior_voters s) (epoch_credits s) t.
Definition set_node_pubkey (k : Pubkey) (s : VoteState) : VoteState :=
  mkVoteState k (authorized_withdrawer s) (commission s) (votes s) (root_slot s)
    (authorized_voters s) (prior_voters s) (epoch_credits s) (last_timestamp s).
Definition set_authorized_withdrawer (k : Pubkey) (s : VoteState) : VoteState :=
  mkVoteState (node_pubkey s) k (commission s) (votes s) (root_slot s)
    (authorized_voters s) (prior_voters s) (epoch_credits s) (last_timestamp s).
Definition set_commission (c : Z) (s : VoteState) : VoteState :=
  mkVoteState (node_pubkey s) (authorized_withdrawer s) c (votes s) (root_slot s)
    (authorized_voters s) (prior_voters s) (epoch_credits s) (last_timestamp s).

Definition vote_state_default : VoteState :=
  mkVoteState pk_default pk_default 0 [] None ∅ (circbuf_default (pk_default, 0, 0)) []
    (mkBlockTimestamp 0 0).

Definition vote_state_new (init : VoteInit) (clock : Clock) : VoteState :=
  mkVoteState (init_node_pubkey init) (init_authorized_withdrawer init) (init_commission init)
    [] None (voters_new (clock_epoch clock) (init_authorized_voter init))
    (circbuf_default (pk_default, 0, 0)) [] (mkBlockTimestamp 0 0).

(** ** Rewards *)

(** Voter portion, staker portion, and whether the amount was split. *)
Definition commission_split (s : VoteState) (on : Z) : Z * Z * bool :=
  let split := Z.min (commission s) 100 in
  if split =? 0 then (0, on, false)
  else if split =? 100 then (on, 0, false)
  else (on * split / 100 mod 2 ^ 64, on * (100 - split) / 100 mod 2 ^ 64, true).

(** [*self.last_mut().unwrap() = f(..)] *)
Definition update_last {A} (f : A -> A) (l : list A) : list A :=
  match last l with
  | Some x => take (length l - 1) l ++ [f x]
  | None => l
  end.

Definition increment_credits (epoch : Z) (s : VoteState) : VoteState :=
  let credits := epoch_credits s in
  let credits :=
    match last credits with
    | None => credits ++ [(epoch, 0, 0)]
    | Some (e, c, prev) =>
        if e =? epoch then credits
        else
          let credits :=
            if negb (c =? prev) then credits ++ [(epoch, c, c)]
            else update_last (fun '(_, c, prev) => (epoch, c, prev)) credits in
          if (MAX_EPOCH_CREDITS_HISTORY <? length credits)%nat then drop 1 credits else credits
    end in
  set_epoch_credits (update_last (fun '(e, c, prev) => (e, wrap64 (c + 1), prev)) credits) s.

Definition credits (s : VoteState) : Z :=
  match last (epoch_credits s) with Some (_, c, _) => c | None => 0 end.
Definition current_epoch (s : VoteState) : Z :=
  match last (epoch_credits s) with Some (e, _, _) => e | None => 0 end.

(** ** The tower *)

Definition last_lockout (s : VoteState) : option Lockout := last (votes s).
Definition last_voted_slot (s : VoteState) : option Z := lo_slot <$> last_lockout s.
Definition tower (s : VoteState) : list Z := lo_slot <$> votes s.
Definition nth_recent_vote (s : VoteState) (position : nat) : option Lockout :=
  if (position <? length (votes s))%nat
  then votes s !! (length (votes s) - 1 - position)%nat
  else None.

(** [while let Some(vote) = last { if !locked { pop_back } else { break } }], on
    the reversed tower. *)
Fixpoint pop_expired (rev_votes : list Lockout) (next_vote_slot : Z) : list Lockout :=
  match rev_votes with
  | v :: rest => if is_locked_out_at_slot v next_vote_slot then rev_votes
                 else pop_expired rest next_vote_slot
  | [] => []
  end.
Definition pop_expired_votes (vs : list Lockout) (next_vote_slot : Z) : list Lockout :=
  rev (pop_expired (rev vs) next_vote_slot).

Definition double_lockouts (vs : list Lockout) : list Lockout :=
  imap (fun i v =>
    if Z.of_nat i + confirmation_count v <? Z.of_nat (length vs)
    then mkLockout (lo_slot v) (confirmation_count v + 1) else v) vs.

Definition process_next_vote_slot (next_vote_slot epoch : Z) (s : VoteState) : VoteState :=
  if match last_voted_slot s with Some l => next_vote_slot <=? l | None => false end then s else
  let s := set_votes (pop_expired_votes (votes s) next_vote_slot) s in
  let s :=
    match votes s with
    | v :: rest =>
        if (length (votes s) =? MAX_LOCKOUT_HISTORY)%nat
        then increment_credits epoch (set_root_slot (Some (lo_slot v)) (set_votes rest s))
        else s
    | [] => s
    end in
  set_votes (double_lockouts (votes s ++ [lockout_new next_vote_slot])) s.

(** ** Checking a vote against the slot hashes *)

(** The [while] loop: [i] indexes the slots of the vote from the oldest, [j] the
    slot hashes from the oldest, which comes last.  Every turn moves one of them,
    so their distance to the end is enough fuel. *)
Fixpoint match_slots (fuel : nat) (last_voted : option Z) (slots : list Z)
    (slot_hashes : list (Z * Hash)) (i j : nat) : nat * nat :=
  match fuel with
  | O => (i, j)
  | S fuel =>
      if (i <? length slots)%nat && (0 <? j)%nat then
        match slots !! i, slot_hashes !! (j - 1)%nat with
        | Some s, Some (s', _) =>
            if match last_voted with Some l => s <=? l | None => false end
            then match_slots fuel last_voted slots slot_hashes (i + 1) j
            else if negb (s =? s')
            then match_slots fuel last_voted slots slot_hashes i (j - 1)
            else match_slots fuel last_voted slots slot_hashes (i + 1) (j - 1)
        | _, _ => (i, j)
        end
      else (i, j)
  end.

Definition check_slots_are_valid (s : VoteState) (vote : Vote) (slot_hashes : list (Z * Hash))
    : outcome VoteError unit :=
  let '(i, j) := match_slots (length (vote_slots vote) + length slot_hashes) (last_voted_slot s)
                   (vote_slots vote) slot_hashes 0 (length slot_hashes) in
  _ ← fail_if (j =? length slot_hashes)%nat VoteTooOld;
  _ ← fail_if (negb (i =? length (vote_slots vote))%nat) SlotsMismatch;
  match slot_hashes !! j with
  | Some (_, h) => fail_if (negb (bool_decide (h = vote_hash vote))) SlotHashMismatch
  | None => Panic
  end.

Definition process_vote (s : VoteState) (vote : Vote) (slot_hashes : list (Z * Hash)) (epoch : Z)
    : outcome VoteError VoteState :=
  _ ← fail_if (bool_decide (vote_slots vote = [])) EmptySlots;
  _ ← check_slots_are_valid s vote slot_hashes;
  Ok (foldl (fun s slot => process_next_vote_slot slot epoch s) s (vote_slots vote)).

Definition process_vote_unchecked (s : VoteState) (vote : Vote) : VoteState :=
  match process_vote s vote (rev ((fun x => (x, vote_hash vote)) <$> vote_slots vote))
          (current_epoch s) with
  | Ok s' => s'
  | _ => s
  end.
Definition process_slot_vote_unchecked (s : VoteState) (slot : Z) : VoteState :=
  process_vote_unchecked s (vote_new [slot] pk_default).

Definition process_timestamp (s : VoteState) (slot timestamp : Z) : outcome VoteError VoteState :=
  let l := last_timestamp s in
  _ ← fail_if ((slot <? ts_slot l) || (timestamp <? ts_timestamp l)
               || ((slot =? ts_slot l)
                   && negb ((slot =? ts_slot l) && (timestamp =? ts_timestamp l))
                   && negb (ts_slot l =? 0))) TimestampTooOld;
  Ok (set_last_timestamp (mkBlockTimestamp slot timestamp) s).

(** ** Replacing the tower *)

(** The checks of one vote of the new state, given the one before it. *)
Definition check_new_vote (new_root : option Z) (previous : option Lockout) (v : Lockout)
    : outcome VoteError unit :=
  _ ← (if confirmation_count v =? 0 then Err ZeroConfirmations
       else if Z.of_nat MAX_LOCKOUT_HISTORY <? confirmation_count v then Err ConfirmationTooLarge
       else match new_root with
            | Some r => fail_if ((lo_slot v <=? r) && negb (r =? 0)) SlotSmallerThanRoot
            | None => Ok tt
            end);
  match previous with
  | Some p =>
      if lo_slot v <=? lo_slot p then Err SlotsNotOrdered
      else if confirmation_count p <=? confirmation_count v then Err ConfirmationsNotOrdered
      else fail_if (last_locked_out_slot p <? lo_slot v) NewVoteStateLockoutMismatch
  | None => Ok tt
  end.

Fixpoint check_new_votes (new_root : option Z) (previous : option Lockout) (vs : list Lockout)
    : outcome VoteError unit :=
  match vs with
  | [] => Ok tt
  | v :: vs => _ ← check_new_vote new_root previous v; check_new_votes new_root (Some v) vs
  end.

(** The votes of the current state that the new root does not cover. *)
Fixpoint skip_rooted (new_root : option Z) (vs : list Lockout) : list Lockout :=
  match vs with
  | v :: rest =>
      match new_root with
      | Some r => if lo_slot v <=? r then skip_rooted new_root rest else vs
      | None => vs
      end
  | [] => []
  end.

(** The [while] over both towers: every turn drops a vote of one of them. *)
Fixpoint check_lockouts (fuel : nat) (current new : list Lockout) : outcome VoteError unit :=
  match fuel with
  | O => Ok tt
  | S fuel =>
      match current, new with
      | c :: current', n :: new' =>
          match lo_slot c ?= lo_slot n with
          | Lt => _ ← fail_if (lo_slot n <=? last_locked_out_slot c) LockoutConflict;
                  check_lockouts fuel current' new
          | Eq => _ ← fail_if (confirmation_count n <? confirmation_count c) ConfirmationRollBack;
                  check_lockouts fuel current' new'
          | Gt => check_lockouts fuel current new'
          end
      | _, _ => Ok tt
      end
  end.

Definition process_new_vote_state (s : VoteState) (new_state : list Lockout)
    (new_root timestamp : option Z) (epoch : Z) : outcome VoteError VoteState :=
  match last new_state with
  | None => Panic
  | Some newest =>
      _ ← fail_if (MAX_LOCKOUT_HISTORY <? length new_state)%nat TooManyVotes;
      if match last (votes s) with Some l => lo_slot newest <=? lo_slot l | None => false end
      then Panic else
      _ ← match new_root, root_slot s with
          | Some n, Some c => fail_if (n <? c) RootRollBack
          | None, Some _ => Err RootRollBack
          | _, _ => Ok tt
          end;
      _ ← check_new_votes new_root None new_state;
      let current := skip_rooted new_root (votes s) in
      _ ← check_lockouts (length current + length new_state) current new_state;
      let s := if bool_decide (root_slot s = new_root) then s else increment_credits epoch s in
      s ← match timestamp with
          | Some t => process_timestamp s (lo_slot newest) t
          | None => Ok s
          end;
      Ok (set_votes new_state (set_root_slot new_root s))
  end.

(** ** Changing the authorized voter *)

Definition get_and_update_authorized_voter (s : VoteState) (current_epoch : Z)
    : outcome InstructionError (Pubkey * VoteState) :=
  let '(k, m) := get_and_cache_authorized_voter_for_epoch (authorized_voters s) current_epoch in
  k ← ok_or k InvalidAccountData;
  m ← purge_authorized_voters m current_epoch;
  Ok (k, set_authorized_voters m s).

Definition set_new_authorized_voter (s : VoteState) (authorized : Pubkey)
    (current_epoch target_epoch : Z) (verify : Pubkey -> outcome InstructionError unit)
    : outcome InstructionError VoteState :=
  '(epoch_authorized_voter, s) ← get_and_update_authorized_voter s current_epoch;
  _ ← verify epoch_authorized_voter;
  _ ← fail_if (bool_decide (is_Some (authorized_voters s !! target_epoch)))
        (vote_err TooSoonToReauthorize);
  '(latest_epoch, latest) ← ok_or (voters_last (authorized_voters s)) InvalidAccountData;
  s ← (if bool_decide (latest = authorized) then Ok s
       else
         let switch := match circbuf_last (prior_voters s) with
                       | Some (_, _, e) => e
                       | None => 0
                       end in
         if target_epoch <=? latest_epoch then Panic
         else Ok (set_prior_voters
                    (circbuf_append (latest, switch, target_epoch) (prior_voters s)) s));
  Ok (set_authorized_voters (<[target_epoch := authorized]> (authorized_voters s)) s).
