(* ===== verification/VoteTower.v ===== *)
(** * The tower of votes

    The shape every tower has (slots grow, confirmations shrink, no vote is
    expired by the next one), that voting preserves it, and what the checks on a
    replacement tower establish. *)

From Stdlib Require Import ZArith Lia.
From Stdlib Require Import Strings.Byte.
From stdpp Require Import prelude gmap numbers relations sorting list.
From S2P Require Import Prelude Sdk Runtime SystemInstruction VoteState.

(** Slots far enough from the end of [u64] that no lockout overflows. *)
Definition slot_ok (s : Z) : Prop := 0 <= s < 2 ^ 63.
Definition count_ok (c : Z) : Prop := 1 <= c <= Z.of_nat MAX_LOCKOUT_HISTORY.
Definition vote_ok (v : Lockout) : Prop := slot_ok (lo_slot v) /\ count_ok (confirmation_count v).

Lemma last_locked_out_slot_eq v :
  vote_ok v -> last_locked_out_slot v = lo_slot v + 2 ^ confirmation_count v.
Proof.
  intros [Hs Hc]. unfold last_locked_out_slot, lockout, wrap64, u64_max, INITIAL_LOCKOUT, slot_ok, count_ok in *.
  change (Z.of_nat MAX_LOCKOUT_HISTORY) with 31 in Hc. assert (2 ^ confirmation_count v <= 2 ^ 31) by (apply Z.pow_le_mono_r; lia).
  assert (0 < 2 ^ confirmation_count v) by (apply Z.pow_pos_nonneg; lia).
  assert (2 ^ 31 = 2147483648) as E31 by done. assert (2 ^ 63 = 9223372036854775808) as E63 by done.
  rewrite (Z.mod_small (2 ^ _)) by lia. rewrite Z.mod_small by lia. done.
Qed.

(** A vote and the one above it. *)
Definition above (a b : Lockout) : Prop :=
  lo_slot a < lo_slot b /\ confirmation_count b < confirmation_count a /\
  lo_slot b <= last_locked_out_slot a.

Definition chain (vs : list Lockout) : Prop :=
  forall i a b, vs !! i = Some a -> vs !! S i = Some b -> above a b.

(** The shape of a tower over a root. *)
Record tower_ok (root : option Z) (vs : list Lockout) : Prop := {
  tower_chain : chain vs;
  tower_votes : Forall vote_ok vs;
  tower_length : (length vs <= MAX_LOCKOUT_HISTORY)%nat;
  (* a vote with [d] votes on it has at least [d + 1] confirmations *)
  tower_depth : forall i v, vs !! i = Some v ->
    Z.of_nat (length vs) - Z.of_nat i <= confirmation_count v;
  tower_root : forall r v, root = Some r -> v ∈ vs -> r < lo_slot v;
}.

(** ** Sorted slots *)

Lemma chain_lt vs i j a b :
  chain vs -> vs !! i = Some a -> vs !! j = Some b -> (i < j)%nat -> lo_slot a < lo_slot b.
Proof.
  intros Hc Ha Hb Hij. remember (j - i - 1)%nat as d eqn:Ed. revert j b Hb Hij Ed.
  induction d as [|d IH]; intros j b Hb Hij Ed.
  - replace j with (S i) in Hb by lia. destruct (Hc i a b Ha Hb) as [? _]. lia.
  - destruct (lookup_lt_is_Some_2 vs (j - 1)%nat) as [c Hc'].
    { apply lookup_lt_Some in Hb. lia. }
    assert (lo_slot a < lo_slot c) by (eapply (IH (j - 1)%nat); eauto; lia).
    destruct (Hc (j - 1)%nat c b Hc') as [? _]; [|lia]. by replace (S (j - 1)) with j by lia.
Qed.

Lemma chain_last vs v l : chain vs -> v ∈ vs -> last vs = Some l -> lo_slot v <= lo_slot l.
Proof.
  intros Hc [i Hi]%list_elem_of_lookup Hl. rewrite last_lookup in Hl.
  destruct (decide (i = Nat.pred (length vs))) as [->|Hne].
  - rewrite Hi in Hl. injection Hl as ->. lia.
  - apply lookup_lt_Some in Hi as Hlt. pose proof (chain_lt vs i _ v l Hc Hi Hl). lia.
Qed.

Lemma chain_take vs k : chain vs -> chain (take k vs).
Proof.
  intros Hc i a b Ha Hb. apply lookup_take_Some in Ha as [Ha _].
  apply lookup_take_Some in Hb as [Hb _]. eauto.
Qed.

Lemma chain_tail v vs : chain (v :: vs) -> chain vs.
Proof. intros Hc i a b Ha Hb. apply (Hc (S i)); done. Qed.

Lemma tower_ok_take root vs k : tower_ok root vs -> tower_ok root (take k vs).
Proof.
  intros [Hc Hv Hl Hd Hr]. split.
  - by apply chain_take.
  - by apply Forall_take.
  - rewrite length_take. lia.
  - intros i v [Hi _]%lookup_take_Some. rewrite length_take. specialize (Hd i v Hi). lia.
  - intros r v Hroot Hin. eapply Hr; [done|]. apply elem_of_take in Hin as (i & Hi & _). by eapply list_elem_of_lookup_2.
Qed.

(** ** Expiration *)

Lemma pop_expired_spec vs n :
  exists k, (k <= length vs)%nat /\ pop_expired_votes vs n = take k vs /\
    Forall (fun v => is_locked_out_at_slot v n = false) (drop k vs) /\
    (forall v, last (take k vs) = Some v -> is_locked_out_at_slot v n = true).
Proof.
  unfold pop_expired_votes. induction vs as [|v vs IH] using rev_ind.
  - exists 0%nat. split_and!; try done.
  - rewrite rev_app_distr. cbn [rev app pop_expired].
    destruct (is_locked_out_at_slot v n) eqn:Hlock.
    + exists (length (vs ++ [v])). rewrite take_ge, drop_ge by lia. split_and!; try done.
      * cbn. by rewrite rev_involutive.
      * rewrite last_snoc. by intros ? [= <-].
    + destruct IH as (k & Hk & Hp & Hd & Hlast). exists k.
      rewrite length_app, take_app_le, drop_app_le by done. split_and!; try done; [cbn; lia|].
      apply Forall_app. split; [done|]. by constructor.
Qed.

(** ** Pushing a vote *)

Definition double_one (n i : nat) (v : Lockout) : Lockout :=
  if Z.of_nat i + confirmation_count v <? Z.of_nat n
  then mkLockout (lo_slot v) (confirmation_count v + 1) else v.

Lemma double_lockup vs i :
  double_lockouts vs !! i = double_one (length vs) i <$> vs !! i.
Proof. unfold double_lockouts, double_one. by rewrite list_lookup_imap. Qed.

Lemma double_one_slot n i v : lo_slot (double_one n i v) = lo_slot v.
Proof. unfold double_one. by case_match. Qed.

Lemma double_one_count n i v :
  confirmation_count (double_one n i v) =
    if Z.of_nat i + confirmation_count v <? Z.of_nat n
    then confirmation_count v + 1 else confirmation_count v.
Proof. unfold double_one. by case_match. Qed.

Lemma last_locked_mono a a' :
  vote_ok a -> vote_ok a' -> lo_slot a' = lo_slot a ->
  confirmation_count a <= confirmation_count a' ->
  last_locked_out_slot a <= last_locked_out_slot a'.
Proof.
  intros Ha Ha' Hs Hc. rewrite !last_locked_out_slot_eq by done.
  destruct Ha as [_ [? ?]]. assert (2 ^ confirmation_count a <= 2 ^ confirmation_count a')
    by (apply Z.pow_le_mono_r; lia). lia.
Qed.

Section Push.
Context (root : option Z) (vs : list Lockout) (n : Z).
Context (Hok : tower_ok root vs) (Hlen : (length vs < MAX_LOCKOUT_HISTORY)%nat).
Context (Hn : slot_ok n) (Hroot : forall r, root = Some r -> r < n).
Context (Hlast : forall v, last vs = Some v -> lo_slot v < n /\ is_locked_out_at_slot v n = true).

Let pushed := vs ++ [lockout_new n].

Lemma pushed_lookup i v :
  pushed !! i = Some v ->
  (vs !! i = Some v /\ (i < length vs)%nat) \/ (i = length vs /\ v = lockout_new n).
Proof.
  unfold pushed. intros H. apply lookup_app_Some in H as [H|[Hi H]].
  - left. split; [done|]. by eapply lookup_lt_Some.
  - apply list_lookup_singleton_Some in H as [H ->]. right. split; [lia|done].
Qed.

Lemma length_pushed : length pushed = S (length vs).
Proof. unfold pushed. rewrite length_app. cbn. lia. Qed.

Lemma pushed_vote_ok i v : pushed !! i = Some v -> vote_ok (double_one (length pushed) i v).
Proof.
  intros Hi. split; [rewrite double_one_slot | rewrite double_one_count, length_pushed; unfold count_ok].
  - destruct (pushed_lookup _ _ Hi) as [[H _]|[_ ->]]; [|done].
    by apply (Forall_lookup_1 _ _ _ _ (tower_votes _ _ Hok) H).
  - destruct (pushed_lookup _ _ Hi) as [[H Hlt]|[-> ->]].
    + destruct (Forall_lookup_1 _ _ _ _ (tower_votes _ _ Hok) H) as [_ [? ?]].
      case_match eqn:E; [apply Z.ltb_lt in E|]; lia.
    + cbn. destruct (Z.ltb_spec (Z.of_nat (length vs) + 1) (Z.of_nat (S (length vs)))); lia.
Qed.

Lemma pushed_above i a b :
  pushed !! i = Some a -> pushed !! S i = Some b ->
  above (double_one (length pushed) i a) (double_one (length pushed) (S i) b).
Proof.
  intros Ha Hb. pose proof (pushed_vote_ok _ _ Ha) as Hok'.
  unfold above. rewrite !double_one_slot, !double_one_count, length_pushed.
  destruct (pushed_lookup _ _ Ha) as [[Ha' Hi]|[-> _]];
    [|by apply lookup_lt_Some in Hb; rewrite length_pushed in Hb; lia].
  pose proof (Forall_lookup_1 _ _ _ _ (tower_votes _ _ Hok) Ha') as Hva.
  assert (last_locked_out_slot a <= last_locked_out_slot (double_one (length pushed) i a)) as Hmono.
  { apply last_locked_mono; try done; [by rewrite double_one_slot|].
    rewrite double_one_count. case_match; lia. }
  rewrite length_pushed in Hmono.
  destruct (pushed_lookup _ _ Hb) as [[Hb' Hj]|[Hj ->]].
  - destruct (tower_chain _ _ Hok i a b Ha' Hb') as (? & ? & ?).
    split_and!; [done| |lia].
    destruct (Z.ltb_spec (Z.of_nat i + confirmation_count a) (Z.of_nat (S (length vs))));
      destruct (Z.ltb_spec (Z.of_nat (S i) + confirmation_count b) (Z.of_nat (S (length vs)))); lia.
  - destruct (Hlast a) as [Hs Hl%Z.leb_le].
    { rewrite last_lookup. by replace (Nat.pred (length vs)) with i by lia. }
    destruct Hva as [_ [? ?]]. split_and!; [done| |cbn; lia]. cbn [lockout_new confirmation_count].
    destruct (Z.ltb_spec (Z.of_nat i + confirmation_count a) (Z.of_nat (S (length vs))));
      destruct (Z.ltb_spec (Z.of_nat (S i) + 1) (Z.of_nat (S (length vs)))); lia.
Qed.

Lemma push_ok : tower_ok root (double_lockouts (vs ++ [lockout_new n])).
Proof.
  fold pushed. split.
  - intros i a b Ha Hb. rewrite double_lockup in Ha, Hb.
    apply fmap_Some in Ha as (a' & Ha & ->). apply fmap_Some in Hb as (b' & Hb & ->).
    by apply pushed_above.
  - apply Forall_lookup. intros i v Hv. rewrite double_lockup in Hv.
    apply fmap_Some in Hv as (v' & Hv & ->). by apply pushed_vote_ok.
  - unfold double_lockouts. rewrite length_imap, length_pushed. lia.
  - intros i v Hv. rewrite double_lockup in Hv. apply fmap_Some in Hv as (v' & Hv & ->).
    unfold double_lockouts. rewrite length_imap, double_one_count, length_pushed.
    destruct (pushed_lookup _ _ Hv) as [[H Hlt]|[-> ->]].
    + pose proof (tower_depth _ _ Hok i v' H). destruct (Z.ltb_spec (Z.of_nat i + confirmation_count v') (Z.of_nat (S (length vs)))); lia.
    + cbn. destruct (Z.ltb_spec (Z.of_nat (length vs) + 1) (Z.of_nat (S (length vs)))); lia.
  - intros r v Hr [i Hi]%list_elem_of_lookup. rewrite double_lockup in Hi.
    apply fmap_Some in Hi as (v' & Hv & ->). rewrite double_one_slot.
    destruct (pushed_lookup _ _ Hv) as [[H Hlt]|[-> ->]]; [|by apply Hroot].
    eapply tower_root; [done..|]. by eapply list_elem_of_lookup_2.
Qed.
End Push.

(** ** Voting for a slot *)

Definition vote_inv (s : VoteState) : Prop :=
  tower_ok (root_slot s) (votes s) /\ (root_slot s <> None -> votes s <> []).

Definition newer (s : VoteState) (n : Z) : Prop := forall l, last_voted_slot s = Some l -> l < n.

(** Either the slot is not newer and nothing happens, or the expired votes are
    dropped, a full tower gives its oldest vote to the root, and the vote is
    pushed. *)
Lemma next_vote_cases n epoch s :
  (process_next_vote_slot n epoch s = s /\ exists l, last_voted_slot s = Some l /\ n <= l) \/
  newer s n /\ exists k, (k <= length (votes s))%nat /\
    Forall (fun v => is_locked_out_at_slot v n = false) (drop k (votes s)) /\
    (forall v, last (take k (votes s)) = Some v -> is_locked_out_at_slot v n = true) /\
    let kept := take k (votes s) in
    ((length kept <> MAX_LOCKOUT_HISTORY /\
      process_next_vote_slot n epoch s
      = set_votes (double_lockouts (kept ++ [lockout_new n])) s) \/
     exists v rest, kept = v :: rest /\ length kept = MAX_LOCKOUT_HISTORY /\
       process_next_vote_slot n epoch s
       = set_votes (double_lockouts (rest ++ [lockout_new n]))
           (increment_credits epoch (set_root_slot (Some (lo_slot v)) s))).
Proof.
  unfold process_next_vote_slot, newer. destruct (last_voted_slot s) as [l|] eqn:Hl.
  - destruct (Z.leb_spec n l) as [|Hlt]; [left; eauto|]. right.
    split; [by intros ? [= <-]|]. destruct (pop_expired_spec (votes s) n) as (k & Hk & -> & Hd & Hlast).
    exists k. split_and!; try done. cbn [votes set_votes].
    destruct (take k (votes s)) as [|v rest] eqn:Ek; [by left|].
    destruct (Nat.eqb_spec (length (v :: rest)) MAX_LOCKOUT_HISTORY); [|by left].
    right. by exists v, rest.
  - right. split; [done|]. destruct (pop_expired_spec (votes s) n) as (k & Hk & -> & Hd & Hlast).
    exists k. split_and!; try done. cbn [votes set_votes].
    destruct (take k (votes s)) as [|v rest] eqn:Ek; [by left|].
    destruct (Nat.eqb_spec (length (v :: rest)) MAX_LOCKOUT_HISTORY); [|by left].
    right. by exists v, rest.
Qed.

Lemma inv_root_newer s n r : vote_inv s -> newer s n -> root_slot s = Some r -> r < n.
Proof.
  intros [Hok Hne] Hnew Hr. unfold newer, last_voted_slot, last_lockout in Hnew.
  destruct (last (votes s)) as [l|] eqn:Hl.
  - specialize (Hnew _ eq_refl). enough (r < lo_slot l) by lia.
    eapply tower_root; [done..|]. by apply last_Some_elem_of.
  - apply last_None in Hl. destruct Hne; [by rewrite Hr|done].
Qed.

Lemma newer_votes s n v : vote_inv s -> newer s n -> v ∈ votes s -> lo_slot v < n.
Proof.
  intros [Hok _] Hnew Hv. unfold newer, last_voted_slot, last_lockout in Hnew.
  destruct (last (votes s)) as [l|] eqn:Hl.
  - specialize (Hnew _ eq_refl). pose proof (chain_last _ _ _ (tower_chain _ _ Hok) Hv Hl). lia.
  - apply last_None in Hl. rewrite Hl in Hv. set_solver.
Qed.

Lemma tower_ok_tail root v rest :
  tower_ok root (v :: rest) -> tower_ok (Some (lo_slot v)) rest.
Proof.
  intros [Hc Hv Hl Hd Hr]. split.
  - by eapply chain_tail.
  - by inversion Hv.
  - cbn in Hl. lia.
  - intros i w Hi. specialize (Hd (S i) w Hi). cbn [length] in Hd. lia.
  - intros r w [= <-] [i Hi]%list_elem_of_lookup.
    apply (chain_lt (v :: rest) 0 (S i) v w Hc); [done|done|lia].
Qed.

Lemma double_lockouts_ne vs v : double_lockouts (vs ++ [v]) <> [].
Proof.
  intros H. apply (f_equal length) in H. unfold double_lockouts in H.
  rewrite length_imap, length_app in H. cbn in H. lia.
Qed.

Lemma process_next_vote_slot_inv n epoch s :
  slot_ok n -> vote_inv s -> vote_inv (process_next_vote_slot n epoch s).
Proof.
  intros Hn Hinv. destruct (next_vote_cases n epoch s) as [[-> _]|(Hnew & k & Hk & _ & Hlast & Hc)];
    [done|]. pose proof Hinv as [Hok _]. pose proof (tower_ok_take _ _ k Hok) as Hkept.
  assert (forall v, v ∈ take k (votes s) -> lo_slot v < n) as Hlt.
  { intros v (i & Hi & _)%elem_of_take. eapply newer_votes; [done..|]. by eapply list_elem_of_lookup_2. }
  destruct Hc as [[Hl ->]|(v & rest & Ek & Hl & ->)]; (split; [|intros _; apply double_lockouts_ne]).
  - cbn. apply push_ok; try done.
    + pose proof (tower_length _ _ Hkept). lia.
    + intros r Hr. by eapply inv_root_newer.
    + intros v Hv. split; [apply Hlt; by apply last_Some_elem_of|by apply Hlast].
  - rewrite Ek in *. cbn. apply push_ok; try done.
    + by eapply tower_ok_tail.
    + cbn in Hl. lia.
    + intros r [= <-]. apply Hlt. by left.
    + intros w Hw. assert (last (v :: rest) = Some w) as Hw' by (destruct rest; [done|by rewrite last_cons_cons]).
      split; [apply Hlt; by apply last_Some_elem_of|by apply Hlast].
Qed.

Lemma process_slots_inv slots epoch s :
  Forall slot_ok slots -> vote_inv s ->
  vote_inv (foldl (fun s slot => process_next_vote_slot slot epoch s) s slots).
Proof.
  revert s. induction slots as [|n slots IH]; intros s Hs Hinv; [done|].
  apply Forall_cons in Hs as [? ?]. cbn. apply IH; [done|]. by apply process_next_vote_slot_inv.
Qed.

(** ** Replacing the tower *)

Definition sorted_slots (vs : list Lockout) : Prop :=
  StronglySorted (fun a b => lo_slot a < lo_slot b) vs.

Lemma chain_cons a vs :
  chain (a :: vs) <-> (forall b, head vs = Some b -> above a b) /\ chain vs.
Proof.
  split.
  - intros Hc. split; [|by eapply chain_tail]. intros b Hb. apply (Hc 0%nat); [done|].
    by destruct vs.
  - intros [Ha Hc] [|i] x y Hx Hy; cbn in Hx, Hy.
    + injection Hx as <-. apply Ha. by destruct vs.
    + by apply (Hc i).
Qed.

Lemma chain_sorted vs : chain vs -> sorted_slots vs.
Proof.
  induction vs as [|v vs IH]; intros Hc; constructor.
  - apply IH. by eapply chain_tail.
  - apply Forall_lookup. intros i w Hi. by apply (chain_lt (v :: vs) 0 (S i) v w Hc); [..|lia].
Qed.

(** The oldest vote of a tower at or after a slot. *)
Fixpoint first_from (x : Z) (vs : list Lockout) : option Lockout :=
  match vs with
  | [] => None
  | v :: vs => if x <=? lo_slot v then Some v else first_from x vs
  end.

Lemma first_from_lookup x vs i t :
  vs !! i = Some t -> x <= lo_slot t ->
  (forall j v, (j < i)%nat -> vs !! j = Some v -> lo_slot v < x) -> first_from x vs = Some t.
Proof.
  revert i. induction vs as [|v vs IH]; intros i Hi Hx Hbefore; [done|]. cbn.
  destruct (Z.leb_spec x (lo_slot v)) as [Hv|Hv].
  - destruct i as [|i]; [by injection Hi as ->|].
    specialize (Hbefore 0%nat v ltac:(lia) eq_refl). lia.
  - destruct i as [|i]; [injection Hi as ->; lia|]. apply (IH i); [done..|].
    intros j w Hj Hw. apply (Hbefore (S j)); [lia|done].
Qed.

(** What the new tower must do to a vote of the current one: keep it with no
    fewer confirmations, or expire it. *)
Definition succeeds (c t : Lockout) : Prop :=
  (lo_slot t = lo_slot c /\ confirmation_count c <= confirmation_count t) \/
  (lo_slot t <> lo_slot c /\ last_locked_out_slot c < lo_slot t).

Definition no_conflict (new : list Lockout) (c : Lockout) : Prop :=
  forall t, first_from (lo_slot c) new = Some t -> succeeds c t.

Lemma no_conflict_skip c n new :
  lo_slot n < lo_slot c -> no_conflict (n :: new) c <-> no_conflict new c.
Proof. intros H. unfold no_conflict. cbn. by destruct (Z.leb_spec (lo_slot c) (lo_slot n)); [lia|]. Qed.

Lemma no_conflict_hit c n new :
  lo_slot c <= lo_slot n -> no_conflict (n :: new) c <-> succeeds c n.
Proof.
  intros H. unfold no_conflict. cbn. destruct (Z.leb_spec (lo_slot c) (lo_slot n)); [|lia].
  split; [intros Hn; by apply Hn|intros Hs t [= <-]; done].
Qed.

Lemma no_conflict_skip_all n new cur :
  Forall (fun c => lo_slot n < lo_slot c) cur ->
  Forall (no_conflict (n :: new)) cur <-> Forall (no_conflict new) cur.
Proof.
  intros Hlt. rewrite !Forall_forall in *. split; intros H c Hc.
  - by apply (no_conflict_skip _ n); auto.
  - apply no_conflict_skip; auto.
Qed.

Lemma check_lockouts_Ok fuel cur new :
  sorted_slots cur -> sorted_slots new -> (length cur + length new <= fuel)%nat ->
  check_lockouts fuel cur new = Ok tt <-> Forall (no_conflict new) cur.
Proof.
  revert cur new. induction fuel as [|fuel IH]; intros cur new Hcur Hnew Hfuel.
  { destruct cur; [|cbn in Hfuel; lia]. cbn. split; [constructor|done]. }
  cbn [check_lockouts]. destruct cur as [|c cur]; [split; [constructor|done]|].
  destruct new as [|n new].
  { split; [|done]. intros _. apply Forall_true. by intros ??. }
  cbn in Hfuel. apply StronglySorted_inv in Hcur as Hcs. destruct Hcs as [Hcur' Hc].
  apply StronglySorted_inv in Hnew as Hns. destruct Hns as [Hnew' _]. rewrite Forall_cons.
  destruct (Z.compare_spec (lo_slot c) (lo_slot n)) as [E|Hlt|Hgt].
  - rewrite bind_unit_Ok, fail_if_Ok, Z.ltb_ge, IH, no_conflict_hit by (done || lia).
    rewrite no_conflict_skip_all by (eapply Forall_impl; [exact Hc|cbn; intros; lia]).
    unfold succeeds. naive_solver lia.
  - rewrite bind_unit_Ok, fail_if_Ok, Z.leb_gt, IH, no_conflict_hit by (done || (cbn; lia)).
    unfold succeeds. naive_solver lia.
  - rewrite IH by (done || (cbn; lia)). rewrite <- Forall_cons, no_conflict_skip_all; [done|].
    constructor; [lia|]. eapply Forall_impl; [exact Hc|cbn; intros; lia].
Qed.

(** The checks on the new tower itself. *)
Definition over_root (new_root : option Z) (v : Lockout) : Prop :=
  forall r, new_root = Some r -> r <> 0 -> r < lo_slot v.

Lemma check_new_votes_Ok new_root vs : forall previous,
  Forall (fun v => 0 <= confirmation_count v) vs ->
  check_new_votes new_root previous vs = Ok tt <->
  Forall (fun v => count_ok (confirmation_count v) /\ over_root new_root v) vs /\
  chain (option_list previous ++ vs).
Proof.
  induction vs as [|v vs IH]; intros previous Hpos; cbn [check_new_votes].
  { rewrite app_nil_r. split; [|done]. intros _. split; [constructor|].
    destruct previous; intros [|i] a b Ha Hb; done. }
  apply Forall_cons in Hpos as [Hv Hpos]. rewrite bind_unit_Ok, IH, Forall_cons by done.
  assert (check_new_vote new_root previous v = Ok tt <->
    (count_ok (confirmation_count v) /\ over_root new_root v) /\
    (forall p, previous = Some p -> above p v)) as ->.
  { unfold check_new_vote, count_ok, over_root, above. rewrite bind_unit_Ok.
    destruct (Z.eqb_spec (confirmation_count v) 0); [naive_solver lia|].
    destruct (Z.ltb_spec (Z.of_nat MAX_LOCKOUT_HISTORY) (confirmation_count v)); [naive_solver lia|].
    assert (match new_root with
      | Some r => fail_if ((lo_slot v <=? r) && negb (r =? 0)) SlotSmallerThanRoot
      | None => Ok tt end = Ok tt <-> forall r, new_root = Some r -> r <> 0 -> r < lo_slot v) as ->.
    { destruct new_root as [r|]; [|naive_solver]. rewrite fail_if_Ok.
      destruct (Z.leb_spec (lo_slot v) r), (Z.eqb_spec r 0); cbn; naive_solver lia. }
    assert (match previous with
      | Some p => if lo_slot v <=? lo_slot p then Err SlotsNotOrdered
          else if confirmation_count p <=? confirmation_count v then Err ConfirmationsNotOrdered
          else fail_if (last_locked_out_slot p <? lo_slot v) NewVoteStateLockoutMismatch
      | None => Ok tt end = Ok tt <-> forall p, previous = Some p ->
        lo_slot p < lo_slot v /\ confirmation_count v < confirmation_count p /\
        lo_slot v <= last_locked_out_slot p) as ->.
    { destruct previous as [p|]; [|naive_solver].
      destruct (Z.leb_spec (lo_slot v) (lo_slot p)); [naive_solver lia|].
      destruct (Z.leb_spec (confirmation_count p) (confirmation_count v)); [naive_solver lia|].
      rewrite fail_if_Ok, Z.ltb_ge. naive_solver lia. }
    naive_solver lia. }
  change (option_list (Some v) ++ vs) with (v :: vs). destruct previous as [p|].
  - change (option_list (Some p) ++ v :: vs) with (p :: v :: vs).
    rewrite (chain_cons p). cbn. naive_solver.
  - change (option_list None ++ v :: vs) with (v :: vs). naive_solver.
Qed.

(** A replacement tower the checks accept. *)
Record acceptable (s : VoteState) (new_state : list Lockout) (new_root : option Z) : Prop := {
  ac_length : (length new_state <= MAX_LOCKOUT_HISTORY)%nat;
  ac_newest : exists newest, last new_state = Some newest /\ newer s (lo_slot newest);
  ac_root : forall r, root_slot s = Some r -> exists r', new_root = Some r' /\ r <= r';
  ac_votes : Forall (fun v => count_ok (confirmation_count v) /\ over_root new_root v) new_state;
  ac_chain : chain new_state;
  ac_conflict : Forall (no_conflict new_state) (skip_rooted new_root (votes s));
}.

Lemma skip_rooted_suffix new_root vs : exists pre, vs = pre ++ skip_rooted new_root vs.
Proof.
  induction vs as [|v vs [pre IH]]; [by exists []|]. cbn.
  destruct new_root as [r|]; [|by exists []].
  destruct (lo_slot v <=? r); [|by exists []]. exists (v :: pre). cbn. by f_equal.
Qed.

Lemma sorted_skip_rooted new_root vs : sorted_slots vs -> sorted_slots (skip_rooted new_root vs).
Proof.
  intros Hs. destruct (skip_rooted_suffix new_root vs) as [pre Hpre].
  rewrite Hpre in Hs. by apply StronglySorted_app_1_r in Hs.
Qed.

Lemma elem_of_skip_rooted new_root vs c :
  sorted_slots vs ->
  c ∈ skip_rooted new_root vs <-> c ∈ vs /\ forall r, new_root = Some r -> r < lo_slot c.
Proof.
  intros Hs. destruct new_root as [r|]; [|destruct vs; naive_solver].
  induction vs as [|v vs IH]; [set_solver|]. apply StronglySorted_inv in Hs as [Hs Hv]. cbn.
  rewrite Forall_forall in Hv. destruct (Z.leb_spec (lo_slot v) r).
  - rewrite IH, elem_of_cons by done. naive_solver lia.
  - rewrite elem_of_cons. split; [|naive_solver]. intros Hc. split; [done|].
    intros ? [= <-]. destruct Hc as [->|Hc]; [lia|]. specialize (Hv c Hc). cbn in Hv. lia.
Qed.

Lemma newer_last s n :
  newer s n <->
  match last (votes s) with Some l => n <=? lo_slot l | None => false end = false.
Proof.
  unfold newer, last_voted_slot, last_lockout. destruct (last (votes s)) as [l|]; cbn; [|naive_solver].
  rewrite Z.leb_gt. naive_solver.
Qed.

Section Replace.
Context (s : VoteState) (new_state : list Lockout) (new_root : option Z) (epoch : Z).
Context (Hcur : chain (votes s)) (Hpos : Forall (fun v => 0 <= confirmation_count v) new_state).

Lemma replace_sound timestamp s' :
  process_new_vote_state s new_state new_root timestamp epoch = Ok s' ->
  acceptable s new_state new_root /\ votes s' = new_state /\ root_slot s' = new_root.
Proof.
  unfold process_new_vote_state. destruct (last new_state) as [newest|] eqn:Hlast; [|done].
  rewrite bind_unit_Ok, fail_if_Ok, Nat.ltb_ge. intros [Hlen H].
  match type of H with (if ?b then _ else _) = _ => destruct b eqn:Hnew; [done|] end.
  apply newer_last in Hnew. rewrite bind_unit_Ok in H. destruct H as [Hroot H].
  cbv zeta in H. rewrite !bind_unit_Ok in H. destruct H as (Hnv & Hlo & H).
  apply check_new_votes_Ok in Hnv as [Hv Hc]; [|done].
  apply check_lockouts_Ok in Hlo; [|by apply sorted_skip_rooted, chain_sorted|by apply chain_sorted|done].
  apply bind_Ok in H as (s1 & _ & [= <-]). split; [|done]. split; try done; [by eauto|].
  intros r Hr. rewrite Hr in Hroot. destruct new_root as [r'|]; [|done].
  apply fail_if_Ok, Z.ltb_ge in Hroot. eauto.
Qed.

Lemma replace_complete :
  acceptable s new_state new_root ->
  process_new_vote_state s new_state new_root None epoch =
  Ok (set_votes new_state (set_root_slot new_root
        (if bool_decide (root_slot s = new_root) then s else increment_credits epoch s))).
Proof.
  intros [Hlen (newest & Hlast & Hnew) Hroot Hv Hc Hlo].
  unfold process_new_vote_state. rewrite Hlast.
  destruct (Nat.ltb_spec MAX_LOCKOUT_HISTORY (length new_state)); [lia|]. cbn [fail_if mbind outcome_bind].
  apply newer_last in Hnew. rewrite Hnew.
  assert (match new_root, root_slot s with
    | Some n, Some c => fail_if (n <? c) RootRollBack
    | None, Some _ => Err RootRollBack
    | _, _ => Ok tt end = Ok tt) as ->.
  { destruct (root_slot s) as [r|]; [|by destruct new_root].
    destruct (Hroot r eq_refl) as (r' & -> & ?). apply fail_if_Ok, Z.ltb_ge. lia. }
  cbn [mbind outcome_bind].
  rewrite (proj2 (check_new_votes_Ok new_root new_state None Hpos)) by done.
  cbn [mbind outcome_bind]. cbv zeta.
  rewrite (proj2 (check_lockouts_Ok _ _ _ (sorted_skip_rooted _ _ (chain_sorted _ Hcur))
    (chain_sorted _ Hc) (Nat.le_refl _)) Hlo). done.
Qed.
End Replace.

(** ** A tower obtained by voting is an acceptable replacement *)

Section Voted.
Context (l : list Lockout) (n : Z).
Let pushed := double_lockouts (l ++ [lockout_new n]).

Lemma pushed_old i c : l !! i = Some c -> pushed !! i = Some (double_one (S (length l)) i c).
Proof.
  intros Hi. unfold pushed. rewrite double_lockup, (lookup_app_l_Some _ _ _ _ Hi), length_app.
  cbn [fmap option_fmap option_map length]. by rewrite Nat.add_1_r.
Qed.

Lemma pushed_new : pushed !! length l = Some (double_one (S (length l)) (length l) (lockout_new n)).
Proof.
  unfold pushed. rewrite double_lockup, lookup_app_r, Nat.sub_diag, length_app by lia.
  cbn [fmap option_fmap option_map length lookup list_lookup]. by rewrite Nat.add_1_r.
Qed.

Lemma last_pushed : last pushed = Some (double_one (S (length l)) (length l) (lockout_new n)).
Proof.
  rewrite last_lookup. replace (length pushed) with (length l + 1)%nat by (unfold pushed, double_lockouts; by rewrite length_imap, length_app).
  replace (Nat.pred (length l + 1)) with (length l) by lia. apply pushed_new.
Qed.

Lemma no_conflict_kept i c :
  chain pushed -> l !! i = Some c -> no_conflict pushed c.
Proof.
  intros Hc Hi t Ht. rewrite (first_from_lookup _ _ i _ (pushed_old i c Hi)) in Ht.
  - injection Ht as <-. left. split; [apply double_one_slot|].
    rewrite double_one_count. case_match; lia.
  - rewrite double_one_slot. lia.
  - intros j v Hj Hv.
    pose proof (chain_lt _ _ _ _ _ Hc Hv (pushed_old i c Hi) Hj) as Hlt.
    by rewrite double_one_slot in Hlt.
Qed.

Lemma no_conflict_expired c :
  (forall v, v ∈ l -> lo_slot v < lo_slot c) -> lo_slot c < n ->
  is_locked_out_at_slot c n = false -> no_conflict pushed c.
Proof.
  intros Hl Hn Hexp%Z.leb_gt t Ht. rewrite (first_from_lookup _ _ _ _ pushed_new) in Ht.
  - injection Ht as <-. right. rewrite double_one_slot. cbn. lia.
  - rewrite double_one_slot. cbn. lia.
  - intros j v Hj Hv. destruct (lookup_lt_is_Some_2 l j Hj) as [w Hw].
    rewrite (pushed_old j w Hw) in Hv. injection Hv as <-. rewrite double_one_slot.
    apply Hl. by eapply list_elem_of_lookup_2.
Qed.
End Voted.

Lemma voted_no_conflict n epoch s c :
  slot_ok n -> vote_inv s -> newer s n -> c ∈ votes s ->
  (forall r, root_slot (process_next_vote_slot n epoch s) = Some r -> r < lo_slot c) ->
  no_conflict (votes (process_next_vote_slot n epoch s)) c.
Proof.
  intros Hn Hinv Hnew Hc Hroot.
  pose proof (process_next_vote_slot_inv n epoch s Hn Hinv) as [Hok' _].
  pose proof (tower_chain _ _ Hok') as Hch. pose proof Hinv as [Hok _].
  pose proof (newer_votes _ _ _ Hinv Hnew Hc) as Hcn.
  apply list_elem_of_lookup in Hc as [i Hi].
  destruct (next_vote_cases n epoch s) as [[_ (l & Hl & ?)]|(_ & k & Hk & Hd & _ & Hcases)].
  { specialize (Hnew _ Hl). lia. }
  assert (forall l, (forall v, v ∈ l -> v ∈ take k (votes s)) -> (k <= i)%nat ->
    no_conflict (double_lockouts (l ++ [lockout_new n])) c) as Hexp.
  { intros l Hl Hki. apply no_conflict_expired; [|done|].
    - intros v (j & Hj & Hjk)%Hl%elem_of_take.
      by apply (chain_lt _ j i _ _ (tower_chain _ _ Hok) Hj Hi); lia.
    - apply (Forall_lookup_1 _ _ (i - k) _ Hd). rewrite lookup_drop. by replace (k + (i - k))%nat with i by lia. }
  destruct Hcases as [[_ Hs']|(v & rest & Ek & _ & Hs')]; rewrite Hs' in *; cbn in Hch, Hroot |- *.
  - destruct (decide (i < k)%nat); [|apply Hexp; [done|lia]].
    apply (no_conflict_kept _ _ i); [done|]. by rewrite lookup_take_lt.
  - destruct (decide (i < k)%nat) as [Hik|].
    + specialize (Hroot _ eq_refl).
      assert ((v :: rest) !! i = Some c) as Hi' by (by rewrite <- Ek, lookup_take_lt).
      destruct i as [|i]; [injection Hi' as ->; lia|]. by apply (no_conflict_kept _ _ i).
    + apply Hexp; [|lia]. intros w Hw. rewrite Ek. by right.
Qed.

Lemma voted_acceptable n epoch s :
  slot_ok n -> vote_inv s -> newer s n ->
  acceptable s (votes (process_next_vote_slot n epoch s))
    (root_slot (process_next_vote_slot n epoch s)).
Proof.
  intros Hn Hinv Hnew.
  pose proof (process_next_vote_slot_inv n epoch s Hn Hinv) as [Hok' _]. pose proof Hinv as [Hok _].
  split.
  - apply Hok'.
  - destruct (next_vote_cases n epoch s) as [[_ (l & Hl & ?)]|(_ & k & Hk & Hd & _ & Hcases)].
    { specialize (Hnew _ Hl). lia. }
    destruct Hcases as [[_ ->]|(v & rest & _ & _ & ->)]; cbn; rewrite last_pushed;
      eexists; (split; [done|]); by rewrite double_one_slot.
  - intros r Hr.
    destruct (next_vote_cases n epoch s) as [[-> _]|(_ & k & Hk & Hd & _ & Hcases)]; [eauto with lia|].
    destruct Hcases as [[_ ->]|(v & rest & Ek & _ & ->)]; cbn; [eauto with lia|].
    eexists. split; [done|]. enough (r < lo_slot v) by lia. eapply tower_root; [done..|].
    apply (list_elem_of_lookup_2 _ 0). apply (lookup_take_Some _ k). by rewrite Ek.
  - apply Forall_forall. intros v Hv. split.
    + by apply (proj1 (Forall_forall _ _) (tower_votes _ _ Hok')).
    + intros r Hr _. by apply (tower_root _ _ Hok' r v).
  - apply Hok'.
  - apply Forall_forall. intros c Hc.
    apply elem_of_skip_rooted in Hc as [Hc Hr]; [|apply chain_sorted, Hok].
    by apply voted_no_conflict.
Qed.

Lemma root_changes s v k :
  vote_inv s -> (exists rest, take k (votes s) = v :: rest) ->
  root_slot s <> Some (lo_slot v).
Proof.
  intros [Hok _] [rest Ek] Hr.
  enough (lo_slot v < lo_slot v) by lia. apply (tower_root _ _ Hok _ _ Hr).
  apply (list_elem_of_lookup_2 _ 0). apply (lookup_take_Some _ k). by rewrite Ek.
Qed.

(** Replacing a tower with the result of one vote is that vote. *)
Lemma voted_replaces n epoch s :
  slot_ok n -> vote_inv s -> newer s n ->
  process_new_vote_state s (votes (process_next_vote_slot n epoch s))
    (root_slot (process_next_vote_slot n epoch s)) None epoch =
  Ok (process_next_vote_slot n epoch s).
Proof.
  intros Hn Hinv Hnew. pose proof (process_next_vote_slot_inv n epoch s Hn Hinv) as [Hok' _].
  rewrite replace_complete;
    [|apply Hinv|eapply Forall_impl; [apply Hok'|unfold vote_ok, count_ok; lia]|by apply voted_acceptable].
  f_equal. clear Hok'.
  destruct (next_vote_cases n epoch s) as [[-> _]|(_ & k & _ & _ & _ & [[_ ->]|(v & rest & Ek & _ & ->)])].
  - rewrite bool_decide_true by done. by destruct s.
  - cbn. rewrite bool_decide_true by done. by destruct s.
  - rewrite bool_decide_false; [by destruct s|]. cbn. eapply root_changes; [done|eauto].
Qed.

(** ** What a replacement keeps *)

Lemma first_from_Some x vs t :
  first_from x vs = Some t ->
  t ∈ vs /\ x <= lo_slot t /\
  (sorted_slots vs -> forall v, v ∈ vs -> lo_slot v < lo_slot t -> lo_slot v < x).
Proof.
  induction vs as [|v vs IH]; [done|]. cbn. destruct (Z.leb_spec x (lo_slot v)) as [Hle|Hlt].
  - intros [= ->]. split_and!; [by left|done|]. intros Hs w Hw Hlt.
    apply elem_of_cons in Hw as [->|Hw]; [lia|]. apply StronglySorted_inv in Hs as [_ Hall].
    pose proof (proj1 (Forall_forall _ _) Hall _ Hw). cbn in *. lia.
  - intros Ht. destruct (IH Ht) as (Hin & Hx & Hbefore). split_and!; [by right|done|].
    intros Hs w Hw Hwt. apply elem_of_cons in Hw as [->|Hw]; [done|].
    apply StronglySorted_inv in Hs as [Hs _]. by apply Hbefore.
Qed.

Lemma first_from_ex x vs t : t ∈ vs -> x <= lo_slot t -> exists t', first_from x vs = Some t'.
Proof.
  induction vs as [|v vs IH]; intros Hin Hx; [by apply not_elem_of_nil in Hin|]. cbn.
  destruct (Z.leb_spec x (lo_slot v)); [eauto|].
  apply elem_of_cons in Hin as [->|Hin]; [lia|]. by apply IH.
Qed.

(** A vote the new root does not cover is kept, with no fewer confirmations, or
    was no longer locked out at the first newer vote of the new tower. *)
Definition kept_or_expired (new : list Lockout) (c : Lockout) : Prop :=
  (exists t, t ∈ new /\ lo_slot t = lo_slot c /\ confirmation_count c <= confirmation_count t) \/
  (exists t, t ∈ new /\ lo_slot c < lo_slot t /\ is_locked_out_at_slot c (lo_slot t) = false /\
     forall v, v ∈ new -> lo_slot v < lo_slot t -> lo_slot v < lo_slot c).

Lemma acceptable_keeps s new new_root c :
  chain (votes s) -> acceptable s new new_root -> c ∈ votes s ->
  (forall r, new_root = Some r -> r < lo_slot c) -> kept_or_expired new c.
Proof.
  intros Hcur [_ (newest & Hlast & Hnew) _ _ Hch Hall] Hc Hroot.
  assert (no_conflict new c) as Hnc.
  { apply (proj1 (Forall_forall _ _) Hall). apply elem_of_skip_rooted; [by apply chain_sorted|done]. }
  assert (lo_slot c <= lo_slot newest) as Hle.
  { unfold newer, last_voted_slot, last_lockout in Hnew.
    destruct (last (votes s)) as [v|] eqn:Hv.
    - specialize (Hnew _ eq_refl). pose proof (chain_last _ _ _ Hcur Hc Hv). lia.
    - apply last_None in Hv. rewrite Hv in Hc. by apply not_elem_of_nil in Hc. }
  destruct (first_from_ex (lo_slot c) new newest) as [t Ht];
    [apply last_Some in Hlast as [l' ->]; set_solver|done|].
  destruct (first_from_Some _ _ _ Ht) as (Hin & Hge & Hbefore).
  destruct (Hnc t Ht) as [[E Hcount]|[Hne Hexp]].
  - left. eauto.
  - right. exists t. split_and!; [done|lia|by apply Z.leb_gt|]. by apply Hbefore, chain_sorted.
Qed.
