(* ===== verification/VoteVoters.v ===== *)
(** * Authorized voters and the checks of a vote

    The voter of an epoch is the one of the latest entry up to it; what the
    operations on the map of voters do to the voter of every epoch; and what a
    vote that passes [check_slots_are_valid] says. *)

From Stdlib Require Import ZArith Lia.
From Stdlib Require Import Strings.Byte.
From stdpp Require Import prelude gmap numbers relations list.
From S2P Require Import Prelude Sdk Runtime SystemInstruction VoteState.

(** ** The voter of an epoch *)

Lemma last_before_spec (m : AuthorizedVoters) e :
  match last_before m e with
  | Some (k, v) => m !! k = Some v /\ k < e /\ forall k' v', m !! k' = Some v' -> k' < e -> k' <= k
  | None => forall k v, m !! k = Some v -> e <= k
  end.
Proof.
  unfold last_before. apply (map_fold_weak_ind (fun acc (m : AuthorizedVoters) =>
    match acc with
    | Some (k, v) => m !! k = Some v /\ k < e /\ forall k' v', m !! k' = Some v' -> k' < e -> k' <= k
    | None => forall k v, m !! k = Some v -> e <= k
    end)); [done|]. clear m. intros k v m acc Hk IH.
  assert (forall k' v', <[k := v]> m !! k' = Some v' -> k' = k \/ m !! k' = Some v') as Hins.
  { intros k' v' [[-> _]|[_ ?]]%lookup_insert_Some; auto. }
  destruct (Z.ltb_spec k e) as [Hlt|Hge].
  - destruct acc as [[k1 v1]|].
    + destruct IH as (Hk1 & Hlt1 & Hmax). destruct (Z.ltb_spec k1 k).
      * split_and!; [apply lookup_insert_eq|done|]. intros k' v' [->|Hk']%Hins; [lia|].
        intros. specialize (Hmax _ _ Hk'). lia.
      * split_and!; [rewrite lookup_insert_ne by congruence; done|done|].
        intros k' v' [->|Hk']%Hins; [lia|]. eauto.
    + split_and!; [apply lookup_insert_eq|done|]. intros k' v' [->|Hk']%Hins; [lia|].
      specialize (IH _ _ Hk'). lia.
  - destruct acc as [[k1 v1]|].
    + destruct IH as (Hk1 & Hlt1 & Hmax).
      split_and!; [rewrite lookup_insert_ne by congruence; done|done|].
      intros k' v' [->|Hk']%Hins; [lia|]. eauto.
    + intros k' v' [->|Hk']%Hins; eauto.
Qed.

(** [k] is the key of the latest entry up to [e]. *)
Definition effective (m : AuthorizedVoters) (e : Z) (k : Pubkey) : Prop :=
  exists j, m !! j = Some k /\ j <= e /\ forall j' k', m !! j' = Some k' -> j' <= e -> j' <= j.

Lemma effective_inj m e k k' : effective m e k -> effective m e k' -> k = k'.
Proof.
  intros (j & Hj & Hle & Hmax) (j' & Hj' & Hle' & Hmax').
  specialize (Hmax _ _ Hj' Hle'). specialize (Hmax' _ _ Hj Hle).
  assert (j = j') as -> by lia. congruence.
Qed.

Lemma voters_get_effective m e k : voters_get m e = Some k <-> effective m e k.
Proof.
  assert (forall k, voters_get m e = Some k -> effective m e k) as Hsound.
  { clear k. intros k. unfold voters_get, get_or_calculate_authorized_voter_for_epoch.
    destruct (m !! e) as [k'|] eqn:He; cbn.
    - intros [= <-]. exists e. split_and!; [done|lia|lia].
    - pose proof (last_before_spec m e) as Hs. destruct (last_before m e) as [[j k']|]; cbn; [|done].
      intros [= <-]. destruct Hs as (Hj & Hlt & Hmax). exists j. split_and!; [done|lia|].
      intros j' k'' Hj' Hle. apply (Hmax _ _ Hj'). enough (j' <> e) by lia. congruence. }
  split; [apply Hsound|]. intros Heff. destruct (voters_get m e) as [k'|] eqn:Hg.
  - f_equal. eapply effective_inj; [by apply Hsound|done].
  - destruct Heff as (j & Hj & Hle & _). exfalso. revert Hg.
    unfold voters_get, get_or_calculate_authorized_voter_for_epoch.
    destruct (m !! e) as [k'|] eqn:He; [done|]. pose proof (last_before_spec m e) as Hs.
    destruct (last_before m e) as [[? ?]|]; [done|]. intros _. specialize (Hs _ _ Hj).
    assert (j = e) as -> by lia. congruence.
Qed.

Lemma voters_get_ext m m' e :
  (forall k, effective m e k <-> effective m' e k) -> voters_get m e = voters_get m' e.
Proof.
  intros H. destruct (voters_get m e) as [k|] eqn:Hk.
  - symmetry. by apply voters_get_effective, H, voters_get_effective.
  - destruct (voters_get m' e) as [k|] eqn:Hk'; [|done].
    apply voters_get_effective, H, voters_get_effective in Hk'. congruence.
Qed.

(** Entries that do not matter from [cur] on. *)
Lemma effective_agree m m' cur e k :
  cur <= e -> is_Some (m !! cur) ->
  (forall j, cur <= j -> m' !! j = m !! j) -> (forall j k, m' !! j = Some k -> cur <= j) ->
  effective m e k <-> effective m' e k.
Proof.
  intros Hle [kc Hcur] Hag Hpurge. split; intros (j & Hj & Hje & Hmax).
  - assert (cur <= j) by (by eapply Hmax). exists j. split_and!; [by rewrite Hag|done|].
    intros j' k' Hj' ?. apply (Hmax _ k'); [|done]. by rewrite <- Hag by eauto.
  - pose proof (Hpurge _ _ Hj). exists j. split_and!; [by rewrite <- Hag|done|].
    intros j' k' Hj' ?. destruct (decide (cur <= j')) as [Hc|]; [|lia].
    apply (Hmax _ k'); [|done]. by rewrite Hag.
Qed.

Lemma get_and_cache_spec m cur :
  get_and_cache_authorized_voter_for_epoch m cur =
  (voters_get m cur,
   match voters_get m cur with Some k => <[cur := k]> m | None => m end).
Proof.
  unfold get_and_cache_authorized_voter_for_epoch, voters_get,
    get_or_calculate_authorized_voter_for_epoch.
  destruct (m !! cur) as [k|] eqn:Hk; cbn.
  - by rewrite insert_id.
  - by destruct (last_before m cur) as [[j k]|].
Qed.

Definition purged (m : AuthorizedVoters) (cur : Z) (k : Pubkey) : AuthorizedVoters :=
  filter (fun '(j, _) => cur <= j) (<[cur := k]> m).

(** Purging never removes the voter of the current epoch, so the assertion holds. *)
Lemma get_and_update_eq s cur :
  get_and_update_authorized_voter s cur =
  match voters_get (authorized_voters s) cur with
  | Some k => Ok (k, set_authorized_voters (purged (authorized_voters s) cur k) s)
  | None => Err InvalidAccountData
  end.
Proof.
  unfold get_and_update_authorized_voter. rewrite get_and_cache_spec.
  destruct (voters_get (authorized_voters s) cur) as [k|]; [|done]. cbn.
  unfold purge_authorized_voters. fold (purged (authorized_voters s) cur k).
  rewrite bool_decide_false; [done|]. intros He.
  assert (purged (authorized_voters s) cur k !! cur = Some k) as Hc.
  { apply map_lookup_filter_Some. split; [apply lookup_insert_eq|lia]. }
  by rewrite He, lookup_empty in Hc.
Qed.

Lemma purged_lookup m cur k j :
  purged m cur k !! j =
  if decide (j < cur) then None else if decide (j = cur) then Some k else m !! j.
Proof.
  unfold purged. destruct (decide (j < cur)).
  - apply map_lookup_filter_None. right. intros v _ ?. lia.
  - rewrite map_lookup_filter. destruct (decide (j = cur)) as [->|].
    + rewrite lookup_insert_eq. cbn. by rewrite option_guard_True by lia.
    + rewrite lookup_insert_ne by done. destruct (m !! j); [|done]. cbn.
      by rewrite option_guard_True by lia.
Qed.

Lemma purged_get m cur k e :
  voters_get m cur = Some k -> cur <= e -> voters_get (purged m cur k) e = voters_get m e.
Proof.
  intros Hk%voters_get_effective Hle. apply voters_get_ext. intros k'.
  rewrite <- (effective_agree (<[cur := k]> m) (purged m cur k) cur e k'); [|done|..].
  - destruct Hk as (j & Hj & Hjc & Hmax). unfold effective. split.
    + intros (i & Hi & Hie & Hmi). assert (cur <= i) as Hci.
      { apply (Hmi _ k); [apply lookup_insert_eq|done]. }
      apply lookup_insert_Some in Hi as [[-> ->]|[Hne Hi]].
      * exists j. split_and!; [done|lia|]. intros j' k'' Hj' ?.
        destruct (decide (j' <= i)); [by eapply Hmax|]. enough (j' <= i) by lia.
        apply (Hmi _ k''); [|done]. rewrite lookup_insert_ne; [done|lia].
      * exists i. split_and!; [done|done|]. intros j' k'' Hj' ?.
        destruct (decide (j' = cur)) as [->|]; [done|].
        apply (Hmi _ k''); [|done]. by rewrite lookup_insert_ne.
    + intros (i & Hi & Hie & Hmi). destruct (decide (i <= cur)) as [Hic|Hic].
      * assert (i = j) as ->. { specialize (Hmi _ _ Hj). specialize (Hmax _ _ Hi Hic). lia. }
        assert (k' = k) as -> by congruence. exists cur.
        split_and!; [apply lookup_insert_eq|done|]. intros j' k'' [[-> _]|[_ Hj']]%lookup_insert_Some ?; [lia|].
        specialize (Hmi _ _ Hj'). lia.
      * exists i. split_and!; [rewrite lookup_insert_ne; [done|lia]|done|].
        intros j' k'' [[-> _]|[_ Hj']]%lookup_insert_Some ?; [lia|eauto].
  - rewrite lookup_insert_eq. eauto.
  - intros j Hj. rewrite purged_lookup. destruct (decide (j < cur)); [lia|].
    case_decide; [subst; by rewrite lookup_insert_eq|]. by rewrite lookup_insert_ne.
  - intros j k'' Hj. rewrite purged_lookup in Hj. case_decide; [done|lia].
Qed.

(** A new latest entry. *)
Lemma insert_latest_get m target k e :
  (forall j k', m !! j = Some k' -> j < target) ->
  voters_get (<[target := k]> m) e = if decide (target <= e) then Some k else voters_get m e.
Proof.
  intros Hlt. destruct (decide (target <= e)) as [Hle|Hgt].
  - apply voters_get_effective. exists target. split_and!; [apply lookup_insert_eq|done|].
    intros j k' [[-> _]|[_ Hj]]%lookup_insert_Some _; [lia|]. specialize (Hlt _ _ Hj). lia.
  - apply voters_get_ext. intros k'. unfold effective.
    assert (forall j, j <= e -> <[target := k]> m !! j = m !! j) as Hag
      by (intros; apply lookup_insert_ne; lia).
    split; intros (j & Hj & Hje & Hmax); exists j;
      (split_and!; [first [by rewrite <- Hag | by rewrite Hag]|done|]);
      intros j' k'' Hj' ?; apply (Hmax _ k''); try done;
      first [by rewrite <- Hag | by rewrite Hag].
Qed.

(** ** The latest voter *)

Definition voters_upto (m : AuthorizedVoters) (b : Z) : Prop :=
  forall j k, m !! j = Some k -> 0 <= j <= b.

Lemma voters_last_spec m :
  voters_upto m u64_max ->
  match voters_last m with
  | Some (j, k) => m !! j = Some k /\ forall j' k', m !! j' = Some k' -> j' <= j
  | None => m = ∅
  end.
Proof.
  intros Hb. unfold voters_last. pose proof (last_before_spec m (u64_max + 1)) as Hs.
  destruct (last_before m (u64_max + 1)) as [[j k]|].
  - destruct Hs as (? & _ & Hmax). split; [done|]. intros j' k' Hj'. apply (Hmax _ _ Hj').
    specialize (Hb _ _ Hj'). lia.
  - apply map_empty. intros j. destruct (m !! j) as [k|] eqn:Hj; [|done].
    specialize (Hs _ _ Hj). specialize (Hb _ _ Hj). lia.
Qed.

(** ** Changing the voter *)

(** The prior voters after [latest] is replaced from [target] on. *)
Definition switch_prior (latest authorized : Pubkey) (target : Z) (b : CircBuf (Pubkey * Z * Z))
    : CircBuf (Pubkey * Z * Z) :=
  if bool_decide (latest = authorized) then b
  else circbuf_append (latest, match circbuf_last b with Some (_, _, e) => e | None => 0 end, target) b.

Lemma purged_upto m cur k b :
  voters_upto m b -> 0 <= cur <= b -> voters_upto (purged m cur k) b.
Proof.
  intros Hb Hc j k' Hj. rewrite purged_lookup in Hj.
  case_decide; [done|]. case_decide; [lia|]. by eapply Hb.
Qed.

Lemma purged_last m cur k target :
  voters_upto m target -> target <= u64_max -> 0 <= cur < target ->
  voters_get m cur = Some k -> m !! target = None ->
  exists j latest, voters_last (purged m cur k) = Some (j, latest) /\ j < target /\
    voters_get m target = Some latest.
Proof.
  intros Hup Ht Hcur Hk Hnone.
  assert (voters_upto (purged m cur k) target) as Hup' by (apply purged_upto; [done|lia]).
  pose proof (voters_last_spec (purged m cur k)) as Hl.
  destruct (voters_last (purged m cur k)) as [[j latest]|].
  - destruct Hl as [Hj Hmax]; [intros ???; specialize (Hup' _ _ H); lia|].
    exists j, latest. split_and!; [done| |].
    + specialize (Hup' _ _ Hj). enough (j <> target) by lia. intros ->.
      rewrite purged_lookup in Hj. case_decide; [done|]. case_decide; [lia|]. congruence.
    + rewrite <- (purged_get m cur k target Hk) by lia.
      apply voters_get_effective. exists j. specialize (Hup' _ _ Hj). split_and!; [done|lia|eauto].
  - assert (purged m cur k !! cur = Some k) as Hc.
    { rewrite purged_lookup. case_decide; [lia|]. by case_decide. }
    rewrite Hl, lookup_empty in Hc; [done|]. intros ???; specialize (Hup' _ _ H); lia.
Qed.

Lemma set_new_authorized_voter_eq s authorized cur target verify :
  voters_upto (authorized_voters s) target -> target <= u64_max -> 0 <= cur < target ->
  set_new_authorized_voter s authorized cur target verify =
  match voters_get (authorized_voters s) cur with
  | None => Err InvalidAccountData
  | Some voter =>
      _ ← verify voter;
      match authorized_voters s !! target with
      | Some _ => Err (vote_err TooSoonToReauthorize)
      | None =>
          let latest := default pk_default (voters_get (authorized_voters s) target) in
          Ok (set_prior_voters (switch_prior latest authorized target (prior_voters s))
               (set_authorized_voters
                  (<[target := authorized]> (purged (authorized_voters s) cur voter)) s))
      end
  end.
Proof.
  intros Hup Ht Hcur. unfold set_new_authorized_voter. rewrite get_and_update_eq.
  destruct (voters_get (authorized_voters s) cur) as [voter|] eqn:Hv; [|done]. cbn.
  destruct (verify voter); cbn; try done.
  rewrite purged_lookup. destruct (decide (target < cur)); [lia|].
  destruct (decide (target = cur)); [lia|].
  destruct (authorized_voters s !! target) as [k|] eqn:Hk; [done|].
  rewrite bool_decide_false by (by intros [? ?]). cbn.
  destruct (purged_last _ _ _ target Hup Ht Hcur Hv Hk) as (j & latest & -> & Hj & ->). cbn.
  unfold switch_prior. destruct (bool_decide (latest = authorized)); [done|].
  destruct (Z.leb_spec target j); [lia|]. done.
Qed.
