(* ===== verification/VoteSlots.v ===== *)
(** * Which votes the slot hashes accept

    The loop of [check_slots_are_valid], and what it establishes: the new slots
    of the vote are slots of the bank's history, in order, and the hash of the
    vote is the bank's hash at the last of them. *)

From Stdlib Require Import ZArith Lia.
From Stdlib Require Import Strings.Byte.
From stdpp Require Import prelude gmap numbers relations sorting list.
From S2P Require Import Prelude Sdk Runtime SystemInstruction VoteState.

Section Slots.
Context (voted : option Z) (slots : list Z) (hashes : list (Z * Hash)).

(** A slot the tower does not have: the loop skips the others. *)
Definition is_new (s : Z) : Prop := forall l, voted = Some l -> l < s.

#[global] Instance is_new_dec s : Decision (is_new s).
Proof.
  destruct voted as [l|] eqn:E; [destruct (decide (l < s))|]; [left|right|left];
    unfold is_new; rewrite E; naive_solver.
Defined.

Lemma is_new_leb s :
  match voted with Some l => s <=? l | None => false end = negb (bool_decide (is_new s)).
Proof.
  case_bool_decide as Hn; cbn; unfold is_new in Hn; destruct voted as [l|]; try done.
  - apply Z.leb_gt. by apply Hn.
  - apply Z.leb_le, Z.nlt_ge. intros ?. apply Hn. by intros ? [= <-].
  - by destruct Hn.
Qed.

Definition new_slots : list Z := filter is_new slots.

(** ** Termination: every turn moves an index *)

Lemma match_slots_fuel fuel fuel' i j :
  (length slots - i + j <= fuel)%nat -> (length slots - i + j <= fuel')%nat ->
  match_slots fuel voted slots hashes i j = match_slots fuel' voted slots hashes i j.
Proof.
  revert fuel' i j. induction fuel as [|fuel IH]; intros [|fuel'] i j Hf Hf'; cbn [match_slots]; try done.
  - destruct (Nat.ltb_spec i (length slots)); [lia|done].
  - destruct (Nat.ltb_spec i (length slots)); [lia|done].
  - destruct (Nat.ltb_spec i (length slots)); [|done]. destruct (Nat.ltb_spec 0 j); [|done]. cbn.
    destruct (slots !! i), (hashes !! (j - 1)%nat) as [[]|]; try done.
    repeat case_match; apply IH; lia.
Qed.

(** ** Soundness *)

Abbreviation slots_of hs := (fst <$> hs).

(** The last slot matched is the one at [j], unless a slot waits for its hash. *)
Definition exact (i j : nat) : Prop :=
  match last (filter is_new (take i slots)) with
  | None => j = length hashes
  | Some l => exists h, hashes !! j = Some (l, h)
  end.
Definition pending (i : nat) : Prop := exists s, slots !! i = Some s /\ is_new s.

Record matched (i j : nat) : Prop := {
  matched_sub : filter is_new (take i slots) `sublist_of` slots_of (reverse (drop j hashes));
  matched_hash : exact i j \/ pending i;
  matched_bounds : (i <= length slots)%nat /\ (j <= length hashes)%nat;
}.

Lemma take_S_filter i s :
  slots !! i = Some s ->
  filter is_new (take (i + 1) slots)
  = filter is_new (take i slots) ++ (if decide (is_new s) then [s] else []).
Proof.
  intros Hi. replace (i + 1)%nat with (S i) by lia. rewrite (take_S_r _ _ s Hi), filter_app.
  by f_equal.
Qed.

Lemma drop_pred_reverse j h :
  hashes !! (j - 1)%nat = Some h -> (0 < j)%nat ->
  reverse (drop (j - 1) hashes) = reverse (drop j hashes) ++ [h].
Proof.
  intros Hj Hpos. rewrite (drop_S _ h (j - 1) Hj). replace (S (j - 1)) with j by lia.
  apply reverse_cons.
Qed.

Lemma matched_skip i j s :
  slots !! i = Some s -> ~ is_new s -> matched i j -> matched (i + 1) j.
Proof.
  intros Hi Hs [Hsub Hh Hb]. pose proof (lookup_lt_Some _ _ _ Hi).
  assert (filter is_new (take (i + 1) slots) = filter is_new (take i slots)) as E.
  { rewrite (take_S_filter i s Hi). case_decide; [done|]. by rewrite app_nil_r. }
  split; [by rewrite E| |lia]. left. destruct Hh as [Hx|(s' & Hs' & Hn)]; [|congruence].
  unfold exact. by rewrite E.
Qed.

Lemma matched_miss i j s h :
  slots !! i = Some s -> is_new s -> hashes !! (j - 1)%nat = Some h -> (0 < j)%nat ->
  matched i j -> matched i (j - 1).
Proof.
  intros Hi Hs Hj Hpos [Hsub Hh Hb]. split; [|right; by exists s|lia].
  rewrite (drop_pred_reverse j h Hj Hpos), fmap_app. by apply sublist_inserts_r.
Qed.

Lemma matched_hit i j s h :
  slots !! i = Some s -> is_new s -> hashes !! (j - 1)%nat = Some (s, h) -> (0 < j)%nat ->
  matched i j -> matched (i + 1) (j - 1).
Proof.
  intros Hi Hs Hj Hpos [Hsub Hh Hb]. pose proof (lookup_lt_Some _ _ _ Hi).
  assert (filter is_new (take (i + 1) slots) = filter is_new (take i slots) ++ [s]) as E.
  { rewrite (take_S_filter i s Hi). by case_decide. }
  split; [| |lia].
  - rewrite E, (drop_pred_reverse j _ Hj Hpos), fmap_app. by apply sublist_app.
  - left. unfold exact. rewrite E, last_snoc. eauto.
Qed.

Lemma match_slots_matched fuel i j :
  matched i j -> uncurry matched (match_slots fuel voted slots hashes i j).
Proof.
  revert i j. induction fuel as [|fuel IH]; intros i j Hm; cbn [match_slots]; [done|].
  destruct (Nat.ltb_spec i (length slots)); [|done]. destruct (Nat.ltb_spec 0 j); [|done]. cbn.
  destruct (slots !! i) as [s|] eqn:Hi; [|done].
  destruct (hashes !! (j - 1)%nat) as [[s' h]|] eqn:Hj; [|done].
  rewrite is_new_leb. case_bool_decide as Hn; cbn.
  - destruct (Z.eqb_spec s s') as [<-|]; apply IH.
    + by eapply matched_hit.
    + by eapply matched_miss.
  - apply IH. by eapply matched_skip.
Qed.

Lemma matched_start : matched 0 (length hashes).
Proof. split; [by rewrite drop_all|by left|lia]. Qed.

(** ** Completeness *)

Definition awaits (i j : nat) : Prop :=
  filter is_new (drop i slots) `sublist_of` slots_of (reverse (take j hashes)).

Lemma match_slots_all fuel i j :
  (forall i, (i < length slots)%nat -> filter is_new (drop i slots) <> []) ->
  (length slots - i + j <= fuel)%nat -> (i <= length slots)%nat -> (j <= length hashes)%nat ->
  awaits i j -> fst (match_slots fuel voted slots hashes i j) = length slots.
Proof.
  intros Hne. revert i j. induction fuel as [|fuel IH]; intros i j Hf Hi Hj Ha; cbn [match_slots]; [cbn; lia|].
  destruct (Nat.ltb_spec i (length slots)) as [Hlt|]; [|cbn; lia].
  destruct (lookup_lt_is_Some_2 slots i Hlt) as [s Hs].
  unfold awaits in Ha. specialize (Hne i Hlt).
  destruct (Nat.ltb_spec 0 j) as [Hpos|]; cbn.
  2: { assert (j = 0%nat) as -> by lia. cbn in Ha. by apply sublist_nil_r in Ha. }
  destruct (lookup_lt_is_Some_2 hashes (j - 1)) as [[s' h] Hh]; [lia|]. rewrite Hs, Hh.
  rewrite (drop_S _ _ _ Hs), filter_cons in Ha.
  replace j with (S (j - 1)) in Ha at 1 by lia.
  rewrite (take_S_r _ _ _ Hh), reverse_snoc in Ha. cbn in Ha.
  rewrite is_new_leb. case_bool_decide as Hn; cbn.
  - rewrite decide_True in Ha by done. apply sublist_cons_r in Ha as [Ha|(l' & El & Ha)].
    + destruct (Z.eqb_spec s s') as [<-|]; apply IH; try lia; unfold awaits.
      * replace (i + 1)%nat with (S i) by lia. etrans; [|exact Ha]. by apply sublist_cons.
      * by rewrite (drop_S _ _ _ Hs), filter_cons, decide_True.
    + injection El as -> <-. rewrite Z.eqb_refl. apply IH; try lia. unfold awaits.
      by replace (i + 1)%nat with (S i) by lia.
  - rewrite decide_False in Ha by done. apply IH; try lia. unfold awaits.
    replace (i + 1)%nat with (S i) by lia. replace j with (S (j - 1)) at 1 by lia.
    by rewrite (take_S_r _ _ _ Hh), reverse_snoc.
Qed.
End Slots.

(** ** The check *)

(** The new slots of the vote are in the history, oldest first, and the vote has
    the hash of the last one. *)
Definition on_history (s : VoteState) (vote : Vote) (hashes : list (Z * Hash)) : Prop :=
  let new := new_slots (last_voted_slot s) (vote_slots vote) in
  new `sublist_of` (fst <$> reverse hashes) /\
  exists l, last new = Some l /\ (l, vote_hash vote) ∈ hashes.

Lemma check_slots_sound s vote hashes :
  check_slots_are_valid s vote hashes = Ok tt -> on_history s vote hashes.
Proof.
  unfold check_slots_are_valid.
  pose proof (match_slots_matched (last_voted_slot s) (vote_slots vote) hashes
    (length (vote_slots vote) + length hashes) 0 (length hashes) (matched_start _ _ _)) as Hm.
  destruct (match_slots _ _ _ _ _ _) as [i j]. cbn in Hm. destruct Hm as [Hsub Hh _].
  intros H. apply bind_Ok in H as ([] & Hne%fail_if_Ok%Nat.eqb_neq & H).
  apply bind_Ok in H as ([] & ->%fail_if_Ok%negb_false_iff%Nat.eqb_eq & H).
  destruct (hashes !! j) as [[l h]|] eqn:Hj; [|done].
  apply fail_if_Ok, negb_false_iff, bool_decide_eq_true in H. subst h.
  assert (exact (last_voted_slot s) (vote_slots vote) hashes (length (vote_slots vote)) j) as Hx.
  { destruct Hh as [|(x & Hx & _)]; [done|]. apply lookup_lt_Some in Hx. lia. }
  unfold exact in Hx. rewrite firstn_all in Hsub, Hx. fold (new_slots (last_voted_slot s) (vote_slots vote)) in *.
  split.
  - etrans; [exact Hsub|]. apply fmap_sublist. rewrite <- (take_drop j hashes) at 2.
    rewrite reverse_app. by apply sublist_inserts_r.
  - destruct (last _) as [l'|]; [|done]. destruct Hx as [h Hx]. exists l'. split; [done|].
    rewrite Hj in Hx. injection Hx as -> <-. by eapply list_elem_of_lookup_2.
Qed.

Lemma sorted_ends_new voted slots i :
  StronglySorted Z.lt slots -> new_slots voted slots <> [] -> (i < length slots)%nat ->
  filter (is_new voted) (drop i slots) <> [].
Proof.
  intros Hs Hne Hi Hnil. destruct (last slots) as [x|] eqn:Hx.
  2: { apply last_None in Hx. by subst slots. }
  destruct (new_slots voted slots) as [|y new] eqn:Ey; [done|].
  assert (y ∈ new_slots voted slots) as Hy by (rewrite Ey; by left).
  apply list_elem_of_filter in Hy as [Hn Hy].
  assert (x ∈ filter (is_new voted) (drop i slots)) as Hin; [|rewrite Hnil in Hin; by apply not_elem_of_nil in Hin].
  apply list_elem_of_filter. split.
  - intros l Hl. specialize (Hn l Hl). enough (y <= x) by lia.
    apply last_Some in Hx as [l' ->]. apply elem_of_app in Hy as [Hy| ->%list_elem_of_singleton]; [|lia].
    enough (y < x) by lia. eapply StronglySorted_app_1_elem_of; [done..|by left].
  - apply (list_elem_of_lookup_2 _ (length slots - 1 - i)). rewrite lookup_drop, last_lookup in *.
    by replace (i + (length slots - 1 - i))%nat with (Nat.pred (length slots)) by lia.
Qed.

Lemma check_slots_complete s vote hashes :
  StronglySorted Z.lt (vote_slots vote) -> NoDup hashes.*1 ->
  on_history s vote hashes -> check_slots_are_valid s vote hashes = Ok tt.
Proof.
  intros Hs Hnd [Hsub (l & Hl & Hin)]. unfold check_slots_are_valid.
  set (n := (length (vote_slots vote) + length hashes)%nat).
  pose proof (match_slots_matched (last_voted_slot s) (vote_slots vote) hashes
    n 0 (length hashes) (matched_start _ _ _)) as Hm.
  pose proof (match_slots_all (last_voted_slot s) (vote_slots vote) hashes n 0 (length hashes)) as Hi.
  destruct (match_slots _ _ _ _ _ _) as [i j]. cbn in Hm, Hi. destruct Hm as [_ Hh [_ Hjl]].
  assert (i = length (vote_slots vote)) as ->.
  { apply Hi; [|unfold n; lia|lia|lia|unfold awaits; by rewrite drop_0, firstn_all].
    intros i'. apply sorted_ends_new; [done|]. intros E. by rewrite E in Hl. }
  rewrite Nat.eqb_refl. cbn [negb].
  assert (exact (last_voted_slot s) (vote_slots vote) hashes (length (vote_slots vote)) j) as Hx.
  { destruct Hh as [|(x & Hx & _)]; [done|]. apply lookup_lt_Some in Hx. lia. }
  unfold exact in Hx. rewrite firstn_all in Hx.
  fold (new_slots (last_voted_slot s) (vote_slots vote)) in Hx. rewrite Hl in Hx.
  destruct Hx as [h Hj]. pose proof (lookup_lt_Some _ _ _ Hj).
  destruct (Nat.eqb_spec j (length hashes)); [lia|]. cbn. rewrite Hj.
  apply list_elem_of_lookup in Hin as [j' Hj'].
  assert (j' = j) as ->.
  { eapply (NoDup_lookup hashes.*1); [done|..]; by rewrite list_lookup_fmap, ?Hj, ?Hj'. }
  rewrite Hj' in Hj. injection Hj as <-. by rewrite bool_decide_true.
Qed.

(** The check never indexes out of range. *)
Lemma check_slots_no_panic s vote hashes : check_slots_are_valid s vote hashes <> Panic.
Proof.
  unfold check_slots_are_valid.
  pose proof (match_slots_matched (last_voted_slot s) (vote_slots vote) hashes
    (length (vote_slots vote) + length hashes) 0 (length hashes) (matched_start _ _ _)) as Hm.
  destruct (match_slots _ _ _ _ _ _) as [i j]. cbn in Hm. destruct Hm as [_ _ [_ Hj]].
  destruct (Nat.eqb_spec j (length hashes)); [done|]. cbn.
  destruct (i =? _)%nat; [|done]. cbn.
  destruct (lookup_lt_is_Some_2 hashes j) as [[? ?] ->]; [lia|]. unfold fail_if. by case_match.
Qed.

(** With that much fuel the loop ends by its own condition. *)
Lemma match_slots_exits voted slots hashes fuel i j :
  (length slots - i + j <= fuel)%nat -> (j <= length hashes)%nat ->
  let '(i', j') := match_slots fuel voted slots hashes i j in
  (length slots <= i' \/ j' = 0)%nat.
Proof.
  revert i j. induction fuel as [|fuel IH]; intros i j Hf Hj; cbn [match_slots]; [lia|].
  destruct (Nat.ltb_spec i (length slots)) as [Hi|]; [|by left].
  destruct (Nat.ltb_spec 0 j); [|right; lia]. cbn [andb].
  destruct (lookup_lt_is_Some_2 slots i Hi) as [s ->].
  destruct (lookup_lt_is_Some_2 hashes (j - 1)) as [[s' h] ->]; [lia|].
  destruct (match voted with Some l => s <=? l | None => false end); [apply IH; lia|].
  destruct (negb (s =? s')); apply IH; lia.
Qed.
