(* ===== verification/VoteProgram.v ===== *)
(** * The vote program

    programs/vote/src/vote_instruction.rs, the operations on vote accounts of
    programs/vote/src/vote_state/mod.rs, and vote_state_versions.rs.  Bincode is
    a parameter. *)

From Stdlib Require Import ZArith Lia.
From Stdlib Require Import Strings.Byte.
From stdpp Require Import prelude gmap numbers relations list.
From S2P Require Import Prelude Sdk Runtime SystemInstruction SystemProgram VoteState.

Definition vote_program_id : Pubkey :=
  pk_of_Z 0x0761481d357474bb7c4d7624ebd3bdb3d8355e73d11043fc0da3538000000000.
Definition clock_sysvar_id : Pubkey :=
  pk_of_Z 0x06a7d51718c774c928566398691d5eb68b5eb8a39b4b6d5c73555b2100000000.
Definition slot_hashes_sysvar_id : Pubkey :=
  pk_of_Z 0x06a7d517192f0aafc6f265e3fb77cc7ada82c529d0be3b136e2d005520000000.

(** ** Versions *)

Inductive VoteStateVersions : Type := Current (s : VoteState).

Definition convert_to_current (v : VoteStateVersions) : VoteState := match v with Current s => s end.
Definition is_uninitialized (v : VoteStateVersions) : bool :=
  match v with Current s => bool_decide (authorized_voters s = ∅) end.

(** The state with the longest encoding, which gives the size of a vote
    account.  The keys are random. *)
Definition MAX_LEADER_SCHEDULE_EPOCH_OFFSET : nat := 3.

Definition get_max_sized_vote_state (new_rand : Z -> Pubkey) : VoteState :=
  mkVoteState pk_default pk_default 0
    (replicate MAX_LOCKOUT_HISTORY (mkLockout 0 0)) (Some u64_max)
    (list_to_map ((fun i => (Z.of_nat i, new_rand (Z.of_nat i)))
                    <$> seq 0 (S MAX_LEADER_SCHEDULE_EPOCH_OFFSET)))
    (circbuf_default (pk_default, 0, 0))
    (replicate MAX_EPOCH_CREDITS_HISTORY (0, 0, 0)) (mkBlockTimestamp 0 0).

(** ** Instructions *)

Inductive VoteInstruction : Type :=
| InitializeAccount (init : VoteInit)
| Authorize (k : Pubkey) (what : VoteAuthorize)
| VoteIx (v : Vote)
| Withdraw (lamports : Z)
| UpdateValidatorIdentity
| UpdateCommission (commission : Z)
| VoteSwitch (v : Vote) (proof : Hash)
| AuthorizeChecked (what : VoteAuthorize).

(** What the program reads of the invoke context: the sysvar cache
    (program-runtime/src/sysvar_cache.rs) and the features. *)
Record VoteEnv : Type := mkVoteEnv {
  cache_clock : option Clock;
  cache_rent : option Rent;
  cache_slot_hashes : option (list (Z * Hash));
  withdrawer_may_change_voter : bool;
  reject_non_rent_exempt_withdraws : bool;
  reject_active_close : bool;
}.

Definition get_clock (env : VoteEnv) : outcome InstructionError Clock :=
  ok_or (cache_clock env) UnsupportedSysvar.
Definition get_rent (env : VoteEnv) : outcome InstructionError Rent :=
  ok_or (cache_rent env) UnsupportedSysvar.
Definition get_slot_hashes (env : VoteEnv) : outcome InstructionError (list (Z * Hash)) :=
  ok_or (cache_slot_hashes env) UnsupportedSysvar.

(** [check_sysvar_keyed_account] *)
Definition check_sysvar_keyed_account (id : Pubkey) (ka : KeyedAccount)
    : outcome InstructionError unit :=
  fail_if (negb (bool_decide (unsigned_key ka = id))) InvalidArgument.

(** A [VoteError] returned where an [InstructionError] is expected. *)
Definition vote_result {A} (o : outcome VoteError A) : outcome InstructionError A :=
  map_err vote_err o.

Definition verify_authorized_signer (authorized : Pubkey) (signers : gset Pubkey)
    : outcome InstructionError unit :=
  if bool_decide (authorized ∈ signers) then Ok tt else Err MissingRequiredSignature.

Module VoteProgram.
Section VoteProgram.
Context `{Bincode VoteStateVersions, Bincode Clock}.
Context (new_rand : Z -> Pubkey) (env : VoteEnv).

Definition size_of : nat := length (bincode_encode (Current (get_max_sized_vote_state new_rand))).

Definition get_rent_exempt_reserve (rent : Rent) : Z := minimum_balance rent size_of.

(** [VoteState::deserialize], [from] and [credits_from] *)
Definition vote_state_deserialize (input : bytes) : outcome InstructionError VoteState :=
  v ← ok_or (bincode_decode (T:=VoteStateVersions) input) InvalidAccountData;
  Ok (convert_to_current v).
Definition vote_state_from (a : AccountSharedData) : option VoteState :=
  match vote_state_deserialize (data a) with Ok s => Some s | _ => None end.
Definition credits_from (a : AccountSharedData) : option Z := credits <$> vote_state_from a.

(** Whether data is that of an initialized vote account, without decoding it: all
    fields before the prior voters are zero in the default state. *)
Definition DEFAULT_PRIOR_VOTERS_OFFSET : nat := 82.
Definition is_correct_size_and_initialized (d : bytes) : bool :=
  (length d =? size_of)%nat
  && negb (bool_decide (take DEFAULT_PRIOR_VOTERS_OFFSET (drop 4 d)
                        = replicate DEFAULT_PRIOR_VOTERS_OFFSET x00)).

(** [unwrap] panics when the state does not fit. *)
Definition create_account_with_authorized (node voter withdrawer : Pubkey) (commission x : Z)
    : outcome InstructionError AccountSharedData :=
  let a := mkAccount x (replicate size_of x00) vote_program_id false 0 in
  let s := vote_state_new (mkVoteInit node voter withdrawer commission) (mkClock 0 0 0 0 0) in
  match account_set_state (Current s) a with Ok a => Ok a | _ => Panic end.
Definition create_account (vote node : Pubkey) (commission x : Z)
    : outcome InstructionError AccountSharedData :=
  create_account_with_authorized node vote vote commission x.

(** ** Operations on a vote account *)

Definition vote_state_of (vote_account : KeyedAccount) : prog VoteState :=
  v ← ka_state (T:=VoteStateVersions) vote_account; mret (convert_to_current v).

Definition authorize (vote_account : KeyedAccount) (authorized : Pubkey) (what : VoteAuthorize)
    (signers : gset Pubkey) (clock : Clock) : prog unit :=
  s ← vote_state_of vote_account;
  s ← match what with
      | AuthorizeVoter =>
          let authorized_withdrawer_signer :=
            if withdrawer_may_change_voter env
            then is_Ok (verify_authorized_signer (authorized_withdrawer s) signers) else false in
          lift (set_new_authorized_voter s authorized (clock_epoch clock)
            (wrap64 (clock_leader_schedule_epoch clock + 1))
            (fun voter => if authorized_withdrawer_signer then Ok tt
                          else verify_authorized_signer voter signers))
      | AuthorizeWithdrawer =>
          _ ← lift (verify_authorized_signer (authorized_withdrawer s) signers);
          mret (set_authorized_withdrawer authorized s)
      end;
  ka_set_state vote_account (Current s).

Definition update_validator_identity (vote_account : KeyedAccount) (node : Pubkey)
    (signers : gset Pubkey) : prog unit :=
  s ← vote_state_of vote_account;
  _ ← lift (verify_authorized_signer (authorized_withdrawer s) signers);
  _ ← lift (verify_authorized_signer node signers);
  ka_set_state vote_account (Current (set_node_pubkey node s)).

Definition update_commission (vote_account : KeyedAccount) (c : Z) (signers : gset Pubkey)
    : prog unit :=
  s ← vote_state_of vote_account;
  _ ← lift (verify_authorized_signer (authorized_withdrawer s) signers);
  ka_set_state vote_account (Current (set_commission c s)).

(** Whether credits were earned in the current or the previous epoch. *)
Definition reject_active_vote_account_close (clock : option Clock) (s : VoteState) : bool :=
  match clock, last (epoch_credits s) with
  | Some clock, Some (last_epoch_with_credits, _, _) =>
      Z.max 0 (clock_epoch clock - last_epoch_with_credits) <? 2
  | _, _ => false
  end.

Definition withdraw (vote_account : KeyedAccount) (x : Z) (to_account : KeyedAccount)
    (signers : gset Pubkey) (rent_sysvar : option Rent) (clock : option Clock) : prog unit :=
  s ← vote_state_of vote_account;
  _ ← lift (verify_authorized_signer (authorized_withdrawer s) signers);
  balance ← ka_lamports vote_account;
  remaining_balance ← lift (ok_or (checked_sub balance x) InsufficientFunds);
  _ ← (if remaining_balance =? 0 then
         if reject_active_vote_account_close clock s then throw ActiveVoteAccountClose
         else ka_set_state vote_account (Current vote_state_default)
       else
         match rent_sysvar with
         | Some rent =>
             len ← ka_data_len vote_account;
             lift (fail_if (remaining_balance <? minimum_balance rent len) InsufficientFunds)
         | None => mret tt
         end);
  _ ← update_account [] vote_account (System.checked_sub_lamports x);
  update_account [] to_account (System.checked_add_lamports x).

Definition initialize_account (vote_account : KeyedAccount) (init : VoteInit)
    (signers : gset Pubkey) (clock : Clock) : prog unit :=
  len ← ka_data_len vote_account;
  _ ← lift (fail_if (negb (len =? size_of)%nat) InvalidAccountData);
  versioned ← ka_state (T:=VoteStateVersions) vote_account;
  _ ← lift (fail_if (negb (is_uninitialized versioned)) AccountAlreadyInitialized);
  _ ← lift (verify_authorized_signer (init_node_pubkey init) signers);
  ka_set_state vote_account (Current (vote_state_new init clock)).

(** [vote.slots.iter().max()] *)
Definition max_slot (slots : list Z) : option Z :=
  match slots with [] => None | s :: slots => Some (foldr Z.max s slots) end.

(** The new state of an account that votes. *)
Definition vote_of_account (s : VoteState) (slot_hashes : list (Z * Hash)) (clock : Clock)
    (vote : Vote) (signers : gset Pubkey) : outcome InstructionError VoteState :=
  '(authorized_voter, s) ← get_and_update_authorized_voter s (clock_epoch clock);
  _ ← verify_authorized_signer authorized_voter signers;
  s ← vote_result (VoteState.process_vote s vote slot_hashes (clock_epoch clock));
  match vote_timestamp vote with
  | Some timestamp =>
      vote_result (slot ← ok_or (max_slot (vote_slots vote)) EmptySlots;
                   process_timestamp s slot timestamp)
  | None => Ok s
  end.

Definition process_vote (vote_account : KeyedAccount) (slot_hashes : list (Z * Hash))
    (clock : Clock) (vote : Vote) (signers : gset Pubkey) : prog unit :=
  versioned ← ka_state (T:=VoteStateVersions) vote_account;
  _ ← lift (fail_if (is_uninitialized versioned) UninitializedAccount);
  s ← lift (vote_of_account (convert_to_current versioned) slot_hashes clock vote signers);
  ka_set_state vote_account (Current s).

Definition verify_rent_exemption (ka : KeyedAccount) (rent : Rent) : prog unit :=
  balance ← ka_lamports ka;
  len ← ka_data_len ka;
  lift (if negb (is_exempt rent balance len) then Err InsufficientFunds else Ok tt).

(** [get_sysvar_with_keyed_account_check] *)
Definition check_clock (ka : KeyedAccount) : prog Clock :=
  _ ← lift (check_sysvar_keyed_account clock_sysvar_id ka); lift (get_clock env).
Definition check_rent (ka : KeyedAccount) : prog Rent :=
  _ ← lift (check_sysvar_keyed_account rent_sysvar_id ka); lift (get_rent env).
Definition check_slot_hashes (ka : KeyedAccount) : prog (list (Z * Hash)) :=
  _ ← lift (check_sysvar_keyed_account slot_hashes_sysvar_id ka); lift (get_slot_hashes env).

(** ** Dispatch *)

Definition execute (kas : list KeyedAccount) (first : nat) (me : KeyedAccount)
    (signers : gset Pubkey) (i : VoteInstruction) : prog unit :=
  match i with
  | InitializeAccount init =>
      rent_account ← keyed_account_at_index kas (first + 1);
      rent ← check_rent rent_account;
      _ ← verify_rent_exemption me rent;
      clock_account ← keyed_account_at_index kas (first + 2);
      clock ← check_clock clock_account;
      initialize_account me init signers clock
  | Authorize voter what =>
      clock_account ← keyed_account_at_index kas (first + 1);
      clock ← check_clock clock_account;
      authorize me voter what signers clock
  | UpdateValidatorIdentity =>
      node ← keyed_account_at_index kas (first + 1);
      update_validator_identity me (unsigned_key node) signers
  | UpdateCommission c => update_commission me c signers
  | VoteIx vote | VoteSwitch vote _ =>
      slot_hashes_account ← keyed_account_at_index kas (first + 1);
      slot_hashes ← check_slot_hashes slot_hashes_account;
      clock_account ← keyed_account_at_index kas (first + 2);
      clock ← check_clock clock_account;
      process_vote me slot_hashes clock vote signers
  | Withdraw x =>
      to ← keyed_account_at_index kas (first + 1);
      rent_sysvar ← (if reject_non_rent_exempt_withdraws env
                     then lift (r ← get_rent env; Ok (Some r)) else mret None);
      clock ← (if reject_active_close env then lift (c ← get_clock env; Ok (Some c)) else mret None);
      withdraw me x to signers rent_sysvar clock
  | AuthorizeChecked what =>
      new ← keyed_account_at_index kas (first + 3);
      voter ← lift (ok_or (signer_key new) MissingRequiredSignature);
      clock_account ← keyed_account_at_index kas (first + 1);
      clock ← from_keyed_account clock_sysvar_id clock_account;
      authorize me voter what signers clock
  end.

Definition process_instruction (deserialize : bytes -> option VoteInstruction)
    (first : nat) (d : bytes) (kas : list KeyedAccount) : prog unit :=
  me ← keyed_account_at_index kas first;
  own ← ka_owner me;
  _ ← lift (fail_if (negb (bool_decide (own = vote_program_id))) InvalidAccountOwner);
  i ← lift (ok_or (deserialize d) InvalidInstructionData);
  execute kas first me (get_signers (drop first kas)) i.
End VoteProgram.

(** ** Building instructions *)

Section Builders.
Context (serialize : VoteInstruction -> bytes).

Definition vote_ix (i : VoteInstruction) (metas : list AccountMeta) : Instruction :=
  mkInstruction vote_program_id metas (serialize i).

Definition ix_initialize_account (vote : Pubkey) (init : VoteInit) : Instruction :=
  vote_ix (InitializeAccount init)
    [meta_new vote false; meta_new_readonly rent_sysvar_id false;
     meta_new_readonly clock_sysvar_id false; meta_new_readonly (init_node_pubkey init) true].

Definition ix_create_account (serialize_system : SystemInstruction -> bytes) (size : nat)
    (from vote : Pubkey) (init : VoteInit) (x : Z) : list Instruction :=
  [SystemInstruction.ix_create_account serialize_system from vote x (Z.of_nat size) vote_program_id;
   ix_initialize_account vote init].

Definition ix_create_account_with_seed (serialize_system : SystemInstruction -> bytes)
    (size : nat) (from vote base : Pubkey) (seed : bytes) (init : VoteInit) (x : Z)
    : list Instruction :=
  [SystemInstruction.ix_create_account_with_seed serialize_system from vote base seed x
     (Z.of_nat size) vote_program_id;
   ix_initialize_account vote init].

Definition ix_authorize (vote authorized new_authorized : Pubkey) (what : VoteAuthorize)
    : Instruction :=
  vote_ix (Authorize new_authorized what)
    [meta_new vote false; meta_new_readonly clock_sysvar_id false;
     meta_new_readonly authorized true].

Definition ix_authorize_checked (vote authorized new_authorized : Pubkey) (what : VoteAuthorize)
    : Instruction :=
  vote_ix (AuthorizeChecked what)
    [meta_new vote false; meta_new_readonly clock_sysvar_id false;
     meta_new_readonly authorized true; meta_new_readonly new_authorized true].

Definition ix_update_validator_identity (vote withdrawer node : Pubkey) : Instruction :=
  vote_ix UpdateValidatorIdentity
    [meta_new vote false; meta_new_readonly node true; meta_new_readonly withdrawer true].

Definition ix_update_commission (vote withdrawer : Pubkey) (c : Z) : Instruction :=
  vote_ix (UpdateCommission c) [meta_new vote false; meta_new_readonly withdrawer true].

Definition ix_vote (vote voter : Pubkey) (v : Vote) : Instruction :=
  vote_ix (VoteIx v)
    [meta_new vote false; meta_new_readonly slot_hashes_sysvar_id false;
     meta_new_readonly clock_sysvar_id false; meta_new_readonly voter true].

Definition ix_vote_switch (vote voter : Pubkey) (v : Vote) (proof : Hash) : Instruction :=
  vote_ix (VoteSwitch v proof)
    [meta_new vote false; meta_new_readonly slot_hashes_sysvar_id false;
     meta_new_readonly clock_sysvar_id false; meta_new_readonly voter true].

Definition ix_withdraw (vote withdrawer : Pubkey) (x : Z) (to : Pubkey) : Instruction :=
  vote_ix (Withdraw x)
    [meta_new vote false; meta_new to false; meta_new_readonly withdrawer true].
End Builders.
End VoteProgram.
