(* ===== verification/VoteTyped.v ===== *)
(** * Well-formed vote states

    The state of a vote account is kept within the types of its fields, its
    tower is a tower, its voters are no later than the next epoch that can be
    set, and its collections stay within the sizes that the size of the account
    is computed from.  Every operation of vote_state/mod.rs keeps this. *)

From Stdlib Require Import ZArith Lia.
From Stdlib Require Import Strings.Byte.
From stdpp Require Import prelude gmap numbers relations sorting list.
From S2P Require Import Prelude Sdk Runtime SystemInstruction SystemProgram VoteState VoteTower VoteVoters VoteSlots VoteProgram.

Definition in_i64 (z : Z) : Prop := - 2 ^ 63 <= z < 2 ^ 63.

Definition credits_ok (l : list (Z * Z * Z)) : Prop :=
  (length l <= MAX_EPOCH_CREDITS_HISTORY)%nat /\
  Forall (fun '(e, c, p) => in_u64 e /\ in_u64 c /\ in_u64 p) l.

Definition prior_ok (b : CircBuf (Pubkey * Z * Z)) : Prop :=
  length (cb_buf b) = MAX_ITEMS /\ (cb_idx b < MAX_ITEMS)%nat /\
  Forall (fun '(_, s, e) => in_u64 s /\ in_u64 e) (cb_buf b).

(** [b] bounds the epochs of the voters. *)
Record vote_state_ok (b : Z) (s : VoteState) : Prop := {
  vs_tower : vote_inv s;
  vs_root : forall r, root_slot s = Some r -> slot_ok r;
  vs_commission : 0 <= commission s < 256;
  vs_voters : voters_upto (authorized_voters s) b;
  vs_count : (size (authorized_voters s) <= S MAX_LEADER_SCHEDULE_EPOCH_OFFSET)%nat;
  vs_prior : prior_ok (prior_voters s);
  vs_credits : credits_ok (epoch_credits s);
  vs_timestamp : in_u64 (ts_slot (last_timestamp s)) /\ in_i64 (ts_timestamp (last_timestamp s));
}.

(** The clock is in order: the leader schedule is known for the current epoch and
    for at most two epochs more. *)
Record clock_ok (c : Clock) : Prop := {
  clock_order : 0 <= clock_epoch c <= clock_leader_schedule_epoch c;
  clock_near : clock_leader_schedule_epoch c < clock_epoch c + Z.of_nat MAX_LEADER_SCHEDULE_EPOCH_OFFSET;
  clock_bound : clock_leader_schedule_epoch c < u64_max;
}.

(** The epoch from which a new voter votes. *)
Definition target_epoch (c : Clock) : Z := clock_leader_schedule_epoch c + 1.

Lemma wrap_target c : clock_ok c -> wrap64 (clock_leader_schedule_epoch c + 1) = target_epoch c.
Proof.
  intros [H _ Hb]. unfold wrap64, target_epoch, u64_max in *. apply Z.mod_small. lia.
Qed.

(** ** Credits *)

Lemma length_update_last {A} (f : A -> A) l : length (update_last f l) = length l.
Proof.
  unfold update_last. destruct (last l) as [x|] eqn:Hl; [|done].
  apply last_Some in Hl as [l' ->]. rewrite !length_app, length_take, length_app. cbn. lia.
Qed.

Lemma Forall_update_last {A} (P : A -> Prop) (f : A -> A) l :
  (forall x, P x -> P (f x)) -> Forall P l -> Forall P (update_last f l).
Proof.
  intros Hf Hl. unfold update_last. destruct (last l) as [x|] eqn:Hx; [|done].
  apply Forall_app. split; [by apply Forall_take|]. constructor; [|done]. apply Hf.
  apply last_Some in Hx as [l' ->]. apply Forall_app in Hl as [_ Hl]. by inversion Hl.
Qed.

Lemma in_u64_wrap z : in_u64 (wrap64 z).
Proof. unfold in_u64, wrap64, u64_max. pose proof (Z.mod_pos_bound z (u64_max + 1)). unfold u64_max in *. lia. Qed.

Lemma trim_credits_ok cs :
  Forall (fun '(e, c, p) => in_u64 e /\ in_u64 c /\ in_u64 p) cs ->
  (length cs <= S MAX_EPOCH_CREDITS_HISTORY)%nat ->
  credits_ok (if (MAX_EPOCH_CREDITS_HISTORY <? length cs)%nat then drop 1 cs else cs).
Proof.
  intros Hcs Hl. destruct (Nat.ltb_spec MAX_EPOCH_CREDITS_HISTORY (length cs)); [|done].
  split; [rewrite length_drop; lia|by apply Forall_drop].
Qed.

Lemma increment_credits_ok epoch s :
  in_u64 epoch -> credits_ok (epoch_credits s) ->
  credits_ok (epoch_credits (increment_credits epoch s)).
Proof.
  intros He [Hlen Hall]. unfold increment_credits. cbn.
  assert (in_u64 0) as H0 by done.
  enough (credits_ok
    match last (epoch_credits s) with
    | None => epoch_credits s ++ [(epoch, 0, 0)]
    | Some (e, c, prev) =>
        if e =? epoch then epoch_credits s
        else
          let credits :=
            if negb (c =? prev) then epoch_credits s ++ [(epoch, c, c)]
            else update_last (fun '(_, c, prev) => (epoch, c, prev)) (epoch_credits s) in
          if (MAX_EPOCH_CREDITS_HISTORY <? length credits)%nat then drop 1 credits else credits
    end) as [Hl1 Hl2].
  { split; [by rewrite length_update_last|]. apply Forall_update_last; [|done].
    intros [[e c] p] (? & ? & ?). split_and!; [done|apply in_u64_wrap|done]. }
  destruct (last (epoch_credits s)) as [[[e c] p]|] eqn:Hlast.
  - apply last_Some in Hlast as [l' Hl']. rewrite Hl' in Hall.
    apply Forall_app in Hall as [Hall' (Hecp & _)%Forall_cons]. destruct Hecp as (? & ? & ?).
    assert (Forall (fun '(e, c, p) => in_u64 e /\ in_u64 c /\ in_u64 p) (epoch_credits s)) as Hall.
    { rewrite Hl'. apply Forall_app. split; [done|by apply Forall_singleton]. }
    destruct (e =? epoch); [done|]. cbv zeta.
    apply trim_credits_ok; destruct (negb (c =? p)).
    + apply Forall_app; split; [done|by apply Forall_singleton].
    + apply Forall_update_last; [|done]. by intros [[? ?] ?] (? & ? & ?).
    + rewrite length_app. cbn. lia.
    + rewrite length_update_last. lia.
  - split; [|apply Forall_app; split; [done|by apply Forall_singleton]].
    apply last_None in Hlast. rewrite Hlast. cbn. unfold MAX_EPOCH_CREDITS_HISTORY. lia.
Qed.

(** ** Voting *)

Lemma tower_slot_ok s v : vote_inv s -> v ∈ votes s -> slot_ok (lo_slot v).
Proof. intros [Hok _] Hv. by apply (proj1 (Forall_forall _ _) (tower_votes _ _ Hok) v Hv). Qed.

Lemma process_next_vote_slot_ok b n epoch s :
  slot_ok n -> in_u64 epoch -> vote_state_ok b s ->
  vote_state_ok b (process_next_vote_slot n epoch s).
Proof.
  intros Hn He Hok. pose proof Hok as [Ht Hr Hc Hv Hs Hp Hcr Hts].
  pose proof (process_next_vote_slot_inv n epoch s Hn Ht) as Ht'.
  destruct (next_vote_cases n epoch s) as
    [[-> _]|(_ & k & _ & _ & _ & [[_ E]|(v & rest & Ek & _ & E)])]; [done|rewrite E in *..].
  - by split.
  - split; try done; [|by apply increment_credits_ok].
    intros r [= <-]. apply (tower_slot_ok s); [done|].
    apply (list_elem_of_lookup_2 _ 0). apply (lookup_take_Some _ k). by rewrite Ek.
Qed.

Lemma process_slots_ok b slots epoch s :
  Forall slot_ok slots -> in_u64 epoch -> vote_state_ok b s ->
  vote_state_ok b (foldl (fun s slot => process_next_vote_slot slot epoch s) s slots).
Proof.
  intros Hs He. revert s. induction Hs as [|n slots Hn _ IH]; intros s Hok; [done|].
  cbn. by apply IH, process_next_vote_slot_ok.
Qed.

(** Slots of a vote that are not in the history are old slots. *)
Lemma history_slots_ok s vote hashes :
  vote_inv s -> Forall (fun x => 0 <= x) (vote_slots vote) ->
  Forall (fun '(x, _) => slot_ok x) hashes -> on_history s vote hashes ->
  Forall slot_ok (vote_slots vote).
Proof.
  intros Hinv Hpos Hh [Hsub _]. apply Forall_forall. intros x Hx.
  destruct (decide (is_new (last_voted_slot s) x)) as [Hn|Hn].
  - assert (x ∈ new_slots (last_voted_slot s) (vote_slots vote)) as Hin
      by (by apply list_elem_of_filter).
    apply (elem_of_sublist _ _ _ Hin) in Hsub.
    apply list_elem_of_fmap in Hsub as ([y h] & -> & Hy). rewrite elem_of_reverse in Hy. by apply (proj1 (Forall_forall _ _) Hh _ Hy).
  - unfold is_new, last_voted_slot, last_lockout in Hn.
    destruct (last (votes s)) as [v|] eqn:Hv; [|by destruct Hn].
    assert (slot_ok (lo_slot v)) as [_ ?].
    { eapply tower_slot_ok; [done|]. apply last_Some in Hv as [l' ->]. set_solver. }
    split; [by apply (proj1 (Forall_forall _ _) Hpos)|]. destruct (Z.lt_ge_cases (lo_slot v) x); [|lia].
    destruct Hn. by intros ? [= <-].
Qed.

(** ** Voters *)

Lemma voters_size (m : AuthorizedVoters) cur n :
  (forall j k, m !! j = Some k -> cur <= j < cur + Z.of_nat n) -> (size m <= n)%nat.
Proof.
  intros H. rewrite <- size_dom.
  trans (size (list_to_set (seqZ cur (Z.of_nat n)) : gset Z)).
  - apply subseteq_size. intros j [k Hj]%elem_of_dom. apply elem_of_list_to_set, elem_of_seqZ.
    by eapply H.
  - rewrite size_list_to_set by apply NoDup_seqZ. rewrite length_seqZ. lia.
Qed.

Lemma purged_size m clock k :
  clock_ok clock -> voters_upto m (target_epoch clock) ->
  (size (purged m (clock_epoch clock) k) <= S MAX_LEADER_SCHEDULE_EPOCH_OFFSET)%nat.
Proof.
  intros [? Hnear ?] Hup. apply (voters_size _ (clock_epoch clock)). intros j k' Hj.
  rewrite purged_lookup in Hj. repeat case_decide; [done|lia|].
  specialize (Hup _ _ Hj). unfold target_epoch in Hup. lia.
Qed.

Lemma purged_ok clock s k :
  clock_ok clock -> vote_state_ok (target_epoch clock) s ->
  vote_state_ok (target_epoch clock)
    (set_authorized_voters (purged (authorized_voters s) (clock_epoch clock) k) s).
Proof.
  intros Hc [Ht Hr Hcm Hv Hs Hp Hcr Hts]. split; try done; cbn.
  - apply purged_upto; [done|]. destruct Hc. unfold target_epoch. lia.
  - by apply purged_size.
Qed.

Lemma switch_prior_ok latest authorized target b :
  in_u64 target -> prior_ok b -> prior_ok (switch_prior latest authorized target b).
Proof.
  intros Ht (Hl & Hi & Hall). unfold switch_prior. case_bool_decide; [done|].
  unfold prior_ok, circbuf_append. cbn.
  assert ((cb_idx b + 1) mod MAX_ITEMS < MAX_ITEMS)%nat by (by apply Nat.mod_upper_bound).
  split_and!; [by rewrite length_insert|done|]. apply Forall_insert; [done|]. split; [|done].
  destruct (circbuf_last b) as [[[k x] y]|] eqn:Hlast; [|done].
  unfold circbuf_last in Hlast. destruct (cb_is_empty b); [done|].
  by apply (Forall_lookup_1 _ _ _ _ Hall Hlast).
Qed.

Lemma set_new_authorized_voter_ok clock s k verify s' :
  clock_ok clock -> vote_state_ok (target_epoch clock) s ->
  set_new_authorized_voter s k (clock_epoch clock) (target_epoch clock) verify = Ok s' ->
  vote_state_ok (target_epoch clock) s'.
Proof.
  intros Hc Hok. pose proof Hok as [Ht Hr Hcm Hv Hs Hp Hcr Hts]. pose proof Hc as [? Hnear ?].
  rewrite set_new_authorized_voter_eq; [|done|unfold target_epoch; lia..].
  destruct (voters_get _ (clock_epoch clock)) as [voter|]; [|done]. intros H.
  apply bind_Ok in H as (? & _ & H). destruct (_ !! target_epoch clock); [done|].
  injection H as <-. split; try done; cbn.
  - intros j k' [[<- _]|[_ Hj]]%lookup_insert_Some; [unfold target_epoch; lia|].
    by apply (purged_upto _ (clock_epoch clock) voter _ Hv) in Hj; [|unfold target_epoch; lia].
  - apply (voters_size _ (clock_epoch clock)).
    intros j k' [[<- _]|[_ Hj]]%lookup_insert_Some; [unfold target_epoch; lia|].
    rewrite purged_lookup in Hj. repeat case_decide; [done|lia|].
    specialize (Hv _ _ Hj). unfold target_epoch in Hv. lia.
  - apply switch_prior_ok; [unfold in_u64, target_epoch; lia|done].
Qed.

(** ** New states and timestamps *)

Lemma default_prior_ok : prior_ok (circbuf_default (pk_default, 0, 0)).
Proof. split; [done|]. split; [by apply Nat.ltb_lt|]. by apply Forall_replicate. Qed.

Lemma empty_tower_ok : tower_ok None [].
Proof. split; try done. cbn. lia. Qed.

Lemma vote_state_default_ok b : vote_state_ok b vote_state_default.
Proof.
  split; try done; cbn.
  - split; [apply empty_tower_ok|done].
  - rewrite map_size_empty. lia.
  - apply default_prior_ok.
  - split; [cbn; lia|done].
Qed.

Lemma vote_state_new_ok init clock :
  0 <= init_commission init < 256 -> clock_ok clock ->
  vote_state_ok (target_epoch clock) (vote_state_new init clock).
Proof.
  intros Hi [? ? ?]. split; try done; cbn.
  - split; [apply empty_tower_ok|done].
  - unfold voters_new. intros j k [<- _]%lookup_singleton_Some. unfold target_epoch. lia.
  - unfold voters_new. rewrite map_size_singleton. lia.
  - apply default_prior_ok.
  - split; [cbn; lia|done].
Qed.

Lemma process_timestamp_ok b s slot timestamp s' :
  in_u64 slot -> in_i64 timestamp -> vote_state_ok b s ->
  process_timestamp s slot timestamp = Ok s' -> vote_state_ok b s'.
Proof.
  intros ? ? [? ? ? ? ? ? ? ?] H. unfold process_timestamp in H. run_inv. by split.
Qed.

(** ** Rewards *)

(** The commission splits a reward into the floor of the voter's percentage,
    capped at 100, and the floor of the rest: nothing is created, and at most one
    lamport is lost. *)
Lemma commission_split_bounds s on :
  in_u64 on -> 0 <= commission s <= 255 ->
  let '(mine, theirs, split) := commission_split s on in
  mine = on * Z.min (commission s) 100 / 100 /\
  theirs = on * (100 - Z.min (commission s) 100) / 100 /\
  mine + theirs <= on <= mine + theirs + 1 /\
  (split = false <-> commission s = 0 \/ 100 <= commission s).
Proof.
  unfold in_u64, u64_max, commission_split. intros Hon Hc.
  destruct (Z.eqb_spec (Z.min (commission s) 100) 0) as [E|E].
  { rewrite E, Z.mul_0_r, Z.sub_0_r, Z.div_mul by lia. split_and!; try lia; done. }
  destruct (Z.eqb_spec (Z.min (commission s) 100) 100) as [E'|E'].
  { rewrite E', Z.sub_diag, Z.mul_0_r, Z.div_mul by lia. split_and!; try lia; done. }
  set (p := Z.min (commission s) 100) in *. assert (0 < p < 100) by lia.
  pose proof (Z.div_mod (on * p) 100 ltac:(lia)). pose proof (Z.mod_pos_bound (on * p) 100 ltac:(lia)).
  pose proof (Z.div_mod (on * (100 - p)) 100 ltac:(lia)).
  pose proof (Z.mod_pos_bound (on * (100 - p)) 100 ltac:(lia)).
  rewrite !Z.mod_small by (change (2 ^ 64) with 18446744073709551616; nia).
  split_and!; try done; [nia|nia|lia].
Qed.
