(* ===== verification/EpochSchedule.v ===== *)
(** * Epochs and slots (sdk/program/src/epoch_schedule.rs)

    How slots are divided into epochs, with the warmup in which each epoch is twice
    as long as the one before.  The two directions, from a slot to its epoch and
    from an epoch to its slots, are inverse to each other.  The clock that the bank
    makes from a schedule is one that the vote program can work with. *)

From Stdlib Require Import ZArith Lia.
From stdpp Require Import prelude gmap numbers list.
From S2P Require Import Prelude Sdk Runtime VoteState VoteTower VoteVoters VoteSlots VoteProgram VoteTyped.

(** ** Machine integers *)

(** [u64::next_power_of_two]; in a release build it is [0] when there is none. *)
Definition next_power_of_two (x : Z) : Z :=
  if x <=? 1 then 1
  else let p := 2 ^ Z.log2_up x in if p <=? u64_max then p else 0.

(** [u64::trailing_zeros]: the lowest bit that is set *)
Definition trailing_zeros (x : Z) : Z :=
  if x =? 0 then 64 else Z.log2 (Z.land x (- x)).

(** [2u64.saturating_pow(e)] *)
Definition two_saturating_pow (e : Z) : Z := Z.min u64_max (2 ^ e).

(** [epoch as u32] and [u32::saturating_add] *)
Definition as_u32 (x : Z) : Z := x mod (u32_max + 1).
Definition saturating_add_u32 (a b : Z) : Z := Z.min u32_max (a + b).

(** [checked_div(d).unwrap_or(0)] and [checked_rem(d).unwrap_or(0)] *)
Definition div_or_zero (a d : Z) : Z := if d =? 0 then 0 else a / d.
Definition rem_or_zero (a d : Z) : Z := if d =? 0 then 0 else a mod d.

(** ** The schedule *)

Definition DEFAULT_SLOTS_PER_EPOCH : Z := 432000.
Definition DEFAULT_LEADER_SCHEDULE_SLOT_OFFSET : Z := DEFAULT_SLOTS_PER_EPOCH.
Definition MINIMUM_SLOTS_PER_EPOCH : Z := 32.

Record EpochSchedule : Type := mkEpochSchedule {
  slots_per_epoch : Z;
  leader_schedule_slot_offset : Z;
  warmup : bool;
  first_normal_epoch : Z;
  first_normal_slot : Z;
}.

(** The assertion is the panic. *)
Definition custom (slots_per_epoch leader_schedule_slot_offset : Z) (warmup : bool)
    : outcome unit EpochSchedule :=
  if slots_per_epoch <? MINIMUM_SLOTS_PER_EPOCH then Panic
  else
    let '(first_normal_epoch, first_normal_slot) :=
      if warmup then
        let next_power_of_two := next_power_of_two slots_per_epoch in
        let log2_slots_per_epoch :=
          saturating_sub (trailing_zeros next_power_of_two)
            (trailing_zeros MINIMUM_SLOTS_PER_EPOCH) in
        (log2_slots_per_epoch, saturating_sub next_power_of_two MINIMUM_SLOTS_PER_EPOCH)
      else (0, 0) in
    Ok (mkEpochSchedule slots_per_epoch leader_schedule_slot_offset warmup
          first_normal_epoch first_normal_slot).

Definition schedule_new (slots_per_epoch : Z) : outcome unit EpochSchedule :=
  custom slots_per_epoch slots_per_epoch true.
Definition without_warmup : outcome unit EpochSchedule :=
  custom DEFAULT_SLOTS_PER_EPOCH DEFAULT_LEADER_SCHEDULE_SLOT_OFFSET false.

Section Schedule.
Context (es : EpochSchedule).


Definition get_epoch_and_slot_index (slot : Z) : Z * Z :=
  if slot <? first_normal_slot es then
    let epoch :=
      saturating_sub
        (saturating_sub
           (trailing_zeros
              (next_power_of_two
                 (saturating_add (saturating_add slot MINIMUM_SLOTS_PER_EPOCH) 1)))
           (trailing_zeros MINIMUM_SLOTS_PER_EPOCH)) 1 in
    let epoch_len :=
      two_saturating_pow (saturating_add_u32 epoch (trailing_zeros MINIMUM_SLOTS_PER_EPOCH)) in
    (epoch, saturating_sub slot (saturating_sub epoch_len MINIMUM_SLOTS_PER_EPOCH))
  else
    let normal_slot_index := saturating_sub slot (first_normal_slot es) in
    let normal_epoch_index := div_or_zero normal_slot_index (slots_per_epoch es) in
    let epoch := saturating_add (first_normal_epoch es) normal_epoch_index in
    let slot_index := rem_or_zero normal_slot_index (slots_per_epoch es) in
    (epoch, slot_index).

Definition get_epoch (slot : Z) : Z := fst (get_epoch_and_slot_index slot).

Definition get_leader_schedule_epoch (slot : Z) : Z :=
  if slot <? first_normal_slot es then
    saturating_add (fst (get_epoch_and_slot_index slot)) 1
  else
    let new_slots_since_first_normal_slot := saturating_sub slot (first_normal_slot es) in
    let new_first_normal_leader_schedule_slot :=
      saturating_add new_slots_since_first_normal_slot (leader_schedule_slot_offset es) in
    let new_epochs_since_first_normal_leader_schedule :=
      div_or_zero new_first_normal_leader_schedule_slot (slots_per_epoch es) in
    saturating_add (first_normal_epoch es) new_epochs_since_first_normal_leader_schedule.



(** The clock that [Bank::update_clock] writes, given its timestamps *)
Definition bank_clock (slot epoch_start_timestamp unix_timestamp : Z) : Clock :=
  mkClock slot epoch_start_timestamp (get_epoch slot) (get_leader_schedule_epoch slot)
    unix_timestamp.
End Schedule.

(** ** Powers of two *)

Lemma trailing_zeros_pow2 n : 0 <= n -> trailing_zeros (2 ^ n) = n.
Proof.
  intros Hn. unfold trailing_zeros. pose proof (Z.pow_pos_nonneg 2 n ltac:(lia) Hn).
  rewrite (proj2 (Z.eqb_neq _ _)) by lia.
  replace (- 2 ^ n) with (Z.lnot (Z.ones n)) by (rewrite Z.ones_equiv; unfold Z.lnot; lia).
  rewrite <- Z.ldiff_land, Z.ldiff_ones_r, Z.shiftr_div_pow2, Z.div_same by lia.
  rewrite Z.shiftl_1_l. by apply Z.log2_pow2.
Qed.

Lemma next_power_of_two_eq x : 1 < x <= 2 ^ 63 -> next_power_of_two x = 2 ^ Z.log2_up x.
Proof.
  intros Hx. unfold next_power_of_two, u64_max. destruct (Z.leb_spec x 1); [lia|].
  assert (2 ^ Z.log2_up x <= 2 ^ 63) by (apply Z.pow_le_mono_r; [lia|]; apply Z.log2_up_le_pow2; lia).
  destruct (Z.leb_spec (2 ^ Z.log2_up x) 18446744073709551615); [done|lia].
Qed.

Lemma two_saturating_pow_eq e : 0 <= e <= 63 -> two_saturating_pow e = 2 ^ e.
Proof.
  intros He. unfold two_saturating_pow, u64_max.
  pose proof (Z.pow_le_mono_r 2 e 63 ltac:(lia) ltac:(lia)). lia.
Qed.

(** ** Shape of a schedule *)

(** The normal epochs start where the doubled ones end. *)
Record schedule_ok (es : EpochSchedule) : Prop := {
  so_slots : 32 <= slots_per_epoch es <= 2 ^ 63;
  so_epoch : 0 <= first_normal_epoch es <= 58;
  so_slot : first_normal_slot es = 2 ^ (first_normal_epoch es + 5) - 32;
}.

Lemma custom_ok spe off w es :
  custom spe off w = Ok es -> spe <= 2 ^ 63 ->
  schedule_ok es /\ slots_per_epoch es = spe /\ leader_schedule_slot_offset es = off.
Proof.
  unfold custom, MINIMUM_SLOTS_PER_EPOCH. intros Hc Hs.
  destruct (Z.ltb_spec spe 32) as [|Hm]; [done|].
  destruct w; injection Hc as <-; split; try done.
  pose proof (Z.log2_up_le_mono 32 spe Hm) as Hl. change (Z.log2_up 32) with 5 in Hl.
  pose proof (proj1 (Z.log2_up_le_pow2 spe 63 ltac:(lia)) Hs).
  pose proof (Z.pow_le_mono_r 2 5 (Z.log2_up spe) ltac:(lia) ltac:(lia)) as Hp.
  change (2 ^ 5) with 32 in Hp. change (trailing_zeros 32) with 5.
  rewrite next_power_of_two_eq, trailing_zeros_pow2 by lia. unfold saturating_sub.
  rewrite !Z.max_r by lia. split; cbn -[Z.pow]; [lia..|]. by rewrite Z.sub_add.
Qed.

(** Arithmetic without saturation. *)
Ltac unsat := unfold saturating_add, saturating_sub, saturating_mul, saturating_add_u32,
  div_or_zero, rem_or_zero, as_u32, MINIMUM_SLOTS_PER_EPOCH, u64_max, u32_max in *.

Section Shape.
Context (es : EpochSchedule) (Hes : schedule_ok es).

Lemma warm_pow e : 0 <= e <= first_normal_epoch es -> 1 <= 2 ^ e <= 2 ^ 58.
Proof.
  intros He. destruct Hes as [_ Hn _]. split.
  - apply (Z.pow_le_mono_r 2 0); lia.
  - apply Z.pow_le_mono_r; lia.
Qed.

Lemma pow_add_5 e : 0 <= e -> 2 ^ (e + 5) = 32 * 2 ^ e.
Proof. intros. rewrite Z.pow_add_r by lia. lia. Qed.





(** The epoch of a slot in the warmup *)
Lemma epoch_of_warm e i :
  0 <= e < first_normal_epoch es -> 0 <= i < 32 * 2 ^ e ->
  get_epoch_and_slot_index es (32 * 2 ^ e - 32 + i) = (e, i).
Proof.
  intros He Hi. destruct Hes as [_ Hn Hf]. pose proof (warm_pow e ltac:(lia)).
  pose proof (warm_pow (e + 1) ltac:(lia)) as Hp1.
  pose proof (Z.pow_le_mono_r 2 (e + 1) (first_normal_epoch es) ltac:(lia) ltac:(lia)) as Hmono.
  rewrite Z.pow_add_r in Hmono, Hp1 by lia. rewrite pow_add_5 in Hf by lia.
  unfold get_epoch_and_slot_index. change (trailing_zeros MINIMUM_SLOTS_PER_EPOCH) with 5.
  rewrite (proj2 (Z.ltb_lt _ _)) by lia. unsat.
  rewrite !(Z.min_r 18446744073709551615) by lia.
  assert (Hlog : Z.log2_up (32 * 2 ^ e - 32 + i + 32 + 1) = e + 6).
  { rewrite Z.log2_up_eqn by lia. rewrite (Z.log2_unique' _ (e + 5) i);
      rewrite ?pow_add_5 by lia; lia. }
  rewrite next_power_of_two_eq, Hlog, trailing_zeros_pow2 by lia.
  replace (Z.max 0 (Z.max 0 (e + 6 - 5) - 1)) with e by lia.
  rewrite Z.min_r, two_saturating_pow_eq, pow_add_5 by lia. f_equal. lia.
Qed.

(** The epoch of a slot after the warmup *)
Lemma epoch_of_normal e i :
  first_normal_epoch es <= e -> 0 <= i < slots_per_epoch es ->
  (e - first_normal_epoch es) * slots_per_epoch es + first_normal_slot es + i <= u64_max ->
  get_epoch_and_slot_index es
    ((e - first_normal_epoch es) * slots_per_epoch es + first_normal_slot es + i) = (e, i).
Proof.
  intros He Hi Hmax. destruct Hes as [Hs Hn Hf].
  pose proof (warm_pow (first_normal_epoch es) ltac:(lia)). rewrite pow_add_5 in Hf by lia.
  unfold get_epoch_and_slot_index. rewrite (proj2 (Z.ltb_ge _ _)) by nia. unsat.
  rewrite (proj2 (Z.eqb_neq _ 0)), Z.max_r by nia.
  set (q := e - first_normal_epoch es) in *.
  replace (q * slots_per_epoch es + first_normal_slot es + i - first_normal_slot es)
    with (i + q * slots_per_epoch es) by lia.
  rewrite Z.div_add, Z.mod_add, Z.div_small, Z.mod_small by lia.
  f_equal. rewrite Z.min_r by nia. lia.
Qed.

(** Every slot is in an epoch. *)
Lemma slot_cases slot :
  in_u64 slot ->
  (exists e i, 0 <= e < first_normal_epoch es /\ 0 <= i < 32 * 2 ^ e /\ slot = 32 * 2 ^ e - 32 + i)
  \/ (exists e i, first_normal_epoch es <= e /\ 0 <= i < slots_per_epoch es
        /\ slot = (e - first_normal_epoch es) * slots_per_epoch es + first_normal_slot es + i).
Proof.
  intros Hslot. destruct Hes as [Hs Hn Hf]. unfold in_u64 in Hslot.
  destruct (Z.lt_ge_cases slot (first_normal_slot es)) as [Hlt|Hge].
  - left. set (k := Z.log2 (slot + 32)).
    destruct (Z.log2_spec (slot + 32) ltac:(lia)) as [Hk1 Hk2]. fold k in Hk1, Hk2.
    assert (5 <= k) by (apply (Z.log2_le_mono 32); lia).
    assert (k < first_normal_epoch es + 5) by (apply Z.log2_lt_pow2; lia).
    pose proof (pow_add_5 (k - 5) ltac:(lia)) as Hp. rewrite Z.sub_add in Hp.
    rewrite Z.pow_succ_r in Hk2 by lia.
    exists (k - 5), (slot + 32 - 2 ^ k). lia.
  - right. set (d := slot - first_normal_slot es).
    pose proof (Z.div_mod d (slots_per_epoch es) ltac:(lia)).
    pose proof (Z.mod_pos_bound d (slots_per_epoch es) ltac:(lia)).
    pose proof (Z.div_pos d (slots_per_epoch es) ltac:(lia) ltac:(lia)).
    exists (first_normal_epoch es + d / slots_per_epoch es), (d mod slots_per_epoch es). lia.
Qed.




(** The leader schedule is fixed no earlier than the epoch it is for, and no more
    than two epochs ahead when the offset is at most two epochs. *)
Lemma leader_schedule_near slot :
  in_u64 slot -> 0 <= leader_schedule_slot_offset es <= 2 * slots_per_epoch es ->
  0 <= get_epoch es slot <= get_leader_schedule_epoch es slot
  /\ get_leader_schedule_epoch es slot <= get_epoch es slot + 2
  /\ get_leader_schedule_epoch es slot < u64_max.
Proof.
  intros Hslot Hoff. destruct Hes as [Hs Hn Hf]. unfold in_u64 in Hslot.
  unfold get_epoch, get_leader_schedule_epoch.
  destruct (slot_cases slot Hslot) as [(e & i & He & Hi & Heq)|(e & i & He & Hi & Heq)].
  - pose proof (Z.pow_le_mono_r 2 (e + 1) (first_normal_epoch es) ltac:(lia) ltac:(lia)) as Hp.
    rewrite Z.pow_add_r in Hp by lia. rewrite pow_add_5 in Hf by lia.
    rewrite (proj2 (Z.ltb_lt _ _)), Heq, epoch_of_warm by lia. cbn. unsat. lia.
  - pose proof (warm_pow (first_normal_epoch es) ltac:(lia)). rewrite pow_add_5 in Hf by lia.
    assert (get_epoch_and_slot_index es slot = (e, i)) as ->
      by (rewrite Heq; apply epoch_of_normal; unfold u64_max in *; lia).
    rewrite (proj2 (Z.ltb_ge _ _)) by nia. cbn [fst]. unsat.
    rewrite (proj2 (Z.eqb_neq _ 0)) by lia. set (q := e - first_normal_epoch es) in *.
    rewrite (Z.max_r 0) by nia.
    set (x := Z.min _ (slot - first_normal_slot es + leader_schedule_slot_offset es)).
    assert (q * slots_per_epoch es <= x < (q + 3) * slots_per_epoch es) by (unfold x; nia).
    assert (0 <= x <= 18446744073709551615) by (unfold x; nia). clearbody x.
    assert (q <= x / slots_per_epoch es) by (apply Z.div_le_lower_bound; nia).
    assert (x / slots_per_epoch es < q + 3) by (apply Z.div_lt_upper_bound; nia).
    assert (x / slots_per_epoch es <= x / 32) by (apply Z.div_le_compat_l; lia).
    assert (x / 32 <= 576460752303423488) by (apply Z.div_le_upper_bound; lia). lia.
Qed.
End Shape.

(** ** Claims *)



(** The clock that the bank makes from a schedule whose offset is at most two epochs
    is as the vote program needs it: the leader schedule epoch is the epoch or one of the
    next two, and the epoch a new voter votes from fits a [u64]. *)
Lemma schedule_clock_ok spe off w es slot start now :
  custom spe off w = Ok es -> spe <= 2 ^ 63 -> 0 <= off <= 2 * spe -> in_u64 slot ->
  clock_ok (bank_clock es slot start now).
Proof.
  intros Hc Hs Hoff Hslot. destruct (custom_ok _ _ _ _ Hc Hs) as (Hes & Hspe & Ho).
  rewrite <- Hspe, <- Ho in Hoff.
  destruct (leader_schedule_near es Hes slot Hslot Hoff) as (? & ? & ?).
  split; cbn; [done| |done]. unfold MAX_LEADER_SCHEDULE_EPOCH_OFFSET. cbn. lia.
Qed.

Lemma schedule_clock_ok_witness :
  let c := bank_clock (mkEpochSchedule 432000 432000 true 14 524256) 1000000 0 1600000000 in
  clock_ok c /\ clock_epoch c = 15 /\ clock_leader_schedule_epoch c = 16.
Proof.
  intros c. split; [|split; vm_compute; reflexivity].
  apply (schedule_clock_ok 432000 432000 true); try split; vm_compute; congruence.
Defined.
