(* ===== verification/VoteSafety.v ===== *)
(** * What a successful vote instruction did

    A vote instruction either takes the state of the vote account through one
    step of [vote_step], which names the signature the step needs, or withdraws
    lamports with the signature of the withdrawer.  Steps keep the state
    well-formed. *)

From Stdlib Require Import ZArith Lia.
From Stdlib Require Import Strings.Byte.
From stdpp Require Import prelude gmap numbers relations sorting list.
From S2P Require Import Prelude Sdk Runtime SystemInstruction SystemProgram SystemFacts VoteState VoteTower VoteVoters VoteSlots VoteProgram VoteTyped.

(** The types of the numbers in an instruction. *)
Definition typed_vote (v : Vote) : Prop :=
  Forall in_u64 (vote_slots v) /\ (forall t, vote_timestamp v = Some t -> in_i64 t).
Definition vote_instr_ok (i : VoteInstruction) : Prop :=
  match i with
  | InitializeAccount init => 0 <= init_commission init < 256
  | UpdateCommission c => 0 <= c < 256
  | VoteIx v | VoteSwitch v _ => typed_vote v
  | Withdraw x => in_u64 x
  | _ => True
  end.

(** The tower after a vote, and the state after its timestamp. *)
Definition cast_slots (epoch : Z) (vote : Vote) (s : VoteState) : VoteState :=
  foldl (fun s slot => process_next_vote_slot slot epoch s) s (vote_slots vote).
Definition stamped (vote : Vote) (s s' : VoteState) : Prop :=
  match vote_timestamp vote with
  | Some t => exists slot, VoteProgram.max_slot (vote_slots vote) = Some slot /\
                process_timestamp s slot t = Ok s'
  | None => s' = s
  end.

Lemma vote_of_account_Ok signers s hashes clock vote s' :
  VoteProgram.vote_of_account s hashes clock vote signers = Ok s' <->
  exists voter, voters_get (authorized_voters s) (clock_epoch clock) = Some voter /\
    voter ∈ signers /\ vote_slots vote <> [] /\ check_slots_are_valid s vote hashes = Ok tt /\
    stamped vote (cast_slots (clock_epoch clock) vote
      (set_authorized_voters (purged (authorized_voters s) (clock_epoch clock) voter) s)) s'.
Proof.
  unfold VoteProgram.vote_of_account. rewrite get_and_update_eq.
  destruct (voters_get (authorized_voters s) (clock_epoch clock)) as [voter|]; [|naive_solver]. cbn.
  unfold verify_authorized_signer. case_bool_decide as Hs; cbn; [|naive_solver].
  unfold VoteState.process_vote, vote_result.
  case_bool_decide as Hne; cbn; [naive_solver|].
  change (check_slots_are_valid (set_authorized_voters _ s) vote hashes)
    with (check_slots_are_valid s vote hashes).
  destruct (check_slots_are_valid s vote hashes) as [[]| |]; cbn; [|naive_solver..].
  trans (stamped vote (cast_slots (clock_epoch clock) vote
    (set_authorized_voters (purged (authorized_voters s) (clock_epoch clock) voter) s)) s').
  2: { split; [by exists voter|]. by intros (? & [= <-] & _ & _ & _ & ?). }
  unfold stamped, cast_slots. destruct (vote_timestamp vote) as [t|]; [|naive_solver].
  destruct (VoteProgram.max_slot (vote_slots vote)) as [slot|]; cbn; [|naive_solver].
  destruct (process_timestamp _ slot t) eqn:E; cbn.
  - split; [intros [= <-]; by exists slot|]. intros (? & [= <-] & ?). congruence.
  - split; [done|]. intros (? & [= <-] & ?). congruence.
  - split; [done|]. intros (? & [= <-] & ?). congruence.
Qed.

Section Effect.
Context `{Bincode VoteStateVersions, Bincode Clock}.
Context (new_rand : Z -> Pubkey) (env : VoteEnv) (signers : gset Pubkey) (l0 : ledger).

(** The clock comes from the cache, or from the account of the sysvar. *)
Definition clock_read (c : Clock) : Prop :=
  cache_clock env = Some c \/ bincode_decode (data (get_account l0 clock_sysvar_id)) = Some c.

Definition voter_change (s : VoteState) (k : Pubkey) (s' : VoteState) : Prop :=
  exists clock voter, clock_read clock /\
    voters_get (authorized_voters s) (clock_epoch clock) = Some voter /\
    (voter ∈ signers \/ withdrawer_may_change_voter env = true /\ authorized_withdrawer s ∈ signers) /\
    set_new_authorized_voter s k (clock_epoch clock)
      (wrap64 (clock_leader_schedule_epoch clock + 1)) (fun _ => Ok tt) = Ok s'.

Definition authority_change (s : VoteState) (k : Pubkey) (what : VoteAuthorize) (s' : VoteState)
    : Prop :=
  match what with
  | AuthorizeVoter => voter_change s k s'
  | AuthorizeWithdrawer =>
      authorized_withdrawer s ∈ signers /\ s' = set_authorized_withdrawer k s
  end.

Definition vote_cast (s : VoteState) (vote : Vote) (s' : VoteState) : Prop :=
  exists clock hashes voter, cache_clock env = Some clock /\ cache_slot_hashes env = Some hashes /\
    voters_get (authorized_voters s) (clock_epoch clock) = Some voter /\ voter ∈ signers /\
    vote_slots vote <> [] /\ on_history s vote hashes /\
    stamped vote (cast_slots (clock_epoch clock) vote
      (set_authorized_voters (purged (authorized_voters s) (clock_epoch clock) voter) s)) s'.

Definition vote_step (i : VoteInstruction) (s s' : VoteState) : Prop :=
  match i with
  | InitializeAccount init =>
      authorized_voters s = ∅ /\ init_node_pubkey init ∈ signers /\
      exists clock, cache_clock env = Some clock /\ s' = vote_state_new init clock
  | Authorize k what => authority_change s k what s'
  | AuthorizeChecked what => exists k, k ∈ signers /\ authority_change s k what s'
  | VoteIx vote | VoteSwitch vote _ => vote_cast s vote s'
  | UpdateValidatorIdentity =>
      authorized_withdrawer s ∈ signers /\ exists node, node ∈ signers /\ s' = set_node_pubkey node s
  | UpdateCommission c => authorized_withdrawer s ∈ signers /\ s' = set_commission c s
  | Withdraw _ => False
  end.

(** What is left in the account after a withdrawal: nothing, and then the account
    is reset, or the rent exempt minimum. *)
Definition withdrawn (s : VoteState) (x : Z) (a a' : AccountSharedData) : Prop :=
  (x = lamports a /\ account_set_state (Current vote_state_default) a = Ok a' /\
   (reject_active_close env = true -> exists clock, cache_clock env = Some clock /\
      VoteProgram.reject_active_vote_account_close (Some clock) s = false)) \/
  (x < lamports a /\ a' = a /\
   (reject_non_rent_exempt_withdraws env = true -> exists rent, cache_rent env = Some rent /\
      minimum_balance rent (length (data a)) <= lamports a - x)).

Inductive vote_effect (kas : list KeyedAccount) (me : KeyedAccount) (i : VoteInstruction)
    (l : ledger) : ledger -> Prop :=
| effect_state s s' a' :
    account_state (acct l me) = Ok (Current s) -> vote_step i s s' ->
    account_set_state (Current s') (acct l me) = Ok a' ->
    vote_effect kas me i l (<[unsigned_key me := a']> l)
| effect_withdraw s x to a1 l1 :
    i = Withdraw x -> account_state (acct l me) = Ok (Current s) ->
    authorized_withdrawer s ∈ signers -> to ∈ kas ->
    withdrawn s x (acct l me) a1 ->
    l1 = <[unsigned_key me := set_lamports (lamports (acct l me) - x) a1]> l ->
    lamports (acct l1 to) + x <= u64_max ->
    vote_effect kas me i l
      (<[unsigned_key to := set_lamports (lamports (acct l1 to) + x) (acct l1 to)]> l1).

(** ** Operations *)

Lemma verify_signer_Ok k : verify_authorized_signer k signers = Ok tt <-> k ∈ signers.
Proof. unfold verify_authorized_signer. case_bool_decide; naive_solver. Qed.

Lemma vote_state_of_Ok me l s l' :
  VoteProgram.vote_state_of me l = Ok (s, l') <->
  account_state (acct l me) = Ok (Current s) /\ l' = l.
Proof.
  unfold VoteProgram.vote_state_of. split.
  - intros H1. apply st_bind_Ok in H1 as ([s'] & ? & [Hs ->]%ka_state_Ok & H1). by run_inv.
  - intros [Hs ->]. unfold mbind, st_bind. by rewrite (proj2 (ka_state_Ok me l _ l) (conj Hs eq_refl)).
Qed.

Lemma set_state_Ok me (v : VoteStateVersions) l u l' :
  ka_set_state me v l = Ok (u, l') ->
  exists a', account_set_state v (acct l me) = Ok a' /\ l' = <[unsigned_key me := a']> l.
Proof. by intros (_ & a' & ? & ?)%update_account_Ok; eauto. Qed.

Lemma set_new_approved s k cur target verify s' :
  set_new_authorized_voter s k cur target verify = Ok s' ->
  set_new_authorized_voter s k cur target (fun _ => Ok tt) = Ok s' /\
  exists voter, voters_get (authorized_voters s) cur = Some voter /\ verify voter = Ok tt.
Proof.
  unfold set_new_authorized_voter. rewrite get_and_update_eq.
  destruct (voters_get (authorized_voters s) cur) as [voter|]; [|done]. cbn.
  destruct (verify voter) as [[]| |] eqn:Hv; cbn; [|done..]. eauto.
Qed.

Lemma authorize_effect me k what clock l u l' :
  clock_read clock ->
  VoteProgram.authorize env me k what signers clock l = Ok (u, l') ->
  exists s s', account_state (acct l me) = Ok (Current s) /\ authority_change s k what s' /\
    ka_set_state me (Current s') l = Ok (u, l').
Proof.
  intros Hc H1. unfold VoteProgram.authorize in H1.
  apply st_bind_Ok in H1 as (s & ? & [Hs ->]%vote_state_of_Ok & H1).
  apply st_bind_Ok in H1 as (s' & ? & Hs' & H1). exists s, s'. split; [done|].
  destruct what.
  - apply lift_Ok in Hs' as [(Hset & voter & Hv & Hver)%set_new_approved ->]. split; [|done].
    exists clock, voter. split_and!; try done.
    destruct (withdrawer_may_change_voter env); [|left; by apply verify_signer_Ok].
    destruct (verify_authorized_signer (authorized_withdrawer s) signers) as [[]| |] eqn:E;
      [right; split; [done|by apply verify_signer_Ok]|left; by apply verify_signer_Ok..].
  - apply st_bind_Ok in Hs' as ([] & ? & [Hv%verify_signer_Ok ->]%lift_Ok & Hs'). by run_inv.
Qed.

(** The optional sysvars of a withdrawal. *)
Definition opt_read {A} (feature : bool) (cache : option A) (o : option A) : Prop :=
  if feature then exists a, cache = Some a /\ o = Some a else o = None.

Lemma opt_read_Ok {A} (feature : bool) (cache : option A) (l : ledger) o l' :
  (if feature then lift (a ← ok_or cache UnsupportedSysvar; Ok (Some a)) else mret None) l
  = Ok (o, l') -> opt_read feature cache o /\ l' = l.
Proof.
  unfold opt_read. destruct feature; intros H1; run_inv; eauto.
Qed.

Lemma withdraw_effect kas me x to rent clock l u l' :
  to ∈ kas -> 0 <= x ->
  opt_read (reject_non_rent_exempt_withdraws env) (cache_rent env) rent ->
  opt_read (reject_active_close env) (cache_clock env) clock ->
  VoteProgram.withdraw me x to signers rent clock l = Ok (u, l') ->
  vote_effect kas me (Withdraw x) l l'.
Proof.
  intros Hto Hx Hrent Hclock H1. unfold VoteProgram.withdraw in H1.
  apply st_bind_Ok in H1 as (s & ? & [Hs ->]%vote_state_of_Ok & H1).
  apply st_bind_Ok in H1 as ([] & ? & [Hv%verify_signer_Ok ->]%lift_Ok & H1).
  apply st_bind_Ok in H1 as (bal & ? & [-> ->]%ka_lamports_Ok & H1).
  apply st_bind_Ok in H1 as (rem & ? & [Hrem%ok_or_Ok ->]%lift_Ok & H1).
  apply checked_sub_Some in Hrem as [-> Hle].
  apply st_bind_Ok in H1 as ([] & l1 & Hif & H1).
  assert (exists a1, withdrawn s x (acct l me) a1 /\ lamports a1 = lamports (acct l me) /\
    acct l1 me = a1 /\ (l1 = l \/ l1 = <[unsigned_key me := a1]> l)) as (a1 & Hw & Hlam & Ha1 & Hl1).
  { destruct (Z.eqb_spec (lamports (acct l me) - x) 0) as [E|E].
    - destruct (VoteProgram.reject_active_vote_account_close clock s) eqn:Hr; [by apply throw_Ok in Hif|].
      apply set_state_Ok in Hif as (a1 & Ha1 & ->). exists a1.
      pose proof (account_set_state_Ok _ _ _ Ha1) as (? & _).
      split_and!; [|done|apply get_account_insert_eq|by right].
      left. split_and!; [lia|done|]. intros Hf. rewrite Hf in Hclock.
      destruct Hclock as (c & ? & ->). eauto.
    - exists (acct l me). enough (withdrawn s x (acct l me) (acct l me) /\ l1 = l) as [? ->] by eauto.
      destruct rent as [rent|].
      + keyed_inv. split; [|done]. right. split_and!; [lia|done|]. intros Hf. rewrite Hf in Hrent.
        destruct Hrent as (r & ? & [= ->]). eauto.
      + run_inv. split; [|done]. right. split_and!; [lia|done|]. intros Hf. rewrite Hf in Hrent.
        by destruct Hrent as (? & _ & ?). }
  apply st_bind_Ok in H1 as ([] & l2 & (_ & a2 & Ha2 & ->)%update_account_Ok & H1).
  apply sub_lamports_Ok in Ha2 as [_ ->].
  apply update_account_Ok in H1 as (_ & a3 & [Hb ->]%add_lamports_Ok & ->).
  rewrite Ha1, Hlam in *.
  assert (<[unsigned_key me := set_lamports (lamports (acct l me) - x) a1]> l1 =
          <[unsigned_key me := set_lamports (lamports (acct l me) - x) a1]> l) as E.
  { destruct Hl1 as [->| ->]; [done|]. apply insert_insert_eq. }
  rewrite E in *. by eapply effect_withdraw.
Qed.

Lemma check_sysvar_Ok id ka : check_sysvar_keyed_account id ka = Ok tt -> unsigned_key ka = id.
Proof. unfold check_sysvar_keyed_account. intros H1. by keyed_inv. Qed.

Lemma check_clock_Ok ka l c l' :
  VoteProgram.check_clock env ka l = Ok (c, l') -> cache_clock env = Some c /\ l' = l.
Proof.
  unfold VoteProgram.check_clock, get_clock. intros H1. by run_inv.
Qed.

Lemma check_slot_hashes_Ok ka l c l' :
  VoteProgram.check_slot_hashes env ka l = Ok (c, l') -> cache_slot_hashes env = Some c /\ l' = l.
Proof.
  unfold VoteProgram.check_slot_hashes, get_slot_hashes. intros H1. by run_inv.
Qed.

Lemma sysvar_read_Ok {S} `{Bincode S} id ka l (v : S) l' :
  from_keyed_account id ka l = Ok (v, l') ->
  bincode_decode (data (get_account l id)) = Some v /\ l' = l.
Proof. unfold from_keyed_account. intros H2. by keyed_inv. Qed.

Lemma process_vote_effect kas me hashes clock vote i l u l' :
  i = VoteIx vote \/ (exists h, i = VoteSwitch vote h) ->
  cache_clock env = Some clock -> cache_slot_hashes env = Some hashes ->
  VoteProgram.process_vote me hashes clock vote signers l = Ok (u, l') ->
  vote_effect kas me i l l'.
Proof.
  intros Hi Hc Hh H1. unfold VoteProgram.process_vote in H1.
  apply st_bind_Ok in H1 as ([s] & ? & [Hs ->]%ka_state_Ok & H1).
  apply st_bind_Ok in H1 as (? & ? & [_ ->]%lift_Ok & H1).
  apply st_bind_Ok in H1 as (s' & ? & [Hv ->]%lift_Ok & H1).
  apply set_state_Ok in H1 as (a' & Ha' & ->). eapply effect_state; [done| |done].
  apply vote_of_account_Ok in Hv as (voter & Hg & Hs' & Hne & Hck%check_slots_sound & Hst).
  assert (vote_cast s vote s') by (exists clock, hashes, voter; by split_and!).
  by destruct Hi as [->|[? ->]].
Qed.

Lemma set_state_effect kas me i s s' l u l' :
  account_state (acct l me) = Ok (Current s) -> vote_step i s s' ->
  ka_set_state me (Current s') l = Ok (u, l') -> vote_effect kas me i l l'.
Proof. intros ? ? (a' & ? & ->)%set_state_Ok. by eapply effect_state. Qed.

Lemma signed_by kas first i ka k :
  signers = get_signers (drop first kas) -> kas !! (first + i)%nat = Some ka ->
  signer_key ka = Some k -> k ∈ signers.
Proof.
  intros -> Hi Hs. apply elem_of_get_signers. exists ka. split.
  - apply (list_elem_of_lookup_2 _ i). by rewrite lookup_drop.
  - unfold signer_key in Hs. destruct (is_signer ka); [|done]. by injection Hs as ->.
Qed.

Lemma initialize_effect kas me init clock l u l' :
  cache_clock env = Some clock ->
  VoteProgram.initialize_account new_rand me init signers clock l = Ok (u, l') ->
  vote_effect kas me (InitializeAccount init) l l'.
Proof.
  intros Hc H1. unfold VoteProgram.initialize_account in H1.
  apply st_bind_Ok in H1 as (? & ? & [_ ->]%ka_data_len_Ok & H1).
  apply st_bind_Ok in H1 as (? & ? & [_ ->]%lift_Ok & H1).
  apply st_bind_Ok in H1 as ([s] & ? & [Hs ->]%ka_state_Ok & H1).
  apply st_bind_Ok in H1 as (? & ? & [Hun%fail_if_Ok%negb_false_iff%bool_decide_eq_true ->]%lift_Ok & H1).
  apply st_bind_Ok in H1 as ([] & ? & [Hn%verify_signer_Ok ->]%lift_Ok & H1).
  eapply set_state_effect; [done| |done]. split_and!; eauto.
Qed.

Lemma execute_vote_effect kas first me i u l' :
  signers = get_signers (drop first kas) -> vote_instr_ok i ->
  VoteProgram.execute new_rand env kas first me signers i l0 = Ok (u, l') ->
  vote_effect kas me i l0 l'.
Proof.
  intros Hsig Hi H1. unfold VoteProgram.execute in H1.
  destruct i as [init|k what|vote|x| |c|vote h|what].
  - apply st_bind_Ok in H1 as (ra & ? & [_ ->]%keyed_account_at_index_Ok & H1).
    apply st_bind_Ok in H1 as (rent & l1 & Hr & H1).
    assert (l1 = l0) as -> by (unfold VoteProgram.check_rent in Hr; by run_inv).
    apply st_bind_Ok in H1 as (? & l1 & Hx & H1).
    assert (l1 = l0) as -> by (unfold VoteProgram.verify_rent_exemption in Hx; by keyed_inv).
    apply st_bind_Ok in H1 as (ca & ? & [_ ->]%keyed_account_at_index_Ok & H1).
    apply st_bind_Ok in H1 as (clock & ? & [Hc ->]%check_clock_Ok & H1). by eapply initialize_effect.
  - apply st_bind_Ok in H1 as (ca & ? & [_ ->]%keyed_account_at_index_Ok & H1).
    apply st_bind_Ok in H1 as (clock & ? & [Hc ->]%check_clock_Ok & H1).
    apply authorize_effect in H1 as (s & s' & Hs & Hch & H1); [|by left].
    by eapply set_state_effect.
  - apply st_bind_Ok in H1 as (ha & ? & [_ ->]%keyed_account_at_index_Ok & H1).
    apply st_bind_Ok in H1 as (hashes & ? & [Hh ->]%check_slot_hashes_Ok & H1).
    apply st_bind_Ok in H1 as (ca & ? & [_ ->]%keyed_account_at_index_Ok & H1).
    apply st_bind_Ok in H1 as (clock & ? & [Hc ->]%check_clock_Ok & H1).
    eapply process_vote_effect; [by left|done..].
  - apply st_bind_Ok in H1 as (to & ? & [Hto ->]%keyed_account_at_index_Ok & H1).
    apply st_bind_Ok in H1 as (rent & ? & [Hr ->]%opt_read_Ok & H1).
    apply st_bind_Ok in H1 as (clock & ? & [Hc ->]%opt_read_Ok & H1).
    eapply withdraw_effect; [by eapply list_elem_of_lookup_2|by destruct Hi|done..].
  - apply st_bind_Ok in H1 as (node & ? & [_ ->]%keyed_account_at_index_Ok & H1).
    unfold VoteProgram.update_validator_identity in H1.
    apply st_bind_Ok in H1 as (s & ? & [Hs ->]%vote_state_of_Ok & H1).
    apply st_bind_Ok in H1 as ([] & ? & [Hw%verify_signer_Ok ->]%lift_Ok & H1).
    apply st_bind_Ok in H1 as ([] & ? & [Hn%verify_signer_Ok ->]%lift_Ok & H1).
    eapply set_state_effect; [done| |done]. split; eauto.
  - unfold VoteProgram.update_commission in H1.
    apply st_bind_Ok in H1 as (s & ? & [Hs ->]%vote_state_of_Ok & H1).
    apply st_bind_Ok in H1 as ([] & ? & [Hw%verify_signer_Ok ->]%lift_Ok & H1).
    by eapply set_state_effect.
  - apply st_bind_Ok in H1 as (ha & ? & [_ ->]%keyed_account_at_index_Ok & H1).
    apply st_bind_Ok in H1 as (hashes & ? & [Hh ->]%check_slot_hashes_Ok & H1).
    apply st_bind_Ok in H1 as (ca & ? & [_ ->]%keyed_account_at_index_Ok & H1).
    apply st_bind_Ok in H1 as (clock & ? & [Hc ->]%check_clock_Ok & H1).
    eapply process_vote_effect; [right; eauto|done..].
  - apply st_bind_Ok in H1 as (new & ? & [Hnew ->]%keyed_account_at_index_Ok & H1).
    apply st_bind_Ok in H1 as (k & ? & [Hk%ok_or_Ok ->]%lift_Ok & H1).
    apply st_bind_Ok in H1 as (ca & ? & [_ ->]%keyed_account_at_index_Ok & H1).
    apply st_bind_Ok in H1 as (clock & ? & [Hc ->]%sysvar_read_Ok & H1).
    apply authorize_effect in H1 as (s & s' & Hs & Hch & H1); [|by right].
    eapply set_state_effect; [done| |done]. exists k. split; [|done]. by eapply signed_by.
Qed.

Lemma process_vote_instruction_effect deserialize first d kas u l' :
  signers = get_signers (drop first kas) ->
  (forall i, deserialize d = Some i -> vote_instr_ok i) ->
  VoteProgram.process_instruction new_rand env deserialize first d kas l0 = Ok (u, l') ->
  exists me i, kas !! first = Some me /\ deserialize d = Some i /\
    owner (acct l0 me) = vote_program_id /\ vote_effect kas me i l0 l'.
Proof.
  intros Hsig Hi H1. unfold VoteProgram.process_instruction in H1.
  apply st_bind_Ok in H1 as (me & ? & [Hme ->]%keyed_account_at_index_Ok & H1).
  apply st_bind_Ok in H1 as (own & ? & [-> ->]%ka_owner_Ok & H1).
  apply st_bind_Ok in H1 as (? & ? & [Ho%fail_if_Ok%negb_false_iff%bool_decide_eq_true ->]%lift_Ok & H1).
  apply st_bind_Ok in H1 as (i & ? & [Hd%ok_or_Ok ->]%lift_Ok & H1).
  exists me, i. split_and!; [done..|]. rewrite <- Hsig in H1. eapply execute_vote_effect; eauto.
Qed.
End Effect.
