(* ===== verification/VoteInvariant.v ===== *)
(** * Invariants of the accounts of the vote program

    The states of vote accounts stay well-formed whatever the instruction, so no
    instruction panics, and an authorized voter can always vote. *)

From Stdlib Require Import ZArith Lia.
From Stdlib Require Import Strings.Byte.
From stdpp Require Import prelude gmap numbers relations sorting list.
From S2P Require Import Prelude Sdk Runtime SystemInstruction SystemProgram SystemFacts VoteState VoteTower VoteVoters VoteSlots VoteProgram VoteTyped VoteSafety NoPanic.

(** What the program relies on in bincode: a well-formed state is read back from
    the front of a buffer, and takes at most the size computed for the account. *)
Class VoteBincode `{Bincode VoteStateVersions} : Prop := {
  vote_roundtrip : forall b s rest, vote_state_ok b s -> b <= u64_max ->
    bincode_decode (bincode_encode (Current s) ++ rest) = Some (Current s);
  vote_size : forall b s new_rand, vote_state_ok b s -> b <= u64_max ->
    (length (bincode_encode (Current s)) <= VoteProgram.size_of new_rand)%nat;
}.

(** ** Runs that do not panic *)

Lemma verify_signer_np k signers : verify_authorized_signer k signers <> Panic.
Proof. unfold verify_authorized_signer. by case_match. Qed.
Lemma process_timestamp_np s slot t : process_timestamp s slot t <> Panic.
Proof. unfold process_timestamp. apply bind_np; [apply fail_if_np|done]. Qed.
#[export] Hint Resolve verify_signer_np process_timestamp_np check_slots_no_panic : np.

Section Invariant.
Context `{VoteBincode} `{Bincode Clock}.
Context (new_rand : Z -> Pubkey) (env : VoteEnv) (clock : Clock).

(** The cache and the account of the sysvar have the same clock, which is in
    order, and the slots of the history are slots. *)
Record env_ok (l : ledger) : Prop := {
  env_clock : forall c, clock_read env l c -> c = clock;
  env_clock_ok : clock_ok clock;
  env_hashes : forall hs, cache_slot_hashes env = Some hs -> Forall (fun '(x, _) => slot_ok x) hs;
}.

(** Every vote account has a well-formed state. *)
Definition votes_ok (l : ledger) : Prop :=
  forall k s, owner (get_account l k) = vote_program_id ->
    account_state (get_account l k) = Ok (Current s) -> vote_state_ok (target_epoch clock) s.

Lemma target_u64 : clock_ok clock -> target_epoch clock <= u64_max.
Proof. intros [? ? ?]. unfold target_epoch. lia. Qed.

(** ** Steps *)

Lemma max_slot_in slots x : VoteProgram.max_slot slots = Some x -> x ∈ slots.
Proof.
  destruct slots as [|s slots]; [done|]. intros [= <-].
  enough (foldr Z.max s slots = s \/ foldr Z.max s slots ∈ slots) by set_solver.
  induction slots as [|t slots IH]; [by left|]. cbn.
  destruct (Z.max_spec t (foldr Z.max s slots)) as [[_ ->]|[_ ->]]; [|right; by left].
  destruct IH as [->|]; [by left|right; by right].
Qed.

Lemma vote_cast_ok signers s vote s' l :
  env_ok l -> typed_vote vote -> vote_state_ok (target_epoch clock) s ->
  vote_cast env signers s vote s' -> vote_state_ok (target_epoch clock) s'.
Proof.
  intros [Hclock Hc Hh] [Hslots Hts] Hok (c & hashes & voter & Ec & Eh & Hv & _ & _ & Hon & Hst).
  assert (c = clock) as -> by (apply Hclock; by left).
  assert (vote_state_ok (target_epoch clock) (cast_slots (clock_epoch clock) vote
    (set_authorized_voters (purged (authorized_voters s) (clock_epoch clock) voter) s))) as Hcast.
  { apply process_slots_ok; [|destruct Hc; unfold in_u64; lia|by apply purged_ok].
    eapply (history_slots_ok s); [apply Hok| |by apply Hh|done].
    eapply Forall_impl; [exact Hslots|]. by intros x [? _]. }
  unfold stamped in Hst. destruct (vote_timestamp vote) as [t|]; [|by subst].
  destruct Hst as (slot & Hmax%max_slot_in & Hst). eapply process_timestamp_ok; [| |done..].
  - by apply (proj1 (Forall_forall _ _) Hslots).
  - by apply Hts.
Qed.

Lemma authority_change_ok signers s k what s' l :
  env_ok l -> vote_state_ok (target_epoch clock) s ->
  authority_change env signers l s k what s' -> vote_state_ok (target_epoch clock) s'.
Proof.
  intros [Hclock Hc _] Hok. destruct what; cbn.
  - intros (c & voter & ->%Hclock & _ & _ & Hset). rewrite wrap_target in Hset by done.
    by eapply set_new_authorized_voter_ok.
  - intros [_ ->]. by destruct Hok.
Qed.

Lemma vote_step_ok signers i s s' l :
  env_ok l -> vote_instr_ok i -> vote_state_ok (target_epoch clock) s ->
  vote_step env signers l i s s' -> vote_state_ok (target_epoch clock) s'.
Proof.
  intros Henv Hi Hok. destruct i as [init|k what|vote|x| |c|vote h|what]; cbn.
  - intros (_ & _ & c & Hc & ->). destruct Henv as [Hclock Hcok _].
    assert (c = clock) as -> by (apply Hclock; by left). by apply vote_state_new_ok.
  - by apply authority_change_ok.
  - by apply (vote_cast_ok _ _ _ _ l).
  - done.
  - intros (_ & node & _ & ->). by destruct Hok.
  - intros [_ ->]. by destruct Hok.
  - by apply (vote_cast_ok _ _ _ _ l).
  - intros (k & _ & ?). by eapply authority_change_ok.
Qed.

(** ** Ledgers *)

Lemma set_state_reads s a a' :
  clock_ok clock -> vote_state_ok (target_epoch clock) s ->
  account_set_state (Current s) a = Ok a' -> account_state a' = Ok (Current s).
Proof.
  intros Hc Hok Hset. unfold account_set_state in Hset. run_inv. unfold account_state. cbn.
  by rewrite (vote_roundtrip (target_epoch clock)) by (try done; by apply target_u64).
Qed.

Lemma votes_ok_insert l k a :
  votes_ok l ->
  (forall s, owner a = vote_program_id -> account_state a = Ok (Current s) ->
     vote_state_ok (target_epoch clock) s) ->
  votes_ok (<[k := a]> l).
Proof.
  intros Hl Ha k' s. destruct (decide (k = k')) as [<-|Hne].
  - rewrite get_account_insert_eq. apply Ha.
  - rewrite get_account_insert_ne by done. apply Hl.
Qed.

Lemma votes_ok_lamports l k x :
  votes_ok l -> votes_ok (<[k := set_lamports x (get_account l k)]> l).
Proof. intros Hl. apply votes_ok_insert; [done|]. intros s. apply (Hl k s). Qed.

Lemma vote_effect_ok signers kas me i l l' :
  env_ok l -> vote_instr_ok i -> owner (acct l me) = vote_program_id -> votes_ok l ->
  vote_effect env signers l kas me i l l' -> votes_ok l'.
Proof.
  intros Henv Hi Ho Hl Heff. pose proof (env_clock_ok _ Henv) as Hc.
  destruct Heff as [s s' a' Hs Hstep Hset|s x to a1 l1 -> Hs Hw Hto Hwd -> Hb].
  - apply votes_ok_insert; [done|]. intros s1 _ Hs1.
    pose proof (vote_step_ok _ _ _ _ _ Henv Hi (Hl _ _ Ho Hs) Hstep) as Hok'.
    rewrite (set_state_reads s' (acct l me) a' Hc Hok' Hset) in Hs1. by injection Hs1 as <-.
  - apply votes_ok_lamports, votes_ok_insert; [done|]. intros s1 _ Hs1.
    destruct Hwd as [(_ & Hset & _)|(_ & -> & _)].
    + change (account_state a1 = Ok (Current s1)) in Hs1.
      rewrite (set_state_reads _ _ a1 Hc (vote_state_default_ok _) Hset) in Hs1.
      injection Hs1 as <-. apply vote_state_default_ok.
    + apply (Hl (unsigned_key me)); done.
Qed.

(** ** No instruction panics *)

Lemma vote_state_np me l : VoteProgram.vote_state_of me l <> Panic.
Proof. unfold VoteProgram.vote_state_of. np. Qed.

Lemma set_new_np s k verify :
  clock_ok clock -> vote_state_ok (target_epoch clock) s -> (forall v, verify v <> Panic) ->
  set_new_authorized_voter s k (clock_epoch clock) (wrap64 (clock_leader_schedule_epoch clock + 1))
    verify <> Panic.
Proof.
  intros Hc Hok Hver. pose proof Hc as [? ? ?]. rewrite wrap_target by done.
  rewrite set_new_authorized_voter_eq; [|apply Hok|by apply target_u64|unfold target_epoch; lia].
  destruct (voters_get _ (clock_epoch clock)); [|done]. apply bind_np; [done|]. intros.
  by case_match.
Qed.

Lemma authorize_np me k what signers l :
  clock_ok clock -> votes_ok l -> owner (acct l me) = vote_program_id ->
  VoteProgram.authorize env me k what signers clock l <> Panic.
Proof.
  intros Hc Hl Ho. unfold VoteProgram.authorize.
  apply st_bind_np; [apply vote_state_np|]. intros s ? [Hs ->]%vote_state_of_Ok.
  apply st_bind_np; [|intros; np]. destruct what; [|np].
  apply lift_np, set_new_np; [done|by eapply Hl|]. intros v. np.
Qed.

Lemma vote_of_account_np s hashes c vote signers :
  VoteProgram.vote_of_account s hashes c vote signers <> Panic.
Proof.
  unfold VoteProgram.vote_of_account. rewrite get_and_update_eq.
  destruct (voters_get _ _) as [voter|]; [|done]. cbn.
  apply bind_np; [np|intros _ _]. apply bind_np.
  - apply map_err_np. unfold VoteState.process_vote. np.
  - intros s' _. destruct (vote_timestamp vote); [|done]. apply map_err_np. np.
Qed.

Lemma process_vote_np me hashes c vote signers l :
  VoteProgram.process_vote me hashes c vote signers l <> Panic.
Proof.
  unfold VoteProgram.process_vote. np. apply vote_of_account_np.
Qed.

Lemma withdraw_np me x to signers rent c l : VoteProgram.withdraw me x to signers rent c l <> Panic.
Proof.
  unfold VoteProgram.withdraw. apply st_bind_np; [apply vote_state_np|intros s ? _].
  np; (apply update_np; apply bind_np; [np|done]).
Qed.

Lemma check_clock_np ka l : VoteProgram.check_clock env ka l <> Panic.
Proof. unfold VoteProgram.check_clock, check_sysvar_keyed_account, get_clock. np. Qed.
Lemma check_slot_hashes_np ka l : VoteProgram.check_slot_hashes env ka l <> Panic.
Proof. unfold VoteProgram.check_slot_hashes, check_sysvar_keyed_account, get_slot_hashes. np. Qed.
Lemma check_rent_np ka l : VoteProgram.check_rent env ka l <> Panic.
Proof. unfold VoteProgram.check_rent, check_sysvar_keyed_account, get_rent. np. Qed.

Lemma execute_np kas first me signers i l :
  env_ok l -> votes_ok l -> owner (acct l me) = vote_program_id ->
  VoteProgram.execute new_rand env kas first me signers i l <> Panic.
Proof.
  intros [Hclock Hc _] Hl Ho. unfold VoteProgram.execute.
  pose proof check_clock_np. pose proof check_slot_hashes_np. pose proof check_rent_np.
  pose proof vote_state_np. pose proof process_vote_np. pose proof withdraw_np.
  destruct i as [init|k what|vote|x| |c|vote h|what].
  - unfold VoteProgram.verify_rent_exemption, VoteProgram.initialize_account. np.
  - apply st_bind_np; [np|]. intros ca ? [_ ->]%keyed_account_at_index_Ok.
    apply st_bind_np; [np|]. intros c' ? [Hcl ->]%check_clock_Ok.
    rewrite (Hclock c') by (by left). by apply authorize_np.
  - np.
  - unfold get_rent, get_clock. np.
  - unfold VoteProgram.update_validator_identity. np.
  - unfold VoteProgram.update_commission. np.
  - np.
  - apply st_bind_np; [np|]. intros new ? [_ ->]%keyed_account_at_index_Ok.
    apply st_bind_np; [np|]. intros k ? [_ ->]%lift_Ok.
    apply st_bind_np; [np|]. intros ca ? [_ ->]%keyed_account_at_index_Ok.
    apply st_bind_np; [np|]. intros c' ? [Hcl ->]%sysvar_read_Ok.
    rewrite (Hclock c') by (by right). by apply authorize_np.
Qed.

Lemma process_vote_instruction_np deserialize first d kas l :
  env_ok l -> votes_ok l ->
  VoteProgram.process_instruction new_rand env deserialize first d kas l <> Panic.
Proof.
  intros Henv Hl. unfold VoteProgram.process_instruction.
  apply st_bind_np; [np|]. intros me ? [_ ->]%keyed_account_at_index_Ok.
  apply st_bind_np; [np|]. intros own ? [-> ->]%ka_owner_Ok.
  apply st_bind_np; [np|].
  intros ? ? [Ho%fail_if_Ok%negb_false_iff%bool_decide_eq_true ->]%lift_Ok.
  apply st_bind_np; [np|]. intros i ? [_ ->]%lift_Ok. by apply execute_np.
Qed.

(** ** An authorized voter can vote *)

Lemma last_voted_next n epoch s :
  last_voted_slot (process_next_vote_slot n epoch s) =
  Some (match last_voted_slot s with Some l => Z.max l n | None => n end).
Proof.
  destruct (next_vote_cases n epoch s) as
    [[-> (l & -> & ?)]|(Hnew & k & _ & _ & _ & Hc)]; [f_equal; lia|].
  assert (last_voted_slot (process_next_vote_slot n epoch s) = Some n) as ->.
  { unfold last_voted_slot, last_lockout.
    destruct Hc as [[_ ->]|(v & rest & _ & _ & ->)]; cbn; rewrite last_pushed; cbn; by rewrite double_one_slot. }
  f_equal. unfold newer in Hnew. destruct (last_voted_slot s) as [l|]; [|done].
  specialize (Hnew l eq_refl). lia.
Qed.

Lemma cast_newer epoch slots s x :
  newer s x -> Forall (fun y => y < x) slots ->
  newer (foldl (fun s slot => process_next_vote_slot slot epoch s) s slots) x.
Proof.
  revert s. induction slots as [|y slots IH]; intros s Hn Hs; [done|].
  apply Forall_cons in Hs as [Hy Hs]. cbn. apply IH; [|done].
  intros l Hl. rewrite last_voted_next in Hl. injection Hl as <-.
  unfold newer in Hn. destruct (last_voted_slot s) as [l|]; [|done]. specialize (Hn l eq_refl). lia.
Qed.

Lemma cast_last epoch vote s hashes :
  StronglySorted Z.lt (vote_slots vote) -> on_history s vote hashes ->
  last_voted_slot (cast_slots epoch vote s) = last (vote_slots vote).
Proof.
  intros Hs [_ (y & Hy & _)]. destruct (last (vote_slots vote)) as [x|] eqn:Hx.
  2: { apply last_None in Hx. unfold new_slots in Hy. by rewrite Hx in Hy. }
  unfold cast_slots. apply last_Some in Hx as [pre Hpre]. rewrite Hpre in *.
  assert (Forall (fun z => z < x) pre) as Hlt.
  { apply Forall_forall. intros z Hz. eapply StronglySorted_app_1_elem_of; [done..|by left]. }
  assert (newer s x) as Hn.
  { apply last_Some in Hy as [new Hnew].
    assert (y ∈ new_slots (last_voted_slot s) (pre ++ [x])) as Hin by (rewrite Hnew; set_solver).
    apply list_elem_of_filter in Hin as [Hyn Hin]. intros l Hl. specialize (Hyn l Hl).
    apply elem_of_app in Hin as [Hin| ->%list_elem_of_singleton]; [|done].
    pose proof (proj1 (Forall_forall _ _) Hlt _ Hin). cbn in *. lia. }
  rewrite foldl_app. cbn. rewrite last_voted_next. f_equal.
  pose proof (cast_newer epoch pre s x Hn Hlt) as Hn'. unfold newer in Hn'.
  destruct (last_voted_slot (foldl _ s pre)) as [l|]; [|done]. specialize (Hn' l eq_refl). lia.
Qed.

Record vote_ready (kas : list KeyedAccount) (first : nat) (l : ledger) (me : KeyedAccount)
    (s : VoteState) (vote : Vote) : Prop := {
  ready_me : kas !! first = Some me;
  ready_owner : owner (acct l me) = vote_program_id;
  ready_size : (VoteProgram.size_of new_rand <= length (data (acct l me)))%nat;
  ready_state : account_state (acct l me) = Ok (Current s);
  ready_hashes : exists ha hashes, kas !! (first + 1)%nat = Some ha /\
    unsigned_key ha = slot_hashes_sysvar_id /\ cache_slot_hashes env = Some hashes /\
    NoDup hashes.*1 /\ on_history s vote hashes;
  ready_clock : exists ca, kas !! (first + 2)%nat = Some ca /\
    unsigned_key ca = clock_sysvar_id /\ cache_clock env = Some clock;
  ready_voter : exists voter,
    voters_get (authorized_voters s) (clock_epoch clock) = Some voter /\
    voter ∈ get_signers (drop first kas);
  ready_vote : typed_vote vote /\ StronglySorted Z.lt (vote_slots vote) /\
    vote_timestamp vote = None;
}.

Lemma check_sysvar_run id ka : unsigned_key ka = id -> check_sysvar_keyed_account id ka = Ok tt.
Proof. intros Hk. unfold check_sysvar_keyed_account. by rewrite bool_decide_true. Qed.

Lemma set_state_run s (me : KeyedAccount) l :
  clock_ok clock -> vote_state_ok (target_epoch clock) s ->
  (VoteProgram.size_of new_rand <= length (data (acct l me)))%nat ->
  exists a', account_set_state (Current s) (acct l me) = Ok a' /\
    ka_set_state me (Current s) l = Ok (tt, <[unsigned_key me := a']> l).
Proof.
  intros Hc Hok Hsize.
  assert (exists a', account_set_state (Current s) (acct l me) = Ok a') as [a' Ha'].
  { unfold account_set_state.
    pose proof (vote_size (target_epoch clock) s new_rand Hok (target_u64 Hc)).
    destruct (Nat.ltb_spec (length (data (acct l me))) (length (bincode_encode (Current s)))); [lia|].
    by eexists. }
  exists a'. split; [done|]. by apply update_account_run.
Qed.

Lemma ready_vote_runs deserialize d kas first l me s vote :
  env_ok l -> votes_ok l -> deserialize d = Some (VoteIx vote) ->
  vote_ready kas first l me s vote ->
  exists l' s', VoteProgram.process_instruction new_rand env deserialize first d kas l = Ok (tt, l') /\
    account_state (acct l' me) = Ok (Current s') /\
    last_voted_slot s' = last (vote_slots vote).
Proof.
  intros Henv Hl Hd [Hme Ho Hsize Hs (ha & hashes & Hha & Eha & Hh & Hnd & Hon)
    (ca & Hca & Eca & Hc) (voter & Hv & Hsig) (Hty & Hsort & Hts)].
  set (signers := get_signers (drop first kas)) in *.
  set (s' := cast_slots (clock_epoch clock) vote
    (set_authorized_voters (purged (authorized_voters s) (clock_epoch clock) voter) s)).
  assert (vote_slots vote <> []) as Hne.
  { intros E. destruct Hon as [_ (? & Hx & _)]. by rewrite E in Hx. }
  assert (vote_state_ok (target_epoch clock) s') as Hok'.
  { eapply (vote_cast_ok signers s vote); [exact Henv|done|by eapply Hl|].
    exists clock, hashes, voter. unfold stamped. rewrite Hts. by split_and!. }
  assert (VoteProgram.vote_of_account s hashes clock vote signers = Ok s') as Hvote.
  { apply vote_of_account_Ok. exists voter. split_and!; try done.
    - by apply check_slots_complete.
    - unfold stamped. by rewrite Hts. }
  pose proof (env_clock_ok _ Henv) as Hcok.
  destruct (set_state_run s' me l Hcok Hok' Hsize) as (a' & Ha' & Hset).
  exists (<[unsigned_key me := a']> l), s'. split_and!.
  - unfold VoteProgram.process_instruction. fold signers.
    fwd (by apply keyed_account_at_index_Ok). fwd (by apply ka_owner_Ok).
    fwd (apply lift_run; by rewrite bool_decide_true).
    fwd (apply lift_run; by rewrite Hd). unfold VoteProgram.execute.
    fwd (by apply keyed_account_at_index_Ok).
    unfold VoteProgram.check_slot_hashes, get_slot_hashes, VoteProgram.check_clock, get_clock.
    fwd (fwd (by apply lift_run, check_sysvar_run); apply lift_run; by rewrite Hh).
    fwd (by apply keyed_account_at_index_Ok).
    fwd (fwd (by apply lift_run, check_sysvar_run); apply lift_run; by rewrite Hc).
    unfold VoteProgram.process_vote. fwd (by apply ka_state_Ok).
    fwd (apply (lift_run _ _ tt), fail_if_Ok, bool_decide_eq_false; intros E;
         rewrite E in Hv; by apply voters_get_effective in Hv as (? & ? & _)).
    fwd (by apply lift_run).
    exact Hset.
  - rewrite get_account_insert_eq. by eapply set_state_reads.
  - by apply (cast_last _ _ _ hashes).
Qed.
End Invariant.
