(* ===== verification/VoteExample.v ===== *)
(** * A concrete vote program

    The encoding of vote states in the layout of bincode, which has the laws the
    theorems about vote accounts assume, and a small ledger with a vote account. *)

From Stdlib Require Import ZArith Lia.
From Stdlib Require Import Strings.Byte.
From stdpp Require Import prelude gmap numbers relations sorting list.
From S2P Require Import Prelude Sdk Runtime SystemInstruction SystemProgram SystemFacts VoteState VoteTower VoteVoters VoteSlots VoteProgram VoteTyped VoteSafety VoteInvariant Codec.

Module VoteExample.

(** ** The encoding *)

Abbreviation u64 := (uint 8).

Definition in_uint (n : nat) (z : Z) : Prop := 0 <= z < 256 ^ Z.of_nat n.

Program Definition lockout_codec : codec Lockout :=
  iso (c_pair u64 (uint 4)) (fun v => (lo_slot v, confirmation_count v))
    (fun p => mkLockout p.1 p.2)
    (fun v => in_uint 8 (lo_slot v) /\ in_uint 4 (confirmation_count v)) _.
Next Obligation. by intros [s c] [Hs Hc]. Qed.

Definition triple_codec : codec (Z * Z * Z) := c_pair (c_pair u64 u64) u64.
Definition prior_entry : codec (Pubkey * Z * Z) := c_pair (c_pair key u64) u64.

Program Definition prior_codec : codec (CircBuf (Pubkey * Z * Z)) :=
  iso (c_pair (c_array prior_entry MAX_ITEMS) (c_pair u64 boolean))
    (fun b => (cb_buf b, (Z.of_nat (cb_idx b), cb_is_empty b)))
    (fun p => mkCircBuf p.1 (Z.to_nat p.2.1) p.2.2)
    (fun b => length (cb_buf b) = MAX_ITEMS /\ Forall (valid prior_entry) (cb_buf b) /\
              in_uint 8 (Z.of_nat (cb_idx b))) _.
Next Obligation.
  intros [buf idx e] (Hl & Hb & Hi). cbn in *. rewrite Nat2Z.id. done.
Qed.

Program Definition timestamp_codec : codec BlockTimestamp :=
  iso (c_pair u64 i64) (fun t => (ts_slot t, ts_timestamp t)) (fun p => mkBlockTimestamp p.1 p.2)
    (fun t => in_uint 8 (ts_slot t) /\ in_i64 (ts_timestamp t)) _.
Next Obligation. by intros [s t] [Hs Ht]. Qed.

Definition tail_codec :=
  c_pair (c_map (c_pair u64 key)) (c_pair prior_codec (c_pair (c_vec triple_codec) timestamp_codec)).
Definition body_codec :=
  c_pair key (c_pair key (c_pair (uint 1) (c_pair (c_vec lockout_codec) (c_pair (c_opt u64) tail_codec)))).

Definition state_valid (s : VoteState) : Prop :=
  valid body_codec (node_pubkey s, (authorized_withdrawer s, (commission s, (votes s,
    (root_slot s, (authorized_voters s, (prior_voters s, (epoch_credits s, last_timestamp s)))))))).

Program Definition state_codec : codec VoteState :=
  iso body_codec
    (fun s => (node_pubkey s, (authorized_withdrawer s, (commission s, (votes s,
      (root_slot s, (authorized_voters s, (prior_voters s, (epoch_credits s, last_timestamp s)))))))))
    (fun '(n, (w, (c, (v, (r, (a, (p, (e, t)))))))) => mkVoteState n w c v r a p e t)
    state_valid _.
Next Obligation. by intros [] Hs. Qed.

(** The version comes first. *)
Definition encode_versions (v : VoteStateVersions) : bytes :=
  enc (uint 4) 0 ++ enc state_codec (convert_to_current v).
Definition decode_versions (b : bytes) : option VoteStateVersions :=
  '(tag, b) ← dec (uint 4) b;
  if tag =? 0 then '(s, _) ← dec state_codec b; Some (Current s) else None.

#[global] Instance vote_versions_bincode : Bincode VoteStateVersions := {
  bincode_encode := encode_versions;
  bincode_decode := decode_versions;
}.

(** ** Round trip *)

Lemma u64_in_uint z : in_u64 z -> in_uint 8 z.
Proof.
  unfold in_u64, u64_max, in_uint. change (256 ^ Z.of_nat 8) with 18446744073709551616. lia.
Qed.

Lemma slot_in_u64 z : slot_ok z -> in_u64 z.
Proof. unfold slot_ok, in_u64, u64_max. lia. Qed.

Lemma vote_state_valid b s : vote_state_ok b s -> b <= u64_max -> state_valid s.
Proof.
  intros [Ht Hr Hc Hv Hs (Hp1 & Hp2 & Hp3) [Hc1 Hc2] [Hts1 Hts2]] Hb.
  destruct Ht as [[_ Hvotes Hlen _ _] _].
  unfold MAX_LOCKOUT_HISTORY, MAX_ITEMS, MAX_EPOCH_CREDITS_HISTORY, MAX_LEADER_SCHEDULE_EPOCH_OFFSET in *.
  unfold state_valid. cbn [valid body_codec tail_codec c_pair c_vec c_opt c_map iso prior_codec
    timestamp_codec key fst snd]. split_and!; try done.
  - cbn. unfold in_u64, u64_max. lia.
  - eapply Forall_impl; [exact Hvotes|]. intros v [Hslot Hcount]. split.
    + by apply u64_in_uint, slot_in_u64.
    + unfold count_ok, MAX_LOCKOUT_HISTORY in Hcount. unfold in_uint.
      change (256 ^ Z.of_nat 4) with 4294967296. lia.
  - intros r Er. by apply u64_in_uint, slot_in_u64, Hr.
  - unfold in_u64, u64_max. lia.
  - intros j k Hj. split; [|done]. apply u64_in_uint. specialize (Hv _ _ Hj). unfold in_u64. cbn. lia.
  - eapply Forall_impl; [exact Hp3|]. intros [[k x] y] [? ?]. split; [split; [done|]|];
      by apply u64_in_uint.
  - apply u64_in_uint. unfold in_u64, u64_max. lia.
  - unfold in_u64, u64_max. lia.
  - eapply Forall_impl; [exact Hc2|]. intros [[x y] z] (? & ? & ?).
    split; [split|]; by apply u64_in_uint.
  - by apply u64_in_uint.
Qed.

Lemma decode_encode_versions s rest :
  state_valid s -> decode_versions (encode_versions (Current s) ++ rest) = Some (Current s).
Proof.
  intros Hs. unfold decode_versions, encode_versions. rewrite <- (assoc_L (++)).
  rewrite dec_enc by done. cbn [mbind option_bind convert_to_current].
  by rewrite Z.eqb_refl, (dec_enc state_codec s rest Hs).
Qed.

(** ** Size *)

Lemma length_state s :
  length (cb_buf (prior_voters s)) = MAX_ITEMS ->
  length (encode_versions (Current s)) =
  (4 + 32 + 32 + 1 + (8 + 12 * length (votes s)) + match root_slot s with Some _ => 9 | None => 1 end
   + (8 + 40 * size (authorized_voters s)) + (48 * 32 + 9) + (8 + 24 * length (epoch_credits s)) + 16)%nat.
Proof.
  intros Hp. unfold encode_versions. rewrite length_app, (fixed_uint 4).
  cbn -[Nat.mul Nat.add to_le_bytes sorted_entries MAX_ITEMS].
  rewrite !length_app, !length_pk_bytes, !length_to_le_bytes.
  rewrite (length_concat_fixed lockout_codec 12),
    (length_concat_fixed (c_pair u64 key) 40), (length_concat_fixed prior_entry 48),
    (length_concat_fixed triple_codec 24).
  - rewrite sorted_entries_perm, length_map_to_list, Hp. unfold MAX_ITEMS.
    destruct (root_slot s); cbn -[Nat.mul Nat.add to_le_bytes]; rewrite ?length_to_le_bytes; lia.
  - apply (fixed_pair (c_pair u64 u64) u64 16 8); [apply (fixed_pair u64 u64 8 8)|]; apply fixed_uint.
  - apply (fixed_pair (c_pair key u64) u64 40 8); [apply (fixed_pair key u64 32 8)|];
      auto using fixed_uint, fixed_key.
  - apply (fixed_pair u64 key 8 32); auto using fixed_uint, fixed_key.
  - intros v. apply (fixed_pair u64 (uint 4) 8 4); apply fixed_uint.
Qed.

Lemma size_of_max new_rand : VoteProgram.size_of new_rand = 3731%nat.
Proof.
  unfold VoteProgram.size_of.
  change (bincode_encode ?v) with (encode_versions v). rewrite length_state by done.
  cbn [votes root_slot authorized_voters epoch_credits get_max_sized_vote_state].
  rewrite !length_replicate, map_size_list_to_map; [reflexivity|].
  apply (bool_decide_eq_true_1 _). by vm_compute.
Qed.

#[global] Instance vote_bincode_laws : VoteBincode.
Proof.
  split.
  - intros b s rest Hs Hb. apply decode_encode_versions. by eapply vote_state_valid.
  - intros b s new_rand Hs Hb. rewrite size_of_max.
    change (bincode_encode ?v) with (encode_versions v). rewrite length_state by apply Hs.
    destruct Hs as [[[_ _ Hl _ _] _] _ _ _ Hc _ [Hcr _] _].
    unfold MAX_LOCKOUT_HISTORY, MAX_EPOCH_CREDITS_HISTORY, MAX_LEADER_SCHEDULE_EPOCH_OFFSET in *.
    destruct (root_slot s); lia.
Qed.

#[global] Instance clock_bincode : Bincode Clock := {
  bincode_encode c := concat (to_le_bytes 8 <$> [clock_slot c; clock_epoch_start_timestamp c;
    clock_epoch c; clock_leader_schedule_epoch c; clock_unix_timestamp c]);
  bincode_decode b := if (length b <? 40)%nat then None else
    let f i := from_le_bytes (take 8 (drop (8 * i) b)) in
    Some (mkClock (f 0%nat) (f 1%nat) (f 2%nat) (f 3%nat) (f 4%nat));
}.

(** ** A ledger *)

Definition new_rand (i : Z) : Pubkey := pk_of_Z (1000 + i).
Definition voter : Pubkey := pk_of_Z 5.
Definition withdrawer : Pubkey := pk_of_Z 6.
Definition node : Pubkey := pk_of_Z 7.
Definition vote_key : Pubkey := pk_of_Z 100.
Definition hash (n : Z) : Hash := pk_of_Z (500 + n).

Definition clock : Clock := mkClock 40 0 1 2 0.
Definition history : list (Z * Hash) := [(39, hash 39); (38, hash 38); (36, hash 36); (35, hash 35)].
Definition env : VoteEnv := mkVoteEnv (Some clock) (Some rent_default) (Some history) true true true.

Definition init : VoteInit := mkVoteInit node voter withdrawer 10.
Definition state : VoteState := vote_state_new init clock.
Definition state_data (s : VoteState) : bytes :=
  let e := encode_versions (Current s) in e ++ replicate (3731 - length e) x00.

Definition ledger0 : ledger :=
  <[vote_key := mkAccount 1000000 (state_data state) vote_program_id false 0]>
  (<[clock_sysvar_id := mkAccount 1 (bincode_encode clock) System.sysvar_id false 0]> ∅).

Definition ka (signer : bool) (k : Pubkey) : KeyedAccount := mkKeyed signer true k.
Definition vote_keys : list KeyedAccount :=
  [ka false vote_key; ka false slot_hashes_sysvar_id; ka false clock_sysvar_id; ka true voter].
Definition cast : Vote := mkVote [36; 38] (hash 38) None.
Definition deserialize (i : VoteInstruction) (_ : bytes) : option VoteInstruction := Some i.

Lemma clock_is_ok : clock_ok clock.
Proof. by split; vm_compute. Qed.

Lemma env_is_ok : env_ok env clock ledger0.
Proof.
  split.
  - intros c [Hc|Hc].
    + by injection Hc.
    + assert (bincode_decode (data (get_account ledger0 clock_sysvar_id)) = Some clock) as E
        by (by vm_compute). rewrite E in Hc. by injection Hc.
  - apply clock_is_ok.
  - intros hs [= <-]. unfold history, slot_ok. repeat (constructor; [lia|]). constructor.
Qed.

Lemma votes_are_ok : votes_ok clock ledger0.
Proof.
  intros k s. unfold ledger0. destruct (decide (vote_key = k)) as [<-|Hk].
  - rewrite get_account_insert_eq. intros _ Hs.
    assert (account_state (mkAccount 1000000 (state_data state) vote_program_id false 0)
      = Ok (Current state)) as E by (by vm_compute).
    rewrite E in Hs. injection Hs as <-. apply vote_state_new_ok; [cbn; lia|apply clock_is_ok].
  - rewrite get_account_insert_ne by done. intros Ho. exfalso. revert Ho.
    destruct (decide (clock_sysvar_id = k)) as [<-|Hk'].
    + rewrite get_account_insert_eq. apply (bool_decide_eq_false_1 _). by vm_compute.
    + rewrite get_account_insert_ne by done. apply (bool_decide_eq_false_1 _). by vm_compute.
Qed.
End VoteExample.
