(* ===== verification/VoteTheorems.v ===== *)
(** * Theorems about the vote program *)

From Stdlib Require Import ZArith Lia.
From Stdlib Require Import Strings.Byte.
From stdpp Require Import prelude gmap numbers relations sorting list.
From S2P Require Import Prelude Sdk Runtime SystemInstruction SystemProgram SystemFacts VoteState VoteTower VoteVoters VoteSlots VoteProgram VoteTyped VoteSafety VoteInvariant Codec VoteExample.

(** ** Instructions *)

Section Instructions.
Context `{VoteBincode} `{Bincode Clock}.
Context (new_rand : Z -> Pubkey) (env : VoteEnv).
Context (deserialize : bytes -> option VoteInstruction) (first : nat) (d : bytes).
Context (kas : list KeyedAccount) (l : ledger).


Context (clock : Clock) (Henv : env_ok env clock l) (Hvotes : votes_ok clock l).

(** C23: No vote instruction, whatever its accounts and data, takes a vote account
    out of its invariant: its votes form a tower over its root, with at most 31
    votes, lockouts that double and contain the next vote, and confirmations in
    1..31; its voters, its credits and its prior voters stay within the sizes the
    account is made for; and all fields stay within their types. *)
Theorem vote_accounts_well_formed u l' :
  (forall i, deserialize d = Some i -> vote_instr_ok i) ->
  VoteProgram.process_instruction new_rand env deserialize first d kas l = Ok (u, l') ->
  votes_ok clock l'.
Proof.
  intros Hi Hrun.
  destruct (process_vote_instruction_effect _ _ _ _ _ _ _ _ _ _ eq_refl Hi Hrun)
    as (me & i & Hme & Hd & Ho & Heff).
  eapply (vote_effect_ok env clock); eauto.
Qed.

(** C24: No vote instruction panics: the assertions on the authorized voters hold,
    and no index is out of range. *)
Theorem vote_never_panics :
  VoteProgram.process_instruction new_rand env deserialize first d kas l <> Panic.
Proof. by apply (process_vote_instruction_np new_rand env clock). Qed.

End Instructions.

(** ** Checking a vote *)

(** C27: A vote passes [check_slots_are_valid] only if the slots the tower does not
    have are slots of the history in order, at least one, and the vote's hash is
    the bank's hash of the last of them.  A vote with increasing slots passes
    whenever this holds. *)
Theorem check_slots_exact s vote hashes :
  (check_slots_are_valid s vote hashes = Ok tt -> on_history s vote hashes) /\
  (StronglySorted Z.lt (vote_slots vote) -> NoDup hashes.*1 ->
   on_history s vote hashes -> check_slots_are_valid s vote hashes = Ok tt).
Proof. split; [apply check_slots_sound|apply check_slots_complete]. Qed.

(** The loop that matches the slots of a vote with the history ends by its own
    condition within as many turns as there are slots and hashes, and more fuel
    changes nothing. *)
Lemma match_slots_terminates voted slots hashes fuel :
  (length slots + length hashes <= fuel)%nat ->
  match_slots fuel voted slots hashes 0 (length hashes)
  = match_slots (length slots + length hashes) voted slots hashes 0 (length hashes) /\
  let '(i, j) := match_slots fuel voted slots hashes 0 (length hashes) in
  (length slots <= i \/ j = 0)%nat.
Proof.
  intros Hf. split; [apply match_slots_fuel; lia|]. apply match_slots_exits; lia.
Qed.

(** ** Towers *)

(** Voting and replacing the tower agree: the tower that one more vote gives is
    an acceptable replacement of a well-formed tower, and replacing it gives the
    state that the vote gives, root and credits included. *)
Theorem voted_tower_accepted n epoch s :
  slot_ok n -> vote_inv s -> newer s n ->
  let s' := process_next_vote_slot n epoch s in
  vote_inv s' /\
  process_new_vote_state s (votes s') (root_slot s') None epoch = Ok s'.
Proof.
  intros Hn Hinv Hnew. split; [by apply process_next_vote_slot_inv|by apply voted_replaces].
Qed.

(** C26: A tower that replaces another is a tower again, of at most 31 votes with 1
    to 31 confirmations; it does not roll the root back; and every vote its root
    does not cover is kept, with no fewer confirmations, or was no longer locked
    out at the first newer vote of the new tower. *)
Theorem replacement_tower_sound s new_state new_root timestamp epoch s' :
  chain (votes s) -> Forall (fun v => 0 <= confirmation_count v) new_state ->
  process_new_vote_state s new_state new_root timestamp epoch = Ok s' ->
  votes s' = new_state /\ root_slot s' = new_root /\ chain new_state /\
  (length new_state <= MAX_LOCKOUT_HISTORY)%nat /\
  Forall (fun v => count_ok (confirmation_count v)) new_state /\
  (forall r, root_slot s = Some r -> exists r', new_root = Some r' /\ r <= r') /\
  (forall c, c ∈ votes s -> (forall r, new_root = Some r -> r < lo_slot c) ->
     kept_or_expired new_state c).
Proof.
  intros Hcur Hpos Hrun.
  destruct (replace_sound s new_state new_root epoch Hcur Hpos timestamp s' Hrun) as (Hac & Hv & Hr).
  pose proof Hac as [Hlen _ Hroot Hvs Hch _]. split_and!; try done.
  - eapply Forall_impl; [exact Hvs|]. by intros v [? _].
  - intros c Hc Hcov. by eapply acceptable_keeps.
Qed.

(** ** Authorized voters *)

(** A change of the authorized voter takes effect at the epoch after the last
    one with a leader schedule: until then the voter of every epoch from the
    current one on stays, from then on it is the new key.  The old voter is
    recorded as a prior voter up to that epoch, and a second change in the same
    epoch is refused, whoever asks. *)
Theorem authorized_voter_schedule s k clock verify s' :
  clock_ok clock -> voters_upto (authorized_voters s) (target_epoch clock) ->
  prior_ok (prior_voters s) ->
  set_new_authorized_voter s k (clock_epoch clock) (target_epoch clock) verify = Ok s' ->
  (forall e, clock_epoch clock <= e < target_epoch clock ->
     voters_get (authorized_voters s') e = voters_get (authorized_voters s) e) /\
  (forall e, target_epoch clock <= e -> voters_get (authorized_voters s') e = Some k) /\
  (forall old, voters_get (authorized_voters s) (target_epoch clock) = Some old -> old <> k ->
     exists from, circbuf_last (prior_voters s') = Some (old, from, target_epoch clock)) /\
  (forall k' verify', (forall v, verify' v = Ok tt) ->
     set_new_authorized_voter s' k' (clock_epoch clock) (target_epoch clock) verify'
     = Err (vote_err TooSoonToReauthorize)).
Proof.
  intros Hc Hup Hprior Hset. pose proof Hc as [Ho _ Hb].
  assert (target_epoch clock <= u64_max) as Ht by (unfold target_epoch; lia).
  assert (0 <= clock_epoch clock < target_epoch clock) as Hcur by (unfold target_epoch; lia).
  rewrite set_new_authorized_voter_eq in Hset by done.
  destruct (voters_get (authorized_voters s) (clock_epoch clock)) as [voter|] eqn:Hv; [|done].
  apply bind_Ok in Hset as (_ & _ & Hset).
  destruct (authorized_voters s !! target_epoch clock) as [?|] eqn:Hnone; [done|].
  injection Hset as <-. cbn [authorized_voters prior_voters set_prior_voters set_authorized_voters].
  set (m := purged (authorized_voters s) (clock_epoch clock) voter).
  assert (forall j k', m !! j = Some k' -> j < target_epoch clock) as Hlt.
  { intros j k' Hj. pose proof (purged_upto _ (clock_epoch clock) voter _ Hup ltac:(lia) j k' Hj).
    enough (j <> target_epoch clock) by lia. intros ->. unfold m in Hj. rewrite purged_lookup in Hj.
    repeat case_decide; [done|lia|congruence]. }
  split_and!.
  - intros e He. rewrite insert_latest_get by done. rewrite decide_False by lia.
    by apply purged_get; [|lia].
  - intros e He. rewrite insert_latest_get by done. by rewrite decide_True.
  - intros old Hold Hne. rewrite Hold. cbn [default]. destruct Hprior as (Hl & _ & _).
    unfold switch_prior. rewrite bool_decide_false by done. unfold circbuf_last, circbuf_append.
    cbn [cb_is_empty cb_buf cb_idx]. eexists. apply list_lookup_insert_eq. rewrite Hl.
    by apply Nat.mod_upper_bound.
  - intros k' verify' Hver. rewrite set_new_authorized_voter_eq; [|..]; try done.
    + cbn [authorized_voters set_prior_voters set_authorized_voters].
      rewrite insert_latest_get by done. rewrite decide_False by lia.
      unfold m. rewrite purged_get by (done || lia). rewrite Hv, Hver. cbn.
      by rewrite lookup_insert_eq.
    + cbn. intros j k'' [[<- _]|[_ Hj]]%lookup_insert_Some; [lia|].
      apply (purged_upto _ (clock_epoch clock) voter _ Hup) in Hj; lia.
Qed.

(** ** Witnesses *)

Section Witnesses.
Import VoteExample.

Abbreviation run_vote :=
  (VoteProgram.process_instruction new_rand env (deserialize (VoteIx cast)) 0 [] vote_keys ledger0).

Lemma cast_typed i : deserialize (VoteIx cast) [] = Some i -> vote_instr_ok i.
Proof.
  intros [= <-]. split; [|done]. unfold cast, in_u64, u64_max. repeat (constructor; [lia|]).
  constructor.
Qed.


Lemma vote_accounts_well_formed_witness :
  exists u l', run_vote = Ok (u, l') /\ votes_ok clock l'.
Proof.
  destruct (is_Ok_ex run_vote) as [[u l'] Hrun]; [by vm_compute|].
  exists u, l'. split; [exact Hrun|].
  exact (vote_accounts_well_formed new_rand env (deserialize (VoteIx cast)) 0 [] vote_keys ledger0
    clock env_is_ok votes_are_ok u l' cast_typed Hrun).
Defined.

Lemma vote_never_panics_witness : run_vote <> Panic.
Proof.
  exact (vote_never_panics new_rand env (deserialize (VoteIx cast)) 0 [] vote_keys ledger0
    clock env_is_ok votes_are_ok).
Defined.

Lemma cast_on_history : on_history state cast history.
Proof.
  split.
  - change ([36; 38] `sublist_of` [35; 36; 38; 39]).
    by apply sublist_cons, sublist_skip, sublist_skip, sublist_nil_l.
  - exists 38. split; [by vm_compute|]. apply (bool_decide_eq_true_1 _). by vm_compute.
Qed.

Lemma cast_ready : vote_ready new_rand env clock vote_keys 0 ledger0 (ka false vote_key) state cast.
Proof.
  split.
  - done.
  - by vm_compute.
  - rewrite size_of_max. apply Nat.leb_le. by vm_compute.
  - by vm_compute.
  - exists (ka false slot_hashes_sysvar_id), history. split_and!; try done.
    + apply (bool_decide_eq_true_1 _). by vm_compute.
    + apply cast_on_history.
  - by exists (ka false clock_sysvar_id).
  - exists voter. split; [by vm_compute|]. apply (bool_decide_eq_true_1 _). by vm_compute.
  - split_and!; [apply (cast_typed (VoteIx cast) eq_refl)| |done].
    repeat constructor.
Qed.


Lemma check_slots_exact_witness : check_slots_are_valid state cast history = Ok tt.
Proof.
  apply (proj2 (check_slots_exact state cast history)).
  - apply cast_ready.
  - apply (bool_decide_eq_true_1 _). by vm_compute.
  - apply cast_on_history.
Defined.

Lemma match_slots_terminates_witness :
  match_slots 100 (Some 35) [36; 38] history 0 4 = match_slots 6 (Some 35) [36; 38] history 0 4.
Proof.
  exact (proj1 (match_slots_terminates (Some 35) [36; 38] history 100 ltac:(cbn; lia))).
Defined.

(** A full tower: the next vote roots the oldest one. *)
Definition full_tower : VoteState :=
  foldl (fun s slot => process_next_vote_slot slot 1 s) state (seqZ 1 31).

Lemma full_tower_inv : vote_inv full_tower.
Proof.
  apply process_slots_inv.
  - apply Forall_forall. intros x Hx%elem_of_seqZ. unfold slot_ok. lia.
  - apply (vote_state_new_ok init clock); [cbn; lia|apply clock_is_ok].
Qed.

Lemma voted_tower_accepted_witness :
  length (votes full_tower) = 31%nat /\
  let s' := process_next_vote_slot 32 1 full_tower in
  root_slot s' = Some 1 /\
  process_new_vote_state full_tower (votes s') (root_slot s') None 1 = Ok s'.
Proof.
  split; [by vm_compute|]. split; [by vm_compute|].
  apply (voted_tower_accepted 32 1 full_tower).
  - unfold slot_ok. lia.
  - apply full_tower_inv.
  - intros l Hl. assert (last_voted_slot full_tower = Some 31) as E by (by vm_compute).
    rewrite E in Hl. injection Hl as <-. lia.
Defined.

(** A tower that drops all votes but one, once they have expired. *)
Definition new_tower : list Lockout := [mkLockout 5 31; mkLockout (2 ^ 30) 1].

Lemma replacement_tower_sound_witness :
  exists s', process_new_vote_state full_tower new_tower (Some 4) None 1 = Ok s' /\
    votes s' = new_tower /\ root_slot s' = Some 4 /\ chain new_tower.
Proof.
  destruct (is_Ok_ex (process_new_vote_state full_tower new_tower (Some 4) None 1)) as [s' Hrun];
    [by vm_compute|].
  exists s'. split; [exact Hrun|].
  destruct (replacement_tower_sound full_tower new_tower (Some 4) None 1 s') as (Hv & Hr & Hc & _);
    [apply full_tower_inv| |exact Hrun|by split_and!].
  unfold new_tower. repeat (constructor; [cbn; lia|]). constructor.
Defined.

(** The voter of the example is replaced from epoch 3 on. *)
Lemma authorized_voter_schedule_witness :
  exists s', set_new_authorized_voter state node 1 3 (fun _ => Ok tt) = Ok s' /\
    voters_get (authorized_voters s') 2 = Some voter /\
    voters_get (authorized_voters s') 3 = Some node.
Proof.
  destruct (is_Ok_ex (set_new_authorized_voter state node 1 3 (fun _ => Ok tt))) as [s' Hrun];
    [by vm_compute|].
  exists s'. split; [exact Hrun|].
  destruct (authorized_voter_schedule state node clock (fun _ => Ok tt) s') as (Hbefore & Hafter & _).
  - apply clock_is_ok.
  - apply (vote_state_new_ok init clock); [cbn; lia|apply clock_is_ok].
  - apply default_prior_ok.
  - exact Hrun.
  - split; [rewrite (Hbefore 2) by (by vm_compute); by vm_compute|apply Hafter; by vm_compute].
Defined.

End Witnesses.
