(* ===== verification/BinarySearch.v ===== *)
(** * Binary search

    [slice::binary_search_by] of the standard library of Rust, and lists of numbered
    entries with the newest first, on which the stake history and the slot hashes use it. *)

From Stdlib Require Import ZArith Lia.
From stdpp Require Import prelude gmap numbers sorting list.
From S2P Require Import Prelude.

(** [slice::binary_search_by]: the index of a match, or where it would be inserted. *)
Section BinarySearch.
Context {A : Type} (f : A -> comparison) (l : list A).

Fixpoint search_loop (fuel left right : nat) : nat + nat :=
  match fuel with
  | O => inr left
  | S fuel =>
      if (right <=? left)%nat then inr left
      else
        let mid := (left + (right - left) / 2)%nat in
        match l !! mid with
        | None => inr left
        | Some x =>
            match f x with
            | Lt => search_loop fuel (mid + 1) right
            | Gt => search_loop fuel left mid
            | Eq => inl mid
            end
        end
  end.
Definition binary_search_by : nat + nat := search_loop (S (length l)) 0 (length l).
End BinarySearch.

Section Search.
Context {A : Type} (f : A -> comparison) (l : list A).

(** Smaller elements first, then a match, then greater ones *)
Definition ordered_by : Prop :=
  forall i j x y, (i <= j)%nat -> l !! i = Some x -> l !! j = Some y ->
    (f x = Gt -> f y = Gt) /\ (f y = Lt -> f x = Lt).

Definition search_result (r : nat + nat) : Prop :=
  match r with
  | inl i => exists x, l !! i = Some x /\ f x = Eq
  | inr k => (k <= length l)%nat /\
      (forall i x, (i < k)%nat -> l !! i = Some x -> f x = Lt) /\
      (forall i x, (k <= i)%nat -> l !! i = Some x -> f x = Gt)
  end.

Lemma search_loop_result fuel left right :
  ordered_by -> (left <= right <= length l)%nat -> (right - left < fuel)%nat ->
  (forall i x, (i < left)%nat -> l !! i = Some x -> f x = Lt) ->
  (forall i x, (right <= i)%nat -> l !! i = Some x -> f x = Gt) ->
  search_result (search_loop f l fuel left right).
Proof.
  intros Ho. revert left right. induction fuel as [|fuel IH]; intros left right Hlr Hfuel Hl Hr; [lia|].
  cbn [search_loop]. destruct (Nat.leb_spec right left) as [Hle|Hlt].
  { cbn. split_and!; [lia|done|]. intros i x Hi. apply Hr. lia. }
  set (mid := (left + (right - left) / 2)%nat).
  assert (left <= mid < right)%nat as Hmid.
  { pose proof (Nat.div_lt (right - left) 2 ltac:(lia) ltac:(lia)). unfold mid. lia. }
  destruct (lookup_lt_is_Some_2 l mid ltac:(lia)) as [x Hx]. rewrite Hx.
  destruct (f x) eqn:Hf.
  - cbn. eauto.
  - apply IH; [lia|lia| |done]. intros i y Hi Hy.
    apply (Ho i mid y x ltac:(lia) Hy Hx). done.
  - apply IH; [lia|lia|done|]. intros i y Hi Hy.
    apply (Ho mid i x y ltac:(lia) Hx Hy). done.
Qed.

Lemma binary_search_result : ordered_by -> search_result (binary_search_by f l).
Proof.
  intros Ho. apply search_loop_result; [done|lia|lia|lia|].
  intros i x Hi Hx. apply lookup_lt_Some in Hx. lia.
Qed.

(** A match is one whether or not the list is in order. *)
Lemma search_loop_match fuel left right i :
  search_loop f l fuel left right = inl i -> exists x, l !! i = Some x /\ f x = Eq.
Proof.
  revert left right. induction fuel as [|fuel IH]; intros left right; [done|].
  cbn [search_loop]. destruct (right <=? left)%nat; [done|].
  set (mid := (left + (right - left) / 2)%nat). destruct (l !! mid) as [x|] eqn:Hx; [|done].
  destruct (f x) eqn:Hf; eauto. intros [= <-]. eauto.
Qed.
End Search.

(** ** Lists with the newest entry first *)

Section Newest.
Context {A : Type}.
Implicit Types (h : list (Z * A)).

(** Newest first, each number once *)
Definition newest_first (h : list (Z * A)) : Prop :=
  StronglySorted (fun a b => b.1 < a.1) h.

Lemma newest_first_lookup h i j a b :
  newest_first h -> (i < j)%nat -> h !! i = Some a -> h !! j = Some b -> b.1 < a.1.
Proof.
  intros Hs. revert i j. induction Hs as [|x h Hs IH Hx]; intros i j Hij Hi Hj; [done|].
  destruct j as [|j]; [lia|]. destruct i as [|i]; cbn in *; [|by eapply (IH i j); [lia|..]].
  injection Hi as <-. by apply (proj1 (Forall_lookup _ _) Hx j).
Qed.

Lemma newest_first_ordered n h :
  newest_first h -> ordered_by (fun probe => Z.compare n probe.1) h.
Proof.
  intros Hs i j x y Hij Hi Hj. destruct (decide (i = j)) as [->|]; [naive_solver|].
  pose proof (newest_first_lookup h i j x y Hs ltac:(lia) Hi Hj).
  rewrite !Z.compare_gt_iff, !Z.compare_lt_iff. lia.
Qed.

Lemma newest_first_nodup h : newest_first h -> NoDup h.*1.
Proof.
  induction 1 as [|x h Hs IH Hx]; cbn; [constructor|]. constructor; [|done].
  rewrite list_elem_of_fmap. intros (y & Hy & Hin).
  apply (proj1 (Forall_forall _ _) Hx) in Hin. lia.
Qed.

Definition newest_search (n : Z) (h : list (Z * A)) : nat + nat :=
  binary_search_by (fun probe => Z.compare n probe.1) h.

(** Where a number that is not in the list would go *)
Lemma newest_search_gap h x k :
  newest_first h -> newest_search x h = inr k ->
  (k <= length h)%nat /\ Forall (fun a => x < a.1) (take k h) /\
  Forall (fun a => a.1 < x) (drop k h).
Proof.
  intros Hs Hk. pose proof (binary_search_result _ _ (newest_first_ordered x h Hs)) as Hr.
  unfold newest_search in Hk. rewrite Hk in Hr. destruct Hr as (Hlen & Hlt & Hgt).
  split_and!; [done| |]; apply Forall_lookup; intros i a Hi.
  - apply lookup_take_Some in Hi as [Hi Hik]. apply Z.compare_lt_iff. by eapply Hlt.
  - rewrite lookup_drop in Hi. apply Z.compare_gt_iff. eapply Hgt; [|done]. lia.
Qed.

Lemma newest_first_app h1 h2 :
  newest_first (h1 ++ h2) <->
  (forall a b, a ∈ h1 -> b ∈ h2 -> b.1 < a.1) /\ newest_first h1 /\ newest_first h2.
Proof. apply StronglySorted_app. Qed.

Lemma newest_first_cons a h :
  newest_first (a :: h) <-> Forall (fun b => b.1 < a.1) h /\ newest_first h.
Proof.
  split; [intros H; apply StronglySorted_inv in H; naive_solver|]. intros []. by constructor.
Qed.
End Newest.
