(* ===== verification/StakeState.v ===== *)
(** * Stakes and their history

    The data of stake accounts and the pure operations on it
    (sdk/program/src/stake/state.rs), the history of the cluster's stake
    (sdk/program/src/stake_history.rs), the configuration of staking
    (sdk/program/src/stake/config.rs), and points and rewards
    (programs/stake/src/stake_state.rs).  Rates are IEEE binary64 numbers. *)

From Stdlib Require Import ZArith Lia SpecFloat.
From Stdlib Require Import Strings.Byte.
From stdpp Require Import prelude gmap numbers list.
From S2P Require Import Prelude Sdk Runtime SystemInstruction SystemProgram VoteState BinarySearch.

Definition f64_div : spec_float -> spec_float -> spec_float := SFdiv 53 1024.
Definition f64_sub : spec_float -> spec_float -> spec_float := SFsub 53 1024.
(** [f64::EPSILON] *)
Definition f64_epsilon : spec_float := S754_finite false 4503599627370496 (-104).

(** ** Errors *)

Inductive StakeError : Type :=
| NoCreditsToRedeem | LockupInForce | AlreadyDeactivated | TooSoonToRedelegate
| InsufficientStake | MergeTransientStake | MergeMismatch | CustodianMissing
| CustodianSignatureMissing.

Definition stake_error_code (e : StakeError) : Z :=
  match e with
  | NoCreditsToRedeem => 0 | LockupInForce => 1 | AlreadyDeactivated => 2
  | TooSoonToRedelegate => 3 | InsufficientStake => 4 | MergeTransientStake => 5
  | MergeMismatch => 6 | CustodianMissing => 7 | CustodianSignatureMissing => 8
  end.
Definition stake_err (e : StakeError) : InstructionError := Custom (stake_error_code e).

(** A [StakeError] returned where an [InstructionError] is expected. *)
Definition stake_result {A} (o : outcome StakeError A) : outcome InstructionError A :=
  map_err stake_err o.

(** [instruction::checked_add] *)
Definition ix_checked_add (a b : Z) : outcome InstructionError Z :=
  ok_or (checked_add a b) InsufficientFunds.

(** ** The history of the cluster's stake *)

Definition MAX_ENTRIES : nat := 512.

Record StakeHistoryEntry : Type := mkHistoryEntry {
  he_effective : Z;
  he_activating : Z;
  he_deactivating : Z;
}.

Definition entry_default : StakeHistoryEntry := mkHistoryEntry 0 0 0.
Definition with_effective (effective : Z) : StakeHistoryEntry := mkHistoryEntry effective 0 0.
Definition with_effective_and_activating (effective activating : Z) : StakeHistoryEntry :=
  mkHistoryEntry effective activating 0.
Definition with_deactivating (deactivating : Z) : StakeHistoryEntry :=
  mkHistoryEntry deactivating 0 deactivating.

Definition entry_add (a b : StakeHistoryEntry) : StakeHistoryEntry :=
  mkHistoryEntry (saturating_add (he_effective a) (he_effective b))
    (saturating_add (he_activating a) (he_activating b))
    (saturating_add (he_deactivating a) (he_deactivating b)).

(** Newest epoch first *)
Abbreviation StakeHistory := (list (Z * StakeHistoryEntry)).

Definition history_search (epoch : Z) (h : StakeHistory) : nat + nat :=
  binary_search_by (fun probe => Z.compare epoch probe.1) h.

Definition history_get (h : StakeHistory) (epoch : Z) : option StakeHistoryEntry :=
  match history_search epoch h with
  | inl index => snd <$> h !! index
  | inr _ => None
  end.

Definition history_add (h : StakeHistory) (epoch : Z) (entry : StakeHistoryEntry) : StakeHistory :=
  take MAX_ENTRIES
    match history_search epoch h with
    | inl index => <[index := (epoch, entry)]> h
    | inr index => take index h ++ (epoch, entry) :: drop index h
    end.

(** ** The configuration of staking *)

Record Config : Type := mkConfig {
  config_warmup_cooldown_rate : spec_float;
  slash_penalty : Z;
}.
(** 0.25 *)
Definition DEFAULT_WARMUP_COOLDOWN_RATE : spec_float :=
  S754_finite false 4503599627370496 (-54).
Definition DEFAULT_SLASH_PENALTY : Z := 5 * 255 / 100.
Definition config_default : Config := mkConfig DEFAULT_WARMUP_COOLDOWN_RATE DEFAULT_SLASH_PENALTY.

(** ** Lockups *)

Record Lockup : Type := mkLockup {
  lockup_unix_timestamp : Z;
  lockup_epoch : Z;
  lockup_custodian : Pubkey;
}.
#[global] Instance Lockup_eq_dec : EqDecision Lockup.
Proof. solve_decision. Defined.

Definition lockup_default : Lockup := mkLockup 0 0 pk_default.

Definition is_in_force (l : Lockup) (clock : Clock) (custodian : option Pubkey) : bool :=
  if bool_decide (custodian = Some (lockup_custodian l)) then false
  else (clock_unix_timestamp clock <? lockup_unix_timestamp l)
       || (clock_epoch clock <? lockup_epoch l).

Record LockupArgs : Type := mkLockupArgs {
  la_unix_timestamp : option Z;
  la_epoch : option Z;
  la_custodian : option Pubkey;
}.
Record LockupCheckedArgs : Type := mkLockupCheckedArgs {
  lca_unix_timestamp : option Z;
  lca_epoch : option Z;
}.

(** ** Authorities *)

Inductive StakeAuthorize : Type := Staker | Withdrawer.

Record Authorized : Type := mkAuthorized {
  staker : Pubkey;
  withdrawer : Pubkey;
}.
#[global] Instance Authorized_eq_dec : EqDecision Authorized.
Proof. solve_decision. Defined.

Definition authorized_auto (k : Pubkey) : Authorized := mkAuthorized k k.

Definition authorized_check (a : Authorized) (signers : gset Pubkey) (what : StakeAuthorize)
    : outcome InstructionError unit :=
  match what with
  | Staker => if bool_decide (staker a ∈ signers) then Ok tt else Err MissingRequiredSignature
  | Withdrawer =>
      if bool_decide (withdrawer a ∈ signers) then Ok tt else Err MissingRequiredSignature
  end.

(** The custodian must approve a change of the withdrawer while a lockup is in force. *)
Definition check_custodian (args : option (Lockup * Clock * option Pubkey))
    (signers : gset Pubkey) : outcome InstructionError unit :=
  match args with
  | Some (lockup, clock, custodian) =>
      if is_in_force lockup clock None then
        match custodian with
        | None => Err (stake_err CustodianMissing)
        | Some custodian =>
            _ ← fail_if (negb (bool_decide (custodian ∈ signers)))
                  (stake_err CustodianSignatureMissing);
            fail_if (is_in_force lockup clock (Some custodian)) (stake_err LockupInForce)
        end
      else Ok tt
  | None => Ok tt
  end.

Definition authorized_authorize (a : Authorized) (signers : gset Pubkey) (new_authorized : Pubkey)
    (what : StakeAuthorize) (lockup_custodian_args : option (Lockup * Clock * option Pubkey))
    : outcome InstructionError Authorized :=
  match what with
  | Staker =>
      _ ← fail_if (negb (bool_decide (staker a ∈ signers))
                   && negb (bool_decide (withdrawer a ∈ signers))) MissingRequiredSignature;
      Ok (mkAuthorized new_authorized (withdrawer a))
  | Withdrawer =>
      _ ← check_custodian lockup_custodian_args signers;
      _ ← authorized_check a signers what;
      Ok (mkAuthorized (staker a) new_authorized)
  end.

Record Meta : Type := mkStakeMeta {
  rent_exempt_reserve : Z;
  authorized : Authorized;
  lockup : Lockup;
}.
Definition set_reserve (r : Z) (m : Meta) : Meta := mkStakeMeta r (authorized m) (lockup m).
Definition set_authorized (a : Authorized) (m : Meta) : Meta :=
  mkStakeMeta (rent_exempt_reserve m) a (lockup m).
Definition set_meta_lockup (l : Lockup) (m : Meta) : Meta :=
  mkStakeMeta (rent_exempt_reserve m) (authorized m) l.
Definition meta_auto (k : Pubkey) : Meta := mkStakeMeta 0 (authorized_auto k) lockup_default.

Definition meta_set_lockup (m : Meta) (args : LockupArgs) (signers : gset Pubkey)
    (clock : option Clock) : outcome InstructionError Meta :=
  _ ← match clock with
      | None =>
          fail_if (negb (bool_decide (lockup_custodian (lockup m) ∈ signers)))
            MissingRequiredSignature
      | Some clock =>
          if is_in_force (lockup m) clock None then
            fail_if (negb (bool_decide (lockup_custodian (lockup m) ∈ signers)))
              MissingRequiredSignature
          else
            fail_if (negb (bool_decide (withdrawer (authorized m) ∈ signers)))
              MissingRequiredSignature
      end;
  Ok (set_meta_lockup
        (mkLockup (default (lockup_unix_timestamp (lockup m)) (la_unix_timestamp args))
           (default (lockup_epoch (lockup m)) (la_epoch args))
           (default (lockup_custodian (lockup m)) (la_custodian args))) m).

Definition rewrite_rent_exempt_reserve (m : Meta) (rent : Rent) (data_len : nat)
    : Meta * option (Z * Z) :=
  let corrected := minimum_balance rent data_len in
  if negb (corrected =? rent_exempt_reserve m)
  then (set_reserve corrected m, Some (rent_exempt_reserve m, corrected))
  else (m, None).

(** ** Delegations *)

Record Delegation : Type := mkDelegation {
  voter_pubkey : Pubkey;
  d_stake : Z;
  activation_epoch : Z;
  deactivation_epoch : Z;
  warmup_cooldown_rate : spec_float;
}.
Definition set_d_stake (x : Z) (d : Delegation) : Delegation :=
  mkDelegation (voter_pubkey d) x (activation_epoch d) (deactivation_epoch d)
    (warmup_cooldown_rate d).
Definition set_deactivation_epoch (e : Z) (d : Delegation) : Delegation :=
  mkDelegation (voter_pubkey d) (d_stake d) (activation_epoch d) e (warmup_cooldown_rate d).

Definition delegation_new (voter : Pubkey) (stake activation_epoch : Z) (rate : spec_float)
    : Delegation :=
  mkDelegation voter stake activation_epoch u64_max rate.
Definition is_bootstrap (d : Delegation) : bool := activation_epoch d =? u64_max.

(** What one account gets of the stake that the cluster moves in an epoch: its share of
    what moves, rounded down, but at least one lamport. *)
Definition epoch_portion (mine moving effective : Z) (rate : spec_float) : Z :=
  let weight := f64_div (f64_of_u64 mine) (f64_of_u64 moving) in
  let newly := f64_mul (f64_of_u64 effective) rate in
  Z.max (f64_to_u64 (f64_mul weight newly)) 1.

Section Activation.
Context (d : Delegation) (history : StakeHistory) (target_epoch : Z).

(** The loop of [stake_and_activating].  Every turn but the first finds a later epoch
    in the history.  [current_epoch] does not overflow, it is at most [target_epoch]. *)
Fixpoint activation_loop (fuel : nat) (prev_epoch : Z) (prev_cluster_stake : StakeHistoryEntry)
    (current_effective_stake : Z) : Z :=
  match fuel with
  | O => current_effective_stake
  | S fuel =>
      let current_epoch := prev_epoch + 1 in
      if he_activating prev_cluster_stake =? 0 then current_effective_stake
      else
        let remaining_activating_stake := d_stake d - current_effective_stake in
        let newly_effective_stake :=
          epoch_portion remaining_activating_stake (he_activating prev_cluster_stake)
            (he_effective prev_cluster_stake) (warmup_cooldown_rate d) in
        let current_effective_stake := wrap64 (current_effective_stake + newly_effective_stake) in
        if d_stake d <=? current_effective_stake then d_stake d
        else if (target_epoch <=? current_epoch) || (deactivation_epoch d <=? current_epoch)
        then current_effective_stake
        else
          match history_get history current_epoch with
          | Some current_cluster_stake =>
              activation_loop fuel current_epoch current_cluster_stake current_effective_stake
          | None => current_effective_stake
          end
  end.

(** The loop of [stake_activating_and_deactivating] *)
Fixpoint deactivation_loop (fuel : nat) (prev_epoch : Z) (prev_cluster_stake : StakeHistoryEntry)
    (current_effective_stake : Z) : Z :=
  match fuel with
  | O => current_effective_stake
  | S fuel =>
      let current_epoch := prev_epoch + 1 in
      if he_deactivating prev_cluster_stake =? 0 then current_effective_stake
      else
        let newly_not_effective_stake :=
          epoch_portion current_effective_stake (he_deactivating prev_cluster_stake)
            (he_effective prev_cluster_stake) (warmup_cooldown_rate d) in
        let current_effective_stake :=
          saturating_sub current_effective_stake newly_not_effective_stake in
        if current_effective_stake =? 0 then current_effective_stake
        else if target_epoch <=? current_epoch then current_effective_stake
        else
          match history_get history current_epoch with
          | Some current_cluster_stake =>
              deactivation_loop fuel current_epoch current_cluster_stake current_effective_stake
          | None => current_effective_stake
          end
  end.
End Activation.

(** The effective and the activating stake *)
Definition stake_and_activating (d : Delegation) (target_epoch : Z) (history : option StakeHistory)
    : Z * Z :=
  let delegated_stake := d_stake d in
  if is_bootstrap d then (delegated_stake, 0)
  else if activation_epoch d =? deactivation_epoch d then (0, 0)
  else if target_epoch =? activation_epoch d then (0, delegated_stake)
  else if target_epoch <? activation_epoch d then (0, 0)
  else
    match h ← history; e ← history_get h (activation_epoch d); Some (h, e) with
    | Some (h, cluster_stake) =>
        let effective :=
          activation_loop d h target_epoch (S (length h)) (activation_epoch d) cluster_stake 0 in
        (effective, delegated_stake - effective)
    | None => (delegated_stake, 0)
    end.

Definition stake_activating_and_deactivating (d : Delegation) (target_epoch : Z)
    (history : option StakeHistory) : StakeHistoryEntry :=
  let '(effective_stake, activating_stake) := stake_and_activating d target_epoch history in
  if target_epoch <? deactivation_epoch d then
    if activating_stake =? 0 then with_effective effective_stake
    else with_effective_and_activating effective_stake activating_stake
  else if target_epoch =? deactivation_epoch d then with_deactivating effective_stake
  else
    match h ← history; e ← history_get h (deactivation_epoch d); Some (h, e) with
    | Some (h, cluster_stake) =>
        with_deactivating
          (deactivation_loop d h target_epoch (S (length h)) (deactivation_epoch d) cluster_stake
             effective_stake)
    | None => entry_default
    end.

Definition delegation_stake (d : Delegation) (epoch : Z) (history : option StakeHistory) : Z :=
  he_effective (stake_activating_and_deactivating d epoch history).

(** [new_stake_history_entry] *)
Definition new_stake_history_entry (epoch : Z) (stakes : list Delegation)
    (history : option StakeHistory) : StakeHistoryEntry :=
  foldl (fun sum d => entry_add sum (stake_activating_and_deactivating d epoch history))
    entry_default stakes.

(** ** Stakes *)

Record Stake : Type := mkStake {
  delegation : Delegation;
  credits_observed : Z;
}.
Definition set_delegation (d : Delegation) (s : Stake) : Stake := mkStake d (credits_observed s).
Definition set_credits_observed (c : Z) (s : Stake) : Stake := mkStake (delegation s) c.
Definition set_stake_amount (x : Z) (s : Stake) : Stake :=
  set_delegation (set_d_stake x (delegation s)) s.

(** The stake that is left, and the new one *)
Definition stake_split (s : Stake) (remaining_stake_delta split_stake_amount : Z)
    : outcome StakeError (Stake * Stake) :=
  _ ← fail_if (d_stake (delegation s) <? remaining_stake_delta) InsufficientStake;
  Ok (set_stake_amount (d_stake (delegation s) - remaining_stake_delta) s,
      set_stake_amount split_stake_amount s).

Definition stake_deactivate (s : Stake) (epoch : Z) : outcome StakeError Stake :=
  if negb (deactivation_epoch (delegation s) =? u64_max) then Err AlreadyDeactivated
  else Ok (set_delegation (set_deactivation_epoch epoch (delegation s)) s).

Inductive StakeState : Type :=
| Uninitialized
| Initialized (m : Meta)
| Delegated (m : Meta) (s : Stake)
| RewardsPool.

(** [mem::size_of::<StakeState>()] *)
Definition STAKE_STATE_SIZE : nat := 200.

Definition get_rent_exempt_reserve (rent : Rent) : Z := minimum_balance rent STAKE_STATE_SIZE.

Definition state_stake (s : StakeState) : option Stake :=
  match s with Delegated _ stake => Some stake | _ => None end.
Definition state_delegation (s : StakeState) : option Delegation :=
  match s with Delegated _ stake => Some (delegation stake) | _ => None end.
Definition state_authorized (s : StakeState) : option Authorized :=
  match s with
  | Delegated meta _ | Initialized meta => Some (authorized meta)
  | _ => None
  end.
Definition state_meta (s : StakeState) : option Meta :=
  match s with Delegated meta _ | Initialized meta => Some meta | _ => None end.
Definition state_lockup (s : StakeState) : option Lockup := lockup <$> state_meta s.
