(* ===== verification/StakeRewards.v ===== *)
(** * Points and rewards of stakes (programs/stake/src/stake_state.rs)

    A stake earns points for the credits of its vote account since it last observed
    them; a round of rewards is split over the points.  Tracing is left out. *)

From Stdlib Require Import ZArith Lia SpecFloat.
From Stdlib Require Import Strings.Byte.
From stdpp Require Import prelude gmap numbers list.
From S2P Require Import Prelude Sdk Runtime SystemInstruction SystemProgram VoteState StakeState.

Definition wrap128 (x : Z) : Z := x mod (u128_max + 1).

(** Lamports to split, and the points to split them over *)
Record PointValue : Type := mkPointValue {
  pv_rewards : Z;
  pv_points : Z;
}.

(** One turn of the loop over the credits of the epochs *)
Definition earn_credits (s : Stake) (history : option StakeHistory)
    (acc : Z * Z) (entry : Z * Z * Z) : Z * Z :=
  let '(points, new_credits_observed) := acc in
  let '(epoch, final_epoch_credits, initial_epoch_credits) := entry in
  let credits_in_stake := credits_observed s in
  let stake_amount := delegation_stake (delegation s) epoch history in
  let earned_credits :=
    if credits_in_stake <? initial_epoch_credits
    then wrap64 (final_epoch_credits - initial_epoch_credits)
    else if credits_in_stake <? final_epoch_credits
    then wrap64 (final_epoch_credits - new_credits_observed)
    else 0 in
  let new_credits_observed := Z.max new_credits_observed final_epoch_credits in
  let earned_points := stake_amount * earned_credits in
  (wrap128 (points + earned_points), new_credits_observed).

Definition calculate_stake_points_and_credits (s : Stake) (new_vote_state : VoteState)
    (history : option StakeHistory) : Z * Z :=
  let credits_in_stake := credits_observed s in
  let credits_in_vote := credits new_vote_state in
  if credits_in_vote <=? credits_in_stake then (0, credits_in_stake)
  else foldl (earn_credits s history) (0, credits_in_stake) (epoch_credits new_vote_state).

Definition calculate_stake_points (s : Stake) (vote_state : VoteState)
    (history : option StakeHistory) : Z :=
  fst (calculate_stake_points_and_credits s vote_state history).

(** [None] when nothing is paid; the panics are those of [unwrap]. *)
Definition calculate_stake_rewards {E} (rewarded_epoch : Z) (s : Stake) (point_value : PointValue)
    (vote_state : VoteState) (history : option StakeHistory) : outcome E (option (Z * Z * Z)) :=
  let '(points, credits_observed) := calculate_stake_points_and_credits s vote_state history in
  let forced_credits_update_with_skipped_reward :=
    (pv_rewards point_value =? 0) || (activation_epoch (delegation s) =? rewarded_epoch) in
  if forced_credits_update_with_skipped_reward then Ok (Some (0, 0, credits_observed))
  else if points =? 0 then Ok None
  else if pv_points point_value =? 0 then Ok None
  else if u128_max <? points * pv_rewards point_value then Panic
  else
    let rewards := points * pv_rewards point_value / pv_points point_value in
    if u64_max <? rewards then Panic
    else if rewards =? 0 then Ok None
    else
      let '(voter_rewards, staker_rewards, is_split) := commission_split vote_state rewards in
      if ((voter_rewards =? 0) || (staker_rewards =? 0)) && is_split then Ok None
      else Ok (Some (staker_rewards, voter_rewards, credits_observed)).

Definition redeem_stake_rewards {E} (rewarded_epoch : Z) (s : Stake) (point_value : PointValue)
    (vote_state : VoteState) (history : option StakeHistory)
    : outcome E (option (Stake * Z * Z)) :=
  r ← calculate_stake_rewards rewarded_epoch s point_value vote_state history;
  Ok match r with
     | Some (stakers_reward, voters_reward, credits_observed) =>
         Some (set_credits_observed credits_observed
                 (set_stake_amount (wrap64 (d_stake (delegation s) + stakers_reward)) s),
               stakers_reward, voters_reward)
     | None => None
     end.

Section Account.
Context `{Bincode StakeState}.

(** The new account, and what the stakers and the voters get *)
Definition redeem_rewards (rewarded_epoch : Z) (stake_state : StakeState)
    (stake_account : AccountSharedData) (vote_state : VoteState) (point_value : PointValue)
    (history : option StakeHistory) : outcome InstructionError (AccountSharedData * Z * Z) :=
  match stake_state with
  | Delegated meta stake =>
      r ← redeem_stake_rewards rewarded_epoch stake point_value vote_state history;
      match r with
      | Some (stake, stakers_reward, voters_reward) =>
          a ← System.checked_add_lamports stakers_reward stake_account;
          a ← account_set_state (Delegated meta stake) a;
          Ok (a, stakers_reward, voters_reward)
      | None => Err (stake_err NoCreditsToRedeem)
      end
  | _ => Err InvalidAccountData
  end.

Definition calculate_points (stake_state : StakeState) (vote_state : VoteState)
    (history : option StakeHistory) : outcome InstructionError Z :=
  match stake_state with
  | Delegated _ stake => Ok (calculate_stake_points stake vote_state history)
  | _ => Err InvalidAccountData
  end.
End Account.
