(* ===== verification/StakeProgram.v ===== *)
(** * The stake program

    The operations on stake accounts (programs/stake/src/stake_state.rs), the dispatch of
    stake instructions (programs/stake/src/stake_instruction.rs), the configuration
    account (programs/stake/src/config.rs) and the builders of instructions
    (sdk/program/src/stake/instruction.rs).  Bincode is a parameter. *)

From Stdlib Require Import ZArith Lia SpecFloat.
From Stdlib Require Import Strings.Byte.
From stdpp Require Import prelude gmap numbers list.
From S2P Require Import Prelude Sdk Runtime SystemInstruction SystemProgram Codec ShortVec ConfigProgram VoteState VoteProgram StakeState StakeRewards.

Definition stake_program_id : Pubkey :=
  pk_of_Z 0x06a1d8179137542a983437bdfe2a7ab2557f535c8a78722b68a49dc000000000.
Definition stake_config_id : Pubkey :=
  pk_of_Z 0x06a1d817a502050b680791e6ce6db88e1e5b7150f61fc6790a4eb4d100000000.
Definition stake_history_sysvar_id : Pubkey :=
  pk_of_Z 0x06a7d517193584d0feed9bb3431d13206be544281b57b8566cc5375ff4000000.

(** ** Instructions *)

Record AuthorizeWithSeedArgs : Type := mkAuthorizeWithSeedArgs {
  aws_new_authorized_pubkey : Pubkey;
  aws_stake_authorize : StakeAuthorize;
  aws_authority_seed : bytes;
  aws_authority_owner : Pubkey;
}.
Record AuthorizeCheckedWithSeedArgs : Type := mkAuthorizeCheckedWithSeedArgs {
  acws_stake_authorize : StakeAuthorize;
  acws_authority_seed : bytes;
  acws_authority_owner : Pubkey;
}.

Inductive StakeInstruction : Type :=
| StakeInitialize (a : Authorized) (l : Lockup)
| StakeAuthorizeIx (k : Pubkey) (what : StakeAuthorize)
| DelegateStake
| Split (x : Z)
| StakeWithdraw (x : Z)
| Deactivate
| SetLockup (args : LockupArgs)
| Merge
| AuthorizeWithSeed (args : AuthorizeWithSeedArgs)
| InitializeChecked
| StakeAuthorizeChecked (what : StakeAuthorize)
| AuthorizeCheckedWithSeed (args : AuthorizeCheckedWithSeedArgs)
| SetLockupChecked (args : LockupCheckedArgs).

(** What the program reads of the invoke context *)
Record StakeEnv : Type := mkStakeEnv {
  stake_cache_clock : option Clock;
  stake_program_v4 : bool;
  stake_merge_with_unmatched_credits_observed : bool;
}.

(** ** Kinds of stakes that merge *)

Inductive MergeKind : Type :=
| Inactive (m : Meta) (x : Z)
| ActivationEpoch (m : Meta) (s : Stake)
| FullyActive (m : Meta) (s : Stake).

Definition merge_meta (k : MergeKind) : Meta :=
  match k with Inactive m _ | ActivationEpoch m _ | FullyActive m _ => m end.
Definition active_stake (k : MergeKind) : option Stake :=
  match k with Inactive _ _ => None | ActivationEpoch _ s | FullyActive _ s => Some s end.

Definition metas_can_merge (stake source : Meta) (clock : option Clock)
    : outcome InstructionError unit :=
  let can_merge_lockups :=
    match clock with
    | None => bool_decide (lockup stake = lockup source)
    | Some clock =>
        bool_decide (lockup stake = lockup source)
        || (negb (is_in_force (lockup stake) clock None)
            && negb (is_in_force (lockup source) clock None))
    end in
  if bool_decide (authorized stake = authorized source) && can_merge_lockups then Ok tt
  else Err (stake_err MergeMismatch).

Definition active_delegations_can_merge (stake source : Delegation)
    : outcome InstructionError unit :=
  if negb (bool_decide (voter_pubkey stake = voter_pubkey source))
  then Err (stake_err MergeMismatch)
  else if SFltb (SFabs (f64_sub (warmup_cooldown_rate stake) (warmup_cooldown_rate source)))
            f64_epsilon
          && (deactivation_epoch stake =? u64_max) && (deactivation_epoch source =? u64_max)
  then Ok tt
  else Err (stake_err MergeMismatch).

Definition active_stakes_can_merge (stake source : Stake) : outcome InstructionError unit :=
  _ ← active_delegations_can_merge (delegation stake) (delegation source);
  if credits_observed stake =? credits_observed source then Ok tt
  else Err (stake_err MergeMismatch).

(** The average of the observed credits, weighted by stake and rounded up *)
Definition stake_weighted_credits_observed (s : Stake) (absorbed_lamports absorbed_credits : Z)
    : option Z :=
  if credits_observed s =? absorbed_credits then Some (credits_observed s)
  else
    total_stake ← checked_add (d_stake (delegation s)) absorbed_lamports;
    let stake_weighted_credits := credits_observed s * d_stake (delegation s) in
    let absorbed_weighted_credits := absorbed_credits * absorbed_lamports in
    let sum := stake_weighted_credits + absorbed_weighted_credits in
    if (u128_max <? stake_weighted_credits) || (u128_max <? absorbed_weighted_credits)
       || (u128_max <? sum) || (u128_max <? sum + total_stake) || (sum + total_stake <? 1)
       || (total_stake =? 0)
    then None
    else
      let average := (sum + total_stake - 1) / total_stake in
      if u64_max <? average then None else Some average.

Definition merge_delegation_stake_and_credits_observed (env : StakeEnv) (s : Stake)
    (absorbed_lamports absorbed_credits : Z) : outcome InstructionError Stake :=
  s ← (if stake_merge_with_unmatched_credits_observed env then
         c ← ok_or (stake_weighted_credits_observed s absorbed_lamports absorbed_credits)
               ArithmeticOverflow;
         Ok (set_credits_observed c s)
       else Ok s);
  x ← ix_checked_add (d_stake (delegation s)) absorbed_lamports;
  Ok (set_stake_amount x s).

(** [MergeKind::merge]: the new state of the destination, if it changes *)
Definition merge_kinds (env : StakeEnv) (self source : MergeKind) (clock : option Clock)
    : outcome InstructionError (option StakeState) :=
  _ ← metas_can_merge (merge_meta self) (merge_meta source) clock;
  _ ← match active_stake self, active_stake source with
      | Some stake, Some source =>
          if stake_merge_with_unmatched_credits_observed env
          then active_delegations_can_merge (delegation stake) (delegation source)
          else active_stakes_can_merge stake source
      | _, _ => Ok tt
      end;
  match self, source with
  | Inactive _ _, Inactive _ _ => Ok None
  | Inactive _ _, ActivationEpoch _ _ => Ok None
  | ActivationEpoch meta stake, Inactive _ source_lamports =>
      x ← ix_checked_add (d_stake (delegation stake)) source_lamports;
      Ok (Some (Delegated meta (set_stake_amount x stake)))
  | ActivationEpoch meta stake, ActivationEpoch source_meta source_stake =>
      source_lamports ← ix_checked_add (rent_exempt_reserve source_meta)
                          (d_stake (delegation source_stake));
      stake ← merge_delegation_stake_and_credits_observed env stake source_lamports
                (credits_observed source_stake);
      Ok (Some (Delegated meta stake))
  | FullyActive meta stake, FullyActive _ source_stake =>
      stake ← merge_delegation_stake_and_credits_observed env stake
                (d_stake (delegation source_stake)) (credits_observed source_stake);
      Ok (Some (Delegated meta stake))
  | _, _ => Err (stake_err MergeMismatch)
  end.

(** ** Delegating *)

Definition redelegate (s : Stake) (stake_lamports : Z) (voter : Pubkey) (vote_state : VoteState)
    (clock : Clock) (history : StakeHistory) (config : Config) (can_reverse_deactivation : bool)
    : outcome StakeError Stake :=
  if negb (delegation_stake (delegation s) (clock_epoch clock) (Some history) =? 0) then
    if bool_decide (voter_pubkey (delegation s) = voter)
       && (clock_epoch clock =? deactivation_epoch (delegation s)) && can_reverse_deactivation
    then Ok (set_delegation (set_deactivation_epoch u64_max (delegation s)) s)
    else Err TooSoonToRedelegate
  else
    Ok (mkStake (mkDelegation voter stake_lamports (clock_epoch clock) u64_max
                   (config_warmup_cooldown_rate config)) (credits vote_state)).

Definition new_stake (stake : Z) (voter : Pubkey) (vote_state : VoteState) (activation_epoch : Z)
    (config : Config) : Stake :=
  mkStake (delegation_new voter stake activation_epoch (config_warmup_cooldown_rate config))
    (credits vote_state).

(** The rent of a split account, from that of its source *)
Definition calculate_split_rent_exempt_reserve (source_reserve source_len split_len : Z) : Z :=
  let lamports_per_byte_year := source_reserve / wrap64 (source_len + ACCOUNT_STORAGE_OVERHEAD) in
  wrap64 (lamports_per_byte_year * wrap64 (split_len + ACCOUNT_STORAGE_OVERHEAD)).

Module StakeProgram.
Section StakeProgram.
Context (hashv : list bytes -> Hash).
Context `{Bincode StakeState, Bincode VoteStateVersions, Bincode Clock, Bincode Rent}.
Context `{Bincode StakeHistory, Bincode Config}.
Context (env : StakeEnv).

(** [config::from] and [config::from_keyed_account] *)
Definition config_from (a : AccountSharedData) : outcome InstructionError Config :=
  match get_config_data (data a) with
  | Ok d => ok_or (bincode_decode d) InvalidArgument
  | Err _ => Err InvalidArgument
  | Panic => Panic
  end.
Definition config_from_keyed_account (ka : KeyedAccount) : prog Config :=
  _ ← lift (fail_if (negb (bool_decide (unsigned_key ka = stake_config_id))) InvalidArgument);
  a ← account_ref ka;
  lift (config_from a).

(** [stake_state::from] and its relatives *)
Definition stake_state_from (a : AccountSharedData) : option StakeState := bincode_decode (data a).
Definition stake_from (a : AccountSharedData) : option Stake := stake_state_from a ≫= state_stake.
Definition delegation_from (a : AccountSharedData) : option Delegation :=
  stake_state_from a ≫= state_delegation.
Definition authorized_from (a : AccountSharedData) : option Authorized :=
  stake_state_from a ≫= state_authorized.
Definition lockup_from (a : AccountSharedData) : option Lockup :=
  stake_state_from a ≫= state_lockup.
Definition meta_from (a : AccountSharedData) : option Meta := stake_state_from a ≫= state_meta.

(** ** Operations on a stake account *)

Definition initialize (me : KeyedAccount) (authorized : Authorized) (lockup : Lockup) (rent : Rent)
    : prog unit :=
  len ← ka_data_len me;
  _ ← lift (fail_if (negb (len =? STAKE_STATE_SIZE)%nat) InvalidAccountData);
  s ← ka_state me;
  match s with
  | Uninitialized =>
      len ← ka_data_len me;
      let reserve := minimum_balance rent len in
      balance ← ka_lamports me;
      if reserve <? balance then
        ka_set_state me (Initialized (mkStakeMeta reserve authorized lockup))
      else throw InsufficientFunds
  | _ => throw InvalidAccountData
  end.

Definition authorize (me : KeyedAccount) (signers : gset Pubkey) (new_authority : Pubkey)
    (what : StakeAuthorize) (require_custodian : bool) (clock : Clock) (custodian : option Pubkey)
    : prog unit :=
  let args (meta : Meta) :=
    if require_custodian then Some (lockup meta, clock, custodian) else None in
  s ← ka_state me;
  match s with
  | Delegated meta stake =>
      a ← lift (authorized_authorize (authorized meta) signers new_authority what (args meta));
      ka_set_state me (Delegated (set_authorized a meta) stake)
  | Initialized meta =>
      a ← lift (authorized_authorize (authorized meta) signers new_authority what (args meta));
      ka_set_state me (Initialized (set_authorized a meta))
  | _ => throw InvalidAccountData
  end.

(** The key derived from the base, if the base signed *)
Definition seed_signers (authority_base : KeyedAccount) (seed : bytes) (seed_owner : Pubkey)
    : outcome InstructionError (gset Pubkey) :=
  match signer_key authority_base with
  | Some base => k ← create_with_seed hashv base seed seed_owner; Ok {[k]}
  | None => Ok ∅
  end.

Definition authorize_with_seed (me authority_base : KeyedAccount) (seed : bytes)
    (seed_owner new_authority : Pubkey) (what : StakeAuthorize) (require_custodian : bool)
    (clock : Clock) (custodian : option Pubkey) : prog unit :=
  signers ← lift (seed_signers authority_base seed seed_owner);
  authorize me signers new_authority what require_custodian clock custodian.

(** The state of the vote account that is delegated to *)
Definition vote_state_of (vote_account : KeyedAccount) : prog VoteState :=
  v ← ka_state (T:=VoteStateVersions) vote_account; mret (convert_to_current v).

Definition delegate (me vote_account : KeyedAccount) (clock : Clock) (history : StakeHistory)
    (config : Config) (signers : gset Pubkey) (can_reverse_deactivation : bool) : prog unit :=
  own ← ka_owner vote_account;
  _ ← lift (fail_if (negb (bool_decide (own = vote_program_id))) IncorrectProgramId);
  s ← ka_state me;
  match s with
  | Initialized meta =>
      _ ← lift (authorized_check (authorized meta) signers Staker);
      balance ← ka_lamports me;
      vote_state ← vote_state_of vote_account;
      let stake := new_stake (saturating_sub balance (rent_exempt_reserve meta))
                     (unsigned_key vote_account) vote_state (clock_epoch clock) config in
      ka_set_state me (Delegated meta stake)
  | Delegated meta stake =>
      _ ← lift (authorized_check (authorized meta) signers Staker);
      balance ← ka_lamports me;
      vote_state ← vote_state_of vote_account;
      stake ← lift (stake_result (redelegate stake
                (saturating_sub balance (rent_exempt_reserve meta)) (unsigned_key vote_account)
                vote_state clock history config can_reverse_deactivation));
      ka_set_state me (Delegated meta stake)
  | _ => throw InvalidAccountData
  end.

Definition deactivate (me : KeyedAccount) (clock : Clock) (signers : gset Pubkey) : prog unit :=
  s ← ka_state me;
  match s with
  | Delegated meta stake =>
      _ ← lift (authorized_check (authorized meta) signers Staker);
      stake ← lift (stake_result (stake_deactivate stake (clock_epoch clock)));
      ka_set_state me (Delegated meta stake)
  | _ => throw InvalidAccountData
  end.

Definition set_lockup (me : KeyedAccount) (args : LockupArgs) (signers : gset Pubkey)
    (clock : option Clock) : prog unit :=
  s ← ka_state me;
  match s with
  | Initialized meta =>
      meta ← lift (meta_set_lockup meta args signers clock);
      ka_set_state me (Initialized meta)
  | Delegated meta stake =>
      meta ← lift (meta_set_lockup meta args signers clock);
      ka_set_state me (Delegated meta stake)
  | _ => throw InvalidAccountData
  end.

(** Whether the lamports of a split cover the rent of the new account and leave more
    than the rent behind; the balance is read again where the source does it. *)
Definition check_split (me split : KeyedAccount) (x : Z) (meta : Meta) (split_reserve : Z)
    : prog unit :=
  split_balance ← ka_lamports split;
  balance ← ka_lamports me;
  if x <=? saturating_sub split_reserve split_balance then throw InsufficientFunds
  else if negb (x =? balance) then
    sum ← lift (ix_checked_add x (rent_exempt_reserve meta));
    lift (fail_if (balance <=? sum) InsufficientFunds)
  else mret tt.

(** The change of the states of both accounts *)
Definition split_states (me split : KeyedAccount) (x : Z) (signers : gset Pubkey) : prog unit :=
  s ← ka_state me;
  match s with
  | Delegated meta stake =>
      _ ← lift (authorized_check (authorized meta) signers Staker);
      len ← ka_data_len me;
      split_len ← ka_data_len split;
      let split_reserve := calculate_split_rent_exempt_reserve (rent_exempt_reserve meta)
                             (Z.of_nat len) (Z.of_nat split_len) in
      _ ← check_split me split x meta split_reserve;
      balance ← ka_lamports me;
      split_balance ← ka_lamports split;
      let '(remaining_stake_delta, split_stake_amount) :=
        if x =? balance then
          let delta := saturating_sub x (rent_exempt_reserve meta) in (delta, delta)
        else (x, wrap64 (x - saturating_sub split_reserve split_balance)) in
      '(stake, split_stake) ←
        lift (stake_result (stake_split stake remaining_stake_delta split_stake_amount));
      _ ← ka_set_state me (Delegated meta stake);
      ka_set_state split (Delegated (set_reserve split_reserve meta) split_stake)
  | Initialized meta =>
      _ ← lift (authorized_check (authorized meta) signers Staker);
      len ← ka_data_len me;
      split_len ← ka_data_len split;
      let split_reserve := calculate_split_rent_exempt_reserve (rent_exempt_reserve meta)
                             (Z.of_nat len) (Z.of_nat split_len) in
      _ ← check_split me split x meta split_reserve;
      ka_set_state split (Initialized (set_reserve split_reserve meta))
  | Uninitialized =>
      lift (fail_if (negb (bool_decide (unsigned_key me ∈ signers))) MissingRequiredSignature)
  | RewardsPool => throw InvalidAccountData
  end.

Definition split (me split : KeyedAccount) (x : Z) (signers : gset Pubkey) : prog unit :=
  own ← ka_owner split;
  _ ← lift (fail_if (negb (bool_decide (own = stake_program_id))) IncorrectProgramId);
  len ← ka_data_len split;
  _ ← lift (fail_if (negb (len =? STAKE_STATE_SIZE)%nat) InvalidAccountData);
  s ← ka_state split;
  match s with
  | Uninitialized =>
      balance ← ka_lamports me;
      _ ← lift (fail_if (balance <? x) InsufficientFunds);
      _ ← split_states me split x signers;
      balance ← ka_lamports me;
      _ ← (if x =? balance then ka_set_state me Uninitialized else mret tt);
      _ ← update_account [] split (System.checked_add_lamports x);
      update_account [] me (System.checked_sub_lamports x)
  | _ => throw InvalidAccountData
  end.

Definition get_if_mergeable (ka : KeyedAccount) (clock : Clock) (history : StakeHistory)
    : prog MergeKind :=
  s ← ka_state ka;
  match s with
  | Delegated meta stake =>
      let status := stake_activating_and_deactivating (delegation stake) (clock_epoch clock)
                      (Some history) in
      if he_effective status =? 0 then
        if (he_activating status =? 0) && (he_deactivating status =? 0) then
          balance ← ka_lamports ka; mret (Inactive meta balance)
        else mret (ActivationEpoch meta stake)
      else if (he_activating status =? 0) && (he_deactivating status =? 0) then
        mret (FullyActive meta stake)
      else throw (stake_err MergeTransientStake)
  | Initialized meta => balance ← ka_lamports ka; mret (Inactive meta balance)
  | _ => throw InvalidAccountData
  end.

Definition merge (me source : KeyedAccount) (clock : Clock) (history : StakeHistory)
    (signers : gset Pubkey) (can_merge_expired_lockups : bool) : prog unit :=
  own ← ka_owner source;
  _ ← lift (fail_if (negb (bool_decide (own = stake_program_id))) IncorrectProgramId);
  _ ← lift (fail_if (bool_decide (unsigned_key source = unsigned_key me)) InvalidArgument);
  kind ← get_if_mergeable me clock history;
  _ ← lift (authorized_check (authorized (merge_meta kind)) signers Staker);
  source_kind ← get_if_mergeable source clock history;
  let clock := if can_merge_expired_lockups then Some clock else None in
  merged ← lift (merge_kinds env kind source_kind clock);
  _ ← match merged with
      | Some state => ka_set_state me state
      | None => mret tt
      end;
  _ ← ka_set_state source Uninitialized;
  x ← ka_lamports source;
  _ ← update_account [] source (System.checked_sub_lamports x);
  update_account [] me (System.checked_add_lamports x).

(** The lockup, the lamports that must stay, and whether some are staked *)
Definition withdraw_limits (me : KeyedAccount) (clock : Clock) (history : StakeHistory)
    (signers : gset Pubkey) (prevent_withdraw_to_zero : bool) : prog (Lockup * Z * bool) :=
  s ← ka_state me;
  match s with
  | Delegated meta stake =>
      _ ← lift (authorized_check (authorized meta) signers Withdrawer);
      let staked :=
        if deactivation_epoch (delegation stake) <=? clock_epoch clock
        then delegation_stake (delegation stake) (clock_epoch clock) (Some history)
        else d_stake (delegation stake) in
      staked_and_reserve ← lift (ix_checked_add staked (rent_exempt_reserve meta));
      mret (lockup meta, staked_and_reserve, negb (staked =? 0))
  | Initialized meta =>
      _ ← lift (authorized_check (authorized meta) signers Withdrawer);
      reserve ← (if prevent_withdraw_to_zero
                 then lift (ix_checked_add (rent_exempt_reserve meta) 1)
                 else mret (rent_exempt_reserve meta));
      mret (lockup meta, reserve, false)
  | Uninitialized =>
      _ ← lift (fail_if (negb (bool_decide (unsigned_key me ∈ signers))) MissingRequiredSignature);
      mret (lockup_default, 0, false)
  | RewardsPool => throw InvalidAccountData
  end.

Definition withdraw (me to : KeyedAccount) (x : Z) (clock : Clock) (history : StakeHistory)
    (withdraw_authority : KeyedAccount) (custodian : option KeyedAccount)
    (prevent_withdraw_to_zero : bool) : prog unit :=
  k ← lift (ok_or (signer_key withdraw_authority) MissingRequiredSignature);
  limits ← withdraw_limits me clock history {[k]} prevent_withdraw_to_zero;
  let '(lockup, reserve, is_staked) := limits : Lockup * Z * bool in
  let custodian_pubkey := custodian ≫= signer_key in
  _ ← lift (fail_if (is_in_force lockup clock custodian_pubkey) (stake_err LockupInForce));
  lamports_and_reserve ← lift (ix_checked_add x reserve);
  balance ← ka_lamports me;
  _ ← lift (fail_if (is_staked && (balance <? lamports_and_reserve)) InsufficientFunds);
  _ ← lift (if negb (x =? balance) && (balance <? lamports_and_reserve)
            then if is_staked then Panic else Err InsufficientFunds
            else Ok tt);
  _ ← (if x =? balance then ka_set_state me Uninitialized else mret tt);
  _ ← update_account [] me (System.checked_sub_lamports x);
  update_account [] to (System.checked_add_lamports x).

(** ** Dispatch *)

Definition stake_get_clock : outcome InstructionError Clock :=
  ok_or (stake_cache_clock env) UnsupportedSysvar.

(** The key of an account that need not be there *)
Definition key_at_index (kas : list KeyedAccount) (i : nat) : option Pubkey :=
  unsigned_key <$> kas !! i.

Definition execute (kas : list KeyedAccount) (first : nat) (me : KeyedAccount)
    (signers : gset Pubkey) (i : StakeInstruction) : prog unit :=
  match i with
  | StakeInitialize authorized lockup =>
      rent_account ← keyed_account_at_index kas (first + 1);
      rent ← from_keyed_account rent_sysvar_id rent_account;
      initialize me authorized lockup rent
  | StakeAuthorizeIx k what =>
      clock_account ← keyed_account_at_index kas (first + 1);
      clock ← from_keyed_account clock_sysvar_id clock_account;
      _ ← keyed_account_at_index kas (first + 2);
      authorize me signers k what true clock (key_at_index kas (first + 3))
  | AuthorizeWithSeed args =>
      authority_base ← keyed_account_at_index kas (first + 1);
      clock_account ← keyed_account_at_index kas (first + 2);
      clock ← from_keyed_account clock_sysvar_id clock_account;
      authorize_with_seed me authority_base (aws_authority_seed args) (aws_authority_owner args)
        (aws_new_authorized_pubkey args) (aws_stake_authorize args) true clock
        (key_at_index kas (first + 3))
  | DelegateStake =>
      vote ← keyed_account_at_index kas (first + 1);
      clock_account ← keyed_account_at_index kas (first + 2);
      clock ← from_keyed_account clock_sysvar_id clock_account;
      history_account ← keyed_account_at_index kas (first + 3);
      history ← from_keyed_account stake_history_sysvar_id history_account;
      config_account ← keyed_account_at_index kas (first + 4);
      config ← config_from_keyed_account config_account;
      delegate me vote clock history config signers (stake_program_v4 env)
  | Split x =>
      split_stake ← keyed_account_at_index kas (first + 1);
      split me split_stake x signers
  | Merge =>
      source_stake ← keyed_account_at_index kas (first + 1);
      clock_account ← keyed_account_at_index kas (first + 2);
      clock ← from_keyed_account clock_sysvar_id clock_account;
      history_account ← keyed_account_at_index kas (first + 3);
      history ← from_keyed_account stake_history_sysvar_id history_account;
      merge me source_stake clock history signers (stake_program_v4 env)
  | StakeWithdraw x =>
      to ← keyed_account_at_index kas (first + 1);
      clock_account ← keyed_account_at_index kas (first + 2);
      clock ← from_keyed_account clock_sysvar_id clock_account;
      history_account ← keyed_account_at_index kas (first + 3);
      history ← from_keyed_account stake_history_sysvar_id history_account;
      withdraw_authority ← keyed_account_at_index kas (first + 4);
      withdraw me to x clock history withdraw_authority (kas !! (first + 5)%nat)
        (stake_program_v4 env)
  | Deactivate =>
      clock_account ← keyed_account_at_index kas (first + 1);
      clock ← from_keyed_account clock_sysvar_id clock_account;
      deactivate me clock signers
  | SetLockup args =>
      clock ← (if stake_program_v4 env then lift (c ← stake_get_clock; Ok (Some c)) else mret None);
      set_lockup me args signers clock
  | InitializeChecked =>
      staker_account ← keyed_account_at_index kas (first + 2);
      withdrawer_account ← keyed_account_at_index kas (first + 3);
      withdrawer ← lift (ok_or (signer_key withdrawer_account) MissingRequiredSignature);
      rent_account ← keyed_account_at_index kas (first + 1);
      rent ← from_keyed_account rent_sysvar_id rent_account;
      initialize me (mkAuthorized (unsigned_key staker_account) withdrawer) lockup_default rent
  | StakeAuthorizeChecked what =>
      clock_account ← keyed_account_at_index kas (first + 1);
      clock ← from_keyed_account clock_sysvar_id clock_account;
      _ ← keyed_account_at_index kas (first + 2);
      new_account ← keyed_account_at_index kas (first + 3);
      k ← lift (ok_or (signer_key new_account) MissingRequiredSignature);
      authorize me signers k what true clock (key_at_index kas (first + 4))
  | AuthorizeCheckedWithSeed args =>
      authority_base ← keyed_account_at_index kas (first + 1);
      clock_account ← keyed_account_at_index kas (first + 2);
      clock ← from_keyed_account clock_sysvar_id clock_account;
      new_account ← keyed_account_at_index kas (first + 3);
      k ← lift (ok_or (signer_key new_account) MissingRequiredSignature);
      authorize_with_seed me authority_base (acws_authority_seed args) (acws_authority_owner args)
        k (acws_stake_authorize args) true clock (key_at_index kas (first + 4))
  | SetLockupChecked args =>
      custodian ← lift match kas !! (first + 2)%nat with
                       | Some ka => k ← ok_or (signer_key ka) MissingRequiredSignature; Ok (Some k)
                       | None => Ok None
                       end;
      clock ← lift stake_get_clock;
      set_lockup me (mkLockupArgs (lca_unix_timestamp args) (lca_epoch args) custodian) signers
        (Some clock)
  end.

Definition process_instruction (deserialize : bytes -> option StakeInstruction)
    (first : nat) (d : bytes) (kas : list KeyedAccount) : prog unit :=
  me ← keyed_account_at_index kas first;
  own ← ka_owner me;
  _ ← lift (fail_if (negb (bool_decide (own = stake_program_id))) InvalidAccountOwner);
  i ← lift (ok_or (deserialize d) InvalidInstructionData);
  execute kas first me (get_signers (drop first kas)) i.
End StakeProgram.

(** ** Accounts made outside of instructions *)

Section Accounts.
Context `{Bincode StakeState, Bincode VoteStateVersions}.

(** [expect] panics when the state does not fit. *)
Definition account_with_state (x : Z) (s : StakeState) : outcome InstructionError AccountSharedData :=
  match account_set_state s (mkAccount x (replicate STAKE_STATE_SIZE x00) stake_program_id false 0)
  with Ok a => Ok a | _ => Panic end.

Definition create_lockup_stake_account (authorized : Authorized) (lockup : Lockup) (rent : Rent)
    (x : Z) : outcome InstructionError AccountSharedData :=
  let reserve := minimum_balance rent STAKE_STATE_SIZE in
  if x <? reserve then Panic
  else account_with_state x (Initialized (mkStakeMeta reserve authorized lockup)).

Definition do_create_account (authorized voter : Pubkey) (vote_account : AccountSharedData)
    (rent : Rent) (x activation_epoch : Z) : outcome InstructionError AccountSharedData :=
  match bincode_decode (T:=VoteStateVersions) (data vote_account) with
  | None => Panic
  | Some v =>
      let reserve := minimum_balance rent STAKE_STATE_SIZE in
      account_with_state x
        (Delegated (set_reserve reserve (meta_auto authorized))
           (new_stake (wrap64 (x - reserve)) voter (convert_to_current v) activation_epoch
              config_default))
  end.
Definition create_account (authorized voter : Pubkey) (vote_account : AccountSharedData)
    (rent : Rent) (x : Z) : outcome InstructionError AccountSharedData :=
  do_create_account authorized voter vote_account rent x u64_max.
Definition create_account_with_activation_epoch (authorized voter : Pubkey)
    (vote_account : AccountSharedData) (rent : Rent) (x activation_epoch : Z)
    : outcome InstructionError AccountSharedData :=
  do_create_account authorized voter vote_account rent x activation_epoch.
End Accounts.

(** ** Building instructions *)

Section Builders.
Context (serialize : StakeInstruction -> bytes) (serialize_system : SystemInstruction -> bytes).

Definition stake_ix (i : StakeInstruction) (metas : list AccountMeta) : Instruction :=
  mkInstruction stake_program_id metas (serialize i).
(** [if let Some(k) = custodian { account_metas.push(..) }] *)
Definition signer_meta (k : option Pubkey) : list AccountMeta :=
  match k with Some k => [meta_new_readonly k true] | None => [] end.

Definition ix_initialize (stake : Pubkey) (authorized : Authorized) (lockup : Lockup)
    : Instruction :=
  stake_ix (StakeInitialize authorized lockup)
    [meta_new stake false; meta_new_readonly rent_sysvar_id false].

Definition ix_initialize_checked (stake : Pubkey) (authorized : Authorized) : Instruction :=
  stake_ix InitializeChecked
    [meta_new stake false; meta_new_readonly rent_sysvar_id false;
     meta_new_readonly (staker authorized) false; meta_new_readonly (withdrawer authorized) true].

Definition stake_size : Z := Z.of_nat STAKE_STATE_SIZE.

Definition ix_create_account_with_seed (from stake base : Pubkey) (seed : bytes)
    (authorized : Authorized) (lockup : Lockup) (x : Z) : list Instruction :=
  [SystemInstruction.ix_create_account_with_seed serialize_system from stake base seed x stake_size
     stake_program_id;
   ix_initialize stake authorized lockup].

Definition ix_create_account (from stake : Pubkey) (authorized : Authorized) (lockup : Lockup)
    (x : Z) : list Instruction :=
  [SystemInstruction.ix_create_account serialize_system from stake x stake_size stake_program_id;
   ix_initialize stake authorized lockup].

Definition ix_create_account_with_seed_checked (from stake base : Pubkey) (seed : bytes)
    (authorized : Authorized) (x : Z) : list Instruction :=
  [SystemInstruction.ix_create_account_with_seed serialize_system from stake base seed x stake_size
     stake_program_id;
   ix_initialize_checked stake authorized].

Definition ix_create_account_checked (from stake : Pubkey) (authorized : Authorized) (x : Z)
    : list Instruction :=
  [SystemInstruction.ix_create_account serialize_system from stake x stake_size stake_program_id;
   ix_initialize_checked stake authorized].

Definition ix_split_one (stake authorized : Pubkey) (x : Z) (split : Pubkey) : Instruction :=
  stake_ix (Split x)
    [meta_new stake false; meta_new split false; meta_new_readonly authorized true].

Definition ix_split (stake authorized : Pubkey) (x : Z) (split : Pubkey) : list Instruction :=
  [ix_allocate serialize_system split stake_size; ix_assign serialize_system split stake_program_id;
   ix_split_one stake authorized x split].

Definition ix_split_with_seed (stake authorized : Pubkey) (x : Z) (split base : Pubkey)
    (seed : bytes) : list Instruction :=
  [ix_allocate_with_seed serialize_system split base seed stake_size stake_program_id;
   ix_split_one stake authorized x split].

Definition ix_merge (destination source authorized : Pubkey) : list Instruction :=
  [stake_ix Merge
     [meta_new destination false; meta_new source false; meta_new_readonly clock_sysvar_id false;
      meta_new_readonly stake_history_sysvar_id false; meta_new_readonly authorized true]].

Definition ix_delegate_stake (stake authorized vote : Pubkey) : Instruction :=
  stake_ix DelegateStake
    [meta_new stake false; meta_new_readonly vote false; meta_new_readonly clock_sysvar_id false;
     meta_new_readonly stake_history_sysvar_id false; meta_new_readonly stake_config_id false;
     meta_new_readonly authorized true].

Definition ix_create_account_and_delegate_stake (from stake vote : Pubkey)
    (authorized : Authorized) (lockup : Lockup) (x : Z) : list Instruction :=
  ix_create_account from stake authorized lockup x
    ++ [ix_delegate_stake stake (staker authorized) vote].

Definition ix_create_account_with_seed_and_delegate_stake (from stake base : Pubkey) (seed : bytes)
    (vote : Pubkey) (authorized : Authorized) (lockup : Lockup) (x : Z) : list Instruction :=
  ix_create_account_with_seed from stake base seed authorized lockup x
    ++ [ix_delegate_stake stake (staker authorized) vote].

Definition ix_stake_authorize (stake authorized new_authorized : Pubkey) (what : StakeAuthorize)
    (custodian : option Pubkey) : Instruction :=
  stake_ix (StakeAuthorizeIx new_authorized what)
    ([meta_new stake false; meta_new_readonly clock_sysvar_id false;
      meta_new_readonly authorized true] ++ signer_meta custodian).

Definition ix_stake_authorize_checked (stake authorized new_authorized : Pubkey)
    (what : StakeAuthorize) (custodian : option Pubkey) : Instruction :=
  stake_ix (StakeAuthorizeChecked what)
    ([meta_new stake false; meta_new_readonly clock_sysvar_id false;
      meta_new_readonly authorized true; meta_new_readonly new_authorized true]
     ++ signer_meta custodian).

Definition ix_authorize_with_seed (stake base : Pubkey) (seed : bytes)
    (seed_owner new_authorized : Pubkey) (what : StakeAuthorize) (custodian : option Pubkey)
    : Instruction :=
  stake_ix (AuthorizeWithSeed (mkAuthorizeWithSeedArgs new_authorized what seed seed_owner))
    ([meta_new stake false; meta_new_readonly base true; meta_new_readonly clock_sysvar_id false]
     ++ signer_meta custodian).

Definition ix_authorize_checked_with_seed (stake base : Pubkey) (seed : bytes)
    (seed_owner new_authorized : Pubkey) (what : StakeAuthorize) (custodian : option Pubkey)
    : Instruction :=
  stake_ix (AuthorizeCheckedWithSeed (mkAuthorizeCheckedWithSeedArgs what seed seed_owner))
    ([meta_new stake false; meta_new_readonly base true; meta_new_readonly clock_sysvar_id false;
      meta_new_readonly new_authorized true] ++ signer_meta custodian).

Definition ix_stake_withdraw (stake withdrawer to : Pubkey) (x : Z) (custodian : option Pubkey)
    : Instruction :=
  stake_ix (StakeWithdraw x)
    ([meta_new stake false; meta_new to false; meta_new_readonly clock_sysvar_id false;
      meta_new_readonly stake_history_sysvar_id false; meta_new_readonly withdrawer true]
     ++ signer_meta custodian).

Definition ix_deactivate_stake (stake authorized : Pubkey) : Instruction :=
  stake_ix Deactivate
    [meta_new stake false; meta_new_readonly clock_sysvar_id false;
     meta_new_readonly authorized true].

Definition ix_set_lockup (stake : Pubkey) (args : LockupArgs) (custodian : Pubkey) : Instruction :=
  stake_ix (SetLockup args) [meta_new stake false; meta_new_readonly custodian true].

Definition ix_set_lockup_checked (stake : Pubkey) (args : LockupArgs) (custodian : Pubkey)
    : Instruction :=
  stake_ix (SetLockupChecked (mkLockupCheckedArgs (la_unix_timestamp args) (la_epoch args)))
    ([meta_new stake false; meta_new_readonly custodian true] ++ signer_meta (la_custodian args)).
End Builders.
End StakeProgram.
