(* ===== verification/StakeActivation.v ===== *)
(** * Activation and deactivation of stakes

    The history is a map from epochs to entries; the loops over it end by their own
    conditions; a stake is never more than was delegated, and once it is deactivated it
    never grows. *)

From Stdlib Require Import ZArith Lia SpecFloat.
From Stdlib Require Import Strings.Byte.
From stdpp Require Import prelude gmap numbers sorting list.
From S2P Require Import Prelude Sdk Runtime SystemInstruction SystemProgram VoteState BinarySearch StakeState.

(** ** The history as a map *)

Lemma history_get_in h epoch e : history_get h epoch = Some e -> (epoch, e) ∈ h.
Proof.
  unfold history_get, history_search, binary_search_by.
  destruct (search_loop _ h _ _ _) as [i|] eqn:Hi; [|done].
  apply search_loop_match in Hi as ([e' x] & Hx & Heq%Z.compare_eq). rewrite Hx. cbn in *.
  intros [= <-]. subst e'. by eapply list_elem_of_lookup_2.
Qed.

Lemma history_get_map h epoch :
  newest_first h -> history_get h epoch = (list_to_map h : gmap Z StakeHistoryEntry) !! epoch.
Proof.
  intros Hs. pose proof (binary_search_result _ _ (newest_first_ordered epoch h Hs)) as Hr.
  unfold history_get, history_search. destruct (binary_search_by _ h) as [i|k].
  - destruct Hr as ([e x] & Hx & Heq%Z.compare_eq). rewrite Hx. cbn in *. subst e. symmetry.
    apply elem_of_list_to_map; [by apply newest_first_nodup|]. by eapply list_elem_of_lookup_2.
  - destruct Hr as (_ & Hlt & Hgt). symmetry. apply not_elem_of_list_to_map.
    rewrite list_elem_of_fmap. intros ([e x] & He & [i Hi]%list_elem_of_lookup). cbn in He. subst e.
    destruct (Nat.lt_ge_cases i k) as [H|H]; [apply (Hlt i _ H) in Hi|apply (Hgt i _ H) in Hi];
      cbn in Hi; by rewrite Z.compare_refl in Hi.
Qed.

(** The list before it is truncated, as the map with the entry set *)
Lemma history_set h epoch x :
  newest_first h ->
  exists u, history_add h epoch x = take MAX_ENTRIES u /\ newest_first u /\
    (length u <= S (length h))%nat /\
    (list_to_map u : gmap Z StakeHistoryEntry) = <[epoch := x]> (list_to_map h).
Proof.
  intros Hs. unfold history_add. destruct (history_search epoch h) as [i|k] eqn:Hr.
  - unfold history_search, binary_search_by in Hr.
    apply search_loop_match in Hr as ([e y] & Hi & He%Z.compare_eq). cbn in He. subst e.
    exists (<[i := (epoch, x)]> h). split; [done|].
    assert (newest_first (<[i := (epoch, x)]> h) /\
      (list_to_map (<[i := (epoch, x)]> h) : gmap Z StakeHistoryEntry)
        = <[epoch := x]> (list_to_map h)) as [Hn Hm].
    { pose proof (lookup_lt_Some _ _ _ Hi) as Hlt. rewrite insert_take_drop by done.
      rewrite <- (take_drop_middle h i (epoch, y)) in Hs by done. pose proof Hs as Hs0.
      apply newest_first_app in Hs as (Hc & H1 & [H2 H3]%newest_first_cons).
      assert (newest_first (take i h ++ (epoch, x) :: drop (S i) h)) as Hn.
      { apply newest_first_app. split_and!; [|done|by apply newest_first_cons].
        intros a b Ha Hb%elem_of_cons. destruct Hb as [->|Hb]; [|by apply Hc; [|right]].
        apply (Hc a (epoch, y)); [done|by left]. }
      split; [done|].
      rewrite (list_to_map_proper _ ((epoch, x) :: take i h ++ drop (S i) h))
        by (apply newest_first_nodup, Hn || (symmetry; apply Permutation_middle)).
      rewrite <- (take_drop_middle h i (epoch, y)) at 3 by done.
      rewrite (list_to_map_proper (take i h ++ (epoch, y) :: drop (S i) h)
                ((epoch, y) :: take i h ++ drop (S i) h))
        by (apply newest_first_nodup, Hs0 || (symmetry; apply Permutation_middle)).
      cbn. by rewrite insert_insert_eq. }
    split_and!; [done|rewrite length_insert; lia|done].
  - apply newest_search_gap in Hr as (Hk & Hbefore & Hafter); [|done].
    exists (take k h ++ (epoch, x) :: drop k h). split; [done|].
    assert (newest_first (take k h ++ (epoch, x) :: drop k h)) as Hn.
    { rewrite <- (take_drop k h) in Hs. apply newest_first_app in Hs as (Hc & H1 & H2).
      apply newest_first_app. split_and!; [|done|by apply newest_first_cons].
      intros a b Ha Hb%elem_of_cons. destruct Hb as [->|Hb]; [|by apply Hc].
      by apply (proj1 (Forall_forall _ _) Hbefore). }
    split_and!; [done|rewrite length_app, length_take; cbn; rewrite length_drop; lia|].
    rewrite (list_to_map_proper _ ((epoch, x) :: take k h ++ drop k h))
      by (apply newest_first_nodup, Hn || (symmetry; apply Permutation_middle)).
    cbn. by rewrite take_drop.
Qed.

(** Adding keeps the order and the bound, and is an update as long as there is room;
    what it drops is the oldest. *)
Lemma history_add_ok h epoch x :
  newest_first h ->
  newest_first (history_add h epoch x) /\ (length (history_add h epoch x) <= MAX_ENTRIES)%nat /\
  (forall e y, history_get (history_add h epoch x) e = Some y ->
     if decide (e = epoch) then y = x else history_get h e = Some y) /\
  ((length h < MAX_ENTRIES)%nat -> forall e,
     history_get (history_add h epoch x) e
     = if decide (e = epoch) then Some x else history_get h e).
Proof.
  intros Hs. destruct (history_set h epoch x Hs) as (u & -> & Hu & Hlen & Hm).
  assert (newest_first (take MAX_ENTRIES u)) as Ht.
  { rewrite <- (take_drop MAX_ENTRIES u) in Hu. by apply newest_first_app in Hu as (_ & ? & _). }
  assert (forall e, (list_to_map u : gmap Z StakeHistoryEntry) !! e
                    = if decide (e = epoch) then Some x else history_get h e) as Hget.
  { intros e. rewrite Hm, lookup_insert, (history_get_map h) by done. by repeat case_decide. }
  split_and!; [done|rewrite length_take; lia| |].
  - intros e y Hy. apply history_get_in in Hy.
    assert ((e, y) ∈ u) as Hin.
    { rewrite <- (take_drop MAX_ENTRIES u). apply elem_of_app. by left. }
    apply (elem_of_list_to_map_1 (M:=gmap Z)) in Hin; [|by apply newest_first_nodup].
    rewrite Hget in Hin. by case_decide; simplify_eq.
  - intros Hroom e. rewrite take_ge by lia. by rewrite history_get_map, Hget.
Qed.

(** ** The loops end by their own conditions *)

(** The entries that are left after an epoch *)
Definition later (h : StakeHistory) (epoch : Z) : nat :=
  length (filter (fun a => epoch < a.1) h).

Lemma later_length h epoch : (later h epoch <= length h)%nat.
Proof. apply length_filter. Qed.

Lemma later_step h epoch e :
  history_get h (epoch + 1) = Some e -> (later h (epoch + 1) < later h epoch)%nat.
Proof.
  intros Hin%history_get_in. unfold later. induction h as [|a h IH]; [by apply elem_of_nil in Hin|].
  assert (Hle : (length (filter (fun a => (epoch + 1 < a.1)%Z) h)
                 <= length (filter (fun a => (epoch < a.1)%Z) h))%nat).
  { clear. induction h as [|a h IH]; [done|]. rewrite !filter_cons. repeat case_decide; cbn; lia. }
  rewrite !filter_cons. apply elem_of_cons in Hin as [<-|Hin].
  - cbn. repeat case_decide; cbn; lia.
  - specialize (IH Hin). repeat case_decide; cbn; lia.
Qed.

Section Loops.
Context (d : Delegation) (target : Z).

Lemma activation_loop_fuel h fuel fuel' prev e cur :
  (later h prev < fuel)%nat -> (later h prev < fuel')%nat ->
  activation_loop d h target fuel prev e cur = activation_loop d h target fuel' prev e cur.
Proof.
  revert fuel' prev e cur. induction fuel as [|fuel IH]; intros [|fuel'] prev e cur Hf Hf'; [lia..|].
  cbn [activation_loop]. destruct (he_activating e =? 0); [done|].
  destruct (d_stake d <=? _); [done|]. destruct (_ || _); [done|].
  destruct (history_get h (prev + 1)) as [e'|] eqn:He; [|done].
  apply later_step in He. apply IH; lia.
Qed.

Lemma deactivation_loop_fuel h fuel fuel' prev e cur :
  (later h prev < fuel)%nat -> (later h prev < fuel')%nat ->
  deactivation_loop d h target fuel prev e cur = deactivation_loop d h target fuel' prev e cur.
Proof.
  revert fuel' prev e cur. induction fuel as [|fuel IH]; intros [|fuel'] prev e cur Hf Hf'; [lia..|].
  cbn [deactivation_loop]. destruct (he_deactivating e =? 0); [done|].
  destruct (_ =? 0); [done|]. destruct (target <=? prev + 1); [done|].
  destruct (history_get h (prev + 1)) as [e'|] eqn:He; [|done].
  apply later_step in He. apply IH; lia.
Qed.

(** ** Bounds *)

Lemma epoch_portion_pos mine moving effective rate :
  1 <= epoch_portion mine moving effective rate.
Proof. unfold epoch_portion. lia. Qed.

Lemma wrap64_range x : 0 <= wrap64 x <= u64_max.
Proof. unfold wrap64. pose proof (Z.mod_pos_bound x (u64_max + 1) ltac:(done)). lia. Qed.

Lemma activation_loop_bounds h fuel prev e cur :
  0 <= cur <= d_stake d -> 0 <= activation_loop d h target fuel prev e cur <= d_stake d.
Proof.
  revert prev e cur. induction fuel as [|fuel IH]; intros prev e cur Hcur; [done|].
  cbn [activation_loop]. destruct (he_activating e =? 0); [done|].
  set (cur' := wrap64 _). pose proof (wrap64_range (cur + epoch_portion (d_stake d - cur)
    (he_activating e) (he_effective e) (warmup_cooldown_rate d))) as Hw. fold cur' in Hw.
  destruct (Z.leb_spec (d_stake d) cur'); [lia|]. destruct (_ || _); [lia|].
  destruct (history_get h (prev + 1)); [|lia]. apply IH. lia.
Qed.

Lemma deactivation_loop_bounds h fuel prev e cur :
  0 <= cur -> 0 <= deactivation_loop d h target fuel prev e cur <= cur.
Proof.
  revert prev e cur. induction fuel as [|fuel IH]; intros prev e cur Hcur; [cbn; lia|].
  cbn [deactivation_loop]. destruct (he_deactivating e =? 0); [lia|].
  set (p := epoch_portion _ _ _ _). pose proof (epoch_portion_pos cur (he_deactivating e)
    (he_effective e) (warmup_cooldown_rate d)) as Hp. fold p in Hp. unfold saturating_sub.
  destruct (_ =? 0); [lia|]. destruct (target <=? prev + 1); [lia|].
  destruct (history_get h (prev + 1)) as [e'|]; [|lia]. specialize (IH (prev + 1) e' (Z.max 0 (cur - p))).
  lia.
Qed.

Lemma stake_and_activating_bounds history :
  0 <= d_stake d ->
  let '(eff, act) := stake_and_activating d target history in
  0 <= eff /\ 0 <= act /\ eff + act <= d_stake d.
Proof.
  intros Hd. unfold stake_and_activating.
  destruct (is_bootstrap d); [lia|]. destruct (activation_epoch d =? _); [lia|].
  destruct (target =? _); [lia|]. destruct (target <? _); [lia|].
  destruct history as [h|]; [|cbn; lia].
  cbn [mbind option_bind]. destruct (history_get h _) as [e|]; cbn [mbind option_bind]; [|lia].
  pose proof (activation_loop_bounds h (S (length h)) (activation_epoch d) e 0 ltac:(lia)). lia.
Qed.
End Loops.

(** What is effective or activating was delegated; what is deactivating is effective;
    a stake is not activating and deactivating at once. *)
Lemma status_bounds d target history :
  0 <= d_stake d ->
  let s := stake_activating_and_deactivating d target history in
  0 <= he_effective s /\ 0 <= he_activating s /\ 0 <= he_deactivating s /\
  he_effective s + he_activating s <= d_stake d /\ he_deactivating s <= he_effective s /\
  (he_activating s = 0 \/ he_deactivating s = 0).
Proof.
  intros Hd. unfold stake_activating_and_deactivating.
  pose proof (stake_and_activating_bounds d target history Hd) as Hb.
  destruct (stake_and_activating d target history) as [eff act].
  destruct (target <? _); [destruct (Z.eqb_spec act 0); cbn; lia|].
  destruct (target =? _); [cbn; lia|]. destruct history as [h|]; [|cbn; lia].
  cbn [mbind option_bind]. destruct (history_get h _) as [e|]; cbn [mbind option_bind]; [|cbn; lia].
  pose proof (deactivation_loop_bounds d target h (S (length h)) (deactivation_epoch d) e eff
    ltac:(lia)). cbn [with_deactivating he_effective he_activating he_deactivating]. lia.
Qed.

(** ** Deactivated stakes never grow *)

Section Cooldown.
Context (d : Delegation) (h1 h2 : StakeHistory) (t1 t2 : Z).
Context (Hagree : forall e, e < t1 -> history_get h1 e = history_get h2 e) (Ht : t1 <= t2).

Lemma deactivation_loop_mono fuel1 fuel2 prev e cur :
  prev < t1 -> 0 <= cur -> (later h1 prev < fuel1)%nat -> (later h2 prev < fuel2)%nat ->
  deactivation_loop d h2 t2 fuel2 prev e cur <= deactivation_loop d h1 t1 fuel1 prev e cur.
Proof.
  revert fuel2 prev e cur.
  induction fuel1 as [|fuel1 IH]; intros [|fuel2] prev e cur Hp Hc Hf1 Hf2; [lia..|].
  cbn [deactivation_loop]. destruct (he_deactivating e =? 0); [done|].
  set (cur' := saturating_sub _ _). assert (0 <= cur') by (unfold cur', saturating_sub; lia).
  destruct (cur' =? 0); [done|]. destruct (Z.leb_spec t1 (prev + 1)) as [Hle|Hlt].
  - destruct (t2 <=? prev + 1); [done|]. destruct (history_get h2 (prev + 1)); [|done].
    by apply deactivation_loop_bounds.
  - destruct (Z.leb_spec t2 (prev + 1)); [lia|]. rewrite (Hagree (prev + 1)) by lia.
    destruct (history_get h2 (prev + 1)) as [e'|] eqn:He2; [|done].
    pose proof He2 as He1. rewrite <- Hagree in He1 by lia.
    apply later_step in He1, He2. apply IH; lia.
Qed.

Lemma activation_loop_settled fuel1 fuel2 prev e cur :
  deactivation_epoch d <= t1 -> (later h1 prev < fuel1)%nat -> (later h2 prev < fuel2)%nat ->
  activation_loop d h1 t1 fuel1 prev e cur = activation_loop d h2 t2 fuel2 prev e cur.
Proof.
  intros Hd. revert fuel2 prev e cur.
  induction fuel1 as [|fuel1 IH]; intros [|fuel2] prev e cur Hf1 Hf2; [lia..|].
  cbn [activation_loop]. destruct (he_activating e =? 0); [done|].
  destruct (d_stake d <=? _); [done|].
  destruct (Z.leb_spec (deactivation_epoch d) (prev + 1)); [by rewrite !orb_true_r|].
  destruct (Z.leb_spec t1 (prev + 1)), (Z.leb_spec t2 (prev + 1)); [lia..|]. cbn [orb].
  rewrite (Hagree (prev + 1)) by lia.
  destruct (history_get h2 (prev + 1)) as [e'|] eqn:He2; [|done].
  pose proof He2 as He1. rewrite <- Hagree in He1 by lia.
  apply later_step in He1, He2. apply IH; lia.
Qed.

Lemma stake_and_activating_settled :
  is_bootstrap d = true \/ activation_epoch d <= deactivation_epoch d ->
  deactivation_epoch d <= t1 ->
  stake_and_activating d t1 (Some h1) = stake_and_activating d t2 (Some h2).
Proof.
  intros Hb Hd. unfold stake_and_activating. destruct (is_bootstrap d); [done|].
  destruct Hb as [?|Hb]; [done|].
  destruct (Z.eqb_spec (activation_epoch d) (deactivation_epoch d)); [done|].
  rewrite !(proj2 (Z.eqb_neq _ _)), !(proj2 (Z.ltb_ge _ _)) by lia. cbn [mbind option_bind].
  rewrite (Hagree (activation_epoch d)) by lia.
  destruct (history_get h2 (activation_epoch d)) as [e|]; [|done]. cbn [mbind option_bind].
  rewrite (activation_loop_settled (S (length h1)) (S (length h2)) (activation_epoch d) e 0); [done|lia|..].
  - pose proof (later_length h1 (activation_epoch d)). lia.
  - pose proof (later_length h2 (activation_epoch d)). lia.
Qed.

Lemma deactivated_never_grows :
  is_bootstrap d = true \/ activation_epoch d <= deactivation_epoch d ->
  deactivation_epoch d <= t1 -> 0 <= d_stake d ->
  delegation_stake d t2 (Some h2) <= delegation_stake d t1 (Some h1).
Proof.
  intros Hb Hd Hs. unfold delegation_stake, stake_activating_and_deactivating.
  pose proof (stake_and_activating_bounds d t1 (Some h1) Hs) as Hbd.
  rewrite stake_and_activating_settled in * by done.
  destruct (stake_and_activating d t2 (Some h2)) as [eff act]. destruct Hbd as (Heff & _).
  destruct (Z.ltb_spec t1 (deactivation_epoch d)), (Z.ltb_spec t2 (deactivation_epoch d)); [lia..|].
  destruct (Z.eqb_spec t1 (deactivation_epoch d)) as [E1|E1].
  - destruct (t2 =? deactivation_epoch d); [done|]. cbn [mbind option_bind].
    destruct (history_get h2 _) as [e|]; cbn [mbind option_bind with_deactivating he_effective]; [|done].
    by apply deactivation_loop_bounds.
  - rewrite (proj2 (Z.eqb_neq _ _)) by lia. cbn [mbind option_bind].
    rewrite (Hagree (deactivation_epoch d)) by lia.
    destruct (history_get h2 _) as [e|]; cbn [mbind option_bind with_deactivating he_effective]; [|done].
    apply deactivation_loop_mono; [lia|done|..].
    + pose proof (later_length h1 (deactivation_epoch d)). lia.
    + pose proof (later_length h2 (deactivation_epoch d)). lia.
Qed.
End Cooldown.
