(* ===== verification/StakeRewardFacts.v ===== *)
(** * What stakes earn

    Points are the stake of each epoch times the credits of it that the stake has not
    observed; a round never pays more than it has, and pays nothing twice. *)

From Stdlib Require Import ZArith Lia SpecFloat.
From Stdlib Require Import Strings.Byte.
From stdpp Require Import prelude gmap numbers sorting list.
From S2P Require Import Prelude Sdk Runtime SystemInstruction SystemProgram VoteState VoteTower VoteVoters VoteSlots VoteProgram VoteTyped Codec ShortVec ConfigProgram StakeState StakeRewards StakeProgram StakeActivation.

(** ** Points *)

(** Credits of consecutive epochs: each starts where the one before ended, or later. *)
Fixpoint credits_from_on (start : Z) (l : list (Z * Z * Z)) : Prop :=
  match l with
  | [] => True
  | (_, final, initial) :: l => start <= initial <= final /\ credits_from_on final l
  end.

Definition last_final (start : Z) (l : list (Z * Z * Z)) : Z :=
  match last l with Some (_, c, _) => c | None => start end.

(** The credits of an epoch beyond what was observed *)
Definition unobserved (observed : Z) (entry : Z * Z * Z) : Z :=
  let '(_, final, initial) := entry in Z.max 0 (final - Z.max initial observed).

Definition points_due (s : Stake) (history : option StakeHistory) (l : list (Z * Z * Z)) : Z :=
  foldr (fun entry acc =>
    delegation_stake (delegation s) entry.1.1 history * unobserved (credits_observed s) entry + acc)
    0 l.

Lemma last_final_cons start e f i l : last_final start ((e, f, i) :: l) = last_final f l.
Proof. unfold last_final. rewrite last_cons. by destruct (last l) as [[[]]|]. Qed.

Lemma credits_grow start l : credits_from_on start l -> start <= last_final start l.
Proof.
  revert start. induction l as [|[[e f] i] l IH]; intros start; [done|].
  rewrite last_final_cons. intros [? H%IH]. lia.
Qed.

Lemma wrap128_add a b : wrap128 (wrap128 a + b) = wrap128 (a + b).
Proof. unfold wrap128. by rewrite Zplus_mod_idemp_l. Qed.

Lemma wrap64_small x : 0 <= x <= u64_max -> wrap64 x = x.
Proof. intros. unfold wrap64. apply Z.mod_small. lia. Qed.

Section Points.
Context (s : Stake) (history : option StakeHistory).
Context (Hs : in_u64 (d_stake (delegation s))) (Hc : in_u64 (credits_observed s)).

Lemma stake_amount_bounds epoch :
  0 <= delegation_stake (delegation s) epoch history <= d_stake (delegation s).
Proof.
  pose proof (status_bounds (delegation s) epoch history (proj1 Hs)) as Hb.
  unfold delegation_stake. cbn zeta in Hb. lia.
Qed.

Lemma earn_credits_all l start p :
  0 <= start -> credits_from_on start l -> last_final start l <= u64_max ->
  foldl (earn_credits s history) (wrap128 p, Z.max (credits_observed s) start) l
  = (wrap128 (p + points_due s history l), Z.max (credits_observed s) (last_final start l)).
Proof.
  revert start p. induction l as [|[[e f] i] l IH]; intros start p H0 Hl Hmax.
  { cbn. by rewrite Z.add_0_r. }
  rewrite last_final_cons in Hmax |- *. destruct Hl as [Hif Hl].
  pose proof (credits_grow f l Hl) as Hg. unfold in_u64 in Hc.
  change (foldl (earn_credits s history) ?acc ((e, f, i) :: l))
    with (foldl (earn_credits s history) (earn_credits s history acc (e, f, i)) l).
  unfold earn_credits at 2. cbn [points_due foldr fst].
  set (amount := delegation_stake (delegation s) e history).
  assert (Hearn : (if credits_observed s <? i then wrap64 (f - i)
      else if credits_observed s <? f then wrap64 (f - Z.max (credits_observed s) start) else 0)
      = unobserved (credits_observed s) (e, f, i)).
  { unfold unobserved. destruct (Z.ltb_spec (credits_observed s) i); [rewrite wrap64_small; lia|].
    destruct (Z.ltb_spec (credits_observed s) f); [rewrite wrap64_small; lia|lia]. }
  rewrite Hearn, wrap128_add, <- Z.max_assoc, (Z.max_r start f) by lia.
  rewrite IH by (done || lia). by rewrite Z.add_assoc.
Qed.

Lemma points_due_bounds l start :
  0 <= start -> credits_from_on start l ->
  0 <= points_due s history l <= d_stake (delegation s) * (last_final start l - start).
Proof.
  revert start. induction l as [|[[e f] i] l IH]; intros start H0 Hl.
  { unfold in_u64 in Hs. cbn. nia. }
  destruct Hl as [Hif Hl]. rewrite last_final_cons.
  specialize (IH f ltac:(lia) Hl). cbn [points_due foldr fst].
  pose proof (stake_amount_bounds e) as Ha. unfold in_u64 in *.
  assert (0 <= unobserved (credits_observed s) (e, f, i) <= f - start) by (unfold unobserved; lia).
  unfold points_due in *. nia.
Qed.

Lemma points_none l start :
  0 <= start -> credits_from_on start l -> last_final start l <= credits_observed s ->
  points_due s history l = 0.
Proof.
  revert start. induction l as [|[[e f] i] l IH]; intros start H0 Hl Hle; [done|].
  destruct Hl as [Hif Hl]. rewrite last_final_cons in Hle. pose proof (credits_grow f l Hl).
  cbn [points_due foldr fst]. fold (points_due s history l). rewrite (IH f) by (done || lia).
  unfold unobserved. replace (Z.max 0 _) with 0 by lia. lia.
Qed.

Lemma stake_points_eq vote :
  credits_from_on 0 (epoch_credits vote) -> credits vote <= u64_max ->
  calculate_stake_points_and_credits s vote history
  = (points_due s history (epoch_credits vote), Z.max (credits_observed s) (credits vote)).
Proof.
  intros Hl Hmax. change (credits vote) with (last_final 0 (epoch_credits vote)) in *.
  pose proof (points_due_bounds _ 0 ltac:(lia) Hl) as Hb. pose proof (credits_grow _ _ Hl).
  unfold calculate_stake_points_and_credits.
  change (credits vote) with (last_final 0 (epoch_credits vote)).
  destruct (Z.leb_spec (last_final 0 (epoch_credits vote)) (credits_observed s)) as [Hle|Hlt].
  { by rewrite (points_none _ 0), Z.max_l by (done || lia). }
  unfold in_u64, u64_max in *.
  pose proof (earn_credits_all (epoch_credits vote) 0 0 ltac:(lia) Hl ltac:(unfold u64_max; lia)) as E.
  rewrite Z.max_l in E by lia. change (wrap128 0) with 0 in E. rewrite E. f_equal.
  rewrite Z.add_0_l. unfold wrap128. apply Z.mod_small. unfold u128_max. nia.
Qed.
End Points.

(** ** Rewards *)

(** What a stake and its voter are paid *)
Definition paid (r : option (Z * Z * Z)) : Z :=
  match r with Some (stakers, voters, _) => stakers + voters | None => 0 end.

Definition commission_ok (vote : VoteState) : Prop := 0 <= commission vote <= 255.

(** The points are no more than those of the round, so a share of it is a share. *)
Lemma reward_share (points rewards total : Z) :
  0 <= points <= total -> 0 < total -> 0 <= rewards ->
  0 <= points * rewards / total <= rewards /\ total * (points * rewards / total) <= points * rewards.
Proof.
  intros Hp Ht Hr. pose proof (Z.mul_div_le (points * rewards) total Ht). split; [|done].
  split; [apply Z.div_pos; nia|]. apply Z.div_le_upper_bound; nia.
Qed.

Section Rewards.
Context {E : Type} (epoch : Z) (pv : PointValue) (history : option StakeHistory).
Context (Hr : in_u64 (pv_rewards pv)) (Hfits : pv_points pv * pv_rewards pv <= u128_max).

(** Nothing panics when the points of the round times its rewards fit a [u128], and
    what is paid is at most the share of the points. *)
Lemma stake_rewards_share s vote :
  commission_ok vote ->
  0 <= calculate_stake_points s vote history <= pv_points pv ->
  exists r, calculate_stake_rewards (E:=E) epoch s pv vote history = Ok r /\
    0 <= paid r /\
    pv_points pv * paid r <= calculate_stake_points s vote history * pv_rewards pv.
Proof.
  intros Hcom Hp. unfold calculate_stake_rewards, calculate_stake_points in *.
  destruct (calculate_stake_points_and_credits s vote history) as [points c]. cbn [fst] in *.
  unfold in_u64 in Hr. destruct (_ || _); [exists (Some (0, 0, c)); cbn; split; [done|nia]|].
  destruct (points =? 0); [exists None; cbn; split; [done|nia]|].
  destruct (Z.eqb_spec (pv_points pv) 0); [exists None; cbn; split; [done|nia]|].
  destruct (Z.ltb_spec u128_max (points * pv_rewards pv)); [nia|].
  destruct (reward_share points (pv_rewards pv) (pv_points pv) Hp ltac:(lia) ltac:(lia)) as [Hb Hs].
  set (rewards := points * pv_rewards pv / pv_points pv) in *.
  destruct (Z.ltb_spec u64_max rewards); [lia|].
  destruct (rewards =? 0); [exists None; cbn; split; [done|nia]|].
  pose proof (commission_split_bounds vote rewards ltac:(unfold in_u64; lia) Hcom) as Hsp.
  destruct (commission_split vote rewards) as [[voters stakers] split].
  destruct Hsp as (Hv & Hst & Hsum & _).
  assert (0 <= voters /\ 0 <= stakers) as [Hv0 Hst0].
  { unfold commission_ok in Hcom. subst. split; apply Z.div_pos; nia. }
  destruct (_ && split); [exists None; cbn; split; [done|nia]|].
  exists (Some (stakers, voters, c)). cbn [paid]. split; [done|]. split; [lia|].
  assert (stakers + voters <= rewards) by lia. nia.
Qed.

(** All stakes of a round together *)
Definition total_points (stakes : list (Stake * VoteState)) : Z :=
  foldr (fun p acc => calculate_stake_points p.1 p.2 history + acc) 0 stakes.

Lemma total_points_nonneg stakes :
  Forall (fun p => 0 <= calculate_stake_points p.1 p.2 history) stakes -> 0 <= total_points stakes.
Proof. induction 1; cbn; [done|]. unfold total_points in *. lia. Qed.

Lemma round_paid stakes :
  Forall (fun p => commission_ok p.2 /\ 0 <= calculate_stake_points p.1 p.2 history) stakes ->
  total_points stakes <= pv_points pv ->
  exists rs, mapM (fun p => calculate_stake_rewards (E:=E) epoch p.1 pv p.2 history) stakes = Ok rs /\
    0 <= foldr (fun r acc => paid r + acc) 0 rs /\
    pv_points pv * foldr (fun r acc => paid r + acc) 0 rs <= total_points stakes * pv_rewards pv.
Proof.
  induction 1 as [|[s vote] stakes [Hcom Hpos] Hall IH]; intros Htot.
  { exists []. cbn. split; [done|]. split; [done|]. lia. }
  cbn [total_points foldr fst snd] in *. fold (total_points stakes) in *.
  assert (0 <= total_points stakes).
  { apply total_points_nonneg. eapply Forall_impl; [exact Hall|]. naive_solver. }
  destruct (stake_rewards_share s vote Hcom ltac:(lia)) as (r & Er & Hr0 & Hr1).
  destruct IH as (rs & Ers & Hrs0 & Hrs1); [lia|].
  exists (r :: rs). cbn [mapM fst snd]. rewrite Er. cbn [mbind outcome_bind]. rewrite Ers.
  cbn [foldr]. split; [done|]. split; [lia|].
  rewrite Z.mul_add_distr_l, Z.mul_add_distr_r. lia.
Qed.
End Rewards.

(** ** Nothing is paid twice *)

Lemma earn_credits_observes s history l acc c :
  c <= snd acc \/ (exists e i, (e, c, i) ∈ l) ->
  c <= snd (foldl (earn_credits s history) acc l).
Proof.
  revert acc. induction l as [|[[e f] i] l IH]; intros [p n] Hc.
  { destruct Hc as [|(? & ? & []%elem_of_nil)]; done. }
  cbn [foldl]. apply IH. cbn. destruct Hc as [|(e' & i' & [[= <- <- <-]|Hin]%elem_of_cons)];
    [left; cbn in *; lia|left; lia|right; eauto].
Qed.

Lemma credits_all_observed s vote history :
  0 <= credits_observed s ->
  credits vote <= snd (calculate_stake_points_and_credits s vote history).
Proof.
  intros Hs. unfold calculate_stake_points_and_credits.
  destruct (Z.leb_spec (credits vote) (credits_observed s)); [done|].
  apply earn_credits_observes. unfold credits in *.
  destruct (last (epoch_credits vote)) as [[[e c] i]|] eqn:El.
  - right. exists e, i. by eapply last_Some_elem_of.
  - left. cbn. lia.
Qed.

Lemma redeemed_observes {E} epoch s pv vote history s' a b :
  redeem_stake_rewards (E:=E) epoch s pv vote history = Ok (Some (s', a, b)) ->
  credits_observed s' = snd (calculate_stake_points_and_credits s vote history).
Proof.
  unfold redeem_stake_rewards, calculate_stake_rewards.
  destruct (calculate_stake_points_and_credits s vote history) as [points c].
  destruct (_ || _); [intros [= <- _ _]; done|].
  repeat (case_match; cbn [mbind outcome_bind]; try done).
  all: intros [= <- _ _]; done.
Qed.

Lemma observed_pays_nothing {E} epoch s pv vote history :
  credits vote <= credits_observed s ->
  exists r, calculate_stake_rewards (E:=E) epoch s pv vote history = Ok r /\ paid r = 0.
Proof.
  intros Hc. unfold calculate_stake_rewards, calculate_stake_points_and_credits.
  rewrite (proj2 (Z.leb_le _ _) Hc). destruct (_ || _); [by eexists|]. by exists None.
Qed.

(** ** Merged credits *)

(** The weighted average lies between the two, and is rounded up. *)
Lemma weighted_credits s x y :
  in_u64 (credits_observed s) -> in_u64 y -> 0 <= d_stake (delegation s) -> 0 <= x ->
  0 < d_stake (delegation s) + x <= u64_max ->
  exists c, stake_weighted_credits_observed s x y = Some c /\
    Z.min (credits_observed s) y <= c <= Z.max (credits_observed s) y /\
    let sum := credits_observed s * d_stake (delegation s) + y * x in
    sum <= c * (d_stake (delegation s) + x) < sum + (d_stake (delegation s) + x).
Proof.
  unfold in_u64, stake_weighted_credits_observed. intros Hc Hy Hd Hx Ht.
  set (d := d_stake (delegation s)) in *. set (c := credits_observed s) in *.
  destruct (Z.eqb_spec c y) as [<-|Hne].
  { exists c. split; [done|]. split; [lia|]. cbn zeta. nia. }
  unfold checked_add. rewrite (proj2 (Z.leb_le (d + x) u64_max)) by lia.
  cbn [mbind option_bind]. set (t := d + x) in *. set (sum := c * d + y * x).
  assert (0 <= c * d <= u64_max * t) by (subst t; nia). assert (0 <= y * x <= u64_max * t) by (subst t; nia).
  assert (0 <= sum <= u64_max * t) by (subst sum t; nia).
  assert (u64_max * t + t <= u128_max) by (unfold u64_max, u128_max in *; lia).
  rewrite !(proj2 (Z.ltb_ge _ _)), (proj2 (Z.eqb_neq t 0)) by lia. cbn [orb].
  pose proof (Z.div_mod (sum + t - 1) t ltac:(lia)). pose proof (Z.mod_pos_bound (sum + t - 1) t ltac:(lia)).
  set (q := (sum + t - 1) / t) in *.
  assert (sum <= q * t < sum + t) as Hq by lia.
  assert (Z.min c y * t <= sum <= Z.max c y * t) as Hs by (subst sum t; nia).
  assert (Z.min c y <= q <= Z.max c y) as Hb.
  { split.
    - apply (Z.mul_le_mono_pos_r _ _ t); [lia|]. etransitivity; [apply Hs|apply Hq].
    - apply Z.lt_succ_r, (Z.mul_lt_mono_pos_r t); [lia|]. rewrite Z.mul_succ_l. destruct Hs, Hq.
      eapply Z.lt_le_trans; [eassumption|]. by apply Z.add_le_mono_r. }
  rewrite (proj2 (Z.ltb_ge u64_max q)) by lia. exists q. split; [done|]. split; [done|]. exact Hq.
Qed.
