(* ===== verification/StakeEffect.v ===== *)
(** * What a stake instruction may do

    A stake instruction takes the state of one stake account through a step, splits it,
    merges another one into it, or withdraws lamports.  [stake_effect] says what each of
    these does to the accounts and which keys must have approved it. *)

From Stdlib Require Import ZArith Lia SpecFloat.
From Stdlib Require Import Strings.Byte.
From stdpp Require Import prelude gmap numbers sorting list.
From S2P Require Import Prelude Sdk Runtime SystemInstruction SystemProgram SystemFacts Codec ShortVec ConfigProgram VoteState VoteProgram VoteTower VoteVoters VoteSlots VoteTyped VoteSafety StakeState StakeRewards StakeProgram StakeActivation.

(** ** Types of the fields *)

Definition f64_ok (f : spec_float) : Prop := valid_binary 53 1024 f = true.
Definition lockup_typed (l : Lockup) : Prop :=
  in_i64 (lockup_unix_timestamp l) /\ in_u64 (lockup_epoch l).
Definition meta_typed (m : Meta) : Prop := in_u64 (rent_exempt_reserve m) /\ lockup_typed (lockup m).
Definition delegation_typed (d : Delegation) : Prop :=
  in_u64 (d_stake d) /\ in_u64 (activation_epoch d) /\ in_u64 (deactivation_epoch d) /\
  f64_ok (warmup_cooldown_rate d).
Definition stake_typed (s : Stake) : Prop :=
  delegation_typed (delegation s) /\ in_u64 (credits_observed s).
Definition state_typed (s : StakeState) : Prop :=
  match s with
  | Initialized m => meta_typed m
  | Delegated m st => meta_typed m /\ stake_typed st
  | _ => True
  end.

Definition lockup_args_typed (a : LockupArgs) : Prop :=
  (forall t, la_unix_timestamp a = Some t -> in_i64 t) /\ (forall e, la_epoch a = Some e -> in_u64 e).
Definition stake_instr_typed (i : StakeInstruction) : Prop :=
  match i with
  | StakeInitialize _ l => lockup_typed l
  | Split x | StakeWithdraw x => in_u64 x
  | SetLockup a => lockup_args_typed a
  | SetLockupChecked a =>
      lockup_args_typed (mkLockupArgs (lca_unix_timestamp a) (lca_epoch a) None)
  | _ => True
  end.

(** What the program relies on in bincode: a state is read back from the front of a
    buffer, and what is read has the types it is read at. *)
Class StakeBincode `{Bincode StakeState, Bincode VoteStateVersions, Bincode Clock}
    `{Bincode StakeHistory, Bincode Config} : Prop := {
  stake_roundtrip : forall s rest, state_typed s ->
    bincode_decode (bincode_encode s ++ rest) = Some s;
  stake_read_typed : forall b (s : StakeState), bincode_decode b = Some s -> state_typed s;
  vote_read_typed : forall b s, bincode_decode b = Some (Current s) -> in_u64 (credits s);
  clock_read_typed : forall b (c : Clock), bincode_decode b = Some c -> in_u64 (clock_epoch c);
  config_read_typed : forall b (c : Config), bincode_decode b = Some c ->
    f64_ok (config_warmup_cooldown_rate c);
}.

(** ** Writing a state *)

Section Holds.
Context `{Bincode StakeState}.

(** [a'] is [a] with the state [s] and [x] lamports. *)
Record holds (a a' : AccountSharedData) (s : StakeState) (x : Z) : Prop := {
  holds_state : account_state a' = Ok s;
  holds_lamports : lamports a' = x;
  holds_owner : owner a' = owner a;
  holds_length : length (data a') = length (data a);
}.

Lemma holds_refl a s : account_state a = Ok s -> holds a a s (lamports a).
Proof. by split. Qed.

Lemma holds_set_lamports a a' s x y : holds a a' s x -> holds a (set_lamports y a') s y.
Proof. by intros []; split. Qed.

Lemma holds_trans a a' a'' s s' x y : holds a a' s x -> holds a' a'' s' y -> holds a a'' s' y.
Proof. intros [] []. split; congruence. Qed.
End Holds.

(** The clock is that of the cache, or of the account of the sysvar. *)
Definition stake_clock `{Bincode Clock} (env : StakeEnv) (l : ledger) (c : Clock) : Prop :=
  stake_cache_clock env = Some c \/ bincode_decode (data (get_account l clock_sysvar_id)) = Some c.

(** ** Effects *)

Section Effect.
Context (hashv : list bytes -> Hash).
Context `{Bincode StakeState, Bincode VoteStateVersions, Bincode Clock, Bincode Rent}.
Context `{Bincode StakeHistory, Bincode Config}.
Context (env : StakeEnv) (signers : gset Pubkey) (i : StakeInstruction).

(** The keys that approve: signers, or, for an instruction with a seed, the keys derived
    from them. *)
Definition seed_of : option (bytes * Pubkey) :=
  match i with
  | AuthorizeWithSeed args => Some (aws_authority_seed args, aws_authority_owner args)
  | AuthorizeCheckedWithSeed args => Some (acws_authority_seed args, acws_authority_owner args)
  | _ => None
  end.
Definition approves (k : Pubkey) : Prop :=
  match seed_of with
  | None => k ∈ signers
  | Some (seed, o) => exists base, base ∈ signers /\ create_with_seed hashv base seed o = Ok k
  end.

Definition with_meta (m : Meta) (s : StakeState) : StakeState :=
  match s with
  | Initialized _ => Initialized m
  | Delegated _ st => Delegated m st
  | s => s
  end.

(** Whether the instruction sets an authority, or a lockup *)
Definition sets_authority : Prop :=
  match i with
  | StakeAuthorizeIx _ _ | StakeAuthorizeChecked _
  | AuthorizeWithSeed _ | AuthorizeCheckedWithSeed _ => True
  | _ => False
  end.
Definition sets_lockup : Prop :=
  match i with SetLockup _ | SetLockupChecked _ => True | _ => False end.

(** Changes of the authorities and of the lockup.  While a lockup is in force its
    custodian must approve both a new withdrawer and a new lockup. *)
Inductive meta_step (clock : Clock) (m : Meta) : Meta -> Prop :=
| ms_staker k :
    sets_authority -> approves (staker (authorized m)) \/ approves (withdrawer (authorized m)) ->
    meta_step clock m (set_authorized (mkAuthorized k (withdrawer (authorized m))) m)
| ms_withdrawer k :
    sets_authority -> approves (withdrawer (authorized m)) ->
    (is_in_force (lockup m) clock None = true -> approves (lockup_custodian (lockup m))) ->
    meta_step clock m (set_authorized (mkAuthorized (staker (authorized m)) k) m)
| ms_lockup args :
    sets_lockup ->
    (is_in_force (lockup m) clock None = true -> approves (lockup_custodian (lockup m))) ->
    approves (lockup_custodian (lockup m)) \/ approves (withdrawer (authorized m)) ->
    lockup_args_typed args ->
    meta_step clock m
      (set_meta_lockup
         (mkLockup (default (lockup_unix_timestamp (lockup m)) (la_unix_timestamp args))
            (default (lockup_epoch (lockup m)) (la_epoch args))
            (default (lockup_custodian (lockup m)) (la_custodian args))) m).

(** Steps of the state of the account [a] *)
Inductive stake_step (l : ledger) (a : AccountSharedData) : StakeState -> StakeState -> Prop :=
| st_initialize auth lk rent :
    i = StakeInitialize auth lk \/
      (i = InitializeChecked /\ lk = lockup_default /\ withdrawer auth ∈ signers) ->
    length (data a) = STAKE_STATE_SIZE -> minimum_balance rent STAKE_STATE_SIZE < lamports a ->
    stake_step l a Uninitialized
      (Initialized (mkStakeMeta (minimum_balance rent STAKE_STATE_SIZE) auth lk))
| st_meta clock s m m' :
    stake_clock env l clock \/ approves (lockup_custodian (lockup m)) ->
    state_meta s = Some m -> meta_step clock m m' -> stake_step l a s (with_meta m' s)
| st_delegate m clock config vote v :
    i = DelegateStake -> stake_clock env l clock -> staker (authorized m) ∈ signers ->
    f64_ok (config_warmup_cooldown_rate config) -> in_u64 (credits v) ->
    stake_step l a (Initialized m)
      (Delegated m (new_stake (saturating_sub (lamports a) (rent_exempt_reserve m)) vote v
                      (clock_epoch clock) config))
| st_redelegate m st st' clock history config vote v :
    i = DelegateStake -> stake_clock env l clock ->
    staker (authorized m) ∈ signers ->
    f64_ok (config_warmup_cooldown_rate config) -> in_u64 (credits v) ->
    redelegate st (saturating_sub (lamports a) (rent_exempt_reserve m)) vote v clock history config
      (stake_program_v4 env) = Ok st' ->
    stake_step l a (Delegated m st) (Delegated m st')
| st_deactivate m st clock :
    i = Deactivate -> stake_clock env l clock -> staker (authorized m) ∈ signers ->
    deactivation_epoch (delegation st) = u64_max ->
    stake_step l a (Delegated m st)
      (Delegated m (set_delegation (set_deactivation_epoch (clock_epoch clock) (delegation st)) st)).

(** The new reserve of a split account, and the lamports that must be moved and left *)
Definition split_reserve (m : Meta) (a b : AccountSharedData) : Z :=
  calculate_split_rent_exempt_reserve (rent_exempt_reserve m) (Z.of_nat (length (data a)))
    (Z.of_nat (length (data b))).
Definition split_covers (m : Meta) (a b : AccountSharedData) (x : Z) : Prop :=
  saturating_sub (split_reserve m a b) (lamports b) < x /\
  (x <> lamports a -> x + rent_exempt_reserve m < lamports a).

(** The stake that leaves the account, and that of the new one *)
Definition split_amounts (m : Meta) (a b : AccountSharedData) (x : Z) : Z * Z :=
  if x =? lamports a then
    (saturating_sub x (rent_exempt_reserve m), saturating_sub x (rent_exempt_reserve m))
  else (x, wrap64 (x - saturating_sub (split_reserve m a b) (lamports b))).

(** An account that is emptied is reset. *)
Definition left_by (a : AccountSharedData) (x : Z) (s : StakeState) : StakeState :=
  if x =? lamports a then Uninitialized else s.

(** The states of an account and of the one that is split off it *)
Inductive split_step (me : Pubkey) (a b : AccountSharedData) (x : Z)
    : StakeState -> StakeState -> StakeState -> Prop :=
| sp_uninitialized :
    me ∈ signers -> split_step me a b x Uninitialized Uninitialized Uninitialized
| sp_initialized m :
    staker (authorized m) ∈ signers -> split_covers m a b x ->
    split_step me a b x (Initialized m) (left_by a x (Initialized m))
      (Initialized (set_reserve (split_reserve m a b) m))
| sp_delegated m st :
    staker (authorized m) ∈ signers -> split_covers m a b x ->
    (split_amounts m a b x).1 <= d_stake (delegation st) ->
    split_step me a b x (Delegated m st)
      (left_by a x (Delegated m
         (set_stake_amount (d_stake (delegation st) - (split_amounts m a b x).1) st)))
      (Delegated (set_reserve (split_reserve m a b) m)
         (set_stake_amount (split_amounts m a b x).2 st)).

(** How an account with a state can be merged *)
Definition mergeable (a : AccountSharedData) (s : StakeState) (clock : Clock)
    (history : StakeHistory) : outcome InstructionError MergeKind :=
  match s with
  | Delegated meta stake =>
      let status := stake_activating_and_deactivating (delegation stake) (clock_epoch clock)
                      (Some history) in
      if he_effective status =? 0 then
        if (he_activating status =? 0) && (he_deactivating status =? 0) then
          Ok (Inactive meta (lamports a))
        else Ok (ActivationEpoch meta stake)
      else if (he_activating status =? 0) && (he_deactivating status =? 0) then
        Ok (FullyActive meta stake)
      else Err (stake_err MergeTransientStake)
  | Initialized meta => Ok (Inactive meta (lamports a))
  | _ => Err InvalidAccountData
  end.

(** Merging [b] into [a] *)
Inductive merge_step (l : ledger) (a b : AccountSharedData)
    : StakeState -> StakeState -> StakeState -> Prop :=
| mg_merge s s_src clock history kind source merged :
    stake_clock env l clock -> mergeable a s clock history = Ok kind ->
    mergeable b s_src clock history = Ok source ->
    staker (authorized (merge_meta kind)) ∈ signers ->
    merge_kinds env kind source (if stake_program_v4 env then Some clock else None) = Ok merged ->
    merge_step l a b s s_src (default s merged).

(** What a withdrawal must leave: the stake that is not free yet, and the rent unless
    nothing is left.  A lockup in force needs its custodian. *)
Definition lock_open (clock : Clock) (m : Meta) : Prop :=
  is_in_force (lockup m) clock None = true -> lockup_custodian (lockup m) ∈ signers.
Definition not_free (clock : Clock) (history : StakeHistory) (d : Delegation) : Z :=
  if deactivation_epoch d <=? clock_epoch clock
  then delegation_stake d (clock_epoch clock) (Some history) else d_stake d.

Inductive withdraw_step (l : ledger) (me : Pubkey) (a : AccountSharedData) (x : Z)
    : StakeState -> StakeState -> Prop :=
| wd_uninitialized :
    me ∈ signers -> withdraw_step l me a x Uninitialized Uninitialized
| wd_initialized m clock :
    withdrawer (authorized m) ∈ signers -> stake_clock env l clock -> lock_open clock m ->
    x = lamports a \/ x + rent_exempt_reserve m <= lamports a ->
    withdraw_step l me a x (Initialized m) (left_by a x (Initialized m))
| wd_delegated m st clock history :
    withdrawer (authorized m) ∈ signers -> stake_clock env l clock -> lock_open clock m ->
    x = lamports a /\ not_free clock history (delegation st) = 0 \/
    x + (not_free clock history (delegation st) + rent_exempt_reserve m) <= lamports a ->
    withdraw_step l me a x (Delegated m st) (left_by a x (Delegated m st)).

(** A step of the account itself, which may be a split or a withdrawal to itself *)
Inductive own_step (l : ledger) (me : Pubkey) (a : AccountSharedData)
    : StakeState -> StakeState -> Prop :=
| os_step s s' : stake_step l a s s' -> own_step l me a s s'
| os_split x : i = Split x -> me ∈ signers -> own_step l me a Uninitialized Uninitialized
| os_withdraw x s s' :
    i = StakeWithdraw x -> withdraw_step l me a x s s' -> own_step l me a s s'.

Inductive stake_effect (kas : list KeyedAccount) (me : Pubkey) (l : ledger) : ledger -> Prop :=
| se_own s s' a' :
    account_state (get_account l me) = Ok s -> own_step l me (get_account l me) s s' ->
    holds (get_account l me) a' s' (lamports (get_account l me)) ->
    stake_effect kas me l (<[me := a']> l)
| se_split split x s s1 s2 a' b' :
    i = Split x -> split ∈ unsigned_key <$> kas -> split <> me ->
    owner (get_account l split) = stake_program_id ->
    length (data (get_account l split)) = STAKE_STATE_SIZE ->
    account_state (get_account l split) = Ok Uninitialized ->
    account_state (get_account l me) = Ok s -> x <= lamports (get_account l me) ->
    lamports (get_account l split) + x <= u64_max ->
    split_step me (get_account l me) (get_account l split) x s s1 s2 ->
    holds (get_account l me) a' s1 (lamports (get_account l me) - x) ->
    holds (get_account l split) b' s2 (lamports (get_account l split) + x) ->
    stake_effect kas me l (<[me := a']> (<[split := b']> l))
| se_merge source s s_src s' a' b' :
    i = Merge -> source ∈ unsigned_key <$> kas -> source <> me ->
    owner (get_account l source) = stake_program_id ->
    account_state (get_account l source) = Ok s_src ->
    account_state (get_account l me) = Ok s ->
    lamports (get_account l me) + lamports (get_account l source) <= u64_max ->
    merge_step l (get_account l me) (get_account l source) s s_src s' ->
    holds (get_account l me) a' s'
      (lamports (get_account l me) + lamports (get_account l source)) ->
    holds (get_account l source) b' Uninitialized 0 ->
    stake_effect kas me l (<[me := a']> (<[source := b']> l))
| se_withdraw to x s s' a' :
    i = StakeWithdraw x -> to ∈ unsigned_key <$> kas -> to <> me ->
    account_state (get_account l me) = Ok s -> x <= lamports (get_account l me) ->
    lamports (get_account l to) + x <= u64_max ->
    withdraw_step l me (get_account l me) x s s' ->
    holds (get_account l me) a' s' (lamports (get_account l me) - x) ->
    stake_effect kas me l
      (<[to := set_lamports (lamports (get_account l to) + x) (get_account l to)]> (<[me := a']> l)).
End Effect.
