(* ===== verification/StakeSafety.v ===== *)
(** * What a successful stake instruction did

    Every successful stake instruction has one of the effects of [stake_effect]. *)

From Stdlib Require Import ZArith Lia SpecFloat.
From Stdlib Require Import Strings.Byte.
From stdpp Require Import prelude gmap numbers sorting list.
From S2P Require Import Prelude Sdk Runtime SystemInstruction SystemProgram SystemFacts Codec ShortVec ConfigProgram VoteState VoteProgram VoteTower VoteVoters VoteSlots VoteTyped VoteSafety StakeState StakeRewards StakeProgram StakeActivation StakeEffect.

(** ** Typed fields *)

Lemma wrap64_u64 x : in_u64 (wrap64 x).
Proof. apply wrap64_range. Qed.

Lemma saturating_sub_u64 x y : in_u64 x -> 0 <= y -> in_u64 (saturating_sub x y).
Proof. unfold in_u64, saturating_sub. lia. Qed.

Lemma state_meta_typed s m : state_typed s -> state_meta s = Some m -> meta_typed m.
Proof. destruct s; cbn; naive_solver. Qed.

Lemma with_meta_typed s m : state_typed s -> meta_typed m -> state_typed (with_meta m s).
Proof. destruct s; cbn; naive_solver. Qed.

Lemma set_amount_typed st x : stake_typed st -> in_u64 x -> stake_typed (set_stake_amount x st).
Proof. intros [(? & ? & ? & ?) ?] ?. by split_and!. Qed.

(** Only its custodian lifts a lockup in force. *)
Lemma in_force_lifted lk c k :
  is_in_force lk c None = true -> is_in_force lk c (Some k) = false -> k = lockup_custodian lk.
Proof.
  unfold is_in_force. rewrite bool_decide_false by done. intros ->.
  case_bool_decide as Hk; [|done]. by injection Hk.
Qed.

Section Writes.
Context `{StakeBincode}.

Lemma write_holds a s a' :
  state_typed s -> account_set_state s a = Ok a' -> holds a a' s (lamports a).
Proof.
  intros Ht Ha. pose proof (account_set_state_Ok _ _ _ Ha) as (? & ? & ?). split; try done.
  unfold account_set_state in Ha. run_inv. unfold account_state. cbn. by rewrite stake_roundtrip.
Qed.

Lemma state_typed_of a s : account_state a = Ok s -> state_typed s.
Proof. unfold account_state. intros ?%ok_or_Ok. by eapply stake_read_typed. Qed.

Lemma set_state_holds ka s l u l' :
  state_typed s -> ka_set_state ka s l = Ok (u, l') ->
  exists a', holds (acct l ka) a' s (lamports (acct l ka)) /\ l' = <[unsigned_key ka := a']> l.
Proof.
  intros Ht (_ & a' & Ha & ->)%update_account_Ok. exists a'. split; [by apply write_holds|done].
Qed.

(** [if c { account.set_state(s) }] *)
Lemma set_state_if_holds (c : bool) ka s0 s l u l' :
  account_state (acct l ka) = Ok s0 -> state_typed s ->
  (if c then ka_set_state ka s else mret tt) l = Ok (u, l') ->
  exists a', holds (acct l ka) a' (if c then s else s0) (lamports (acct l ka)) /\
    acct l' ka = a' /\ forall k b, k = unsigned_key ka -> <[k := b]> l' = <[k := b]> l.
Proof.
  intros Hs Ht H'. destruct c.
  - apply set_state_holds in H' as (a' & Ha & ->); [|done]. exists a'. split_and!; [done| |].
    + apply get_account_insert_eq.
    + intros k b ->. apply insert_insert_eq.
  - run_inv. eexists. split_and!; [by apply holds_refl|done..].
Qed.

Lemma set_state_if_frame (c : bool) ka (s : StakeState) l u l' k :
  k <> unsigned_key ka -> (if c then ka_set_state ka s else mret tt) l = Ok (u, l') ->
  get_account l' k = get_account l k.
Proof.
  intros Hk Hrun. destruct c; [|by run_inv].
  apply update_account_Ok in Hrun as (_ & a' & _ & ->). by apply get_account_insert_ne.
Qed.
End Writes.

Section Handlers.
Context (hashv : list bytes -> Hash).
Context `{StakeBincode} `{Bincode Rent}.
Context (env : StakeEnv) (signers : gset Pubkey) (i : StakeInstruction).
Context (kas : list KeyedAccount) (me : KeyedAccount) (l : ledger).
Context (Hcache : forall c, stake_cache_clock env = Some c -> in_u64 (clock_epoch c)).
Context (Hbal : forall k, in_u64 (lamports (get_account l k))).

Abbreviation effect := (stake_effect hashv env signers i kas (unsigned_key me) l).
Abbreviation approves := (approves hashv signers i).
Abbreviation step := (stake_step hashv env signers i l).

Lemma clock_typed c : stake_clock env l c -> in_u64 (clock_epoch c).
Proof. intros [?|?]; [by apply Hcache|by eapply clock_read_typed]. Qed.

(** ** Steps of a state *)

Lemma meta_step_typed c m m' : meta_typed m -> meta_step hashv signers i c m m' -> meta_typed m'.
Proof.
  intros [Hr [Ht He]] Hstep. destruct Hstep as [k| k|args _ _ _ [Hat Hae]]; cbn; [done..|].
  split; [done|]. split; cbn.
  - destruct (la_unix_timestamp args); cbn; [by apply Hat|done].
  - destruct (la_epoch args); cbn; [by apply Hae|done].
Qed.

Lemma redelegate_typed st x vote v c h config b st' :
  stake_typed st -> in_u64 x -> in_u64 (clock_epoch c) -> f64_ok (config_warmup_cooldown_rate config) ->
  in_u64 (credits v) -> redelegate st x vote v c h config b = Ok st' -> stake_typed st'.
Proof.
  intros [(? & ? & ? & ?) ?] ? ? ? ? Hr. unfold redelegate in Hr.
  destruct (negb _); [case_match; [|done]|]; injection Hr as <-; by split_and!.
Qed.

Lemma stake_step_typed s s' :
  stake_instr_typed i -> state_typed s -> step (acct l me) s s' -> state_typed s'.
Proof.
  intros Hi Hs Hstep. pose proof (Hbal (unsigned_key me)) as Hb.
  destruct Hstep as [auth lk rent Hlk _ _|c s m m' _ Hm Hstep|m c config vote v _ Hc _ Hcfg Hv
    |m st st' c h config vote v _ Hc _ Hcfg Hv Hr|m st c _ Hc _ _].
  - split; [apply minimum_balance_u64|]. cbn. destruct Hlk as [->|(_ & -> & _)]; [done|].
    by split.
  - apply with_meta_typed; [done|]. eapply meta_step_typed; [|done]. by eapply state_meta_typed.
  - split; [done|]. apply clock_typed in Hc. cbn in Hs. destruct Hs as [[? _] _].
    split; [|done]. split; [by apply saturating_sub_u64|by split_and!].
  - destruct Hs as [Hm Hst]. split; [done|]. eapply redelegate_typed; [done| |by apply clock_typed|done..].
    destruct Hm as [[? _] _]. by apply saturating_sub_u64.
  - apply clock_typed in Hc. destruct Hs as [Hm [(? & ? & ? & ?) ?]]. by split_and!.
Qed.

Lemma state_effect s s' u l' :
  stake_instr_typed i -> account_state (acct l me) = Ok s -> step (acct l me) s s' ->
  ka_set_state me s' l = Ok (u, l') -> effect l'.
Proof.
  intros Hi Hs Hstep Hset. apply set_state_holds in Hset as (a' & Ha & ->).
  - eapply se_own; [done|by apply os_step|done].
  - eapply stake_step_typed; [done| |done]. by eapply state_typed_of.
Qed.

Lemma stake_initialize_effect auth lk rent u l' :
  stake_instr_typed i ->
  i = StakeInitialize auth lk \/
    (i = InitializeChecked /\ lk = lockup_default /\ withdrawer auth ∈ signers) ->
  StakeProgram.initialize me auth lk rent l = Ok (u, l') -> effect l'.
Proof.
  intros Ht Hi Hrun. unfold StakeProgram.initialize in Hrun.
  apply st_bind_Ok in Hrun as (? & ? & [-> ->]%ka_data_len_Ok & Hrun).
  apply st_bind_Ok in Hrun as (? & ? & [Hlen%fail_if_Ok%negb_false_iff%Nat.eqb_eq ->]%lift_Ok & Hrun).
  apply st_bind_Ok in Hrun as (s & ? & [Hs ->]%ka_state_Ok & Hrun).
  destruct s; [|by apply throw_Ok in Hrun..].
  apply st_bind_Ok in Hrun as (? & ? & [-> ->]%ka_data_len_Ok & Hrun).
  apply st_bind_Ok in Hrun as (? & ? & [-> ->]%ka_lamports_Ok & Hrun). rewrite Hlen in Hrun.
  destruct (Z.ltb_spec (minimum_balance rent STAKE_STATE_SIZE) (lamports (acct l me)));
    [|by apply throw_Ok in Hrun].
  eapply state_effect; [done..| |done]. by constructor.
Qed.

Lemma check_custodian_Ok m c custodian S :
  check_custodian (Some (lockup m, c, custodian)) S = Ok tt ->
  is_in_force (lockup m) c None = true -> lockup_custodian (lockup m) ∈ S.
Proof.
  unfold check_custodian. intros Hrun Hf. rewrite Hf in Hrun. destruct custodian as [k|]; [|done].
  keyed_inv. by rewrite <- (in_force_lifted (lockup m) c k).
Qed.

Lemma authorize_step S k what c custodian m a :
  (forall k, k ∈ S -> approves k) -> sets_authority i ->
  authorized_authorize (authorized m) S k what (Some (lockup m, c, custodian)) = Ok a ->
  meta_step hashv signers i c m (set_authorized a m).
Proof.
  intros HS Hi Hrun. destruct what; cbn -[check_custodian] in Hrun.
  - keyed_inv. apply ms_staker; [done|].
    match goal with H : (_ && _)%bool = false |- _ => apply andb_false_iff in H as [?|?] end; keyed_inv;
      [left|right]; by apply HS.
  - apply bind_Ok in Hrun as ([] & Hc & Hrun). apply bind_Ok in Hrun as ([] & Hw & Hrun). run_inv.
    case_bool_decide; [|done]. apply ms_withdrawer; [done|by apply HS|].
    intros Hf. by eapply HS, check_custodian_Ok.
Qed.

Lemma stake_authorize_effect S k what c custodian u l' :
  stake_instr_typed i -> stake_clock env l c -> (forall k, k ∈ S -> approves k) -> sets_authority i ->
  StakeProgram.authorize me S k what true c custodian l = Ok (u, l') -> effect l'.
Proof.
  intros Ht Hc HS Hi Hrun. unfold StakeProgram.authorize in Hrun.
  apply st_bind_Ok in Hrun as (s & ? & [Hs ->]%ka_state_Ok & Hrun).
  destruct s as [|m|m st|]; try by apply throw_Ok in Hrun.
  all: apply st_bind_Ok in Hrun as (a & ? & [Ha ->]%lift_Ok & Hrun).
  all: eapply authorize_step in Ha; [|done..].
  all: eapply state_effect; [done..| |done].
  - by apply (st_meta _ _ _ _ _ _ c (Initialized m) m); [left| |].
  - by apply (st_meta _ _ _ _ _ _ c (Delegated m st) m); [left| |].
Qed.

Lemma set_lockup_step m args o m' :
  seed_of i = None -> sets_lockup i -> lockup_args_typed args ->
  (forall c, o = Some c -> stake_clock env l c) ->
  meta_set_lockup m args signers o = Ok m' ->
  exists c, (stake_clock env l c \/ approves (lockup_custodian (lockup m))) /\
    meta_step hashv signers i c m m'.
Proof.
  intros Hseed Hi Hargs Ho Hrun. unfold meta_set_lockup in Hrun. run_inv.
  assert (forall k, k ∈ signers -> approves k) as Hap.
  { intros k Hk. unfold StakeEffect.approves. by rewrite Hseed. }
  destruct o as [c|].
  - exists c. split; [by left; apply Ho|].
    destruct (is_in_force (lockup m) c None) eqn:Hf; keyed_inv; apply ms_lockup; auto; congruence.
  - exists (mkClock 0 0 0 0 0). keyed_inv. split; [by right; apply Hap|]. apply ms_lockup; auto.
Qed.

Lemma set_lockup_effect args o u l' :
  stake_instr_typed i -> seed_of i = None -> sets_lockup i -> lockup_args_typed args ->
  (forall c, o = Some c -> stake_clock env l c) ->
  StakeProgram.set_lockup me args signers o l = Ok (u, l') -> effect l'.
Proof.
  intros Ht Hseed Hi Hargs Ho Hrun. unfold StakeProgram.set_lockup in Hrun.
  apply st_bind_Ok in Hrun as (s & ? & [Hs ->]%ka_state_Ok & Hrun).
  destruct s as [|m|m st|]; try by apply throw_Ok in Hrun.
  all: apply st_bind_Ok in Hrun as (m' & ? & [Hm' ->]%lift_Ok & Hrun).
  all: eapply set_lockup_step in Hm' as (c & Hc & Hm'); [|done..].
  all: eapply state_effect; [done..| |done].
  - by apply (st_meta _ _ _ _ _ _ c (Initialized m) m).
  - by apply (st_meta _ _ _ _ _ _ c (Delegated m st) m).
Qed.

Lemma authorized_check_Ok a S what :
  authorized_check a S what = Ok tt ->
  match what with Staker => staker a | Withdrawer => withdrawer a end ∈ S.
Proof. destruct what; cbn; by case_bool_decide. Qed.

Lemma vote_state_of_typed vote v l1 l2 :
  StakeProgram.vote_state_of vote l1 = Ok (v, l2) -> in_u64 (credits v) /\ l2 = l1.
Proof.
  unfold StakeProgram.vote_state_of. intros Hrun.
  apply st_bind_Ok in Hrun as ([v'] & ? & [Hs ->]%ka_state_Ok & Hrun). run_inv. split; [|done].
  unfold account_state in Hs. apply ok_or_Ok in Hs. by eapply vote_read_typed.
Qed.

Lemma delegate_effect vote c h config u l' :
  i = DelegateStake -> stake_clock env l c -> f64_ok (config_warmup_cooldown_rate config) ->
  StakeProgram.delegate me vote c h config signers (stake_program_v4 env) l = Ok (u, l') ->
  effect l'.
Proof.
  intros Hi Hc Hcfg Hrun. unfold StakeProgram.delegate in Hrun.
  apply st_bind_Ok in Hrun as (? & ? & [-> ->]%ka_owner_Ok & Hrun).
  apply st_bind_Ok in Hrun as ([] & ? & [_ ->]%lift_Ok & Hrun).
  apply st_bind_Ok in Hrun as (s & ? & [Hs ->]%ka_state_Ok & Hrun).
  destruct s as [|m|m st|]; try by apply throw_Ok in Hrun.
  all: apply st_bind_Ok in Hrun as ([] & ? & [Hsig%authorized_check_Ok ->]%lift_Ok & Hrun).
  all: apply st_bind_Ok in Hrun as (? & ? & [-> ->]%ka_lamports_Ok & Hrun).
  all: apply st_bind_Ok in Hrun as (v & ? & [Hv ->]%vote_state_of_typed & Hrun).
  - eapply state_effect; [by rewrite Hi|done| |done]. by apply st_delegate.
  - apply st_bind_Ok in Hrun as (st' & ? & [Hr%map_err_Ok ->]%lift_Ok & Hrun).
    eapply state_effect; [by rewrite Hi|done| |done]. by eapply st_redelegate.
Qed.

Lemma deactivate_effect c u l' :
  i = Deactivate -> stake_clock env l c ->
  StakeProgram.deactivate me c signers l = Ok (u, l') -> effect l'.
Proof.
  intros Hi Hc Hrun. unfold StakeProgram.deactivate in Hrun.
  apply st_bind_Ok in Hrun as (s & ? & [Hs ->]%ka_state_Ok & Hrun).
  destruct s as [|m|m st|]; try by apply throw_Ok in Hrun.
  apply st_bind_Ok in Hrun as ([] & ? & [Hsig%authorized_check_Ok ->]%lift_Ok & Hrun).
  apply st_bind_Ok in Hrun as (st' & ? & [Hd%map_err_Ok ->]%lift_Ok & Hrun).
  unfold stake_deactivate in Hd.
  destruct (Z.eqb_spec (deactivation_epoch (delegation st)) u64_max); [|done].
  injection Hd as <-.
  eapply state_effect; [by rewrite Hi|done| |done]. by apply st_deactivate.
Qed.

(** ** Splitting *)

Lemma check_split_Ok split x m u l' :
  StakeProgram.check_split me split x m (split_reserve m (acct l me) (acct l split)) l = Ok (u, l') ->
  split_covers m (acct l me) (acct l split) x /\ l' = l.
Proof.
  unfold StakeProgram.check_split. intros Hrun.
  apply st_bind_Ok in Hrun as (? & ? & [-> ->]%ka_lamports_Ok & Hrun).
  apply st_bind_Ok in Hrun as (? & ? & [-> ->]%ka_lamports_Ok & Hrun).
  destruct (Z.leb_spec x (saturating_sub (split_reserve m (acct l me) (acct l split))
    (lamports (acct l split)))); [by apply throw_Ok in Hrun|].
  destruct (Z.eqb_spec x (lamports (acct l me))); cbn in Hrun.
  - run_inv. by split; [split|].
  - unfold ix_checked_add in Hrun. run_inv. rename select ((_ <=? _) = false) into Hle.
    apply Z.leb_gt in Hle. by split; [split|].
Qed.

(** The states after [split_states]: those of a split, before an emptied account is
    reset. *)
Lemma split_states_Ok split x s u l1 :
  0 <= x -> unsigned_key split <> unsigned_key me -> account_state (acct l me) = Ok s ->
  account_state (acct l split) = Ok Uninitialized ->
  StakeProgram.split_states me split x signers l = Ok (u, l1) ->
  exists s1 s2, holds (acct l me) (acct l1 me) s1 (lamports (acct l me)) /\
    holds (acct l split) (acct l1 split) s2 (lamports (acct l split)) /\
    split_step signers (unsigned_key me) (acct l me) (acct l split) x s
      (left_by (acct l me) x s1) s2 /\
    forall a b, <[unsigned_key me := a]> (<[unsigned_key split := b]> l1) =
                <[unsigned_key me := a]> (<[unsigned_key split := b]> l).
Proof.
  intros Hx Hne Hs Hb Hrun. unfold StakeProgram.split_states in Hrun.
  pose proof (state_typed_of _ _ Hs) as Ht. pose proof (holds_refl _ _ Hs) as Hh.
  apply st_bind_Ok in Hrun as (s' & ? & [Hs' ->]%ka_state_Ok & Hrun).
  rewrite Hs in Hs'. injection Hs' as <-.
  destruct s as [|m|m st|]; [| | |by apply throw_Ok in Hrun].
  - keyed_inv. exists Uninitialized, Uninitialized. split_and!; [done|by apply holds_refl| |done].
    unfold left_by. destruct (_ =? _); by constructor.
  - apply st_bind_Ok in Hrun as ([] & ? & [Hsig%authorized_check_Ok ->]%lift_Ok & Hrun).
    apply st_bind_Ok in Hrun as (? & ? & [-> ->]%ka_data_len_Ok & Hrun).
    apply st_bind_Ok in Hrun as (? & ? & [-> ->]%ka_data_len_Ok & Hrun).
    apply st_bind_Ok in Hrun as ([] & ? & [Hcov ->]%check_split_Ok & Hrun).
    apply set_state_holds in Hrun as (b' & Hb' & ->); [|split; [apply wrap64_u64|apply Ht]].
    eexists _, _. rewrite get_account_insert_eq, get_account_insert_ne by done.
    split_and!; [done..|by constructor|]. intros. by rewrite insert_insert_eq.
  - apply st_bind_Ok in Hrun as ([] & ? & [Hsig%authorized_check_Ok ->]%lift_Ok & Hrun).
    apply st_bind_Ok in Hrun as (? & ? & [-> ->]%ka_data_len_Ok & Hrun).
    apply st_bind_Ok in Hrun as (? & ? & [-> ->]%ka_data_len_Ok & Hrun).
    apply st_bind_Ok in Hrun as ([] & ? & [Hcov ->]%check_split_Ok & Hrun).
    apply st_bind_Ok in Hrun as (? & ? & [-> ->]%ka_lamports_Ok & Hrun).
    apply st_bind_Ok in Hrun as (? & ? & [-> ->]%ka_lamports_Ok & Hrun).
    fold (split_reserve m (acct l me) (acct l split)) in Hrun.
    fold (split_amounts m (acct l me) (acct l split) x) in Hrun.
    assert (in_u64 (split_amounts m (acct l me) (acct l split) x).2 /\
      0 <= (split_amounts m (acct l me) (acct l split) x).1) as [Ham Hd].
    { unfold split_amounts. destruct Ht as [[[? _] _] _].
      destruct (Z.eqb_spec x (lamports (acct l me))) as [->|]; cbn.
      - split; [by apply saturating_sub_u64|apply Z.le_max_l].
      - split; [apply wrap64_u64|done]. }
    destruct (split_amounts m (acct l me) (acct l split) x) as [delta amount] eqn:Esplit.
    apply st_bind_Ok in Hrun as ([st1 st2] & ? & [Hst%map_err_Ok ->]%lift_Ok & Hrun).
    unfold stake_split in Hst. apply bind_Ok in Hst as ([] & Hle%fail_if_Ok%Z.ltb_ge & Hst).
    injection Hst as <- <-. destruct Ht as [Hm Hst]. pose proof Hst as [([? ?] & _) _].
    cbn in Ham, Hd.
    apply st_bind_Ok in Hrun as ([] & ? & Hset & Hrun).
    apply set_state_holds in Hset as (a' & Ha' & ->);
      [|split; [done|]; apply set_amount_typed; [done|unfold in_u64 in *; lia]].
    apply set_state_holds in Hrun as (b' & Hb' & ->);
      [|split; [split; [apply wrap64_u64|apply Hm]|by apply set_amount_typed]].
    rewrite get_account_insert_ne in Hb' by done.
    eexists _, _. rewrite get_account_insert_eq, get_account_insert_ne, get_account_insert_eq by done.
    split_and!; [done..| |].
    + replace delta with (split_amounts m (acct l me) (acct l split) x).1 by (by rewrite Esplit).
      replace amount with (split_amounts m (acct l me) (acct l split) x).2 by (by rewrite Esplit).
      constructor; [done..|]. by rewrite Esplit.
    + intros. rewrite insert_insert_eq. apply map_eq. intros k. rewrite !lookup_insert.
      by repeat case_decide.
Qed.

(** Lamports are moved after the states are written. *)
Lemma split_self_effect split x u l' :
  i = Split x -> 0 <= x -> unsigned_key split = unsigned_key me ->
  StakeProgram.split me split x signers l = Ok (u, l') -> effect l'.
Proof.
  intros Hi Hx Hk Hrun. unfold StakeProgram.split in Hrun.
  apply st_bind_Ok in Hrun as (? & ? & [-> ->]%ka_owner_Ok & Hrun).
  apply st_bind_Ok in Hrun as ([] & ? & [_ ->]%lift_Ok & Hrun).
  apply st_bind_Ok in Hrun as (? & ? & [-> ->]%ka_data_len_Ok & Hrun).
  apply st_bind_Ok in Hrun as ([] & ? & [_ ->]%lift_Ok & Hrun).
  apply st_bind_Ok in Hrun as (s & ? & [Hs ->]%ka_state_Ok & Hrun). rewrite Hk in Hs.
  destruct s; [|by apply throw_Ok in Hrun..].
  apply st_bind_Ok in Hrun as (? & ? & [-> ->]%ka_lamports_Ok & Hrun).
  apply st_bind_Ok in Hrun as ([] & ? & [Hle ->]%lift_Ok & Hrun).
  apply st_bind_Ok in Hrun as ([] & ? & Hst & Hrun). unfold StakeProgram.split_states in Hst.
  apply st_bind_Ok in Hst as (s & ? & [Hs' ->]%ka_state_Ok & Hst).
  rewrite Hs in Hs'. injection Hs' as <-.
  apply lift_Ok in Hst as [Hsig%fail_if_Ok%negb_false_iff%bool_decide_eq_true ->].
  apply st_bind_Ok in Hrun as (? & ? & [-> ->]%ka_lamports_Ok & Hrun).
  apply st_bind_Ok in Hrun as ([] & l1 & Hif & Hrun).
  eapply set_state_if_holds in Hif as (a1 & Ha1 & E1 & Hl1); [|done..].
  apply st_bind_Ok in Hrun as ([] & ? & (_ & a2 & [_ ->]%add_lamports_Ok & ->)%update_account_Ok & Hrun).
  apply update_account_Ok in Hrun as (_ & a3 & [_ ->]%sub_lamports_Ok & ->).
  rewrite Hk, get_account_insert_eq, insert_insert_eq, Hl1, E1 by done. cbn.
  eapply se_own; [done|by eapply os_split|].
  destruct Ha1 as [Hst Hl Ho Hd]. destruct (_ =? _); split; try done; cbn; lia.
Qed.

Lemma split_effect split x u l' :
  i = Split x -> 0 <= x -> split ∈ kas ->
  StakeProgram.split me split x signers l = Ok (u, l') -> effect l'.
Proof.
  intros Hi Hx Hin Hrun.
  destruct (decide (unsigned_key split = unsigned_key me)) as [Hk|Hne];
    [by eapply split_self_effect|].
  unfold StakeProgram.split in Hrun.
  apply st_bind_Ok in Hrun as (? & ? & [-> ->]%ka_owner_Ok & Hrun).
  apply st_bind_Ok in Hrun as ([] & ? & [Ho%fail_if_Ok%negb_false_iff%bool_decide_eq_true ->]%lift_Ok & Hrun).
  apply st_bind_Ok in Hrun as (? & ? & [-> ->]%ka_data_len_Ok & Hrun).
  apply st_bind_Ok in Hrun as ([] & ? & [Hlen%fail_if_Ok%negb_false_iff%Nat.eqb_eq ->]%lift_Ok & Hrun).
  apply st_bind_Ok in Hrun as (sb & ? & [Hb ->]%ka_state_Ok & Hrun).
  destruct sb; [|by apply throw_Ok in Hrun..].
  apply st_bind_Ok in Hrun as (? & ? & [-> ->]%ka_lamports_Ok & Hrun).
  apply st_bind_Ok in Hrun as ([] & ? & [Hle%fail_if_Ok%Z.ltb_ge ->]%lift_Ok & Hrun).
  apply st_bind_Ok in Hrun as ([] & l1 & Hst & Hrun).
  assert (exists s : StakeState, account_state (acct l me) = Ok s) as [s Hs].
  { unfold StakeProgram.split_states in Hst.
    apply st_bind_Ok in Hst as (s & ? & [Hs _]%ka_state_Ok & _). eauto. }
  eapply split_states_Ok in Hst as (s1 & s2 & Ha & Hb1 & Hsp & Hl); [|done..].
  apply st_bind_Ok in Hrun as (? & ? & [-> ->]%ka_lamports_Ok & Hrun).
  apply st_bind_Ok in Hrun as ([] & l2 & Hif & Hrun).
  pose proof Hif as Hframe. apply (set_state_if_frame _ _ _ _ _ _ (unsigned_key split)) in Hframe; [|done].
  eapply set_state_if_holds in Hif as (a1 & Ha1 & E1 & Hl2); [|apply Ha|done].
  apply st_bind_Ok in Hrun as ([] & ? & (_ & b' & [Hmax ->]%add_lamports_Ok & ->)%update_account_Ok & Hrun).
  apply update_account_Ok in Hrun as (_ & a' & [_ ->]%sub_lamports_Ok & ->).
  rewrite (get_account_insert_ne _ (unsigned_key split)), E1, Hframe by done.
  rewrite Hframe in Hmax. pose proof (holds_lamports _ _ _ _ Hb1) as Hlb.
  pose proof (holds_lamports _ _ _ _ Ha1) as Hla. pose proof (holds_lamports _ _ _ _ Ha) as Hla'.
  rewrite insert_insert_ne, Hl2, insert_insert_ne, Hl by done.
  eapply (se_split _ _ _ _ _ _ _ (unsigned_key split)); [done|by apply list_elem_of_fmap_2|done..| | | |].
  - by rewrite <- Hlb.
  - exact Hsp.
  - rewrite Hla, Hla'. eapply holds_set_lamports. eapply holds_trans; [exact Ha|].
    unfold left_by. by rewrite Hla' in Ha1.
  - rewrite Hlb. by eapply holds_set_lamports.
Qed.

(** ** Merging *)

Lemma get_if_mergeable_Ok ka c h kind l' :
  StakeProgram.get_if_mergeable ka c h l = Ok (kind, l') ->
  exists s, account_state (acct l ka) = Ok s /\ mergeable (acct l ka) s c h = Ok kind /\ l' = l.
Proof.
  unfold StakeProgram.get_if_mergeable, mergeable. intros Hrun.
  apply st_bind_Ok in Hrun as (s & ? & [Hs ->]%ka_state_Ok & Hrun). exists s. split; [done|].
  destruct s as [|m|m st|]; try by apply throw_Ok in Hrun.
  - by keyed_inv.
  - destruct (_ =? 0), (_ && _); keyed_inv; done.
Qed.

Lemma mergeable_meta a s c h kind :
  state_typed s -> mergeable a s c h = Ok kind ->
  exists m, state_meta s = Some m /\ merge_meta kind = m /\
    (forall st, active_stake kind = Some st -> s = Delegated m st).
Proof.
  destruct s as [|m|m st|]; cbn; intros _ Hk; [done| | |done].
  - injection Hk as <-. exists m. by split_and!.
  - exists m. destruct (_ =? 0), (_ && _); try done; injection Hk as <-; cbn;
      split_and!; naive_solver.
Qed.

Lemma weighted_credits_u64 st x y c :
  in_u64 (credits_observed st) -> 0 <= d_stake (delegation st) -> 0 <= x -> 0 <= y ->
  stake_weighted_credits_observed st x y = Some c -> in_u64 c.
Proof.
  intros Hc Hd Hx Hy. unfold stake_weighted_credits_observed.
  destruct (_ =? y); [by intros [= <-]|]. unfold checked_add.
  destruct (_ <=? u64_max); cbn; [|done]. repeat case_match; try done. intros [= <-].
  keyed_inv. rename select (_ / _ <= _) into Hle. rename select (_ + _ <> 0) into Hne.
  split; [|done]. apply Z.div_pos; nia.
Qed.

Lemma merge_stake_typed st x y st' :
  stake_typed st -> 0 <= x -> 0 <= y ->
  merge_delegation_stake_and_credits_observed env st x y = Ok st' -> stake_typed st'.
Proof.
  intros [(Hd & ? & ? & ?) Hc] Hx Hy Hm. unfold merge_delegation_stake_and_credits_observed in Hm.
  apply bind_Ok in Hm as (st1 & Hst1 & Hm). unfold ix_checked_add in Hm. run_inv.
  assert (delegation st1 = delegation st /\ in_u64 (credits_observed st1)) as [E Hc1].
  { destruct (stake_merge_with_unmatched_credits_observed env); run_inv; [|done].
    split; [done|]. eapply weighted_credits_u64; [..|done]; try done. apply Hd. }
  rewrite E in *. apply set_amount_typed; [|unfold in_u64 in *; lia]. split; [|done].
  rewrite E. by split_and!.
Qed.

Lemma merge_kinds_typed s s_src a b c h kind source o merged :
  in_u64 (lamports b) -> state_typed s -> state_typed s_src ->
  mergeable a s c h = Ok kind -> mergeable b s_src c h = Ok source ->
  merge_kinds env kind source o = Ok merged -> state_typed (default s merged).
Proof.
  intros Hb Hs Hsrc Hk Hk' Hm.
  pose proof (mergeable_meta _ _ _ _ _ Hs Hk) as (m & Em & Ekm & Est).
  pose proof (mergeable_meta _ _ _ _ _ Hsrc Hk') as (m' & Em' & Ekm' & Est').
  assert (forall st, active_stake kind = Some st -> meta_typed m /\ stake_typed st) as Ht.
  { intros st ->%Est. exact Hs. }
  assert (forall st, active_stake source = Some st -> meta_typed m' /\ stake_typed st) as Ht'.
  { intros st ->%Est'. exact Hsrc. }
  assert (forall m x, source = Inactive m x -> x = lamports b) as Hx.
  { intros m1 x ->. destruct s_src; cbn in Hk'; repeat case_match; congruence. }
  unfold merge_kinds in Hm. apply bind_Ok in Hm as ([] & _ & Hm). apply bind_Ok in Hm as ([] & _ & Hm).
  destruct kind as [m1 x1|m1 st|m1 st], source as [m2 x|m2 st2|m2 st2]; cbn in *; subst; try done;
    try by injection Hm as <-.
  all: destruct (Ht _ eq_refl) as [? Hst].
  - unfold ix_checked_add in Hm. run_inv. split; [done|]. rewrite (Hx _ _ eq_refl) in *.
    apply set_amount_typed; [done|]. destruct Hst as [([? ?] & _) _]. unfold in_u64 in *. lia.
  - destruct (Ht' _ eq_refl) as [[[Hr _] _] [([Hd _] & _) [Hc _]]].
    unfold ix_checked_add in Hm. run_inv. split; [done|].
    eapply merge_stake_typed; [exact Hst| | |done]; lia.
  - destruct (Ht' _ eq_refl) as [_ [([Hd _] & _) [Hc _]]].
    apply bind_Ok in Hm as (st' & Hst' & Hm). injection Hm as <-. split; [done|].
    by eapply merge_stake_typed in Hst'.
Qed.

Lemma merge_effect source c h u l' :
  i = Merge -> source ∈ kas -> stake_clock env l c ->
  StakeProgram.merge env me source c h signers (stake_program_v4 env) l = Ok (u, l') -> effect l'.
Proof.
  intros Hi Hin Hc Hrun. unfold StakeProgram.merge in Hrun.
  apply st_bind_Ok in Hrun as (? & ? & [-> ->]%ka_owner_Ok & Hrun).
  apply st_bind_Ok in Hrun as ([] & ? & [Ho%fail_if_Ok%negb_false_iff%bool_decide_eq_true ->]%lift_Ok & Hrun).
  apply st_bind_Ok in Hrun as ([] & ? & [Hne%fail_if_Ok%bool_decide_eq_false ->]%lift_Ok & Hrun).
  apply st_bind_Ok in Hrun as (kind & ? & (s & Hs & Hk & ->)%get_if_mergeable_Ok & Hrun).
  apply st_bind_Ok in Hrun as ([] & ? & [Hsig%authorized_check_Ok ->]%lift_Ok & Hrun).
  apply st_bind_Ok in Hrun as (kind' & ? & (s_src & Hsrc & Hk' & ->)%get_if_mergeable_Ok & Hrun).
  apply st_bind_Ok in Hrun as (merged & ? & [Hm ->]%lift_Ok & Hrun).
  assert (state_typed (default s merged)) as Ht.
  { by eapply merge_kinds_typed; [apply Hbal|eapply state_typed_of; [exact Hs]
      |eapply state_typed_of; exact Hsrc|..]. }
  apply st_bind_Ok in Hrun as ([] & l1 & Hset & Hrun).
  assert (exists a, holds (acct l me) a (default s merged) (lamports (acct l me)) /\
    acct l1 me = a /\ acct l1 source = acct l source /\
    forall a', <[unsigned_key me := a']> l1 = <[unsigned_key me := a']> l) as (a & Ha & Ea & Eb & Hl1).
  { destruct merged as [s'|].
    - apply set_state_holds in Hset as (a & ? & ->); [|done]. exists a. split_and!; [done|..].
      + apply get_account_insert_eq.
      + by apply get_account_insert_ne.
      + intros. apply insert_insert_eq.
    - run_inv. eexists. split_and!; [by apply holds_refl|done..]. }
  apply st_bind_Ok in Hrun as ([] & l2 & Hset' & Hrun).
  apply set_state_holds in Hset' as (b & Hb & ->); [|done]. rewrite Eb in Hb.
  pose proof (holds_lamports _ _ _ _ Hb) as Elb. pose proof (holds_lamports _ _ _ _ Ha) as Ela.
  apply st_bind_Ok in Hrun as (x & ? & [-> ->]%ka_lamports_Ok & Hrun).
  rewrite get_account_insert_eq, Elb in Hrun.
  apply st_bind_Ok in Hrun as ([] & ? & (_ & b' & [_ ->]%sub_lamports_Ok & ->)%update_account_Ok & Hrun).
  apply update_account_Ok in Hrun as (_ & a' & [Hmax ->]%add_lamports_Ok & ->).
  rewrite get_account_insert_eq, insert_insert_eq in *.
  rewrite get_account_insert_ne, Ea, Ela in * by done.
  rewrite Elb, Z.sub_diag, insert_insert_ne, Hl1, insert_insert_ne by done.
  eapply (se_merge _ _ _ _ _ _ _ (unsigned_key source)); [done|by apply list_elem_of_fmap_2|done..| | |].
  - by econstructor.
  - by eapply holds_set_lamports.
  - by eapply holds_set_lamports.
Qed.


(** ** Withdrawing *)

Definition limits_of (S : gset Pubkey) (c : Clock) (h : StakeHistory) (s : StakeState) (lk : Lockup)
    (reserve : Z) (staked : bool) : Prop :=
  match s with
  | Uninitialized => unsigned_key me ∈ S /\ staked = false
  | Initialized m =>
      withdrawer (authorized m) ∈ S /\ lk = lockup m /\ rent_exempt_reserve m <= reserve /\
      staked = false
  | Delegated m st =>
      withdrawer (authorized m) ∈ S /\ lk = lockup m /\
      reserve = not_free c h (delegation st) + rent_exempt_reserve m /\
      staked = negb (not_free c h (delegation st) =? 0)
  | RewardsPool => False
  end.

Lemma withdraw_limits_Ok S c h b lk reserve staked l' :
  StakeProgram.withdraw_limits me c h S b l = Ok ((lk, reserve, staked), l') ->
  exists s, account_state (acct l me) = Ok s /\ l' = l /\ limits_of S c h s lk reserve staked.
Proof.
  unfold StakeProgram.withdraw_limits. intros Hrun.
  apply st_bind_Ok in Hrun as (s & ? & [Hs ->]%ka_state_Ok & Hrun). exists s. split; [done|].
  destruct s as [|m|m st|]; [by keyed_inv| | |by apply throw_Ok in Hrun].
  all: apply st_bind_Ok in Hrun as ([] & ? & [Hsig%authorized_check_Ok ->]%lift_Ok & Hrun).
  - apply st_bind_Ok in Hrun as (r & l1 & Hr & Hrun). destruct b; unfold ix_checked_add in Hr; run_inv;
      cbn; split_and!; try done; lia.
  - unfold ix_checked_add in Hrun. run_inv. cbn. by split_and!.
Qed.

Lemma limits_withdraw c h x k o s lk reserve staked :
  k ∈ signers -> (forall k, o = Some k -> k ∈ signers) -> stake_clock env l c ->
  limits_of {[k]} c h s lk reserve staked -> is_in_force lk c o = false ->
  (staked = true -> x + reserve <= lamports (acct l me)) ->
  (x <> lamports (acct l me) -> x + reserve <= lamports (acct l me)) ->
  withdraw_step env signers l (unsigned_key me) (acct l me) x s (left_by (acct l me) x s).
Proof.
  intros Hk Ho Hc Hlim Hf Hst Hpart.
  assert (forall k', k' ∈ ({[k]} : gset Pubkey) -> k' ∈ signers) as Hin.
  { by intros k' ->%elem_of_singleton. }
  assert (forall m, lk = lockup m -> lock_open signers c m) as Hopen.
  { intros m -> Hf'. destruct o as [k'|]; [|congruence].
    rewrite <- (in_force_lifted _ _ _ Hf' Hf). by apply Ho. }
  destruct s as [|m|m st|]; cbn in Hlim; [| | |done].
  - unfold left_by. destruct (_ =? _); apply wd_uninitialized, Hin, Hlim.
  - destruct Hlim as (Hw & -> & Hr & ->). eapply wd_initialized; [by apply Hin|done|by apply Hopen|].
    destruct (decide (x = lamports (acct l me))); [by left|right]. specialize (Hpart n). lia.
  - destruct Hlim as (Hw & -> & -> & ->).
    eapply wd_delegated; [by apply Hin|done|by apply Hopen|].
    destruct (decide (x = lamports (acct l me))); [|right; by apply Hpart].
    destruct (Z.eqb_spec (not_free c h (delegation st)) 0); [by left|right; by apply Hst].
Qed.

Lemma stake_withdraw_effect x to c h authority k (custodian : option KeyedAccount) b u l' :
  i = StakeWithdraw x -> to ∈ kas -> stake_clock env l c ->
  signer_key authority = Some k -> k ∈ signers ->
  (forall k, custodian ≫= signer_key = Some k -> k ∈ signers) ->
  StakeProgram.withdraw me to x c h authority custodian b l = Ok (u, l') -> effect l'.
Proof.
  intros Hi Hto Hc Hkey Hk Hcust Hrun. unfold StakeProgram.withdraw in Hrun. rewrite Hkey in Hrun.
  apply st_bind_Ok in Hrun as (? & ? & [[= <-] ->]%lift_Ok & Hrun).
  apply st_bind_Ok in Hrun as ([[lk reserve] staked] & ? & Hlim & Hrun).
  apply withdraw_limits_Ok in Hlim as (s & Hs & -> & Hlim).
  apply st_bind_Ok in Hrun as ([] & ? & [Hf%fail_if_Ok ->]%lift_Ok & Hrun).
  apply st_bind_Ok in Hrun as (sum & ? & [Hsum ->]%lift_Ok & Hrun).
  apply ok_or_Ok, checked_add_Some in Hsum as [-> Hmax].
  apply st_bind_Ok in Hrun as (? & ? & [-> ->]%ka_lamports_Ok & Hrun).
  apply st_bind_Ok in Hrun as ([] & ? & [Hst%fail_if_Ok ->]%lift_Ok & Hrun).
  apply st_bind_Ok in Hrun as ([] & ? & [Hpart ->]%lift_Ok & Hrun).
  assert (withdraw_step env signers l (unsigned_key me) (acct l me) x s (left_by (acct l me) x s))
    as Hstep.
  { eapply limits_withdraw; [exact Hk|exact Hcust|exact Hc|exact Hlim|exact Hf|..].
    - intros ->. cbn in Hst. by apply Z.ltb_ge in Hst.
    - intros Hne. destruct (Z.eqb_spec x (lamports (acct l me))); [done|]. cbn in Hpart.
      destruct (Z.ltb_spec (lamports (acct l me)) (x + reserve)); [by destruct staked|done]. }
  apply st_bind_Ok in Hrun as ([] & l1 & Hif & Hrun).
  pose proof Hif as Hframe. eapply set_state_if_holds in Hif as (a1 & Ha1 & E1 & Hl1); [|done..].
  apply st_bind_Ok in Hrun as ([] & ? & (_ & a2 & [Hx ->]%sub_lamports_Ok & ->)%update_account_Ok & Hrun).
  apply update_account_Ok in Hrun as (_ & b' & [Hb ->]%add_lamports_Ok & ->).
  pose proof (holds_lamports _ _ _ _ Ha1) as Ela. rewrite E1, Hl1, Ela in * by done.
  change (if _ =? _ then _ else _) with (left_by (acct l me) x s) in Ha1.
  destruct (decide (unsigned_key to = unsigned_key me)) as [E|Hne].
  - rewrite E, get_account_insert_eq, insert_insert_eq. cbn.
    eapply se_own; [done|by eapply os_withdraw|].
    destruct Ha1. split; try done. cbn. lia.
  - rewrite get_account_insert_ne in * by done.
    eapply (se_withdraw _ _ _ _ _ _ _ (unsigned_key to)); [done|by apply list_elem_of_fmap_2|done..|].
    by eapply holds_set_lamports.
Qed.

(** ** Dispatch *)

Context (all : list KeyedAccount) (first : nat).
Context (Hkas : kas = drop first all) (Hsig : signers = get_signers kas).

Lemma lookup_given n ka : all !! (first + n)%nat = Some ka -> ka ∈ kas.
Proof. rewrite Hkas. apply elem_of_drop_lookup. Qed.

Lemma lookup_signed n ka k :
  all !! (first + n)%nat = Some ka -> signer_key ka = Some k -> k ∈ signers.
Proof.
  intros Hn Hs. rewrite Hsig. apply elem_of_get_signers. exists ka. split; [by eapply lookup_given|].
  unfold signer_key in Hs. destruct (is_signer ka); [|done]. by injection Hs as ->.
Qed.

Lemma approves_signed k : seed_of i = None -> k ∈ signers -> approves k.
Proof. unfold StakeEffect.approves. by intros ->. Qed.

Lemma seed_approves base seed own S k :
  (forall k, signer_key base = Some k -> k ∈ signers) -> seed_of i = Some (seed, own) ->
  StakeProgram.seed_signers hashv base seed own = Ok S -> k ∈ S -> approves k.
Proof.
  intros Hb Hi HS Hk. unfold StakeEffect.approves. rewrite Hi. unfold StakeProgram.seed_signers in HS.
  destruct (signer_key base) as [kb|]; run_inv; [|set_solver].
  apply elem_of_singleton in Hk as ->. exists kb. split; [by apply Hb|done].
Qed.

Lemma config_typed ka (c : Config) l' :
  StakeProgram.config_from_keyed_account ka l = Ok (c, l') ->
  f64_ok (config_warmup_cooldown_rate c) /\ l' = l.
Proof.
  unfold StakeProgram.config_from_keyed_account, StakeProgram.config_from. intros Hrun. keyed_inv.
  destruct (get_config_data _) as [d| |]; run_inv. split; [|done]. by eapply config_read_typed.
Qed.

Ltac args_inv :=
  repeat match goal with
    | H : (keyed_account_at_index _ _ ≫= _) _ = Ok (_, _) |- _ =>
        apply st_bind_Ok in H as (? & ? & [? ->]%keyed_account_at_index_Ok & H)
    | H : (from_keyed_account (S:=Clock) _ _ ≫= _) _ = Ok (_, _) |- _ =>
        apply st_bind_Ok in H as (?c & ? & [?Hc ->]%sysvar_read_Ok & H)
    | H : (from_keyed_account _ _ ≫= _) _ = Ok (_, _) |- _ =>
        apply st_bind_Ok in H as (? & ? & [_ ->]%sysvar_read_Ok & H)
    | H : (StakeProgram.config_from_keyed_account _ ≫= _) _ = Ok (_, _) |- _ =>
        apply st_bind_Ok in H as (? & ? & [?Hcfg ->]%config_typed & H)
    | H : (lift (ok_or (signer_key _) _) ≫= _) _ = Ok (_, _) |- _ =>
        apply st_bind_Ok in H as (?k & ? & [?Hk%ok_or_Ok ->]%lift_Ok & H)
    end.

Lemma authorize_with_seed_effect n base seed own k what c custodian u l' :
  all !! (first + n)%nat = Some base ->
  stake_instr_typed i -> stake_clock env l c -> seed_of i = Some (seed, own) -> sets_authority i ->
  StakeProgram.authorize_with_seed hashv me base seed own k what true c custodian l = Ok (u, l') ->
  effect l'.
Proof.
  intros Hb Ht Hc Hseed Hi Hrun. unfold StakeProgram.authorize_with_seed in Hrun.
  apply st_bind_Ok in Hrun as (S & ? & [HS ->]%lift_Ok & Hrun).
  eapply stake_authorize_effect; [done|exact Hc| |done|exact Hrun].
  intros k'. eapply seed_approves; [|done..]. intros kb Hkb. by eapply lookup_signed.
Qed.

Lemma execute_effect u l' :
  stake_instr_typed i ->
  StakeProgram.execute hashv env all first me signers i l = Ok (u, l') -> effect l'.
Proof.
  intros Ht Hrun. remember i as j eqn:Hi in Hrun. symmetry in Hi.
  pose proof Ht as Hj. rewrite Hi in Hj.
  assert (sets_authority j -> seed_of j = None -> forall k, k ∈ signers -> approves k) as Hap.
  { intros _ ? k. apply approves_signed. by rewrite Hi. }
  unfold StakeProgram.execute in Hrun.
  destruct j as [auth lk|k what| |x|x| |args| |args| |what|args|args]; cbn in Hap.
  - args_inv. eapply stake_initialize_effect; [done|by left|done].
  - args_inv. eapply stake_authorize_effect; [done|by right|by apply Hap|by rewrite Hi|done].
  - args_inv. eapply delegate_effect; [done|by right|done..].
  - args_inv. eapply split_effect in Hrun; [done|done|apply Hj|by eapply lookup_given].
  - args_inv. rename select (all !! (first + 4)%nat = Some _) into Hauth.
    assert (exists k, signer_key x4 = Some k) as [k Hk].
    { unfold StakeProgram.withdraw in Hrun. destruct (signer_key x4); [eauto|].
      by apply st_bind_Ok in Hrun as (? & ? & [? _]%lift_Ok & _). }
    eapply stake_withdraw_effect in Hrun; [done|done|by eapply lookup_given|by right|exact Hk| |].
    + by eapply lookup_signed.
    + intros kc. destruct (all !! (first + 5)%nat) as [kac|] eqn:Ekac; [|done]. cbn.
      by eapply lookup_signed.
  - args_inv. eapply deactivate_effect; [done|by right|done].
  - apply st_bind_Ok in Hrun as (o & ? & Ho & Hrun).
    eapply (set_lockup_effect args o); [done|by rewrite Hi|by rewrite Hi|apply Hj| |].
    + intros c ->. destruct (stake_program_v4 env); [|done].
      apply lift_Ok in Ho as [Ho _]. apply bind_Ok in Ho as (c' & Hc%ok_or_Ok & Ho).
      injection Ho as ->. by left.
    + destruct (stake_program_v4 env); [by apply lift_Ok in Ho as [_ ->]|by injection Ho as <- <-].
  - args_inv. eapply merge_effect in Hrun; [done|done|by eapply lookup_given|by right].
  - args_inv. by eapply authorize_with_seed_effect in Hrun; [|done..|right|rewrite Hi|rewrite Hi].
  - args_inv. eapply stake_initialize_effect; [done| |done]. right. split_and!; [done..|]. cbn.
    by eapply (lookup_signed 3).
  - args_inv. eapply stake_authorize_effect; [done|by right|by apply Hap|by rewrite Hi|done].
  - args_inv. by eapply authorize_with_seed_effect in Hrun; [|done..|right|rewrite Hi|rewrite Hi].
  - apply st_bind_Ok in Hrun as (o & ? & [_ ->]%lift_Ok & Hrun).
    apply st_bind_Ok in Hrun as (c & ? & [Hc%ok_or_Ok ->]%lift_Ok & Hrun).
    eapply set_lockup_effect in Hrun; [done|done|by rewrite Hi|by rewrite Hi|apply Hj|].
    intros c' [= <-]. by left.
Qed.
End Handlers.

(** Every successful instruction has an effect on the first account, which is a stake
    account. *)
Lemma process_stake_effect (hashv : list bytes -> Hash) `{StakeBincode} `{Bincode Rent} env
    deserialize first d kas l u l' :
  (forall c, stake_cache_clock env = Some c -> in_u64 (clock_epoch c)) ->
  (forall k, in_u64 (lamports (get_account l k))) ->
  (forall i, deserialize d = Some i -> stake_instr_typed i) ->
  StakeProgram.process_instruction hashv env deserialize first d kas l = Ok (u, l') ->
  exists me i, kas !! first = Some me /\ deserialize d = Some i /\
    owner (acct l me) = stake_program_id /\
    stake_effect hashv env (get_signers (drop first kas)) i (drop first kas) (unsigned_key me) l l'.
Proof.
  intros Hcache Hbal Ht Hrun. unfold StakeProgram.process_instruction in Hrun.
  apply st_bind_Ok in Hrun as (me & ? & [Hme ->]%keyed_account_at_index_Ok & Hrun).
  apply st_bind_Ok in Hrun as (own & ? & [-> ->]%ka_owner_Ok & Hrun).
  apply st_bind_Ok in Hrun as (? & ? & [Ho%fail_if_Ok%negb_false_iff%bool_decide_eq_true ->]%lift_Ok & Hrun).
  apply st_bind_Ok in Hrun as (i & ? & [Hd%ok_or_Ok ->]%lift_Ok & Hrun).
  exists me, i. split_and!; [done..|]. eapply execute_effect; eauto.
Qed.
