(* ===== verification/StakeInvariant.v ===== *)
(** * Invariants of stake accounts

    Stakes are backed by the lamports of their accounts, lamports under a lockup in force
    stay under it, lamports are neither made nor lost, and no instruction panics. *)

From Stdlib Require Import ZArith Lia SpecFloat.
From Stdlib Require Import Strings.Byte.
From stdpp Require Import prelude gmap numbers sorting list.
From S2P Require Import Prelude Sdk Runtime SystemInstruction SystemProgram SystemFacts NoPanic Codec ShortVec ConfigProgram ConfigFacts VoteState VoteProgram VoteTower VoteVoters VoteSlots VoteTyped VoteSafety StakeState StakeRewards StakeProgram StakeActivation StakeRewardFacts StakeEffect StakeSafety.

(** Sums over accounts, where a missing account counts nothing. *)
Lemma account_sum_insert (f : AccountSharedData -> Z) (l : ledger) k a :
  f (get_account ∅ k) = 0 ->
  map_sum f (<[k := a]> l) = map_sum f l + (f a - f (get_account l k)).
Proof.
  intros Hf. rewrite map_sum_insert. unfold get_account in *. rewrite lookup_empty in Hf. cbn in Hf.
  destruct (l !! k); cbn; lia.
Qed.

Section Invariant.
Context (hashv : list bytes -> Hash).
Context `{StakeBincode} `{Bincode Rent}.
Context (env : StakeEnv) (signers : gset Pubkey) (i : StakeInstruction).
Context (kas : list KeyedAccount) (me : Pubkey) (l l' : ledger).
Context (Hbal : forall k, in_u64 (lamports (get_account l k))).
Context (Hi : stake_instr_typed i).
Context (Hown : owner (get_account l me) = stake_program_id).
Context (Heff : stake_effect hashv env signers i kas me l l').

(** ** Lamports *)

Lemma effect_conserves : map_sum lamports l' = map_sum lamports l.
Proof.
  destruct Heff as [s s' a' _ _ [_ Ha _ _]|split x s s1 s2 a' b' _ _ Hne _ _ _ _ _ _ _ [_ Ha _ _] [_ Hb _ _]
    |source s s_src s' a' b' _ _ Hne _ _ _ _ _ [_ Ha _ _] [_ Hb _ _]
    |to x s s' a' _ _ Hne _ _ _ _ [_ Ha _ _]];
    rewrite !account_sum_insert by done; rewrite ?get_account_insert_ne by done; cbn; lia.
Qed.

Lemma effect_frame k : k <> me -> k ∉ unsigned_key <$> kas -> l' !! k = l !! k.
Proof.
  intros Hme Hk. destruct Heff; rewrite ?lookup_insert_ne; try done; set_solver.
Qed.

Lemma amount_nonneg x : i = Split x \/ i = StakeWithdraw x -> 0 <= x.
Proof. pose proof Hi as Hi'. intros [E|E]; rewrite E in Hi'; apply Hi'. Qed.

Lemma effect_balances k : in_u64 (lamports (get_account l' k)).
Proof.
  pose proof (Hbal k) as [? ?]. pose proof (Hbal me) as [? ?]. unfold in_u64.
  destruct Heff as [s s' a' _ _ [_ Ha _ _]|split x s s1 s2 a' b' Ei _ Hne _ _ _ _ Hx Hmax _ [_ Ha _ _] [_ Hb _ _]
    |source s s_src s' a' b' _ _ Hne _ _ _ Hmax _ [_ Ha _ _] [_ Hb _ _]
    |to x s s' a' Ei _ Hne _ Hx Hmax _ [_ Ha _ _]]; rewrite !get_account_insert.
  - case_decide; [|done]. by rewrite Ha.
  - pose proof (amount_nonneg x (or_introl Ei)). pose proof (Hbal split) as [? _].
    repeat case_decide; [lia..|done].
  - pose proof (Hbal source) as [? _]. repeat case_decide; [lia..|done].
  - pose proof (amount_nonneg x (or_intror Ei)). pose proof (Hbal to) as [? _].
    repeat case_decide; cbn; [lia..|done].
Qed.

(** ** Backed stakes *)

(** An initialized account keeps its rent, and a stake that is not deactivated is
    covered by the lamports above the rent. *)
Definition backed (s : StakeState) (len : nat) (x : Z) : Prop :=
  match s with
  | Initialized m => len = STAKE_STATE_SIZE /\ rent_exempt_reserve m <= x
  | Delegated m st =>
      len = STAKE_STATE_SIZE /\ rent_exempt_reserve m <= x /\
      (deactivation_epoch (delegation st) = u64_max ->
       d_stake (delegation st) + rent_exempt_reserve m <= x)
  | _ => True
  end.
Definition stakes_backed (l : ledger) : Prop :=
  forall k s, owner (get_account l k) = stake_program_id ->
    account_state (get_account l k) = Ok s ->
    backed s (length (data (get_account l k))) (lamports (get_account l k)).

(** Except for one that rescinds a deactivation: the stake it activates again must
    still be covered. *)
Definition rescinds_covered : Prop :=
  forall c m st, i = DelegateStake -> stake_clock env l c ->
    account_state (get_account l me) = Ok (Delegated m st) ->
    deactivation_epoch (delegation st) = clock_epoch c ->
    d_stake (delegation st) + rent_exempt_reserve m <= lamports (get_account l me).

Lemma backed_more s len x y : backed s len x -> x <= y -> backed s len y.
Proof. destruct s; cbn; naive_solver lia. Qed.

Lemma backed_left a x s len y : backed s len y -> backed (left_by a x s) len y.
Proof. unfold left_by. by destruct (_ =? _). Qed.

Lemma saturating_sub_lt x y z : saturating_sub x y < z -> x < y + z.
Proof. unfold saturating_sub. lia. Qed.

Lemma split_reserve_le m a b :
  in_u64 (rent_exempt_reserve m) -> length (data a) = STAKE_STATE_SIZE ->
  length (data b) = STAKE_STATE_SIZE -> 0 <= split_reserve m a b <= rent_exempt_reserve m.
Proof.
  intros [? ?] Ha Hb. unfold split_reserve, calculate_split_rent_exempt_reserve. rewrite Ha, Hb.
  change (wrap64 (Z.of_nat STAKE_STATE_SIZE + ACCOUNT_STORAGE_OVERHEAD)) with 328.
  pose proof (Z.mul_div_le (rent_exempt_reserve m) 328 eq_refl).
  pose proof (Z.div_pos (rent_exempt_reserve m) 328). rewrite wrap64_small; lia.
Qed.

Lemma stake_step_backed s s' :
  rescinds_covered -> (forall c, stake_clock env l c -> clock_epoch c < u64_max) ->
  account_state (get_account l me) = Ok s ->
  backed s (length (data (get_account l me))) (lamports (get_account l me)) ->
  stake_step hashv env signers i l (get_account l me) s s' ->
  backed s' (length (data (get_account l me))) (lamports (get_account l me)).
Proof.
  intros Hres Hc Hs Hb Hstep.
  destruct Hstep as [auth lk rent _ Hlen Hr|c s m m' _ Hm Hstep|m c config vote v _ _ _ _ _
    |m st st' c h config vote v Ei Hcl _ _ _ Hr|m st c _ Hcl _ _]; cbn in Hb |- *.
  - split; [done|lia].
  - destruct s as [|m0|m0 st|]; [done| | |done]; injection Hm as ->; cbn;
      (replace (rent_exempt_reserve m') with (rent_exempt_reserve m) by (by destruct Hstep)); done.
  - destruct Hb as [? ?]. split_and!; [done..|]. unfold saturating_sub. lia.
  - destruct Hb as (? & ? & ?). split_and!; [done..|]. unfold redelegate in Hr.
    destruct (negb _); [|injection Hr as <-; cbn; unfold saturating_sub; lia].
    destruct (Z.eqb_spec (clock_epoch c) (deactivation_epoch (delegation st))) as [Ee|];
      [|by rewrite andb_false_r in Hr].
    case_match; [|done]. injection Hr as <-. cbn. intros _. by eapply Hres.
  - destruct Hb as (? & ? & ?). split_and!; [done..|]. intros E. specialize (Hc _ Hcl). cbn in E. lia.
Qed.

Lemma split_step_backed a b x s s1 s2 :
  state_typed s -> length (data b) = STAKE_STATE_SIZE -> in_u64 (lamports b) -> 0 <= x <= lamports a ->
  lamports a <= u64_max -> backed s (length (data a)) (lamports a) -> split_step signers me a b x s s1 s2 ->
  backed s1 (length (data a)) (lamports a - x) /\ backed s2 (length (data b)) (lamports b + x).
Proof.
  intros Ht Hlb [? ?] Hx Hua Hb Hsp.
  destruct Hsp as [|m _ [Hr%saturating_sub_lt Hpart]|m st _ [Hr Hpart] Hd]; [done|..].
  - destruct Hb as [? ?]. split; [|by split; [|cbn; lia]]. unfold left_by.
    destruct (Z.eqb_spec x (lamports a)); [done|]. specialize (Hpart n). split; [done|lia].
  - destruct Hb as (Hla & ? & Hst). destruct Ht as [[Hrm _] _].
    pose proof (split_reserve_le m a b Hrm Hla Hlb) as Hres. destruct Hrm as [? ?].
    pose proof (saturating_sub_lt _ _ _ Hr) as Hr'. unfold left_by, split_amounts in *.
    destruct (Z.eqb_spec x (lamports a)) as [->|n]; cbn in Hd |- *.
    + split; [done|]. split_and!; [done|lia|]. intros ?. unfold saturating_sub in *. lia.
    + specialize (Hpart n). split; split_and!; try done; try lia; intros E.
      unfold saturating_sub in *. rewrite wrap64_small by lia. lia.
Qed.

Lemma mergeable_inactive a s c h m x :
  mergeable a s c h = Ok (Inactive m x) -> x = lamports a.
Proof. destruct s; cbn; repeat case_match; congruence. Qed.

Lemma can_merge_not_deactivated st st' c :
  active_delegations_can_merge (delegation st) (delegation st') = Ok c ->
  deactivation_epoch (delegation st) = u64_max /\ deactivation_epoch (delegation st') = u64_max.
Proof.
  unfold active_delegations_can_merge. intros Hc. case_match; [done|].
  case_match eqn:E; [|done]. apply andb_true_iff in E as [[_ ?]%andb_true_iff ?]. by keyed_inv.
Qed.

Lemma merged_amount st x y st' :
  merge_delegation_stake_and_credits_observed env st x y = Ok st' ->
  deactivation_epoch (delegation st') = deactivation_epoch (delegation st) /\
  d_stake (delegation st') = d_stake (delegation st) + x.
Proof.
  unfold merge_delegation_stake_and_credits_observed, ix_checked_add. intros Hm.
  destruct (stake_merge_with_unmatched_credits_observed env); run_inv; done.
Qed.

Lemma stakes_can_merge st st' (b : bool) :
  (if b then active_delegations_can_merge (delegation st) (delegation st')
   else active_stakes_can_merge st st') = Ok tt ->
  deactivation_epoch (delegation st) = u64_max /\ deactivation_epoch (delegation st') = u64_max.
Proof.
  destruct b; [apply can_merge_not_deactivated|]. unfold active_stakes_can_merge. intros Hc.
  apply bind_Ok in Hc as ([] & Hc & _). by eapply can_merge_not_deactivated.
Qed.

Lemma merge_step_backed a b s s_src s' :
  merge_step env signers l a b s s_src s' -> state_typed s -> state_typed s_src ->
  0 <= lamports b ->
  backed s (length (data a)) (lamports a) -> backed s_src (length (data b)) (lamports b) ->
  backed s' (length (data a)) (lamports a + lamports b).
Proof.
  intros [s0 s_src0 c h kind source merged _ Hk Hk' _ Hm] Ht Ht' Hxb Hb Hb'.
  destruct (mergeable_meta _ _ _ _ _ Ht Hk) as (m & _ & Em & Hst).
  destruct (mergeable_meta _ _ _ _ _ Ht' Hk') as (m' & _ & Em' & Hst').
  unfold merge_kinds in Hm. apply bind_Ok in Hm as ([] & _ & Hm).
  apply bind_Ok in Hm as ([] & Hact & Hm).
  destruct kind as [m1 x1|m1 st1|m1 st1], source as [m2 x2|m2 st2|m2 st2]; cbn in Em, Em'; subst;
    try done; try (injection Hm as <-; eapply backed_more; [done|lia]).
  all: rewrite (Hst _ eq_refl) in *; destruct Hb as (Hlen & Hr & Hcov).
  - apply mergeable_inactive in Hk' as ->. unfold ix_checked_add in Hm. run_inv. cbn.
    split_and!; [done|lia|]. intros E. specialize (Hcov E). lia.
  - rewrite (Hst' _ eq_refl) in *. destruct Hb' as (_ & _ & Hcov').
    apply stakes_can_merge in Hact as [E E']. unfold ix_checked_add in Hm.
    apply bind_Ok in Hm as (x & Hx & Hm). run_inv.
    rename select (merge_delegation_stake_and_credits_observed _ _ _ _ = _) into Hmd.
    apply merged_amount in Hmd as [? Hd]. cbn. split_and!; [done|lia|]. intros _. rewrite Hd.
    specialize (Hcov E). specialize (Hcov' E'). lia.
  - rewrite (Hst' _ eq_refl) in *. destruct Hb' as (_ & ? & Hcov'). destruct Ht' as [[[? _] _] _].
    apply stakes_can_merge in Hact as [E E']. run_inv.
    rename select (merge_delegation_stake_and_credits_observed _ _ _ _ = _) into Hmd.
    apply merged_amount in Hmd as [? Hd]. cbn. split_and!; [done|lia|]. intros _. rewrite Hd.
    specialize (Hcov E). specialize (Hcov' E'). lia.
Qed.

Lemma withdraw_step_backed a x s s' y :
  (forall c, stake_clock env l c -> clock_epoch c < u64_max) -> state_typed s -> 0 <= x ->
  backed s (length (data a)) (lamports a) -> withdraw_step env signers l me a x s s' ->
  lamports a - x <= y -> backed s' (length (data a)) y.
Proof.
  intros Hc Ht Hx Hb Hw Hy.
  destruct Hw as [_|m c _ _ _ Hcov|m st c h _ Hcl _ Hcov]; [done|..]; unfold left_by;
    (destruct (Z.eqb_spec x (lamports a)); [done|]).
  - destruct Hb. split; [done|lia].
  - destruct Hb as (? & ? & Hst). destruct Hcov as [[? _]|Hcov]; [done|]. destruct Ht as [_ [([? _] & _) _]].
    specialize (Hc _ Hcl). unfold not_free in Hcov. split_and!; [done|..].
    + destruct (_ <=? _); [|lia]. unfold delegation_stake in Hcov.
      destruct (status_bounds (delegation st) (clock_epoch c) (Some h)) as [? _]; lia.
    + intros E. rewrite E in Hcov. destruct (Z.leb_spec u64_max (clock_epoch c)); lia.
Qed.

Lemma backed_insert l0 k a :
  stakes_backed l0 ->
  (forall s, owner a = stake_program_id -> account_state a = Ok s ->
     backed s (length (data a)) (lamports a)) ->
  stakes_backed (<[k := a]> l0).
Proof.
  intros Hl Ha k' s. destruct (decide (k = k')) as [<-|Hne].
  - rewrite get_account_insert_eq. apply Ha.
  - rewrite get_account_insert_ne by done. apply Hl.
Qed.

Lemma backed_holds l0 k a a' s x :
  stakes_backed l0 -> holds a a' s x -> backed s (length (data a)) x ->
  stakes_backed (<[k := a']> l0).
Proof.
  intros Hl [Hs Hx _ Hlen] Hb. apply backed_insert; [done|]. intros s' _ Hs'.
  rewrite Hs in Hs'. injection Hs' as <-. by rewrite Hx, Hlen.
Qed.

Lemma effect_backed :
  (forall c, stake_clock env l c -> clock_epoch c < u64_max) -> rescinds_covered ->
  stakes_backed l -> stakes_backed l'.
Proof.
  intros Hc Hres Hl.
  destruct Heff as [s s' a' Hs Hstep Ha|split x s s1 s2 a' b' Ei _ Hne Ho Hlen Hb Hs Hx _ Hsp Ha Hb'
    |source s s_src s' a' b' _ _ Hne Ho Hsrc Hs _ Hm Ha Hb
    |to x s s' a' Ei _ Hne Hs Hx _ Hw Ha];
    pose proof (Hl me s Hown Hs) as Hme; pose proof (state_typed_of _ _ Hs) as Ht.
  - eapply backed_holds; [done..|].
    destruct Hstep as [s s' Hstep|x _ _|x s s' Ei Hw]; [by eapply stake_step_backed|done|].
    pose proof (amount_nonneg x (or_intror Ei)).
    eapply withdraw_step_backed; [done..|lia].
  - pose proof (amount_nonneg x (or_introl Ei)).
    eapply split_step_backed in Hsp as [? ?]; [|done|done|apply Hbal|lia|apply Hbal|done].
    eapply backed_holds; [|done..]. by eapply backed_holds.
  - eapply merge_step_backed in Hm; [|done|by eapply state_typed_of|apply Hbal|done|by apply Hl].
    eapply backed_holds; [|done..]. by eapply backed_holds.
  - pose proof (amount_nonneg x (or_intror Ei)).
    apply backed_insert; [eapply backed_holds; [done..|]; eapply withdraw_step_backed; [done..|lia]|].
    intros s1 Ho1 Hs1. eapply backed_more; [by apply (Hl to)|]. cbn. lia.
Qed.

(** ** Locked lamports *)

Section Locked.
Context (L : Lockup) (w : Pubkey) (clock : Clock).

(** Whether a state is under the lockup and the withdrawer *)
Definition locks (s : StakeState) : bool :=
  match state_meta s with
  | Some m => bool_decide (lockup m = L) && bool_decide (withdrawer (authorized m) = w)
  | None => false
  end.
(** The lamports of a stake account that are under them *)
Definition locked (a : AccountSharedData) : Z :=
  if bool_decide (owner a = stake_program_id) then
    match account_state a with
    | Ok s => if locks s then lamports a else 0
    | _ => 0
    end
  else 0.

Lemma holds_locked a a' s x :
  holds a a' s x -> owner a = stake_program_id -> locked a' = if locks s then x else 0.
Proof.
  intros [Hs Hx Ho _] Ha. unfold locked. rewrite bool_decide_true by congruence. by rewrite Hs, Hx.
Qed.

Lemma state_locked a s :
  account_state a = Ok s -> owner a = stake_program_id ->
  locked a = if locks s then lamports a else 0.
Proof. intros Hs. by eapply holds_locked, holds_refl. Qed.

Lemma locked_deposit a x : 0 <= x -> locked a <= locked (set_lamports (lamports a + x) a).
Proof. intros. unfold locked, account_state. cbn. repeat case_match; lia. Qed.

Lemma locked_insert (l0 : ledger) k a :
  map_sum locked (<[k := a]> l0) = map_sum locked l0 + (locked a - locked (get_account l0 k)).
Proof. apply account_sum_insert. unfold locked. repeat case_match; done. Qed.

Lemma locks_meta s m :
  state_meta s = Some m -> locks s = true -> lockup m = L /\ withdrawer (authorized m) = w.
Proof. unfold locks. intros ->. intros [? ?]%andb_true_iff. by keyed_inv. Qed.

Context (Hclock : forall c, stake_clock env l c -> c = clock).
Context (Hforce : is_in_force L clock None = true).
Context (Hno : ~ approves hashv signers i (lockup_custodian L)).

Lemma meta_step_keeps c m m' :
  stake_clock env l c \/ approves hashv signers i (lockup_custodian (lockup m)) ->
  lockup m = L -> withdrawer (authorized m) = w -> meta_step hashv signers i c m m' ->
  lockup m' = L /\ withdrawer (authorized m') = w.
Proof.
  intros Hc HL Hw Hstep. destruct Hc as [->%Hclock|Hc]; [|by rewrite HL in Hc].
  destruct Hstep as [k _ _|k _ _ Hf|args _ Hf _ _]; [done|..];
    (rewrite HL in Hf; by specialize (Hf Hforce)).
Qed.

Lemma locked_no_withdrawal x a s s' :
  i = StakeWithdraw x -> withdraw_step env signers l me a x s s' -> locks s = true -> False.
Proof.
  intros Ei Hw Hl. unfold approves in Hno. rewrite Ei in Hno. cbn in Hno.
  destruct Hw as [_|m c _ ->%Hclock Hopen _|m st c h _ ->%Hclock Hopen _]; [done|..];
    (apply (locks_meta _ m) in Hl as [Hl _]; [|done]; apply Hno; rewrite <- Hl in *; by apply Hopen).
Qed.

Lemma own_step_keeps s s' :
  own_step hashv env signers i l me (get_account l me) s s' -> locks s = true -> locks s' = true.
Proof.
  intros Hstep Hl. destruct Hstep as [s s' Hstep|x _ _|x s s' Ei Hw]; [|done|].
  2: { by eapply locked_no_withdrawal in Hw. }
  destruct Hstep as [auth lk rent|c s m m' Hc Hm Hstep|m c config vote v|m st st' c h config vote v
    |m st c]; [done| |done..].
  destruct (locks_meta _ _ Hm Hl) as [HL Hw].
  destruct (meta_step_keeps _ _ _ Hc HL Hw Hstep) as [HL' Hw'].
  unfold locks. replace (state_meta (with_meta m' s)) with (Some m') by (by destruct s).
  by rewrite !bool_decide_true.
Qed.

Lemma merge_keeps_meta kind source o merged s a h :
  state_typed s -> mergeable a s clock h = Ok kind ->
  merge_kinds env kind source o = Ok merged -> state_meta (default s merged) = state_meta s.
Proof.
  intros Ht Hk Hm. destruct (mergeable_meta _ _ _ _ _ Ht Hk) as (m & Em & Ekm & _).
  rewrite Em. unfold merge_kinds in Hm. apply bind_Ok in Hm as ([] & _ & Hm).
  apply bind_Ok in Hm as ([] & _ & Hm). cbn in Ekm.
  destruct kind as [m1 x1|m1 st1|m1 st1], source as [m2 x2|m2 st2|m2 st2]; cbn in *;
    run_inv; subst; done.
Qed.

Lemma merge_step_keeps a b s s_src s' :
  merge_step env signers l a b s s_src s' -> state_typed s -> state_typed s_src ->
  (locks s = true \/ locks s_src = true) -> locks s' = true.
Proof.
  intros [s0 s_src0 c h kind source merged ->%Hclock Hk Hk' _ Hm] Ht Ht' Hl.
  assert (locks (default s0 merged) = locks s0) as ->.
  { unfold locks. by rewrite (merge_keeps_meta _ _ _ _ _ _ _ Ht Hk Hm). }
  destruct Hl as [?|Hl]; [done|].
  destruct (mergeable_meta _ _ _ _ _ Ht Hk) as (m & Em & <- & _).
  destruct (mergeable_meta _ _ _ _ _ Ht' Hk') as (m' & Em' & <- & _).
  destruct (locks_meta _ _ Em' Hl) as [HL Hw]. unfold locks. rewrite Em.
  unfold merge_kinds in Hm. apply bind_Ok in Hm as ([] & Hmeta & _).
  unfold metas_can_merge in Hmeta. rewrite HL in Hmeta.
  destruct (bool_decide_reflect (authorized (merge_meta kind) = authorized (merge_meta source)))
    as [Ea|]; [|done].
  assert (lockup (merge_meta kind) = L) as ->.
  { destruct (stake_program_v4 env); [rewrite Hforce, andb_false_r, orb_false_r in Hmeta|];
      by case_bool_decide. }
  by rewrite Ea, !bool_decide_true.
Qed.

Lemma split_step_keeps a b x s s1 s2 :
  split_step signers me a b x s s1 s2 -> locks s = true ->
  locks s2 = true /\ (x <> lamports a -> locks s1 = true).
Proof.
  intros Hsp Hl. destruct Hsp; [done|..]; (split; [done|]); unfold left_by;
    by destruct (Z.eqb_spec x (lamports a)).
Qed.

Lemma locked_monotone : map_sum locked l <= map_sum locked l'.
Proof.
  destruct Heff as [s s' a' Hs Hstep Ha|split x s s1 s2 a' b' Ei _ Hne Ho _ Hb Hs Hx _ Hsp Ha Hb'
    |source s s_src s' a' b' _ _ Hne Ho Hsrc Hs _ Hm Ha Hb
    |to x s s' a' Ei _ Hne Hs Hx _ Hw Ha]; rewrite !locked_insert.
  all: rewrite ?get_account_insert_ne by done; rewrite ?(holds_locked _ _ _ _ Ha Hown),
    ?(state_locked _ _ Hs Hown).
  - pose proof (own_step_keeps _ _ Hstep) as Hkeep. pose proof (Hbal me) as [? _].
    destruct (locks s); [rewrite Hkeep by done|]; repeat case_match; lia.
  - rewrite (holds_locked _ _ _ _ Hb' Ho), (state_locked _ _ Hb Ho). cbn.
    pose proof (Hbal split) as [? _]. pose proof (amount_nonneg x (or_introl Ei)).
    pose proof (split_step_keeps _ _ _ _ _ _ Hsp) as Hkeep. destruct (locks s); [|repeat case_match; lia].
    destruct (Hkeep eq_refl) as [-> Hs1].
    destruct (Z.eq_dec x (lamports (get_account l me))); [|rewrite Hs1 by done]; repeat case_match; lia.
  - rewrite (holds_locked _ _ _ _ Hb Ho), (state_locked _ _ Hsrc Ho). cbn.
    pose proof (Hbal source) as [? _]. pose proof (Hbal me) as [? _].
    pose proof (merge_step_keeps _ _ _ _ _ Hm (state_typed_of _ _ Hs) (state_typed_of _ _ Hsrc)) as Hkeep.
    destruct (locks s); [|destruct (locks s_src)]; [rewrite Hkeep by auto..|]; repeat case_match; lia.
  - pose proof (amount_nonneg x (or_intror Ei)).
    pose proof (locked_deposit (get_account l to) x). pose proof (Hbal me) as [? _].
    destruct (locks s) eqn:El; [by exfalso; eapply locked_no_withdrawal|].
    destruct (locks s'); lia.
Qed.
End Locked.
End Invariant.

(** ** No instruction panics *)

Section Panics.
Context (hashv : list bytes -> Hash).
Context `{Bincode StakeState, Bincode VoteStateVersions, Bincode Clock, Bincode Rent}.
Context `{Bincode StakeHistory, Bincode Config} (env : StakeEnv).

Lemma config_from_np a : StakeProgram.config_from a <> Panic.
Proof.
  unfold StakeProgram.config_from. rewrite get_config_data_eq.
  destruct (config_keys_deserialize _) as [[? ?]|]; [|done]. apply ok_or_np.
Qed.

Lemma authorized_check_np a S what : authorized_check a S what <> Panic.
Proof. destruct what; cbn; by case_match. Qed.

Lemma check_custodian_np args S : check_custodian args S <> Panic.
Proof. unfold check_custodian. destruct args as [[[? ?] [?|]]|]; np. Qed.

Lemma authorized_authorize_np a S k what args : authorized_authorize a S k what args <> Panic.
Proof.
  pose proof (check_custodian_np args S). pose proof (authorized_check_np a S what).
  unfold authorized_authorize. destruct what; np.
Qed.

Lemma meta_set_lockup_np m args S o : meta_set_lockup m args S o <> Panic.
Proof. unfold meta_set_lockup. destruct o; np. Qed.

Lemma redelegate_np st x vote v c h config b : redelegate st x vote v c h config b <> Panic.
Proof. unfold redelegate. np. Qed.

Lemma deactivate_np st e : stake_deactivate st e <> Panic.
Proof. unfold stake_deactivate. np. Qed.

Lemma stake_split_np st x y : stake_split st x y <> Panic.
Proof. unfold stake_split. np. Qed.

Lemma ix_checked_add_np x y : ix_checked_add x y <> Panic.
Proof. apply ok_or_np. Qed.

Lemma merge_kinds_np kind source o : merge_kinds env kind source o <> Panic.
Proof.
  pose proof ix_checked_add_np.
  assert (forall st x y, merge_delegation_stake_and_credits_observed env st x y <> Panic).
  { intros. unfold merge_delegation_stake_and_credits_observed. np. }
  unfold merge_kinds, metas_can_merge, active_stakes_can_merge, active_delegations_can_merge.
  apply bind_np; [np|intros]. apply bind_np.
  - destruct (active_stake kind), (active_stake source); np.
  - intros. destruct kind, source; np.
Qed.

Lemma checked_sub_np x a : System.checked_sub_lamports x a <> Panic.
Proof. unfold System.checked_sub_lamports. np. Qed.
Lemma checked_add_np x a : System.checked_add_lamports x a <> Panic.
Proof. unfold System.checked_add_lamports. np. Qed.
Lemma vote_state_of_np ka l : StakeProgram.vote_state_of ka l <> Panic.
Proof. unfold StakeProgram.vote_state_of. np. Qed.
Lemma mergeable_np ka c h l : StakeProgram.get_if_mergeable ka c h l <> Panic.
Proof. unfold StakeProgram.get_if_mergeable. np. Qed.

#[local] Hint Resolve config_from_np authorized_check_np authorized_authorize_np meta_set_lockup_np
  redelegate_np deactivate_np stake_split_np ix_checked_add_np merge_kinds_np checked_sub_np
  checked_add_np vote_state_of_np mergeable_np : np.

Lemma check_split_np me split x m r l : StakeProgram.check_split me split x m r l <> Panic.
Proof. unfold StakeProgram.check_split. np. Qed.
#[local] Hint Resolve check_split_np : np.

Lemma split_np me split x S l : StakeProgram.split me split x S l <> Panic.
Proof. unfold StakeProgram.split, StakeProgram.split_states. np. Qed.

Lemma merge_np me source c h S b l : StakeProgram.merge env me source c h S b l <> Panic.
Proof. unfold StakeProgram.merge. np. Qed.

(** The assertion that nothing is staked holds where it stands. *)
Lemma stake_withdraw_np me to x c h authority custodian b l :
  StakeProgram.withdraw me to x c h authority custodian b l <> Panic.
Proof.
  unfold StakeProgram.withdraw. apply st_bind_np; [np|intros k ? _].
  apply st_bind_np; [unfold StakeProgram.withdraw_limits; np|intros [[lk reserve] staked] ? _].
  cbv zeta. apply st_bind_np; [np|intros _ ? _]. apply st_bind_np; [np|intros sum ? _].
  apply st_bind_np; [np|intros balance ? _].
  apply st_bind_np; [np|intros _ ? [Hst%fail_if_Ok _]%lift_Ok].
  apply st_bind_np; [apply lift_np|intros _ ? _; np].
  destruct (balance <? sum); [|by rewrite andb_false_r]. rewrite andb_true_r in *. by subst; case_match.
Qed.

Lemma stake_authorize_np me S k what b c custodian l :
  StakeProgram.authorize me S k what b c custodian l <> Panic.
Proof. unfold StakeProgram.authorize. np. Qed.
#[local] Hint Resolve stake_authorize_np : np.

Lemma execute_stake_np kas first me S i l :
  StakeProgram.execute hashv env kas first me S i l <> Panic.
Proof.
  pose proof split_np. pose proof merge_np. pose proof stake_withdraw_np.
  unfold StakeProgram.execute, StakeProgram.initialize,
    StakeProgram.authorize_with_seed, StakeProgram.seed_signers, create_with_seed, StakeProgram.delegate,
    StakeProgram.deactivate, StakeProgram.set_lockup, StakeProgram.stake_get_clock,
    StakeProgram.config_from_keyed_account, stake_result.
  destruct i; np.
Qed.

Lemma process_stake_np deserialize first d kas l :
  StakeProgram.process_instruction hashv env deserialize first d kas l <> Panic.
Proof. pose proof execute_stake_np. unfold StakeProgram.process_instruction. np. Qed.
End Panics.
