(* ===== verification/StakeLayout.v ===== *)
(** * The layout of stake accounts

    The Borsh encoding of stake states (sdk/program/src/stake/state.rs) over the encodings
    of their parts, and an instance of these with the binary64 layout of rates, which
    has the laws that the theorems about stake accounts assume of bincode. *)

From Stdlib Require Import ZArith Lia SpecFloat.
From Stdlib Require Import Strings.Byte.
From stdpp Require Import prelude gmap numbers sorting list.
From S2P Require Import Prelude Sdk Runtime SystemInstruction SystemProgram SystemFacts SystemExample Codec ShortVec ConfigProgram VoteState VoteProgram VoteTower VoteVoters VoteSlots VoteTyped VoteSafety NoPanic VoteInvariant VoteExample StakeState StakeRewards StakeProgram StakeActivation StakeEffect.

(** ** Borsh *)

Section Borsh.
Context (c_u32 : codec Z) (c_meta : codec Meta) (c_stake : codec Stake).

Definition borsh_serialize (s : StakeState) : bytes :=
  match s with
  | Uninitialized => enc c_u32 0
  | Initialized meta => enc c_u32 1 ++ enc c_meta meta
  | Delegated meta stake => enc c_u32 2 ++ enc c_meta meta ++ enc c_stake stake
  | RewardsPool => enc c_u32 3
  end.

Definition borsh_deserialize (buf : bytes) : option (StakeState * bytes) :=
  '(enum_value, buf) ← dec c_u32 buf;
  match enum_value with
  | 0 => Some (Uninitialized, buf)
  | 1 => '(meta, buf) ← dec c_meta buf; Some (Initialized meta, buf)
  | 2 => '(meta, buf) ← dec c_meta buf; '(stake, buf) ← dec c_stake buf;
         Some (Delegated meta stake, buf)
  | 3 => Some (RewardsPool, buf)
  | _ => None
  end.

Definition parts_valid (s : StakeState) : Prop :=
  match s with
  | Initialized m => valid c_meta m
  | Delegated m st => valid c_meta m /\ valid c_stake st
  | _ => True
  end.

Lemma borsh_read_back s rest :
  (forall x, 0 <= x <= 3 -> valid c_u32 x) -> parts_valid s ->
  borsh_deserialize (borsh_serialize s ++ rest) = Some (s, rest).
Proof.
  intros Hu Hs. unfold borsh_deserialize, borsh_serialize. destruct s as [|m|m st|];
    rewrite <- ?(assoc_L (++)), dec_enc by (apply Hu; lia); cbn [mbind option_bind]; [done| | |done].
  - by rewrite dec_enc.
  - destruct Hs. rewrite dec_enc by done. cbn [mbind option_bind]. by rewrite dec_enc.
Qed.
End Borsh.

(** ** What is read is valid *)

Definition sound {A} (c : codec A) : Prop := forall b x rest, dec c b = Some (x, rest) -> valid c x.

Lemma sound_uint n : sound (uint n).
Proof.
  intros b x rest. cbn -[raw_dec]. unfold raw_dec.
  destruct (Nat.ltb_spec (length b) n); [done|]. cbn [mbind option_bind]. intros [= <- _].
  assert (length (take n b) = n) as Hl by (rewrite length_take; lia).
  pose proof (from_le_bytes_range (take n b)) as Hb. by rewrite Hl in Hb.
Qed.

Lemma sound_key : sound key.
Proof. by intros ?. Qed.

Lemma sound_pair {A B} (c : codec A) (d : codec B) : sound c -> sound d -> sound (c_pair c d).
Proof.
  intros Hc Hd b x rest. cbn. destruct (dec c b) as [[y b1]|] eqn:E; [|done]. cbn.
  destruct (dec d b1) as [[z b2]|] eqn:E'; [|done]. intros [= <- _]. split; [by eapply Hc|by eapply Hd].
Qed.

Lemma sound_iso {A B} (c : codec A) (f : B -> A) g P Hfg :
  sound c -> (forall a, valid c a -> P (g a)) -> sound (iso c f g P Hfg).
Proof.
  intros Hc Hg b x rest. cbn. destruct (dec c b) as [[y b1]|] eqn:E; [|done].
  intros [= <- _]. by eapply Hg, Hc.
Qed.

Lemma sound_vec {A} (c : codec A) b l rest :
  sound c -> dec (c_vec c) b = Some (l, rest) -> Forall (valid c) l.
Proof.
  intros Hc. cbn -[uint]. destruct (dec (uint 8) b) as [[n b1]|]; [|done]. cbn [mbind option_bind].
  generalize (Z.to_nat n). clear b. intros k. revert b1 l. induction k as [|k IH]; intros b1 l; cbn.
  - by intros [= <- _].
  - destruct (dec c b1) as [[x b2]|] eqn:E; [|done]. cbn.
    destruct (dec_n c k b2) as [[l' b3]|] eqn:E'; [|done]. cbn. intros [= <- ?]. subst. constructor.
    + by eapply Hc.
    + by apply (IH b2).
Qed.

Lemma sound_i64 : sound i64.
Proof.
  apply sound_iso; [apply sound_uint|]. intros a Ha. cbn [valid uint] in Ha.
  change (256 ^ Z.of_nat 8) with (2 ^ 64) in Ha.
  destruct (Z.ltb_spec a (2 ^ 63)); lia.
Qed.

(** ** Rates as binary64 *)

Definition f64_bits (f : spec_float) : Z :=
  let s (b : bool) := if b then 2 ^ 63 else 0 in
  match f with
  | S754_zero b => s b
  | S754_infinity b => s b + 2047 * 2 ^ 52
  | S754_nan => 2047 * 2 ^ 52 + 2 ^ 51
  | S754_finite b m e =>
      s b + (if 2 ^ 52 <=? Zpos m then (e + 1075) * 2 ^ 52 + (Zpos m - 2 ^ 52) else Zpos m)
  end.

Definition f64_from_bits (z : Z) : spec_float :=
  let b := 2 ^ 63 <=? z in
  let r := z mod 2 ^ 63 in
  let ex := r / 2 ^ 52 in
  let fr := r mod 2 ^ 52 in
  if ex =? 0 then if fr =? 0 then S754_zero b else S754_finite b (Z.to_pos fr) (- 1074)
  else if ex =? 2047 then if fr =? 0 then S754_infinity b else S754_nan
  else S754_finite b (Z.to_pos (fr + 2 ^ 52)) (ex - 1075).

Lemma digits2_log2 m : Zpos (digits2_pos m) = Z.log2 (Zpos m) + 1.
Proof.
  induction m as [m IH|m IH|]; [| |done].
  - cbn [digits2_pos]. rewrite Pos2Z.inj_succ, IH, Pos2Z.inj_xI, Z.log2_succ_double by lia. lia.
  - cbn [digits2_pos]. rewrite Pos2Z.inj_succ, IH, Pos2Z.inj_xO, Z.log2_double by lia. lia.
Qed.

(** The finite numbers: 53 digits, or fewer with the least exponent *)
Lemma f64_finite_ok b m e :
  f64_ok (S754_finite b m e) <->
  (2 ^ 52 <= Zpos m < 2 ^ 53 /\ -1074 <= e <= 971) \/ (Zpos m < 2 ^ 52 /\ e = -1074).
Proof.
  unfold f64_ok. cbn [valid_binary]. unfold bounded, canonical_mantissa.
  rewrite andb_true_iff, Z.leb_le, Z.eqb_eq. unfold fexp, emin. rewrite digits2_log2.
  change (1024 - 53) with 971. change (3 - 1024 - 53) with (-1074).
  destruct (Z.lt_ge_cases (Zpos m) (2 ^ 52)) as [Hlt|Hge].
  - assert (Z.log2 (Zpos m) < 52) by (by apply Z.log2_lt_pow2). lia.
  - assert (52 <= Z.log2 (Zpos m)) by (by apply Z.log2_le_pow2).
    destruct (Z.lt_ge_cases (Zpos m) (2 ^ 53)) as [Hlt|Hge'].
    + assert (Z.log2 (Zpos m) < 53) by (by apply Z.log2_lt_pow2). lia.
    + assert (53 <= Z.log2 (Zpos m)) by (by apply Z.log2_le_pow2). lia.
Qed.

Lemma f64_from_bits_ok z : f64_ok (f64_from_bits z).
Proof.
  unfold f64_from_bits. pose proof (Z.mod_pos_bound z (2 ^ 63)) as Hr.
  set (r := z mod 2 ^ 63) in *. pose proof (Z.mod_pos_bound r (2 ^ 52)) as Hf.
  assert (0 <= r / 2 ^ 52 < 2048) as He.
  { split; [apply Z.div_pos; lia|apply Z.div_lt_upper_bound; lia]. }
  destruct (Z.eqb_spec (r / 2 ^ 52) 0); [destruct (Z.eqb_spec (r mod 2 ^ 52) 0); [done|]|
    destruct (Z.eqb_spec (r / 2 ^ 52) 2047); [by destruct (_ =? 0)|]];
    apply f64_finite_ok; rewrite Z2Pos.id by lia; lia.
Qed.

Lemma f64_bits_parts (s : bool) (ex fr : Z) :
  0 <= ex < 2048 -> 0 <= fr < 2 ^ 52 ->
  let z := (if s then 2 ^ 63 else 0) + (ex * 2 ^ 52 + fr) in
  0 <= z < 2 ^ 64 /\ (2 ^ 63 <=? z) = s /\ (z mod 2 ^ 63) / 2 ^ 52 = ex /\
  (z mod 2 ^ 63) mod 2 ^ 52 = fr.
Proof.
  intros He Hf z.
  assert (z mod 2 ^ 63 = ex * 2 ^ 52 + fr) as ->.
  { symmetry. apply (Z.mod_unique_pos _ _ (if s then 1 else 0)); [lia|]. destruct s; subst z; lia. }
  split; [|split; [|split]].
  - destruct s; subst z; lia.
  - destruct s; [apply Z.leb_le|apply Z.leb_gt]; subst z; lia.
  - symmetry. apply (Z.div_unique_pos _ _ _ fr); lia.
  - symmetry. apply (Z.mod_unique_pos _ _ ex); lia.
Qed.

Lemma f64_bits_read f :
  f64_ok f -> 0 <= f64_bits f < 2 ^ 64 /\ f64_from_bits (f64_bits f) = f.
Proof.
  intros Hf. unfold f64_from_bits. destruct f as [b|b| |b m e].
  - destruct (f64_bits_parts b 0 0) as (H1 & H2 & H3 & H4); [lia..|].
    cbn [f64_bits]. rewrite Z.add_0_r in *. by rewrite H2, H3, H4.
  - destruct (f64_bits_parts b 2047 0) as (H1 & H2 & H3 & H4); [lia..|].
    cbn [f64_bits]. rewrite Z.add_0_r in *. by rewrite H2, H3, H4.
  - by vm_compute.
  - apply f64_finite_ok in Hf. cbn [f64_bits]. destruct (Z.leb_spec (2 ^ 52) (Zpos m)) as [Hm|Hm].
    + destruct Hf as [[? ?]|[? _]]; [|lia].
      destruct (f64_bits_parts b (e + 1075) (Zpos m - 2 ^ 52)) as (H1 & H2 & H3 & H4); [lia..|].
      rewrite H2, H3, H4. split; [done|].
      destruct (Z.eqb_spec (e + 1075) 0); [lia|]. destruct (Z.eqb_spec (e + 1075) 2047); [lia|].
      rewrite Z.sub_add, Z.add_simpl_r. done.
    + destruct Hf as [[? ?]|[_ ->]]; [lia|].
      destruct (f64_bits_parts b 0 (Zpos m)) as (H1 & H2 & H3 & H4); [lia..|].
      rewrite Z.mul_0_l, Z.add_0_l in *. rewrite H2, H3, H4. done.
Qed.

Program Definition c_f64 : codec spec_float := iso (uint 8) f64_bits f64_from_bits f64_ok _.
Next Obligation. intros f Hf. by apply f64_bits_read. Qed.

Lemma sound_f64 : sound c_f64.
Proof. apply sound_iso; [apply sound_uint|]. intros a _. apply f64_from_bits_ok. Qed.

(** ** Fields in their order *)

Module StakeLayout.

Lemma in_uint_u64 z : valid (uint 8) z <-> in_u64 z.
Proof.
  cbn [valid uint]. change (256 ^ Z.of_nat 8) with 18446744073709551616.
  unfold in_u64, u64_max. lia.
Qed.

Definition authorized_codec := c_pair key key.
Definition lockup_codec := c_pair i64 (c_pair (uint 8) key).
Program Definition meta_codec : codec Meta :=
  iso (c_pair (uint 8) (c_pair authorized_codec lockup_codec))
    (fun m => (rent_exempt_reserve m, ((staker (authorized m), StakeState.withdrawer (authorized m)),
       (lockup_unix_timestamp (lockup m), (lockup_epoch (lockup m), lockup_custodian (lockup m))))))
    (fun '(r, ((s, w), (t, (e, c)))) => mkStakeMeta r (mkAuthorized s w) (mkLockup t e c))
    meta_typed _.
Next Obligation.
  intros [r [s w] [t e c]] [Hr [Ht He]]. cbn [rent_exempt_reserve lockup authorized
    lockup_unix_timestamp lockup_epoch lockup_custodian staker StakeState.withdrawer] in *.
  split; [|done]. split; [by apply in_uint_u64|]. split; [done|]. split; [done|].
  split; [by apply in_uint_u64|done].
Qed.

Program Definition stake_codec : codec Stake :=
  iso (c_pair (c_pair key (c_pair (uint 8) (c_pair (uint 8) (c_pair (uint 8) c_f64)))) (uint 8))
    (fun s => let d := delegation s in
       ((voter_pubkey d, (d_stake d, (activation_epoch d, (deactivation_epoch d,
          warmup_cooldown_rate d)))), credits_observed s))
    (fun '((v, (x, (a, (e, r)))), c) => mkStake (mkDelegation v x a e r) c)
    stake_typed _.
Next Obligation.
  intros [[v x a e r] c] [(Hx & Ha & He & Hr) Hc]. cbn [delegation voter_pubkey d_stake
    activation_epoch deactivation_epoch warmup_cooldown_rate credits_observed] in *.
  split; [|done]. split; [|by apply in_uint_u64]. split; [done|].
  split; [by apply in_uint_u64|]. split; [by apply in_uint_u64|]. split; [by apply in_uint_u64|done].
Qed.

Lemma sound_meta : sound meta_codec.
Proof.
  apply sound_iso.
  - repeat apply sound_pair; auto using sound_uint, sound_key, sound_i64.
  - intros [r [[s w] [t [e c]]]] (Hr & _ & Ht & He & _). split; [by apply in_uint_u64|].
    split; [done|by apply in_uint_u64].
Qed.

Lemma sound_stake : sound stake_codec.
Proof.
  apply sound_iso.
  - repeat apply sound_pair; auto using sound_uint, sound_key, sound_f64.
  - intros [[v [x [a [e r]]]] c] [(_ & Hx & Ha & He & Hr) Hc]. cbn in Hr.
    split; [|by apply in_uint_u64]. split_and!; [by apply in_uint_u64..|done].
Qed.

#[global] Instance stake_state_bincode : Bincode StakeState := {
  bincode_encode := borsh_serialize (uint 4) meta_codec stake_codec;
  bincode_decode b := fst <$> borsh_deserialize (uint 4) meta_codec stake_codec b;
}.
#[global] Instance history_bincode : Bincode StakeHistory := {
  bincode_encode h := enc (c_vec VoteExample.triple_codec)
    ((fun p => (p.1, he_effective p.2, he_activating p.2)) <$> h) ++
    enc (c_vec (uint 8)) ((fun p => he_deactivating p.2) <$> h);
  bincode_decode b := '(l, b) ← dec (c_vec VoteExample.triple_codec) b;
    '(l', _) ← dec (c_vec (uint 8)) b;
    Some (zip_with (fun '(e, x, y) z => (e, mkHistoryEntry x y z)) l l');
}.
#[global] Instance config_bincode : Bincode Config := {
  bincode_encode c := enc (c_pair c_f64 (uint 1)) (config_warmup_cooldown_rate c, slash_penalty c);
  bincode_decode b := '((r, p), _) ← dec (c_pair c_f64 (uint 1)) b; Some (mkConfig r p);
}.

(** A state fits the account, with 4 bytes to spare. *)
Lemma length_stake_state s : (length (bincode_encode (T:=StakeState) s) <= 196)%nat.
Proof.
  change (bincode_encode s) with (borsh_serialize (uint 4) meta_codec stake_codec s).
  assert (forall m, length (enc meta_codec m) = 120%nat) as Hm.
  { intros m. cbn -[to_le_bytes]. rewrite !length_app, !length_pk_bytes, !length_to_le_bytes. done. }
  assert (forall st, length (enc stake_codec st) = 72%nat) as Hst.
  { intros st. cbn -[to_le_bytes]. rewrite !length_app, !length_pk_bytes, !length_to_le_bytes. done. }
  destruct s; cbn [borsh_serialize]; rewrite ?length_app, ?Hm, ?Hst, (fixed_uint 4); lia.
Qed.

Lemma dec_pair_snd {A B} (c : codec A) (d : codec B) b x y rest :
  dec (c_pair c d) b = Some ((x, y), rest) -> exists b1, dec d b1 = Some (y, rest).
Proof.
  cbn. destruct (dec c b) as [[x' b1]|]; [|done]. cbn.
  destruct (dec d b1) as [[y' b2]|] eqn:E; [|done]. intros [= <- <- <-]. eauto.
Qed.

Lemma dec_pair_fst {A B} (c : codec A) (d : codec B) b x y rest :
  dec (c_pair c d) b = Some ((x, y), rest) -> exists b1, dec c b = Some (x, b1).
Proof.
  cbn. destruct (dec c b) as [[x' b1]|]; [|done]. cbn.
  destruct (dec d b1) as [[y' b2]|]; [|done]. intros [= <- <- <-]. eauto.
Qed.

Lemma decoded_credits b s rest :
  dec VoteExample.state_codec b = Some (s, rest) -> in_u64 (credits s).
Proof.
  cbn [VoteExample.state_codec iso dec].
  destruct (dec VoteExample.body_codec b) as [[p b1]|] eqn:E; [|done]. intros [= <- _].
  destruct p as [n [w [c [v [r [a [p [e t]]]]]]]].
  do 7 (apply dec_pair_snd in E as [? E]). apply dec_pair_fst in E as [? E].
  apply sound_vec in E; [|repeat apply sound_pair; apply sound_uint].
  unfold credits. cbn [epoch_credits]. destruct (last e) as [[[e1 c1] c0]|] eqn:Hl; [|done].
  apply last_Some_elem_of in Hl. rewrite Forall_forall in E. specialize (E _ Hl).
  destruct E as [[_ E] _]. by apply in_uint_u64.
Qed.

#[global] Instance stake_bincode_laws : StakeBincode.
Proof.
  split.
  - intros s rest Hs.
    change (fst <$> borsh_deserialize (uint 4) meta_codec stake_codec
      (borsh_serialize (uint 4) meta_codec stake_codec s ++ rest) = Some s).
    rewrite borsh_read_back; [done| |by destruct s].
    intros x Hx. cbn [valid uint]. change (256 ^ Z.of_nat 4) with 4294967296. lia.
  - intros b s. change (fst <$> borsh_deserialize (uint 4) meta_codec stake_codec b = Some s -> state_typed s).
    unfold borsh_deserialize. destruct (dec (uint 4) b) as [[tag b1]|]; [|done].
    cbn [mbind option_bind].
    destruct tag as [|[[?|?|]|[?|?|]|]|]; try done; cbn [fmap option_fmap option_map];
      try (intros [= <-]; done).
    + destruct (dec meta_codec b1) as [[m b2]|] eqn:Hm; [|done]. cbn [mbind option_bind].
      destruct (dec stake_codec b2) as [[st b3]|] eqn:Hst; [|done]. intros [= <-].
      split; [by eapply sound_meta|by eapply sound_stake].
    + destruct (dec meta_codec b1) as [[m b2]|] eqn:Hm; [|done]. intros [= <-]. by eapply sound_meta.
  - intros b s. change (VoteExample.decode_versions b = Some (Current s) -> in_u64 (credits s)).
    unfold VoteExample.decode_versions. destruct (dec (uint 4) b) as [[tag b1]|]; [|done].
    cbn [mbind option_bind]. destruct (tag =? 0); [|done].
    destruct (dec VoteExample.state_codec b1) as [[s' b2]|] eqn:Hs; [|done]. intros [= <-].
    by eapply decoded_credits.
  - intros b c. cbn [bincode_decode VoteExample.clock_bincode].
    destruct (Nat.ltb_spec (length b) 40); [done|]. intros [= <-]. cbn [clock_epoch].
    apply from_le_bytes_u64. rewrite length_take, length_drop. lia.
  - intros b c. cbn [bincode_decode config_bincode].
    destruct (dec (c_pair c_f64 (uint 1)) b) as [[[r p] b1]|] eqn:E; [|done]. intros [= <-].
    apply dec_pair_fst in E as [? E]. by apply sound_f64 in E.
Qed.
End StakeLayout.
