(* ===== verification/StakeExample.v ===== *)
(** * A concrete stake program

    A ledger with a stake account that is still warming up, and runs of stake
    instructions on it. *)

From Stdlib Require Import ZArith Lia SpecFloat.
From Stdlib Require Import Strings.Byte.
From stdpp Require Import prelude gmap numbers sorting list.
From S2P Require Import Prelude Sdk Runtime SystemInstruction SystemProgram SystemFacts SystemExample Codec ShortVec ConfigProgram VoteState VoteProgram VoteTyped VoteExample StakeState StakeRewards StakeProgram StakeActivation StakeEffect StakeSafety StakeInvariant StakeLayout.

Module StakeExample.

Definition hashv : list bytes -> Hash := SystemExample.hashv.
Definition staker_key : Pubkey := pk_of_Z 21.
Definition withdrawer_key : Pubkey := pk_of_Z 22.
Definition custodian : Pubkey := pk_of_Z 23.
Definition stake_key : Pubkey := pk_of_Z 200.
Definition target : Pubkey := pk_of_Z 201.

(** 1000 lamports delegated in epoch 10, of which 250 are active in epoch 11. *)
Definition clock : Clock := mkClock 400 0 11 12 0.
Definition history : StakeHistory := [(10, mkHistoryEntry 1000 1000 0)].
Definition env : StakeEnv := mkStakeEnv (Some clock) true true.
Definition stake : Stake :=
  mkStake (mkDelegation VoteExample.vote_key 1000 10 u64_max DEFAULT_WARMUP_COOLDOWN_RATE) 0.
Definition meta (lk : Lockup) : Meta := mkStakeMeta 100 (mkAuthorized staker_key withdrawer_key) lk.

(** A lockup until epoch 20, and none *)
Definition lk : Lockup := mkLockup 0 20 custodian.

Definition stake_data (s : StakeState) : bytes :=
  let e := bincode_encode s in e ++ replicate (STAKE_STATE_SIZE - length e) x00.
Definition config_data : bytes := default [] (config_keys_serialize []) ++ bincode_encode config_default.

Definition sysvar (b : bytes) : AccountSharedData := mkAccount 1 b System.sysvar_id false 0.
Definition stake_account (lk : Lockup) : AccountSharedData :=
  mkAccount 1100 (stake_data (Delegated (meta lk) stake)) stake_program_id false 0.
Definition ledger_of (lk : Lockup) : ledger :=
  <[stake_key := stake_account lk]>
  (<[VoteExample.vote_key :=
       mkAccount 1000000 (VoteExample.state_data VoteExample.state) vote_program_id false 0]>
  (<[clock_sysvar_id := sysvar (bincode_encode clock)]>
  (<[stake_history_sysvar_id := sysvar (bincode_encode history)]>
  (<[stake_config_id := mkAccount 1 config_data config_program_id false 0]> ∅)))).

Definition ka (signer : bool) (k : Pubkey) : KeyedAccount := mkKeyed signer true k.
Definition deactivate_keys : list KeyedAccount :=
  [ka false stake_key; ka false clock_sysvar_id; ka true staker_key].
Definition withdraw_keys : list KeyedAccount :=
  [ka false stake_key; ka false target; ka false clock_sysvar_id; ka false stake_history_sysvar_id;
   ka true withdrawer_key].
Definition delegate_keys : list KeyedAccount :=
  [ka false stake_key; ka false VoteExample.vote_key; ka false clock_sysvar_id;
   ka false stake_history_sysvar_id; ka false stake_config_id; ka true staker_key].

Definition deserialize (i : StakeInstruction) (_ : bytes) : option StakeInstruction := Some i.
Definition run (i : StakeInstruction) (kas : list KeyedAccount) (l : ledger)
    : outcome InstructionError (unit * ledger) :=
  StakeProgram.process_instruction hashv env (deserialize i) 0 [] kas l.
Definition next (i : StakeInstruction) (kas : list KeyedAccount) (l : ledger) : option ledger :=
  match run i kas l with Ok (_, l') => Some l' | _ => None end.

(** Whether the account has the stake [x], not deactivated, and [y] lamports *)
Definition stake_is (x y : Z) (l : ledger) : bool :=
  match account_state (get_account l stake_key) with
  | Ok (Delegated m st) =>
      (d_stake (delegation st) =? x) && (deactivation_epoch (delegation st) =? u64_max)
      && (rent_exempt_reserve m =? 100) && (lamports (get_account l stake_key) =? y)
      && bool_decide (owner (get_account l stake_key) = stake_program_id)
  | _ => false
  end.

Lemma stake_is_true x y l :
  stake_is x y l = true -> lamports (get_account l stake_key) = y /\
  exists m st, account_state (get_account l stake_key) = Ok (Delegated m st) /\
    d_stake (delegation st) = x /\ (x + 100 > y -> ~ stakes_backed l).
Proof.
  unfold stake_is. destruct (account_state (get_account l stake_key)) as [[|m|m st|]| |] eqn:Hs; try done.
  intros Hc. keyed_inv. split; [done|]. exists m, st. split_and!; [done..|]. intros Hlt Hb.
  rename select (owner _ = _) into Ho. destruct (Hb stake_key _ Ho Hs) as (_ & _ & Hcov).
  specialize (Hcov ltac:(assumption)). lia.
Qed.

(** Deactivated, emptied down to what is active, and delegated again in one epoch *)
Definition rescinded : option ledger :=
  l ← next Deactivate deactivate_keys (ledger_of lockup_default);
  l ← next (StakeWithdraw 750) withdraw_keys l;
  next DelegateStake delegate_keys l.

Lemma rescinded_result : (stake_is 1000 350 <$> rescinded) = Some true.
Proof. vm_compute. reflexivity. Qed.

(** ** The ledger is in order *)

Lemma ledger_cases (P : AccountSharedData -> Prop) lk :
  P (stake_account lk) ->
  P (mkAccount 1000000 (VoteExample.state_data VoteExample.state) vote_program_id false 0) ->
  P (sysvar (bincode_encode clock)) -> P (sysvar (bincode_encode history)) ->
  P (mkAccount 1 config_data config_program_id false 0) -> P (get_account ∅ stake_key) ->
  forall k, P (get_account (ledger_of lk) k).
Proof.
  intros H1 H2 H3 H4 H5 H6 k. unfold ledger_of. rewrite !get_account_insert.
  repeat (case_decide; [assumption|]). exact H6.
Qed.

Lemma ledger_balances lk k : in_u64 (lamports (get_account (ledger_of lk) k)).
Proof. apply (ledger_cases (fun a => in_u64 (lamports a))); split; vm_compute; discriminate. Qed.

Lemma stake_account_state lk :
  lockup_typed lk -> account_state (stake_account lk) = Ok (Delegated (meta lk) stake).
Proof.
  intros Hlk. unfold account_state, stake_account, stake_data. cbn [data].
  rewrite stake_roundtrip; [done|]. split; [split; [by vm_compute|done]|]. by split_and!; vm_compute.
Qed.

Lemma ledger_backed lk : lockup_typed lk -> stakes_backed (ledger_of lk).
Proof.
  intros Hlk k s. revert k. apply (ledger_cases (fun a => owner a = stake_program_id ->
    account_state a = Ok s -> backed s (length (data a)) (lamports a))).
  - intros _ Hs. rewrite (stake_account_state lk Hlk) in Hs. injection Hs as <-.
    assert (length (data (stake_account lk)) = STAKE_STATE_SIZE) as Hl.
    { unfold stake_account, stake_data. cbn [data]. rewrite length_app, length_replicate.
      pose proof (StakeLayout.length_stake_state (Delegated (meta lk) stake)).
      unfold STAKE_STATE_SIZE in *. lia. }
    split_and!; [exact Hl|cbn; lia|intros _; cbn; lia].
  - intros Ho. exfalso. revert Ho. apply (bool_decide_eq_false_1 _). vm_compute. reflexivity.
  - intros Ho. exfalso. revert Ho. apply (bool_decide_eq_false_1 _). vm_compute. reflexivity.
  - intros Ho. exfalso. revert Ho. apply (bool_decide_eq_false_1 _). vm_compute. reflexivity.
  - intros Ho. exfalso. revert Ho. apply (bool_decide_eq_false_1 _). vm_compute. reflexivity.
  - intros Ho. exfalso. revert Ho. apply (bool_decide_eq_false_1 _). vm_compute. reflexivity.
Qed.

Lemma clock_account lk : bincode_decode (data (get_account (ledger_of lk) clock_sysvar_id)) = Some clock.
Proof.
  unfold ledger_of. rewrite 2!get_account_insert_ne, get_account_insert_eq
    by (apply (bool_decide_eq_true_1 _); vm_compute; reflexivity). vm_compute. reflexivity.
Qed.

Lemma clock_unique lk c : stake_clock env (ledger_of lk) c -> c = clock.
Proof.
  intros [Hc|Hc].
  - by injection Hc.
  - rewrite clock_account in Hc. by injection Hc.
Qed.

(** A deactivation under a lockup in force *)
Definition deactivated : ledger := default ∅ (next Deactivate deactivate_keys (ledger_of lk)).

Lemma next_runs i kas l l' : next i kas l = Some l' -> exists u, run i kas l = Ok (u, l').
Proof.
  unfold next. destruct (run i kas l) as [[u l1]| |]; [|done..]. intros [= ->]. eauto.
Qed.

Lemma default_Some {A} (o : option A) d :
  match o with Some _ => true | None => false end = true -> o = Some (default d o).
Proof. by destruct o. Qed.

Lemma deactivate_runs : exists u, run Deactivate deactivate_keys (ledger_of lk) = Ok (u, deactivated).
Proof. apply next_runs, default_Some. vm_compute. reflexivity. Qed.

Lemma lk_in_force : is_in_force lk clock None = true.
Proof. vm_compute. reflexivity. Qed.
End StakeExample.
