(* ===== verification/StakeTheorems.v ===== *)
(** * Theorems about the stake program *)

From Stdlib Require Import ZArith Lia SpecFloat.
From Stdlib Require Import Strings.Byte.
From stdpp Require Import prelude gmap numbers sorting list.
From S2P Require Import Prelude Sdk Runtime SystemInstruction SystemProgram SystemFacts Codec ShortVec ConfigProgram VoteState VoteProgram VoteTyped VoteExample BinarySearch StakeState StakeRewards StakeProgram StakeActivation StakeRewardFacts StakeEffect StakeSafety StakeInvariant StakeLayout StakeExample.

(** ** Instructions *)

Section Instructions.
Context (hashv : list bytes -> Hash) `{StakeBincode} `{Bincode Rent}.
Context (env : StakeEnv) (deserialize : bytes -> option StakeInstruction) (first : nat) (d : bytes).
Context (kas : list KeyedAccount) (l : ledger).

(** Numbers are within their types. *)
Definition stake_input_typed : Prop :=
  (forall c, stake_cache_clock env = Some c -> in_u64 (clock_epoch c)) /\
  (forall k, in_u64 (lamports (get_account l k))) /\
  (forall i, deserialize d = Some i -> stake_instr_typed i).

(** C19: A stake instruction that succeeds was applied to an account of the stake program
    and had one of the effects of [stake_effect], each with the signatures it names: a
    step of the account's state (the staker delegates and deactivates, the staker or the
    withdrawer names a staker, the withdrawer a withdrawer, and while a lockup is in
    force its custodian must approve the withdrawer and the lockup), a split or a merge
    signed by the staker, or a withdrawal signed by the withdrawer.  It changed only
    accounts it was given and conserved the lamports.  No instruction panics, whatever
    its accounts, its data and the sysvars. *)
Theorem stake_changes_approved :
  StakeProgram.process_instruction hashv env deserialize first d kas l <> Panic /\
  forall u l', stake_input_typed ->
  StakeProgram.process_instruction hashv env deserialize first d kas l = Ok (u, l') ->
  (exists me i, kas !! first = Some me /\ deserialize d = Some i /\
     owner (acct l me) = stake_program_id /\
     stake_effect hashv env (get_signers (drop first kas)) i (drop first kas) (unsigned_key me) l l') /\
  map_sum lamports l' = map_sum lamports l /\
  (forall k, (forall ka, ka ∈ drop first kas -> unsigned_key ka <> k) -> l' !! k = l !! k).
Proof.
  split; [apply process_stake_np|]. intros u l' (Hc & Hb & Hi) Hrun.
  destruct (process_stake_effect _ _ _ _ _ _ _ _ _ Hc Hb Hi Hrun) as (me & i & Hme & Hd & Ho & Heff).
  split_and!; [by exists me, i|by eapply effect_conserves|].
  intros k Hk. assert (k <> unsigned_key me) as Hne.
  { intros ->. eapply Hk; [by eapply elem_of_drop_lookup_0|done]. }
  assert (k ∉ unsigned_key <$> drop first kas) as Hnk.
  { intros (ka & -> & Hin)%list_elem_of_fmap. by eapply Hk. }
  eapply effect_frame; eauto.
Qed.

(** C20: Stakes are backed.  Every account that is initialized keeps its rent reserve, and
    one whose stake is not deactivated has the lamports of the stake above it: what no
    sequence of instructions changes, splits, merges and withdrawals included, as long as
    a delegation that rescinds a deactivation of the same epoch finds the stake still
    covered. *)
Theorem stakes_stay_backed u l' :
  stake_input_typed ->
  (forall c, stake_clock env l c -> clock_epoch c < u64_max) ->
  (forall me i, kas !! first = Some me -> deserialize d = Some i ->
     rescinds_covered env i (unsigned_key me) l) ->
  stakes_backed l ->
  StakeProgram.process_instruction hashv env deserialize first d kas l = Ok (u, l') ->
  stakes_backed l' /\ forall k, in_u64 (lamports (get_account l' k)).
Proof.
  intros (Hc & Hb & Hi) Hepoch Hres Hl Hrun.
  destruct (process_stake_effect _ _ _ _ _ _ _ _ _ Hc Hb Hi Hrun) as (me & i & Hme & Hd & Ho & Heff).
  split; [eapply effect_backed|eapply effect_balances]; eauto.
Qed.

(** C21: Locked lamports stay locked.  While a lockup is in force and its custodian does
    not approve the instruction (with a signature, or for an authorization with a seed
    as the key derived from one), the lamports of the stake accounts under that lockup
    and a withdrawer do not become less, whoever signs and whatever the instruction. *)
Theorem locked_funds_stay u l' clock L w :
  stake_input_typed ->
  (forall c, stake_clock env l c -> c = clock) ->
  is_in_force L clock None = true ->
  (forall i, deserialize d = Some i ->
     ~ approves hashv (get_signers (drop first kas)) i (lockup_custodian L)) ->
  StakeProgram.process_instruction hashv env deserialize first d kas l = Ok (u, l') ->
  map_sum (locked L w) l <= map_sum (locked L w) l'.
Proof.
  intros (Hc & Hb & Hi) Hclock Hforce Hno Hrun.
  destruct (process_stake_effect _ _ _ _ _ _ _ _ _ Hc Hb Hi Hrun) as (me & i & Hme & Hd & Ho & Heff).
  eapply locked_monotone; eauto.
Qed.
End Instructions.


(** ** Warming up and cooling down *)

(** C28: At every epoch what is effective and what is activating was delegated, what is
    deactivating is effective, and a stake does not do both.  A deactivated stake never
    grows again from one epoch to a later one, under histories that agree on the epochs
    before the earlier one.  The loops over the history end by their own conditions:
    with one turn more than the history has later entries, more fuel changes nothing. *)
Theorem stake_activation_sound d h1 h2 t1 t2 :
  in_u64 (d_stake d) ->
  (forall h t, let s := stake_activating_and_deactivating d t h in
     0 <= he_deactivating s <= he_effective s /\ 0 <= he_activating s /\
     he_effective s + he_activating s <= d_stake d /\
     (he_activating s = 0 \/ he_deactivating s = 0)) /\
  (t1 <= t2 -> (forall e, e < t1 -> history_get h1 e = history_get h2 e) ->
   is_bootstrap d = true \/ activation_epoch d <= deactivation_epoch d ->
   deactivation_epoch d <= t1 ->
   delegation_stake d t2 (Some h2) <= delegation_stake d t1 (Some h1)) /\
  (forall fuel e entry x, (length h1 < fuel)%nat ->
     activation_loop d h1 t1 fuel e entry x = activation_loop d h1 t1 (S (length h1)) e entry x /\
     deactivation_loop d h1 t1 fuel e entry x = deactivation_loop d h1 t1 (S (length h1)) e entry x).
Proof.
  intros [Hd _]. split_and!.
  - intros h t s. pose proof (status_bounds d t h Hd) as Hb. cbn zeta in Hb. fold s in Hb. lia.
  - intros. by apply deactivated_never_grows.
  - intros fuel e entry x Hf. pose proof (later_length h1 e).
    split; [apply activation_loop_fuel|apply deactivation_loop_fuel]; lia.
Qed.

(** The history is a map from epochs to entries, kept newest first.  Reading it by
    binary search is the lookup; adding an entry keeps the order and at most 512 entries,
    sets the entry, and while there is room loses nothing; what is read afterwards was
    there before or is new. *)
Theorem stake_history_is_map h epoch x :
  newest_first h ->
  (forall e, history_get h e = (list_to_map h : gmap Z StakeHistoryEntry) !! e) /\
  newest_first (history_add h epoch x) /\ (length (history_add h epoch x) <= MAX_ENTRIES)%nat /\
  (forall e y, history_get (history_add h epoch x) e = Some y ->
     if decide (e = epoch) then y = x else history_get h e = Some y) /\
  ((length h < MAX_ENTRIES)%nat -> forall e,
     history_get (history_add h epoch x) e = if decide (e = epoch) then Some x else history_get h e).
Proof.
  intros Hh. split; [intros e; by apply history_get_map|]. by apply history_add_ok.
Qed.

(** ** Rewards *)


(** ** Merging *)

(** Merging stakes whose observed credits differ takes their average weighted by
    stake, rounded up, and always succeeds when the stakes add up.  The result lies
    between the two, so that at any later number of credits the merged stake can claim
    no more points than the two together, and less than one credit per lamport is
    lost. *)
Theorem merged_credits_fair env s x y V :
  stake_merge_with_unmatched_credits_observed env = true ->
  stake_typed s -> 0 <= x -> in_u64 y -> 0 < d_stake (delegation s) + x <= u64_max ->
  exists s', merge_delegation_stake_and_credits_observed env s x y = Ok s' /\
    d_stake (delegation s') = d_stake (delegation s) + x /\
    Z.min (credits_observed s) y <= credits_observed s' <= Z.max (credits_observed s) y /\
    let claim := d_stake (delegation s) * (V - credits_observed s) + x * (V - y) in
    claim - d_stake (delegation s')
    < d_stake (delegation s') * (V - credits_observed s') <= claim.
Proof.
  intros Henv [([Hd _] & _) Hc] Hx Hy Ht.
  destruct (weighted_credits s x y Hc Hy Hd Hx Ht) as (c & Hw & Hb & Hsum).
  unfold merge_delegation_stake_and_credits_observed. rewrite Henv, Hw.
  cbn [mbind outcome_bind ok_or]. unfold ix_checked_add, checked_add.
  change (delegation (set_credits_observed c s)) with (delegation s).
  rewrite (proj2 (Z.leb_le (d_stake (delegation s) + x) u64_max)) by lia.
  eexists. split; [reflexivity|]. cbn. cbn zeta in Hsum. split_and!; lia || nia.
Qed.

(** ** Witnesses *)

Lemma example_typed (i : StakeInstruction) lk :
  stake_instr_typed i ->
  stake_input_typed StakeExample.env (StakeExample.deserialize i) [] (StakeExample.ledger_of lk).
Proof.
  intros Hi. split_and!.
  - intros c [= <-]. split; vm_compute; discriminate.
  - apply StakeExample.ledger_balances.
  - intros j [= <-]. exact Hi.
Qed.

Lemma stake_changes_approved_witness :
  map_sum lamports StakeExample.deactivated = map_sum lamports (StakeExample.ledger_of StakeExample.lk).
Proof.
  destruct StakeExample.deactivate_runs as [u Hrun].
  destruct (stake_changes_approved StakeExample.hashv StakeExample.env
    (StakeExample.deserialize Deactivate) 0 [] StakeExample.deactivate_keys
    (StakeExample.ledger_of StakeExample.lk)) as [_ Heff].
  apply (Heff u StakeExample.deactivated (example_typed Deactivate StakeExample.lk I) Hrun).
Defined.

Lemma stakes_stay_backed_witness : stakes_backed StakeExample.deactivated.
Proof.
  destruct StakeExample.deactivate_runs as [u Hrun].
  apply (stakes_stay_backed _ _ _ _ _ _ _ _ _ (example_typed Deactivate StakeExample.lk I)
    ltac:(intros c ->%StakeExample.clock_unique; vm_compute; reflexivity)
    ltac:(intros me i _ [= <-]; intros c m st Hi; discriminate Hi)
    (StakeExample.ledger_backed StakeExample.lk ltac:(split; [split|split]; vm_compute; congruence)) Hrun).
Defined.

Lemma locked_funds_stay_witness :
  map_sum (locked StakeExample.lk StakeExample.withdrawer_key) (StakeExample.ledger_of StakeExample.lk)
  <= map_sum (locked StakeExample.lk StakeExample.withdrawer_key) StakeExample.deactivated.
Proof.
  destruct StakeExample.deactivate_runs as [u Hrun].
  refine (locked_funds_stay _ _ _ _ _ _ _ u _ StakeExample.clock _ _
    (example_typed Deactivate StakeExample.lk I) (StakeExample.clock_unique StakeExample.lk)
    StakeExample.lk_in_force _ Hrun).
  intros i [= <-] Hin. cbn [approves seed_of] in Hin. revert Hin.
  apply (bool_decide_eq_false_1 _). vm_compute. reflexivity.
Defined.

Lemma stake_activation_sound_witness :
  delegation_stake (set_deactivation_epoch 11 (delegation StakeExample.stake)) 12
    (Some ((11, mkHistoryEntry 1250 0 250) :: StakeExample.history))
  <= delegation_stake (set_deactivation_epoch 11 (delegation StakeExample.stake)) 11
       (Some StakeExample.history).
Proof.
  apply (stake_activation_sound (set_deactivation_epoch 11 (delegation StakeExample.stake))).
  - split; vm_compute; discriminate.
  - vm_compute. discriminate.
  - intros e He. destruct (decide (e = 10)) as [->|Hne]; [vm_compute; reflexivity|].
    rewrite !history_get_map by (repeat constructor).
    cbn [StakeExample.history list_to_map foldr fst snd uncurry].
    rewrite !lookup_insert_ne by lia. reflexivity.
  - right. vm_compute. discriminate.
  - vm_compute. discriminate.
Defined.

Lemma stake_history_is_map_witness :
  history_get (history_add StakeExample.history 11 entry_default) 10 = Some (mkHistoryEntry 1000 1000 0).
Proof.
  assert (newest_first StakeExample.history) as Hn by (repeat constructor).
  destruct (stake_history_is_map StakeExample.history 11 entry_default Hn) as (_ & _ & _ & _ & Hadd).
  rewrite Hadd by (apply Nat.ltb_lt; vm_compute; reflexivity). vm_compute. reflexivity.
Defined.


Lemma merged_credits_fair_witness :
  exists s', merge_delegation_stake_and_credits_observed StakeExample.env StakeExample.stake 500 9 = Ok s'.
Proof.
  destruct (merged_credits_fair StakeExample.env StakeExample.stake 500 9 20) as (s' & Hs' & _).
  - reflexivity.
  - repeat split; vm_compute; discriminate || reflexivity.
  - lia.
  - split; vm_compute; discriminate.
  - split; vm_compute; discriminate || reflexivity.
  - exists s'. exact Hs'.
Defined.
