(* ===== verification/TokenState.v ===== *)
(** * Token program state (programs/token/src/state.rs, error.rs)

    The three account layouts of the token program and their packed
    representations. *)

From Stdlib Require Import ZArith Lia.
From Stdlib Require Import Strings.Byte.
From stdpp Require Import prelude gmap list numbers.
From S2P Require Import Prelude Sdk Utf8.

(** ** Errors *)

Inductive TokenError : Type :=
| NotRentExempt | TokenInsufficientFunds | InvalidMint | MintMismatch | OwnerMismatch
| FixedSupply | AlreadyInUse | InvalidNumberOfProvidedSigners
| InvalidNumberOfRequiredSigners | UninitializedState
| NativeNotSupported | NonNativeHasBalance | InvalidInstruction | InvalidState | Overflow
| AuthorityTypeNotSupported | MintCannotFreeze | AccountFrozen | MintDecimalsMismatch
| NonNativeNotSupported.

(** The discriminant, [e as u32]. *)
Definition token_error_code (e : TokenError) : Z :=
  match e with
  | NotRentExempt => 0 | TokenInsufficientFunds => 1 | InvalidMint => 2
  | MintMismatch => 3 | OwnerMismatch => 4 | FixedSupply => 5 | AlreadyInUse => 6
  | InvalidNumberOfProvidedSigners => 7 | InvalidNumberOfRequiredSigners => 8
  | UninitializedState => 9 | NativeNotSupported => 10 | NonNativeHasBalance => 11
  | InvalidInstruction => 12 | InvalidState => 13 | Overflow => 14
  | AuthorityTypeNotSupported => 15 | MintCannotFreeze => 16 | AccountFrozen => 17
  | MintDecimalsMismatch => 18 | NonNativeNotSupported => 19
  end.

(** [impl From<TokenError> for InstructionError] *)
Definition token_err (e : TokenError) : InstructionError := Custom (token_error_code e).

(** ** Data *)

Definition MAX_NAME_LENGTH : nat := 32.
Definition MAX_SYMBOL_LENGTH : nat := 10.
Definition MIN_SIGNERS : nat := 1.
Definition MAX_SIGNERS : nat := 11.

Record Mint : Type := mkMint {
  mint_authority : option Pubkey;
  name : bytes;
  symbol : bytes;
  supply : Z;
  decimals : Z;
  mint_is_initialized : bool;
  freeze_authority : option Pubkey;
}.

Inductive AccountState : Type := Uninitialized | Initialized | Frozen.

#[global] Instance AccountState_eq_dec : EqDecision AccountState.
Proof. solve_decision. Defined.

Record TokenAccount : Type := mkTokenAccount {
  ta_mint : Pubkey;
  ta_owner : Pubkey;
  amount : Z;
  delegate : option Pubkey;
  state : AccountState;
  is_native : option Z;
  delegated_amount : Z;
  close_authority : option Pubkey;
}.

Record Multisig : Type := mkMultisig {
  ms_m : Z;
  ms_n : Z;
  ms_is_initialized : bool;
  ms_signers : list Pubkey;
}.

(** [TokenAccount::is_frozen], [TokenAccount::is_native] *)
Definition is_frozen (a : TokenAccount) : bool := bool_decide (state a = Frozen).
Definition is_native_b (a : TokenAccount) : bool :=
  match is_native a with Some _ => true | None => false end.

(** ** Byte layouts *)

(** [array_refs!]: consecutive fields of the given sizes. *)
Fixpoint array_refs (sizes : list nat) (l : bytes) : list bytes :=
  match sizes with
  | [] => []
  | n :: sizes => take n l :: array_refs sizes (drop n l)
  end.

Definition tag_none : bytes := [x00; x00; x00; x00].
Definition tag_some : bytes := [x01; x00; x00; x00].

(** The body of an absent option is left as it was in the destination. *)
Definition pack_option_key (src : option Pubkey) (dst : bytes) : bytes :=
  match src with
  | Some key => tag_some ++ pk_bytes key
  | None => tag_none ++ drop 4 dst
  end.

Definition unpack_option_key (src : bytes) : outcome InstructionError (option Pubkey) :=
  let tag := take 4 src in
  if bool_decide (tag = tag_none) then Ok None
  else if bool_decide (tag = tag_some) then Ok (Some (new_from_array (drop 4 src)))
  else Err InvalidAccountData.

Definition pack_option_u64 (src : option Z) (dst : bytes) : bytes :=
  match src with
  | Some amount => tag_some ++ to_le_bytes 8 amount
  | None => tag_none ++ drop 4 dst
  end.

Definition unpack_option_u64 (src : bytes) : outcome InstructionError (option Z) :=
  let tag := take 4 src in
  if bool_decide (tag = tag_none) then Ok None
  else if bool_decide (tag = tag_some) then Ok (Some (from_le_bytes (drop 4 src)))
  else Err InvalidAccountData.

(** [size - s.len()] underflows when the string is longer than the field: a
    checked build panics there, and an unchecked one asks for about [2^64] zero
    bytes and aborts. *)
Definition puffed_out_string (s : bytes) (size : nat) : outcome InstructionError bytes :=
  if (length s <=? size)%nat then Ok (s ++ replicate (size - length s) x00) else Panic.

Definition byte_of_bool (b : bool) : byte := if b then x01 else x00.

(** [match x { [0] => false, [1] => true, _ => InvalidAccountData }] *)
Definition bool_of_bytes (l : bytes) : outcome InstructionError bool :=
  if bool_decide (l = [x00]) then Ok false
  else if bool_decide (l = [x01]) then Ok true
  else Err InvalidAccountData.

(** The only element of a one-byte array. *)
Definition byte0 (l : bytes) : Z := match l with b :: _ => byte_to_Z b | [] => 0 end.

Definition MINT_LEN : nat := 124.
Definition mint_sizes : list nat := [36; 32; 10; 8; 1; 1; 36]%nat.

(** [Mint::pack_into_slice]; [array_mut_ref!] panics on a slice that is too
    short and leaves the rest of a longer one alone. *)
Definition mint_pack_into_slice (m : Mint) (dst : bytes) : outcome InstructionError bytes :=
  if (length dst <? MINT_LEN)%nat then Panic else
  match array_refs mint_sizes dst with
  | [mint_authority_dst; _; _; _; _; _; freeze_authority_dst] =>
      name_padded ← puffed_out_string (name m) MAX_NAME_LENGTH;
      symbol_padded ← puffed_out_string (symbol m) MAX_SYMBOL_LENGTH;
      Ok (pack_option_key (mint_authority m) mint_authority_dst
          ++ name_padded
          ++ symbol_padded
          ++ to_le_bytes 8 (supply m)
          ++ [byte_of_Z (decimals m)]
          ++ [byte_of_bool (mint_is_initialized m)]
          ++ pack_option_key (freeze_authority m) freeze_authority_dst
          ++ drop MINT_LEN dst)
  | _ => Panic
  end.

Definition mint_unpack_from_slice (src : bytes) : outcome InstructionError Mint :=
  if (length src <? MINT_LEN)%nat then Panic else
  match array_refs mint_sizes src with
  | [mint_authority; name; symbol; supply; decimals; is_initialized; freeze_authority] =>
      mint_authority ← unpack_option_key mint_authority;
      is_initialized ← bool_of_bytes is_initialized;
      freeze_authority ← unpack_option_key freeze_authority;
      Ok (mkMint mint_authority (from_utf8_lossy name) (from_utf8_lossy symbol)
            (from_le_bytes supply) (byte0 decimals) is_initialized freeze_authority)
  | _ => Panic
  end.

#[global] Instance Mint_Pack : Pack Mint := {|
  LEN := MINT_LEN;
  is_initialized := mint_is_initialized;
  pack_into_slice := mint_pack_into_slice;
  unpack_from_slice := mint_unpack_from_slice;
|}.

(** [state as u8] and [AccountState::try_from_primitive] *)
Definition account_state_byte (s : AccountState) : byte :=
  match s with Uninitialized => x00 | Initialized => x01 | Frozen => x02 end.
Definition account_state_of_byte (b : Z) : outcome InstructionError AccountState :=
  if b =? 0 then Ok Uninitialized
  else if b =? 1 then Ok Initialized
  else if b =? 2 then Ok Frozen
  else Err InvalidAccountData.

Definition TOKEN_ACCOUNT_LEN : nat := 165.
Definition token_account_sizes : list nat := [32; 32; 8; 36; 1; 12; 8; 36]%nat.

Definition token_account_pack_into_slice (a : TokenAccount) (dst : bytes)
    : outcome InstructionError bytes :=
  if (length dst <? TOKEN_ACCOUNT_LEN)%nat then Panic else
  match array_refs token_account_sizes dst with
  | [_; _; _; delegate_dst; _; is_native_dst; _; close_authority_dst] =>
      Ok (pk_bytes (ta_mint a)
          ++ pk_bytes (ta_owner a)
          ++ to_le_bytes 8 (amount a)
          ++ pack_option_key (delegate a) delegate_dst
          ++ [account_state_byte (state a)]
          ++ pack_option_u64 (is_native a) is_native_dst
          ++ to_le_bytes 8 (delegated_amount a)
          ++ pack_option_key (close_authority a) close_authority_dst
          ++ drop TOKEN_ACCOUNT_LEN dst)
  | _ => Panic
  end.

Definition token_account_unpack_from_slice (src : bytes)
    : outcome InstructionError TokenAccount :=
  if (length src <? TOKEN_ACCOUNT_LEN)%nat then Panic else
  match array_refs token_account_sizes src with
  | [mint; owner; amount; delegate; state; is_native; delegated_amount; close_authority] =>
      delegate ← unpack_option_key delegate;
      state ← account_state_of_byte (byte0 state);
      is_native ← unpack_option_u64 is_native;
      close_authority ← unpack_option_key close_authority;
      Ok (mkTokenAccount (new_from_array mint) (new_from_array owner)
            (from_le_bytes amount) delegate state is_native
            (from_le_bytes delegated_amount) close_authority)
  | _ => Panic
  end.

#[global] Instance TokenAccount_Pack : Pack TokenAccount := {|
  LEN := TOKEN_ACCOUNT_LEN;
  is_initialized := fun a => negb (bool_decide (state a = Uninitialized));
  pack_into_slice := token_account_pack_into_slice;
  unpack_from_slice := token_account_unpack_from_slice;
|}.

Definition MULTISIG_LEN : nat := 355.
Definition multisig_sizes : list nat := [1; 1; 1; 32 * MAX_SIGNERS]%nat.

(** The signers array has [MAX_SIGNERS] entries by its type. *)
Definition multisig_pack_into_slice (ms : Multisig) (dst : bytes)
    : outcome InstructionError bytes :=
  if (length dst <? MULTISIG_LEN)%nat then Panic else
  Ok ([byte_of_Z (ms_m ms)] ++ [byte_of_Z (ms_n ms)]
      ++ [byte_of_bool (ms_is_initialized ms)]
      ++ concat (pk_bytes <$> ms_signers ms)
      ++ drop MULTISIG_LEN dst).

(** [signers_flat.chunks(32).zip(..)], one key per chunk *)
Fixpoint key_chunks (n : nat) (l : bytes) : list Pubkey :=
  match n with
  | O => []
  | S n => new_from_array (take 32 l) :: key_chunks n (drop 32 l)
  end.

Definition multisig_unpack_from_slice (src : bytes) : outcome InstructionError Multisig :=
  if (length src <? MULTISIG_LEN)%nat then Panic else
  match array_refs multisig_sizes src with
  | [m; n; is_initialized; signers_flat] =>
      is_initialized ← bool_of_bytes is_initialized;
      Ok (mkMultisig (byte0 m) (byte0 n) is_initialized (key_chunks MAX_SIGNERS signers_flat))
  | _ => Panic
  end.

#[global] Instance Multisig_Pack : Pack Multisig := {|
  LEN := MULTISIG_LEN;
  is_initialized := ms_is_initialized;
  pack_into_slice := multisig_pack_into_slice;
  unpack_from_slice := multisig_unpack_from_slice;
|}.

(** programs/token/src/native_mint.rs *)
Definition NATIVE_DECIMALS : Z := 9.
Definition native_mint_id : Pubkey :=
  pk_of_Z 0x055b4a3ffeb5963e381d507e59591f38434a70f58d9ed6ceb010650000000001.

(** ** Layout lemmas *)

Lemma array_refs_app n sizes a l :
  length a = n -> array_refs (n :: sizes) (a ++ l) = a :: array_refs sizes l.
Proof. intros <-. simpl. by rewrite take_app_length, drop_app_length. Qed.

Lemma length_pack_option_key k d : length d = 36%nat -> length (pack_option_key k d) = 36%nat.
Proof.
  intros Hd. destruct k; simpl; rewrite ?length_pk_bytes, ?length_drop, ?Hd; done.
Qed.

Lemma length_pack_option_u64 k d : length d = 12%nat -> length (pack_option_u64 k d) = 12%nat.
Proof. intros Hd. destruct k; simpl; rewrite ?length_drop, ?Hd; done. Qed.

Lemma unpack_pack_option_key k d : unpack_option_key (pack_option_key k d) = Ok k.
Proof.
  destruct k as [k|]; [|done]. unfold unpack_option_key, pack_option_key.
  change (drop 4 (tag_some ++ pk_bytes k)) with (drop 0 (pk_bytes k)).
  by rewrite drop_0, new_from_array_bytes.
Qed.

Lemma unpack_pack_option_u64 k d :
  (forall x, k = Some x -> in_u64 x) -> unpack_option_u64 (pack_option_u64 k d) = Ok k.
Proof.
  destruct k as [x|]; [|done]. intros Hx.
  cbv [unpack_option_u64 pack_option_u64 tag_some]. cbn -[to_le_bytes from_le_bytes].
  rewrite drop_0. by rewrite from_to_le_bytes_u64 by auto.
Qed.

Lemma bool_of_byte_of_bool b : bool_of_bytes [byte_of_bool b] = Ok b.
Proof. by destruct b. Qed.

Lemma byte0_of_Z x : in_u8 x -> byte0 [byte_of_Z x] = x.
Proof. unfold in_u8, u8_max. intros. simpl. rewrite byte_to_of_Z. apply Z.mod_small. lia. Qed.

Lemma account_state_of_to_byte s :
  account_state_of_byte (byte0 [account_state_byte s]) = Ok s.
Proof. by destruct s. Qed.

Lemma length_puffed s size d : puffed_out_string s size = Ok d -> length d = size.
Proof.
  unfold puffed_out_string. case_match eqn:E; [|done]. intros [= <-].
  apply Nat.leb_le in E. rewrite length_app, length_replicate. lia.
Qed.

Lemma key_chunks_concat ks : key_chunks (length ks) (concat (pk_bytes <$> ks)) = ks.
Proof.
  induction ks as [|k ks IH]; [done|]. cbn [length key_chunks fmap list_fmap concat].
  rewrite take_app_length', drop_app_length' by (by rewrite length_pk_bytes).
  by rewrite new_from_array_bytes, IH.
Qed.

Lemma length_concat_keys ks : length (concat (pk_bytes <$> ks)) = (32 * length ks)%nat.
Proof.
  induction ks as [|k ks IH]; [done|]. cbn [length fmap list_fmap concat].
  rewrite length_app, length_pk_bytes, IH. lia.
Qed.

Create Rewrite HintDb lens.
#[export] Hint Rewrite @length_app length_pk_bytes length_to_le_bytes @length_drop @length_take
  @length_replicate length_concat_keys : lens.

Ltac solve_len :=
  autorewrite with lens; cbn [length];
  rewrite ?length_pack_option_key, ?length_pack_option_u64
    by (autorewrite with lens; cbn [length]; lia); lia.

(** ** Packing and unpacking *)

Definition pad (size : nat) (s : bytes) : bytes := s ++ replicate (size - length s) x00.

Definition token_account_packable (a : TokenAccount) : Prop :=
  in_u64 (amount a) /\ in_u64 (delegated_amount a) /\
  (forall x, is_native a = Some x -> in_u64 x).

Lemma token_account_pack_unpack a d :
  token_account_packable a -> length d = TOKEN_ACCOUNT_LEN ->
  exists d', token_account_pack_into_slice a d = Ok d' /\
    length d' = TOKEN_ACCOUNT_LEN /\ token_account_unpack_from_slice d' = Ok a.
Proof.
  unfold TOKEN_ACCOUNT_LEN. intros (Ha & Hd & Hn) Hlen.
  unfold token_account_pack_into_slice, TOKEN_ACCOUNT_LEN. rewrite Hlen. cbn [Nat.ltb Nat.leb].
  cbv [token_account_sizes array_refs]. eexists. split; [done|].
  match goal with |- length ?x = _ /\ _ => assert (length x = 165%nat) as Hl by solve_len end.
  split; [done|].
  unfold token_account_unpack_from_slice, TOKEN_ACCOUNT_LEN. rewrite Hl. cbn [Nat.ltb Nat.leb].
  unfold token_account_sizes. do 8 rewrite array_refs_app by solve_len. cbn [array_refs].
  rewrite !unpack_pack_option_key, unpack_pack_option_u64, account_state_of_to_byte by done.
  cbn [mbind outcome_bind]. rewrite !new_from_array_bytes, !from_to_le_bytes_u64 by done.
  by destruct a.
Qed.

#[global] Program Instance TokenAccount_PackSpec : PackSpec TokenAccount := {|
  packable := token_account_packable;
  norm := fun a => a;
|}.
Next Obligation. intros. by apply token_account_pack_unpack. Qed.
Next Obligation. done. Qed.

Definition mint_packable (m : Mint) : Prop :=
  (length (name m) <= MAX_NAME_LENGTH)%nat /\ (length (symbol m) <= MAX_SYMBOL_LENGTH)%nat /\
  in_u64 (supply m) /\ in_u8 (decimals m).

(** What a packed mint reads back as: the strings come back with their
    padding, through the lossy conversion. *)
Definition mint_norm (m : Mint) : Mint :=
  mkMint (mint_authority m) (from_utf8_lossy (pad MAX_NAME_LENGTH (name m)))
    (from_utf8_lossy (pad MAX_SYMBOL_LENGTH (symbol m))) (supply m) (decimals m)
    (mint_is_initialized m) (freeze_authority m).

Lemma mint_pack_unpack m d :
  mint_packable m -> length d = MINT_LEN ->
  exists d', mint_pack_into_slice m d = Ok d' /\
    length d' = MINT_LEN /\ mint_unpack_from_slice d' = Ok (mint_norm m).
Proof.
  unfold MINT_LEN. intros (Hn & Hs & Hu & Hd) Hlen.
  unfold mint_pack_into_slice, MINT_LEN. rewrite Hlen. cbn [Nat.ltb Nat.leb].
  cbv [mint_sizes array_refs]. unfold puffed_out_string.
  apply Nat.leb_le in Hn as Hn'. apply Nat.leb_le in Hs as Hs'. rewrite Hn', Hs'.
  cbn [mbind outcome_bind]. eexists. split; [done|].
  unfold MAX_NAME_LENGTH, MAX_SYMBOL_LENGTH in *.
  match goal with |- length ?x = _ /\ _ => assert (length x = 124%nat) as Hl by solve_len end.
  split; [done|].
  unfold mint_unpack_from_slice, MINT_LEN. rewrite Hl. cbn [Nat.ltb Nat.leb].
  unfold mint_sizes. rewrite array_refs_app by solve_len.
  rewrite (array_refs_app 32 _ (name m ++ _)) by solve_len.
  rewrite (array_refs_app 10 _ (symbol m ++ _)) by solve_len.
  do 4 rewrite array_refs_app by solve_len. cbn [array_refs].
  rewrite !unpack_pack_option_key, bool_of_byte_of_bool.
  cbn [mbind outcome_bind]. by rewrite from_to_le_bytes_u64, byte0_of_Z by done.
Qed.

#[global] Program Instance Mint_PackSpec : PackSpec Mint := {|
  packable := mint_packable;
  norm := mint_norm;
|}.
Next Obligation. intros. by apply mint_pack_unpack. Qed.
Next Obligation. done. Qed.

(** A mint whose strings do not fit the layout makes [pack] panic. *)
Lemma mint_pack_too_long m d :
  length d = MINT_LEN ->
  (MAX_NAME_LENGTH < length (name m) \/ MAX_SYMBOL_LENGTH < length (symbol m))%nat ->
  mint_pack_into_slice m d = Panic.
Proof.
  unfold MINT_LEN. intros Hlen H. unfold mint_pack_into_slice, MINT_LEN. rewrite Hlen.
  cbn [Nat.ltb Nat.leb]. cbv [mint_sizes array_refs]. unfold puffed_out_string.
  destruct (Nat.leb_spec (length (name m)) MAX_NAME_LENGTH); [|done].
  destruct (Nat.leb_spec (length (symbol m)) MAX_SYMBOL_LENGTH); [lia|done].
Qed.

Definition multisig_packable (ms : Multisig) : Prop :=
  in_u8 (ms_m ms) /\ in_u8 (ms_n ms) /\ length (ms_signers ms) = MAX_SIGNERS.

Lemma multisig_pack_unpack ms d :
  multisig_packable ms -> length d = MULTISIG_LEN ->
  exists d', multisig_pack_into_slice ms d = Ok d' /\
    length d' = MULTISIG_LEN /\ multisig_unpack_from_slice d' = Ok ms.
Proof.
  unfold MULTISIG_LEN. intros (Hm & Hn & Hs) Hlen. unfold MAX_SIGNERS in *.
  unfold multisig_pack_into_slice, MULTISIG_LEN. rewrite Hlen. cbn [Nat.ltb Nat.leb].
  eexists. split; [done|].
  match goal with |- length ?x = _ /\ _ => assert (length x = 355%nat) as Hl by solve_len end.
  split; [done|].
  unfold multisig_unpack_from_slice, MULTISIG_LEN. rewrite Hl. cbn [Nat.ltb Nat.leb].
  unfold multisig_sizes, MAX_SIGNERS. do 4 rewrite array_refs_app by solve_len.
  cbn [array_refs]. rewrite bool_of_byte_of_bool. cbn [mbind outcome_bind].
  rewrite !byte0_of_Z by done. rewrite <- Hs, key_chunks_concat. by destruct ms.
Qed.

#[global] Program Instance Multisig_PackSpec : PackSpec Multisig := {|
  packable := multisig_packable;
  norm := fun ms => ms;
|}.
Next Obligation. intros. by apply multisig_pack_unpack. Qed.
Next Obligation. done. Qed.
