(* ===== verification/TokenInstruction.v ===== *)
(** * Token instructions (programs/token/src/token_instruction.rs)

    The instruction enum and the client-side constructors.  The wire format is
    bincode's, a third-party crate: its serializer is a parameter. *)

From Stdlib Require Import ZArith Lia.
From stdpp Require Import prelude gmap list numbers.
From S2P Require Import Prelude Sdk TokenState.

Inductive AuthorityType : Type := AtMintTokens | AtFreezeAccount | AtAccountOwner | AtCloseAccount.

Inductive TokenInstruction : Type :=
| InitializeMint (name symbol : bytes) (decimals : Z) (mint_authority : Pubkey)
    (freeze_authority : option Pubkey)
| InitializeAccount
| InitializeMultisig (m : Z)
| Transfer (amount : Z)
| Approve (amount : Z)
| Revoke
| SetAuthority (authority_type : AuthorityType) (new_authority : option Pubkey)
| MintTo (amount : Z)
| Burn (amount : Z)
| CloseAccount
| FreezeAccount
| ThawAccount
| TransferChecked (amount decimals : Z)
| ApproveChecked (amount decimals : Z)
| MintToChecked (amount decimals : Z)
| BurnChecked (amount decimals : Z)
| InitializeAccount2 (owner : Pubkey)
| SyncNative.

Definition is_valid_signer_index (index : nat) : bool :=
  (MIN_SIGNERS <=? index)%nat && (index <=? MAX_SIGNERS)%nat.

(** programs/token/src/lib.rs *)
Definition check_program_account (program_id : Pubkey) : outcome InstructionError unit :=
  fail_if (negb (bool_decide (program_id = token_program_id))) IncorrectProgramId.

Section Builders.
(** [bincode::serialize] on this type. *)
Context (serialize : TokenInstruction -> bytes).

Definition new_with_bincode (program_id : Pubkey) (d : TokenInstruction)
    (accounts : list AccountMeta) : Instruction :=
  mkInstruction program_id accounts (serialize d).

(** [AccountMeta::new_readonly(authority, signers.is_empty())], then one
    read-only signer per key. *)
Definition authority_metas (authority : Pubkey) (signers : list Pubkey) : list AccountMeta :=
  meta_new_readonly authority (bool_decide (signers = []))
    :: ((fun k => meta_new_readonly k true) <$> signers).

Definition initialize_mint (program_id mint authority : Pubkey) (freeze : option Pubkey)
    (name symbol : bytes) (decimals : Z) : outcome InstructionError Instruction :=
  _ ← check_program_account program_id;
  Ok (new_with_bincode program_id (InitializeMint name symbol decimals authority freeze)
        [meta_new mint false]).

Definition initialize_account (program_id account mint owner : Pubkey)
    : outcome InstructionError Instruction :=
  _ ← check_program_account program_id;
  Ok (new_with_bincode program_id InitializeAccount
        [meta_new account false; meta_new_readonly mint false;
         meta_new_readonly owner false]).

Definition initialize_account2 (program_id account mint owner : Pubkey)
    : outcome InstructionError Instruction :=
  _ ← check_program_account program_id;
  Ok (new_with_bincode program_id (InitializeAccount2 owner)
        [meta_new account false; meta_new_readonly mint false]).

Definition initialize_multisig (program_id multisig : Pubkey) (signers : list Pubkey)
    (m : Z) : outcome InstructionError Instruction :=
  _ ← check_program_account program_id;
  _ ← fail_if (negb (is_valid_signer_index (Z.to_nat m))
               || negb (is_valid_signer_index (length signers))
               || (length signers <? Z.to_nat m)%nat) MissingRequiredSignature;
  Ok (new_with_bincode program_id (InitializeMultisig m)
        (meta_new multisig false :: ((fun k => meta_new_readonly k false) <$> signers))).

Definition transfer (program_id source destination authority : Pubkey)
    (signers : list Pubkey) (amount : Z) : outcome InstructionError Instruction :=
  _ ← check_program_account program_id;
  Ok (new_with_bincode program_id (Transfer amount)
        (meta_new source false :: meta_new destination false
         :: authority_metas authority signers)).

Definition approve (program_id source delegate owner : Pubkey)
    (signers : list Pubkey) (amount : Z) : outcome InstructionError Instruction :=
  _ ← check_program_account program_id;
  Ok (new_with_bincode program_id (Approve amount)
        (meta_new source false :: meta_new_readonly delegate false
         :: authority_metas owner signers)).

Definition revoke (program_id source owner : Pubkey) (signers : list Pubkey)
    : outcome InstructionError Instruction :=
  _ ← check_program_account program_id;
  Ok (new_with_bincode program_id Revoke
        (meta_new source false :: authority_metas owner signers)).

Definition set_authority (program_id owned : Pubkey) (new_authority : option Pubkey)
    (authority_type : AuthorityType) (owner : Pubkey) (signers : list Pubkey)
    : outcome InstructionError Instruction :=
  _ ← check_program_account program_id;
  Ok (new_with_bincode program_id (SetAuthority authority_type new_authority)
        (meta_new owned false :: authority_metas owner signers)).

Definition mint_to (program_id mint account owner : Pubkey) (signers : list Pubkey)
    (amount : Z) : outcome InstructionError Instruction :=
  _ ← check_program_account program_id;
  Ok (new_with_bincode program_id (MintTo amount)
        (meta_new mint false :: meta_new account false :: authority_metas owner signers)).

Definition burn (program_id account mint authority : Pubkey) (signers : list Pubkey)
    (amount : Z) : outcome InstructionError Instruction :=
  _ ← check_program_account program_id;
  Ok (new_with_bincode program_id (Burn amount)
        (meta_new account false :: meta_new mint false :: authority_metas authority signers)).

Definition close_account (program_id account destination owner : Pubkey)
    (signers : list Pubkey) : outcome InstructionError Instruction :=
  _ ← check_program_account program_id;
  Ok (new_with_bincode program_id CloseAccount
        (meta_new account false :: meta_new destination false
         :: authority_metas owner signers)).

Definition freeze_account (program_id account mint owner : Pubkey) (signers : list Pubkey)
    : outcome InstructionError Instruction :=
  _ ← check_program_account program_id;
  Ok (new_with_bincode program_id FreezeAccount
        (meta_new account false :: meta_new_readonly mint false
         :: authority_metas owner signers)).

Definition thaw_account (program_id account mint owner : Pubkey) (signers : list Pubkey)
    : outcome InstructionError Instruction :=
  _ ← check_program_account program_id;
  Ok (new_with_bincode program_id ThawAccount
        (meta_new account false :: meta_new_readonly mint false
         :: authority_metas owner signers)).

Definition transfer_checked (program_id source mint destination authority : Pubkey)
    (signers : list Pubkey) (amount decimals : Z) : outcome InstructionError Instruction :=
  _ ← check_program_account program_id;
  Ok (new_with_bincode program_id (TransferChecked amount decimals)
        (meta_new source false :: meta_new_readonly mint false :: meta_new destination false
         :: authority_metas authority signers)).

Definition approve_checked (program_id source mint delegate owner : Pubkey)
    (signers : list Pubkey) (amount decimals : Z) : outcome InstructionError Instruction :=
  _ ← check_program_account program_id;
  Ok (new_with_bincode program_id (ApproveChecked amount decimals)
        (meta_new source false :: meta_new_readonly mint false
         :: meta_new_readonly delegate false :: authority_metas owner signers)).

Definition mint_to_checked (program_id mint account owner : Pubkey) (signers : list Pubkey)
    (amount decimals : Z) : outcome InstructionError Instruction :=
  _ ← check_program_account program_id;
  Ok (new_with_bincode program_id (MintToChecked amount decimals)
        (meta_new mint false :: meta_new account false :: authority_metas owner signers)).

Definition burn_checked (program_id account mint authority : Pubkey) (signers : list Pubkey)
    (amount decimals : Z) : outcome InstructionError Instruction :=
  _ ← check_program_account program_id;
  Ok (new_with_bincode program_id (BurnChecked amount decimals)
        (meta_new account false :: meta_new mint false :: authority_metas authority signers)).

Definition sync_native (program_id account : Pubkey) : outcome InstructionError Instruction :=
  _ ← check_program_account program_id;
  Ok (new_with_bincode program_id SyncNative [meta_new account false]).
End Builders.
