(* ===== verification/TokenProcessor.v ===== *)
(** * The token program (programs/token/src/token_processor.rs)

    Every handler of [Processor], over the accounts of the transaction. *)

From Stdlib Require Import ZArith Lia.
From Stdlib Require Import Strings.Byte.
From stdpp Require Import prelude gmap list numbers.
From S2P Require Import Prelude Sdk Utf8 TokenState TokenInstruction.

(** ** Field updates *)

Definition set_amount (x : Z) (a : TokenAccount) : TokenAccount :=
  mkTokenAccount (ta_mint a) (ta_owner a) x (delegate a) (state a) (is_native a)
    (delegated_amount a) (close_authority a).
Definition set_delegation (d : option Pubkey) (x : Z) (a : TokenAccount) : TokenAccount :=
  mkTokenAccount (ta_mint a) (ta_owner a) (amount a) d (state a) (is_native a)
    x (close_authority a).
Definition set_ta_owner (k : Pubkey) (a : TokenAccount) : TokenAccount :=
  mkTokenAccount (ta_mint a) k (amount a) (delegate a) (state a) (is_native a)
    (delegated_amount a) (close_authority a).
Definition set_state (s : AccountState) (a : TokenAccount) : TokenAccount :=
  mkTokenAccount (ta_mint a) (ta_owner a) (amount a) (delegate a) s (is_native a)
    (delegated_amount a) (close_authority a).
Definition set_close_authority (k : option Pubkey) (a : TokenAccount) : TokenAccount :=
  mkTokenAccount (ta_mint a) (ta_owner a) (amount a) (delegate a) (state a) (is_native a)
    (delegated_amount a) k.

Definition set_supply (x : Z) (m : Mint) : Mint :=
  mkMint (mint_authority m) (name m) (symbol m) x (decimals m) (mint_is_initialized m)
    (freeze_authority m).
Definition set_mint_authority (k : option Pubkey) (m : Mint) : Mint :=
  mkMint k (name m) (symbol m) (supply m) (decimals m) (mint_is_initialized m)
    (freeze_authority m).
Definition set_freeze_authority (k : option Pubkey) (m : Mint) : Mint :=
  mkMint (mint_authority m) (name m) (symbol m) (supply m) (decimals m)
    (mint_is_initialized m) k.

(** ** Checks *)

Definition cmp_pubkeys (a b : Pubkey) : bool :=
  bool_decide (unsafe_memcmp (pk_bytes a) (pk_bytes b) 32 = Some 0).

Definition check_account_owner (program_id : Pubkey) (ka : KeyedAccount) : prog unit :=
  o ← ka_owner ka;
  lift (fail_if (negb (cmp_pubkeys program_id o)) IncorrectProgramId).

(** The inner loop of [validate_owner]: one signer against every position. *)
Fixpoint match_positions (keys : list Pubkey) (position : nat) (signer : KeyedAccount)
    (matched : list bool) (num_signers : Z) : outcome InstructionError (list bool * Z) :=
  match keys with
  | [] => Ok (matched, num_signers)
  | key :: keys =>
      if cmp_pubkeys key (unsigned_key signer)
         && negb (default false (matched !! position))
      then
        match signer_key signer with
        | None => Err MissingRequiredSignature
        | Some _ => match_positions keys (S position) signer (<[position:=true]> matched)
                      (num_signers + 1)
        end
      else match_positions keys (S position) signer matched num_signers
  end.

(** [multisig.signers[0..n]] panics when [n] exceeds the array. *)
Definition slice_to (n : nat) (keys : list Pubkey) : outcome InstructionError (list Pubkey) :=
  if (n <=? length keys)%nat then Ok (take n keys) else Panic.

Fixpoint match_signers (ms : Multisig) (signers : list KeyedAccount)
    (matched : list bool) (num_signers : Z) : outcome InstructionError (list bool * Z) :=
  match signers with
  | [] => Ok (matched, num_signers)
  | signer :: signers =>
      keys ← slice_to (Z.to_nat (ms_n ms)) (ms_signers ms);
      '(matched, num_signers) ← match_positions keys 0 signer matched num_signers;
      match_signers ms signers matched num_signers
  end.

Definition validate_owner (program_id expected_owner : Pubkey) (owner_info : KeyedAccount)
    (signers : list KeyedAccount) : prog unit :=
  _ ← lift (fail_if (negb (cmp_pubkeys expected_owner (unsigned_key owner_info)))
              (token_err OwnerMismatch));
  o ← ka_owner owner_info;
  len ← ka_data_len owner_info;
  if cmp_pubkeys program_id o && (len =? MULTISIG_LEN)%nat then
    d ← ka_data owner_info;
    multisig ← lift (unpack (T:=Multisig) d);
    '(_, num_signers) ← lift (match_signers multisig signers (replicate MAX_SIGNERS false) 0);
    lift (fail_if (num_signers <? ms_m multisig) MissingRequiredSignature)
  else
    lift (fail_if (negb (is_signer owner_info)) MissingRequiredSignature).

(** ** Initialization *)

Definition process_initialize_mint (accounts : list KeyedAccount) (nm sym : bytes)
    (dec : Z) (authority : Pubkey) (freeze : option Pubkey) : prog unit :=
  '(mint_info, _) ← next_keyed_account accounts;
  let rent := rent_default in
  d ← ka_data mint_info;
  mint ← lift (unpack_unchecked (T:=Mint) d);
  _ ← lift (fail_if (mint_is_initialized mint) (token_err AlreadyInUse));
  bal ← ka_lamports mint_info;
  len ← ka_data_len mint_info;
  _ ← lift (fail_if (negb (is_exempt rent bal len)) (token_err NotRentExempt));
  pack_account [] mint_info (mkMint (Some authority) nm sym (supply mint) dec true freeze).

Definition process_initialize_account_aux (program_id : Pubkey) (accounts : list KeyedAccount)
    (owner_arg : option Pubkey) : prog unit :=
  '(new_account_info, it) ← next_keyed_account accounts;
  '(mint_info, it) ← next_keyed_account it;
  owner ← match owner_arg with
          | Some owner => mret owner
          | None => '(ka, _) ← next_keyed_account it; mret (unsigned_key ka)
          end;
  let rent := rent_default in
  d ← ka_data new_account_info;
  token_account ← lift (unpack_unchecked (T:=TokenAccount) d);
  _ ← lift (fail_if (is_initialized token_account) (token_err AlreadyInUse));
  bal ← ka_lamports new_account_info;
  len ← ka_data_len new_account_info;
  _ ← lift (fail_if (negb (is_exempt rent bal len)) (token_err NotRentExempt));
  let is_native_mint := cmp_pubkeys (unsigned_key mint_info) native_mint_id in
  _ ← (if is_native_mint then mret tt else
         _ ← check_account_owner program_id mint_info;
         md ← ka_data mint_info;
         _ ← lift (map_err (fun _ => token_err InvalidMint) (unpack (T:=Mint) md));
         mret tt);
  '(native, amt) ←
     (if is_native_mint then
        len ← ka_data_len new_account_info;
        let rent_exempt_reserve := minimum_balance rent len in
        bal ← ka_lamports new_account_info;
        amt ← lift (ok_or (checked_sub bal rent_exempt_reserve) (token_err Overflow));
        mret (Some rent_exempt_reserve, amt)
      else mret (None, 0));
  pack_account [] new_account_info
    (mkTokenAccount (unsigned_key mint_info) owner amt None Initialized native 0
       (close_authority token_account)).

Definition process_initialize_account (program_id : Pubkey) (accounts : list KeyedAccount)
    : prog unit :=
  process_initialize_account_aux program_id accounts None.

Definition process_initialize_account2 (program_id : Pubkey) (accounts : list KeyedAccount)
    (owner : Pubkey) : prog unit :=
  process_initialize_account_aux program_id accounts (Some owner).

(** [for (i, info) in infos.iter().enumerate() { signers[i] = key }]: the array
    access panics past [MAX_SIGNERS]. *)
Fixpoint store_signers (i : nat) (infos : list KeyedAccount) (signers : list Pubkey)
    : outcome InstructionError (list Pubkey) :=
  match infos with
  | [] => Ok signers
  | info :: infos =>
      if (i <? length signers)%nat
      then store_signers (S i) infos (<[i:=unsigned_key info]> signers)
      else Panic
  end.

Definition process_initialize_multisig (accounts : list KeyedAccount) (m : Z) : prog unit :=
  '(multisig_info, signer_infos) ← next_keyed_account accounts;
  let rent := rent_default in
  d ← ka_data multisig_info;
  multisig ← lift (unpack_unchecked (T:=Multisig) d);
  _ ← lift (fail_if (ms_is_initialized multisig) (token_err AlreadyInUse));
  bal ← ka_lamports multisig_info;
  len ← ka_data_len multisig_info;
  _ ← lift (fail_if (negb (is_exempt rent bal len)) (token_err NotRentExempt));
  let n := as_u8 (Z.of_nat (length signer_infos)) in
  _ ← lift (fail_if (negb (is_valid_signer_index (Z.to_nat n)))
              (token_err InvalidNumberOfProvidedSigners));
  _ ← lift (fail_if (negb (is_valid_signer_index (Z.to_nat m)))
              (token_err InvalidNumberOfRequiredSigners));
  signers ← lift (store_signers 0 signer_infos (ms_signers multisig));
  pack_account [] multisig_info (mkMultisig m n true signers).

(** ** Moving tokens *)

(** The mint account of the checked variants comes right after the source. *)
Definition next_expected_mint (expected_decimals : option Z) (it : list KeyedAccount)
    : prog (option (KeyedAccount * Z) * list KeyedAccount) :=
  match expected_decimals with
  | Some dec => '(mint_info, it) ← next_keyed_account it; mret (Some (mint_info, dec), it)
  | None => mret (None, it)
  end.

Definition check_expected_mint (expected : option (KeyedAccount * Z)) (source : TokenAccount)
    : prog unit :=
  match expected with
  | Some (mint_info, dec) =>
      _ ← lift (fail_if (negb (cmp_pubkeys (unsigned_key mint_info) (ta_mint source)))
                  (token_err MintMismatch));
      md ← ka_data mint_info;
      mint ← lift (unpack (T:=Mint) md);
      lift (fail_if (negb (dec =? decimals mint)) (token_err MintDecimalsMismatch))
  | None => mret tt
  end.

(** The decrement of a delegate's allowance; an exhausted delegate is dropped. *)
Definition spend_delegation (source : TokenAccount) (amt : Z)
    : outcome InstructionError TokenAccount :=
  rest ← ok_or (checked_sub (delegated_amount source) amt) (token_err Overflow);
  Ok (set_delegation (if rest =? 0 then None else delegate source) rest source).

(** Who may move tokens out of [source]: its delegate, up to the allowance, or
    its owner.  This is the [match source_account.delegate] that transfers and
    burns both contain; a self-transfer leaves the allowance alone. *)
Definition debit_authority (program_id : Pubkey) (source : TokenAccount)
    (authority_info : KeyedAccount) (signers : list KeyedAccount) (amt : Z)
    (self_transfer : bool) : prog TokenAccount :=
  let by_owner :=
    _ ← validate_owner program_id (ta_owner source) authority_info signers; mret source in
  match delegate source with
  | Some dlg =>
      if cmp_pubkeys (unsigned_key authority_info) dlg then
        _ ← validate_owner program_id dlg authority_info signers;
        _ ← lift (fail_if (delegated_amount source <? amt) (token_err TokenInsufficientFunds));
        if self_transfer then mret source else lift (spend_delegation source amt)
      else by_owner
  | None => by_owner
  end.

Definition process_transfer (program_id : Pubkey) (accounts : list KeyedAccount)
    (amt : Z) (expected_decimals : option Z) : prog unit :=
  '(source_info, it) ← next_keyed_account accounts;
  '(expected_mint_info, it) ← next_expected_mint expected_decimals it;
  '(dest_info, it) ← next_keyed_account it;
  '(authority_info, it) ← next_keyed_account it;
  sd ← ka_data source_info;
  source ← lift (unpack (T:=TokenAccount) sd);
  dd ← ka_data dest_info;
  dest ← lift (unpack (T:=TokenAccount) dd);
  _ ← lift (fail_if (is_frozen source || is_frozen dest) (token_err AccountFrozen));
  _ ← lift (fail_if (amount source <? amt) (token_err TokenInsufficientFunds));
  _ ← lift (fail_if (negb (cmp_pubkeys (ta_mint source) (ta_mint dest)))
              (token_err MintMismatch));
  _ ← check_expected_mint expected_mint_info source;
  let self_transfer := cmp_pubkeys (unsigned_key source_info) (unsigned_key dest_info) in
  source ← debit_authority program_id source authority_info it amt self_transfer;
  _ ← (if self_transfer || (amt =? 0) then
         _ ← check_account_owner program_id source_info;
         check_account_owner program_id dest_info
       else mret tt);
  if self_transfer then mret tt else
  source_amount ← lift (ok_or (checked_sub (amount source) amt) (token_err Overflow));
  dest_amount ← lift (ok_or (checked_add (amount dest) amt) (token_err Overflow));
  _ ← (if is_native_b source then
         source_lamports ← ka_lamports source_info;
         source_lamports ← lift (ok_or (checked_sub source_lamports amt) (token_err Overflow));
         _ ← write_lamports [] source_info source_lamports;
         dest_lamports ← ka_lamports dest_info;
         dest_lamports ← lift (ok_or (checked_add dest_lamports amt) (token_err Overflow));
         write_lamports [] dest_info dest_lamports
       else mret tt);
  _ ← pack_account [] source_info (set_amount source_amount source);
  pack_account [unsigned_key source_info] dest_info (set_amount dest_amount dest).

Definition process_approve (program_id : Pubkey) (accounts : list KeyedAccount)
    (amt : Z) (expected_decimals : option Z) : prog unit :=
  '(source_info, it) ← next_keyed_account accounts;
  '(expected_mint_info, it) ← next_expected_mint expected_decimals it;
  '(delegate_info, it) ← next_keyed_account it;
  '(owner_info, it) ← next_keyed_account it;
  sd ← ka_data source_info;
  source ← lift (unpack (T:=TokenAccount) sd);
  _ ← lift (fail_if (is_frozen source) (token_err AccountFrozen));
  _ ← check_expected_mint expected_mint_info source;
  _ ← validate_owner program_id (ta_owner source) owner_info it;
  pack_account [] source_info
    (set_delegation (Some (unsigned_key delegate_info)) amt source).

Definition process_revoke (program_id : Pubkey) (accounts : list KeyedAccount) : prog unit :=
  '(source_info, it) ← next_keyed_account accounts;
  sd ← ka_data source_info;
  source ← lift (unpack (T:=TokenAccount) sd);
  '(owner_info, it) ← next_keyed_account it;
  _ ← lift (fail_if (is_frozen source) (token_err AccountFrozen));
  _ ← validate_owner program_id (ta_owner source) owner_info it;
  pack_account [] source_info (set_delegation None 0 source).

Definition process_set_authority (program_id : Pubkey) (accounts : list KeyedAccount)
    (authority_type : AuthorityType) (new_authority : option Pubkey) : prog unit :=
  '(account_info, it) ← next_keyed_account accounts;
  '(authority_info, it) ← next_keyed_account it;
  len ← ka_data_len account_info;
  if (len =? LEN TokenAccount)%nat then
    d ← ka_data account_info;
    account ← lift (unpack (T:=TokenAccount) d);
    _ ← lift (fail_if (is_frozen account) (token_err AccountFrozen));
    account ←
      match authority_type with
      | AtAccountOwner =>
          _ ← validate_owner program_id (ta_owner account) authority_info it;
          authority ← lift (ok_or new_authority (token_err InvalidInstruction));
          let account := set_delegation None 0 (set_ta_owner authority account) in
          mret (if is_native_b account then set_close_authority None account else account)
      | AtCloseAccount =>
          let authority := default (ta_owner account) (close_authority account) in
          _ ← validate_owner program_id authority authority_info it;
          mret (set_close_authority new_authority account)
      | _ => throw (token_err AuthorityTypeNotSupported)
      end;
    pack_account [] account_info account
  else if (len =? LEN Mint)%nat then
    d ← ka_data account_info;
    mint ← lift (unpack (T:=Mint) d);
    mint ←
      match authority_type with
      | AtMintTokens =>
          authority ← lift (ok_or (mint_authority mint) (token_err FixedSupply));
          _ ← validate_owner program_id authority authority_info it;
          mret (set_mint_authority new_authority mint)
      | AtFreezeAccount =>
          authority ← lift (ok_or (freeze_authority mint) (token_err MintCannotFreeze));
          _ ← validate_owner program_id authority authority_info it;
          mret (set_freeze_authority new_authority mint)
      | _ => throw (token_err AuthorityTypeNotSupported)
      end;
    pack_account [] account_info mint
  else throw InvalidArgument.

Definition check_decimals (expected_decimals : option Z) (mint : Mint)
    : outcome InstructionError unit :=
  match expected_decimals with
  | Some dec => fail_if (negb (dec =? decimals mint)) (token_err MintDecimalsMismatch)
  | None => Ok tt
  end.

Definition process_mint_to (program_id : Pubkey) (accounts : list KeyedAccount)
    (amt : Z) (expected_decimals : option Z) : prog unit :=
  '(mint_info, it) ← next_keyed_account accounts;
  '(dest_info, it) ← next_keyed_account it;
  '(owner_info, it) ← next_keyed_account it;
  dd ← ka_data dest_info;
  dest ← lift (unpack (T:=TokenAccount) dd);
  _ ← lift (fail_if (is_frozen dest) (token_err AccountFrozen));
  _ ← lift (fail_if (is_native_b dest) (token_err NativeNotSupported));
  _ ← lift (fail_if (negb (cmp_pubkeys (unsigned_key mint_info) (ta_mint dest)))
              (token_err MintMismatch));
  md ← ka_data mint_info;
  mint ← lift (unpack (T:=Mint) md);
  _ ← lift (check_decimals expected_decimals mint);
  _ ← match mint_authority mint with
      | Some authority => validate_owner program_id authority owner_info it
      | None => throw (token_err FixedSupply)
      end;
  _ ← (if amt =? 0 then
         _ ← check_account_owner program_id mint_info;
         check_account_owner program_id dest_info
       else mret tt);
  dest_amount ← lift (ok_or (checked_add (amount dest) amt) (token_err Overflow));
  mint_supply ← lift (ok_or (checked_add (supply mint) amt) (token_err Overflow));
  _ ← pack_account [] dest_info (set_amount dest_amount dest);
  pack_account [unsigned_key dest_info] mint_info (set_supply mint_supply mint).

Definition process_burn (program_id : Pubkey) (accounts : list KeyedAccount)
    (amt : Z) (expected_decimals : option Z) : prog unit :=
  '(source_info, it) ← next_keyed_account accounts;
  '(mint_info, it) ← next_keyed_account it;
  '(authority_info, it) ← next_keyed_account it;
  sd ← ka_data source_info;
  source ← lift (unpack (T:=TokenAccount) sd);
  md ← ka_data mint_info;
  mint ← lift (unpack (T:=Mint) md);
  _ ← lift (fail_if (is_frozen source) (token_err AccountFrozen));
  _ ← lift (fail_if (is_native_b source) (token_err NativeNotSupported));
  _ ← lift (fail_if (amount source <? amt) (token_err TokenInsufficientFunds));
  _ ← lift (fail_if (negb (cmp_pubkeys (unsigned_key mint_info) (ta_mint source)))
              (token_err MintMismatch));
  _ ← lift (check_decimals expected_decimals mint);
  source ← debit_authority program_id source authority_info it amt false;
  _ ← (if amt =? 0 then
         _ ← check_account_owner program_id source_info;
         check_account_owner program_id mint_info
       else mret tt);
  source_amount ← lift (ok_or (checked_sub (amount source) amt) (token_err Overflow));
  mint_supply ← lift (ok_or (checked_sub (supply mint) amt) (token_err Overflow));
  _ ← pack_account [] source_info (set_amount source_amount source);
  pack_account [unsigned_key source_info] mint_info (set_supply mint_supply mint).

Definition process_close_account (program_id : Pubkey) (accounts : list KeyedAccount)
    : prog unit :=
  '(source_info, it) ← next_keyed_account accounts;
  '(dest_info, it) ← next_keyed_account it;
  '(authority_info, it) ← next_keyed_account it;
  _ ← lift (fail_if (cmp_pubkeys (unsigned_key source_info) (unsigned_key dest_info))
              InvalidAccountData);
  sd ← ka_data source_info;
  source ← lift (unpack (T:=TokenAccount) sd);
  _ ← lift (fail_if (negb (is_native_b source) && negb (amount source =? 0))
              (token_err NonNativeHasBalance));
  let authority := default (ta_owner source) (close_authority source) in
  _ ← validate_owner program_id authority authority_info it;
  dest_lamports ← ka_lamports dest_info;
  source_lamports ← ka_lamports source_info;
  dest_lamports ← lift (ok_or (checked_add dest_lamports source_lamports)
                          (token_err Overflow));
  _ ← write_lamports [] dest_info dest_lamports;
  _ ← write_lamports [] source_info 0;
  update_account [] source_info (fun a =>
    match unsafe_memset (data a) x00 TOKEN_ACCOUNT_LEN with
    | Some d => Ok (set_data d a)
    | None => Panic
    end).

Definition process_toggle_freeze_account (program_id : Pubkey)
    (accounts : list KeyedAccount) (freeze : bool) : prog unit :=
  '(source_info, it) ← next_keyed_account accounts;
  '(mint_info, it) ← next_keyed_account it;
  '(authority_info, it) ← next_keyed_account it;
  sd ← ka_data source_info;
  source ← lift (unpack (T:=TokenAccount) sd);
  _ ← lift (fail_if (freeze && is_frozen source || negb freeze && negb (is_frozen source))
              (token_err InvalidState));
  _ ← lift (fail_if (is_native_b source) (token_err NativeNotSupported));
  _ ← lift (fail_if (negb (cmp_pubkeys (unsigned_key mint_info) (ta_mint source)))
              (token_err MintMismatch));
  md ← ka_data mint_info;
  mint ← lift (unpack (T:=Mint) md);
  _ ← match freeze_authority mint with
      | Some authority => validate_owner program_id authority authority_info it
      | None => throw (token_err MintCannotFreeze)
      end;
  pack_account [] source_info (set_state (if freeze then Frozen else Initialized) source).

Definition process_sync_native (program_id : Pubkey) (accounts : list KeyedAccount)
    : prog unit :=
  '(native_info, _) ← next_keyed_account accounts;
  _ ← check_account_owner program_id native_info;
  d ← ka_data native_info;
  native ← lift (unpack (T:=TokenAccount) d);
  match is_native native with
  | Some rent_exempt_reserve =>
      bal ← ka_lamports native_info;
      new_amount ← lift (ok_or (checked_sub bal rent_exempt_reserve) (token_err Overflow));
      _ ← lift (fail_if (new_amount <? amount native) (token_err InvalidState));
      pack_account [] native_info (set_amount new_amount native)
  | None => throw (token_err NonNativeNotSupported)
  end.

(** ** Dispatch *)

(** The [match] of [Processor::process]. *)
Definition dispatch (program_id : Pubkey) (accounts : list KeyedAccount)
    (instruction : TokenInstruction) : prog unit :=
  match instruction with
  | InitializeMint name symbol decimals authority freeze =>
      process_initialize_mint accounts name symbol decimals authority freeze
  | InitializeAccount => process_initialize_account program_id accounts
  | InitializeAccount2 owner => process_initialize_account2 program_id accounts owner
  | InitializeMultisig m => process_initialize_multisig accounts m
  | Transfer amt => process_transfer program_id accounts amt None
  | Approve amt => process_approve program_id accounts amt None
  | Revoke => process_revoke program_id accounts
  | SetAuthority authority_type new_authority =>
      process_set_authority program_id accounts authority_type new_authority
  | MintTo amt => process_mint_to program_id accounts amt None
  | Burn amt => process_burn program_id accounts amt None
  | CloseAccount => process_close_account program_id accounts
  | FreezeAccount => process_toggle_freeze_account program_id accounts true
  | ThawAccount => process_toggle_freeze_account program_id accounts false
  | TransferChecked amt dec => process_transfer program_id accounts amt (Some dec)
  | ApproveChecked amt dec => process_approve program_id accounts amt (Some dec)
  | MintToChecked amt dec => process_mint_to program_id accounts amt (Some dec)
  | BurnChecked amt dec => process_burn program_id accounts amt (Some dec)
  | SyncNative => process_sync_native program_id accounts
  end.

(** [Processor::process]; [deserialize] is bincode's [limited_deserialize] on
    the instruction type. *)
Definition process (deserialize : bytes -> option TokenInstruction)
    (first_instruction_account : nat) (data : bytes) (keyed_accounts : list KeyedAccount)
    : prog unit :=
  program ← keyed_account_at_index keyed_accounts 0;
  let program_id := unsigned_key program in
  accounts ← (if (first_instruction_account <=? length keyed_accounts)%nat
              then mret (drop first_instruction_account keyed_accounts) else panic);
  instruction ← lift (ok_or (deserialize data) InvalidInstructionData);
  dispatch program_id accounts instruction.
