(* ===== verification/TokenFacts.v ===== *)
(** * What a successful token instruction did

    Inversion lemmas for the handlers of TokenProcessor.v: the accounts they
    read, the guards that held and the exact accounts they wrote. *)

From Stdlib Require Import ZArith Lia.
From Stdlib Require Import Strings.Byte.
From stdpp Require Import prelude gmap list numbers.
From S2P Require Import Prelude Sdk Utf8 TokenState TokenInstruction TokenProcessor.

(** ** Primitive operations *)

Section Primitives.
Implicit Types (l : ledger) (ka : KeyedAccount).

(** Comparing the thirty-two bytes is comparing the keys. *)
Lemma cmp_pubkeys_spec a b : cmp_pubkeys a b = bool_decide (a = b).
Proof.
  unfold cmp_pubkeys.
  destruct (unsafe_memcmp_spec (pk_bytes a) (pk_bytes b)) as (z & Hz & Heq).
  { by rewrite !length_pk_bytes. }
  rewrite length_pk_bytes in Hz. rewrite Hz. apply bool_decide_ext. split.
  - intros [= ->]. by apply pk_ext, Heq.
  - intros ->. f_equal. by apply Heq.
Qed.

Lemma check_account_owner_Ok pid ka l u l' :
  check_account_owner pid ka l = Ok (u, l') ->
  owner (get_account l (unsigned_key ka)) = pid /\ l' = l.
Proof.
  unfold check_account_owner. intros H. run_inv. apply ka_owner_Ok in H0 as [-> ->].
  rewrite cmp_pubkeys_spec in H. apply negb_false_iff, bool_decide_eq_true in H. done.
Qed.

Lemma validate_owner_state pid k ka signers l u l' :
  validate_owner pid k ka signers l = Ok (u, l') -> unsigned_key ka = k /\ l' = l.
Proof.
  unfold validate_owner. intros H. run_inv.
  apply ka_owner_Ok in H1 as [-> ->]. apply ka_data_len_Ok in H2 as [-> ->].
  rewrite cmp_pubkeys_spec in H0. apply negb_false_iff, bool_decide_eq_true in H0.
  case_match; run_inv; [|done]. by apply ka_data_Ok in H2 as [-> ->].
Qed.
End Primitives.

(** [prog_inv] extends [keyed_inv] with the checks of the token program. *)
Ltac prog_inv_step :=
  first
    [ match goal with
      | H : check_account_owner _ _ _ = Ok _ |- _ =>
          apply check_account_owner_Ok in H; destruct H
      | H : validate_owner _ _ _ _ _ = Ok (_, _) |- _ =>
          apply validate_owner_state in H; destruct H
      | H : context [cmp_pubkeys _ _] |- _ => rewrite cmp_pubkeys_spec in H
      end; subst
    | keyed_inv_step ].
Ltac prog_inv := repeat first [run_inv_step | prog_inv_step].

(** ** Values read from accounts are in range *)

Lemma byte0_range l : in_u8 (byte0 l).
Proof.
  unfold in_u8, u8_max. destruct l as [|b l]; simpl; [lia|].
  pose proof (byte_to_Z_range b). lia.
Qed.

Lemma unpack_option_u64_range d x :
  length d = 12%nat -> unpack_option_u64 d = Ok (Some x) -> in_u64 x.
Proof.
  unfold unpack_option_u64. intros Hd H. repeat case_match; simplify_eq.
  apply from_le_bytes_u64. rewrite length_drop. lia.
Qed.

Lemma token_account_unpack_packable d t :
  length d = TOKEN_ACCOUNT_LEN ->
  token_account_unpack_from_slice d = Ok t -> token_account_packable t.
Proof.
  unfold TOKEN_ACCOUNT_LEN. intros Hd H. unfold token_account_unpack_from_slice in H.
  rewrite Hd in H. cbn [Nat.ltb Nat.leb TOKEN_ACCOUNT_LEN] in H.
  cbv [token_account_sizes array_refs] in H. run_inv.
  split; [|split]; cbn.
  - apply from_le_bytes_u64. autorewrite with lens. lia.
  - apply from_le_bytes_u64. autorewrite with lens. lia.
  - intros ? ->. eapply unpack_option_u64_range; [|eassumption]. autorewrite with lens. lia.
Qed.

Lemma mint_unpack_range d m :
  length d = MINT_LEN -> mint_unpack_from_slice d = Ok m ->
  in_u64 (supply m) /\ in_u8 (decimals m).
Proof.
  unfold MINT_LEN. intros Hd H. unfold mint_unpack_from_slice in H.
  rewrite Hd in H. cbn [Nat.ltb Nat.leb MINT_LEN] in H.
  cbv [mint_sizes array_refs] in H. run_inv. cbn. split; [|apply byte0_range].
  apply from_le_bytes_u64. autorewrite with lens. lia.
Qed.

(** ** Reading accounts back *)

Lemma set_lamports_id a : set_lamports (lamports a) a = a.
Proof. by destruct a. Qed.

Lemma set_data_lamports d x a : set_data d (set_lamports x a) = set_lamports x (set_data d a).
Proof. done. Qed.

(** [ga_simpl] reads accounts through the writes; [ledger_eq] compares two
    ledgers key by key. *)
(** ** Handlers *)


Section Handlers.
Implicit Types (l : ledger) (ka : KeyedAccount) (pid : Pubkey).

Lemma next_expected_mint_Ok ed it l o it' l' :
  next_expected_mint ed it l = Ok (o, it', l') ->
  l' = l /\ ((ed = None /\ o = None /\ it = it') \/
             exists dec mi, ed = Some dec /\ o = Some (mi, dec) /\ it = mi :: it').
Proof. unfold next_expected_mint. intros H. destruct ed; prog_inv; naive_solver. Qed.

Lemma check_expected_mint_Ok o src l u l' :
  check_expected_mint o src l = Ok (u, l') ->
  l' = l /\ forall mi dec, o = Some (mi, dec) ->
    unsigned_key mi = ta_mint src /\
    exists m, unpack (T:=Mint) (data (acct l mi)) = Ok m /\ decimals m = dec.
Proof. unfold check_expected_mint. intros H. repeat case_match; prog_inv; naive_solver. Qed.

(** The two ways a debit is authorized. *)
Definition debit_spec (src : TokenAccount) (auth : Pubkey) (amt : Z) (self : bool)
    (src' : TokenAccount) : Prop :=
  (auth = ta_owner src /\ src' = src) \/
  (delegate src = Some auth /\ amt <= delegated_amount src /\
   src' = if self then src
          else set_delegation
                 (if delegated_amount src - amt =? 0 then None else delegate src)
                 (delegated_amount src - amt) src).

Lemma debit_authority_Ok pid src auth it amt self l src' l' :
  debit_authority pid src auth it amt self l = Ok (src', l') ->
  l' = l /\ debit_spec src (unsigned_key auth) amt self src'.
Proof.
  unfold debit_authority, spend_delegation, debit_spec. intros H.
  destruct (delegate src) as [dlg|] eqn:Hd; [case_match|]; prog_inv; [|by auto..].
  destruct self; prog_inv; auto 6.
Qed.

(** Two accounts written at once, with [x] lamports moved between them. *)
Definition write_pair l (ks kd : Pubkey) (ds dd : bytes) (x : Z) : ledger :=
  <[kd := set_data dd (set_lamports (lamports (get_account l kd) + x) (get_account l kd))]>
  (<[ks := set_data ds (set_lamports (lamports (get_account l ks) - x) (get_account l ks))]> l).

Lemma owner_guard_Ok (b : bool) pid ka1 ka2 l u l' :
  (if b then _ ← check_account_owner pid ka1; check_account_owner pid ka2
   else mret tt : prog unit) l = Ok (u, l') ->
  l' = l /\ (b = true -> owner (acct l ka1) = pid /\ owner (acct l ka2) = pid).
Proof. intros H. destruct b; prog_inv; naive_solver. Qed.

Ltac handler_inv :=
  repeat first
    [ run_inv_step | prog_inv_step
    | match goal with
      | H : next_expected_mint _ _ _ = Ok (_, _, _) |- _ =>
          apply next_expected_mint_Ok in H; destruct H as [? Hmi]
      | H : check_expected_mint _ _ _ = Ok (_, _) |- _ =>
          apply check_expected_mint_Ok in H; destruct H as [? _]
      | H : debit_authority _ _ _ _ _ _ _ = Ok (_, _) |- _ =>
          apply debit_authority_Ok in H; destruct H as [? Hdeb]
      | H : (if _ then _ ← check_account_owner _ _; check_account_owner _ _
             else mret tt) _ = Ok (_, _) |- _ =>
          apply owner_guard_Ok in H; destruct H as [? Hown]
      end; subst ].

Lemma process_transfer_Ok pid accs amt ed l u l' :
  process_transfer pid accs amt ed l = Ok (u, l') ->
  exists si di ai src dst src',
    si ∈ accs /\ di ∈ accs /\
    unpack (data (acct l si)) = Ok src /\ unpack (data (acct l di)) = Ok dst /\
    is_frozen src = false /\ is_frozen dst = false /\
    amt <= amount src /\ ta_mint src = ta_mint dst /\
    debit_spec src (unsigned_key ai) amt (bool_decide (unsigned_key si = unsigned_key di)) src' /\
    (unsigned_key si = unsigned_key di \/ amt = 0 ->
       owner (acct l si) = pid /\ owner (acct l di) = pid) /\
    ((unsigned_key si = unsigned_key di /\ l' = l) \/
     (unsigned_key si <> unsigned_key di /\ amount dst + amt <= u64_max /\
      (is_native_b src = true ->
         amt <= lamports (acct l si) /\ lamports (acct l di) + amt <= u64_max) /\
      exists ds dd,
        pack (set_amount (amount src - amt) src') (data (acct l si)) = Ok ds /\
        pack (set_amount (amount dst + amt) dst) (data (acct l di)) = Ok dd /\
        l' = write_pair l (unsigned_key si) (unsigned_key di) ds dd
               (if is_native_b src then amt else 0))).
Proof.
  unfold process_transfer. intros H. handler_inv.
  rename k into si, k0 into di, k1 into ai.
  match goal with H : debit_spec ?a _ _ _ ?b |- _ => rename a into src, b into src' end.
  match goal with H : ta_mint src = ta_mint ?a |- _ => rename a into dst end.
  assert (amount src' = amount src /\ is_native_b src' = is_native_b src) as [Ham Hnat].
  { destruct Hdeb as [[_ ->]|(_ & _ & ->)]; [done|]. by case_match. }
  exists si, di, ai, src, dst, src'. rewrite Ham, Hnat in H.
  split; [set_solver|].
  split; [destruct Hmi as [(_ & _ & ->)|(? & ? & _ & _ & ->)]; set_solver|].
  do 7 (split; [done|]).
  split.
  { intros [? | ->]; apply Hown; [by rewrite bool_decide_eq_true_2|by rewrite orb_true_r]. }
  destruct (decide (unsigned_key si = unsigned_key di)) as [Heq|Hne].
  { left. rewrite bool_decide_eq_true_2 in H by done. prog_inv. done. }
  right. rewrite bool_decide_eq_false_2 in H by done. prog_inv.
  split; [done|]. split; [done|].
  destruct (is_native_b src); prog_inv; ga_simpl; (split; [done|]);
    eexists _, _; (split; [eassumption|]); (split; [eassumption|]); unfold write_pair.
  - ledger_eq.
  - by rewrite Z.add_0_r, Z.sub_0_r, !set_lamports_id.
Qed.
Definition write_one l (k : Pubkey) (d : bytes) : ledger :=
  <[k := set_data d (get_account l k)]> l.

Lemma process_approve_Ok pid accs amt ed l u l' :
  process_approve pid accs amt ed l = Ok (u, l') ->
  exists si oi dlg src d, si ∈ accs /\
    unpack (data (acct l si)) = Ok src /\ is_frozen src = false /\
    unsigned_key oi = ta_owner src /\
    pack (set_delegation (Some dlg) amt src) (data (acct l si)) = Ok d /\
    l' = write_one l (unsigned_key si) d.
Proof.
  unfold process_approve. intros H. handler_inv.
  exists k, k1. eexists _, _, _. split; [set_solver|]. eauto.
Qed.

Lemma process_revoke_Ok pid accs l u l' :
  process_revoke pid accs l = Ok (u, l') ->
  exists si oi src d, si ∈ accs /\
    unpack (data (acct l si)) = Ok src /\ is_frozen src = false /\
    unsigned_key oi = ta_owner src /\
    pack (set_delegation None 0 src) (data (acct l si)) = Ok d /\
    l' = write_one l (unsigned_key si) d.
Proof.
  unfold process_revoke. intros H. prog_inv.
  exists k, k0. eexists _, _. split; [set_solver|]. eauto.
Qed.

(** The new value of a token account whose authority is changed. *)
Definition set_authority_account (ty : AuthorityType) (na : option Pubkey)
    (a a' : TokenAccount) (auth : Pubkey) : Prop :=
  match ty with
  | AtAccountOwner =>
      auth = ta_owner a /\ exists k, na = Some k /\
      let b := set_delegation None 0 (set_ta_owner k a) in
      a' = if is_native_b a then set_close_authority None b else b
  | AtCloseAccount =>
      auth = default (ta_owner a) (close_authority a) /\ a' = set_close_authority na a
  | _ => False
  end.

(** The new value of a mint whose authority is changed: an authority that is
    absent can never be set again. *)
Definition set_authority_mint (ty : AuthorityType) (na : option Pubkey)
    (m m' : Mint) (auth : Pubkey) : Prop :=
  match ty with
  | AtMintTokens => mint_authority m = Some auth /\ m' = set_mint_authority na m
  | AtFreezeAccount => freeze_authority m = Some auth /\ m' = set_freeze_authority na m
  | _ => False
  end.

Lemma process_set_authority_Ok pid accs ty na l u l' :
  process_set_authority pid accs ty na l = Ok (u, l') ->
  exists ai au d, ai ∈ accs /\ l' = write_one l (unsigned_key ai) d /\
    ((exists a a', unpack (data (acct l ai)) = Ok a /\ is_frozen a = false /\
        set_authority_account ty na a a' (unsigned_key au) /\
        pack a' (data (acct l ai)) = Ok d) \/
     (exists m m', unpack (data (acct l ai)) = Ok m /\
        set_authority_mint ty na m m' (unsigned_key au) /\
        pack m' (data (acct l ai)) = Ok d)).
Proof.
  unfold process_set_authority. intros H. prog_inv.
  case_match eqn:E1; [|case_match eqn:E2]; prog_inv; destruct ty; prog_inv;
    exists k, k0; eexists; (split; [set_solver|]); (split; [done|]).
  - left. eexists _, _. do 2 (split; [eassumption|]). split; [|eassumption].
    split; [done|]. eexists. split; [done|]. done.
  - left. eexists _, _. do 2 (split; [eassumption|]). split; [|eassumption]. done.
  - right. eexists _, _. split; [eassumption|]. split; [|eassumption]. done.
  - right. eexists _, _. split; [eassumption|]. split; [|eassumption]. done.
Qed.

Lemma check_decimals_Ok ed m u :
  check_decimals ed m = Ok u -> forall dec, ed = Some dec -> decimals m = dec.
Proof. unfold check_decimals. intros H ? ->. prog_inv. done. Qed.

Lemma process_mint_to_Ok pid accs amt ed l u l' :
  process_mint_to pid accs amt ed l = Ok (u, l') ->
  exists mi di oi dst m dd dm,
    mi ∈ accs /\ di ∈ accs /\ unsigned_key di <> unsigned_key mi /\
    unpack (data (acct l di)) = Ok dst /\ unpack (data (acct l mi)) = Ok m /\
    is_frozen dst = false /\ is_native_b dst = false /\
    ta_mint dst = unsigned_key mi /\ mint_authority m = Some (unsigned_key oi) /\
    (amt = 0 -> owner (acct l mi) = pid /\ owner (acct l di) = pid) /\
    amount dst + amt <= u64_max /\ supply m + amt <= u64_max /\
    pack (set_amount (amount dst + amt) dst) (data (acct l di)) = Ok dd /\
    pack (set_supply (supply m + amt) m) (data (acct l mi)) = Ok dm /\
    l' = write_pair l (unsigned_key di) (unsigned_key mi) dd dm 0.
Proof.
  unfold process_mint_to. intros H. prog_inv.
  destruct (mint_authority _) eqn:Hma; handler_inv.
  rewrite list_elem_of_singleton in *. ga_simpl.
  exists k, k0, k1. eexists _, _, _, _. split; [set_solver|]. split; [set_solver|].
  split; [congruence|]. do 6 (split; [eassumption || done|]).
  split. { intros ->. by apply Hown. }
  do 4 (split; [eassumption|]).
  unfold write_pair. by rewrite Z.add_0_r, Z.sub_0_r, !set_lamports_id.
Qed.

Lemma process_burn_Ok pid accs amt ed l u l' :
  process_burn pid accs amt ed l = Ok (u, l') ->
  exists si mi ai src m src' ds dm,
    si ∈ accs /\ mi ∈ accs /\ unsigned_key si <> unsigned_key mi /\
    unpack (data (acct l si)) = Ok src /\ unpack (data (acct l mi)) = Ok m /\
    is_frozen src = false /\ is_native_b src = false /\
    ta_mint src = unsigned_key mi /\ amt <= amount src /\ amt <= supply m /\
    debit_spec src (unsigned_key ai) amt false src' /\
    (amt = 0 -> owner (acct l si) = pid /\ owner (acct l mi) = pid) /\
    pack (set_amount (amount src - amt) src') (data (acct l si)) = Ok ds /\
    pack (set_supply (supply m - amt) m) (data (acct l mi)) = Ok dm /\
    l' = write_pair l (unsigned_key si) (unsigned_key mi) ds dm 0.
Proof.
  unfold process_burn. intros H. handler_inv.
  match goal with H : debit_spec ?a _ _ _ ?b |- _ => assert (amount b = amount a) as Ham end.
  { destruct Hdeb as [[_ ->]|(_ & _ & ->)]; [done|]. by case_match. }
  rewrite list_elem_of_singleton in *. ga_simpl. rewrite Ham in *.
  exists k, k0, k1. eexists _, _, _, _, _. split; [set_solver|]. split; [set_solver|].
  split; [congruence|]. do 8 (split; [eassumption || done|]).
  split. { intros ->. by apply Hown. }
  do 2 (split; [eassumption|]).
  unfold write_pair. by rewrite Z.add_0_r, Z.sub_0_r, !set_lamports_id.
Qed.

(** Closing moves all the lamports and clears the account. *)
Lemma process_close_account_Ok pid accs l u l' :
  process_close_account pid accs l = Ok (u, l') ->
  exists si di ai src,
    si ∈ accs /\ di ∈ accs /\ unsigned_key si <> unsigned_key di /\
    unpack (data (acct l si)) = Ok src /\
    (is_native_b src = true \/ amount src = 0) /\
    unsigned_key ai = default (ta_owner src) (close_authority src) /\
    lamports (acct l di) + lamports (acct l si) <= u64_max /\
    l' = <[unsigned_key si :=
            set_data (replicate TOKEN_ACCOUNT_LEN x00) (set_lamports 0 (acct l si))]>
         (<[unsigned_key di :=
            set_lamports (lamports (acct l di) + lamports (acct l si)) (acct l di)]> l).
Proof.
  unfold process_close_account. intros H. prog_inv. ga_simpl.
  exists k, k0, k1. eexists. split; [set_solver|]. split; [set_solver|].
  split; [done|]. split; [eassumption|].
  match goal with H : unpack _ = Ok ?x |- _ =>
    pose proof H as Hlen; apply unpack_Ok in Hlen as [Hlen _]; cbn [LEN TokenAccount_Pack] in Hlen end.
  split. { destruct (is_native_b _); [by left|right]. simpl in *. prog_inv. done. }
  split; [done|]. split; [done|].
  rewrite unsafe_memset_all in * by done.
  match goal with H : Ok _ = Ok ?a |- _ => assert (a = set_data (replicate TOKEN_ACCOUNT_LEN x00)
    (set_lamports 0 (acct l k))) as -> by congruence end.
  ledger_eq.
Qed.

Lemma process_toggle_freeze_account_Ok pid accs fr l u l' :
  process_toggle_freeze_account pid accs fr l = Ok (u, l') ->
  exists si mi ai src m d,
    si ∈ accs /\ unpack (data (acct l si)) = Ok src /\
    is_frozen src = negb fr /\ is_native_b src = false /\
    ta_mint src = unsigned_key mi /\ unpack (data (acct l mi)) = Ok m /\
    freeze_authority m = Some (unsigned_key ai) /\
    pack (set_state (if fr then Frozen else Initialized) src) (data (acct l si)) = Ok d /\
    l' = write_one l (unsigned_key si) d.
Proof.
  unfold process_toggle_freeze_account. intros H. prog_inv.
  destruct (freeze_authority _) eqn:Hfa; prog_inv.
  exists k, k0, k1. eexists _, _, _. split; [set_solver|]. split; [eassumption|].
  split. { by destruct fr, (is_frozen _). }
  do 5 (split; [done || eassumption|]). done.
Qed.

Lemma process_sync_native_Ok pid accs l u l' :
  process_sync_native pid accs l = Ok (u, l') ->
  exists ni t reserve d,
    ni ∈ accs /\ owner (acct l ni) = pid /\ unpack (data (acct l ni)) = Ok t /\
    is_native t = Some reserve /\ amount t <= lamports (acct l ni) - reserve /\
    pack (set_amount (lamports (acct l ni) - reserve) t) (data (acct l ni)) = Ok d /\
    l' = write_one l (unsigned_key ni) d.
Proof.
  unfold process_sync_native. intros H. prog_inv.
  destruct (is_native _) eqn:Hn; prog_inv.
  exists k. eexists _, _, _. split; [set_solver|]. eauto 10.
Qed.

Lemma process_initialize_mint_Ok accs nm sym dec auth fr l u l' :
  process_initialize_mint accs nm sym dec auth fr l = Ok (u, l') ->
  exists mi m d,
    mi ∈ accs /\ unpack_unchecked (data (acct l mi)) = Ok m /\
    mint_is_initialized m = false /\
    minimum_balance rent_default MINT_LEN <= lamports (acct l mi) /\
    pack (mkMint (Some auth) nm sym (supply m) dec true fr) (data (acct l mi)) = Ok d /\
    l' = write_one l (unsigned_key mi) d.
Proof.
  unfold process_initialize_mint. intros H. prog_inv.
  exists k. eexists _, _. split; [set_solver|]. split; [eassumption|]. split; [done|].
  split; [|eauto].
  match goal with H : unpack_unchecked _ = Ok _ |- _ =>
    apply unpack_unchecked_Ok in H as [Hlen _]; cbn [LEN Mint_Pack] in Hlen end.
  unfold is_exempt in *. rewrite Hlen in *. by apply Z.leb_le.
Qed.

Lemma process_initialize_account_Ok pid accs ow l u l' :
  process_initialize_account_aux pid accs ow l = Ok (u, l') ->
  exists ni mi k t nat amt d,
    ni ∈ accs /\ unpack_unchecked (data (acct l ni)) = Ok t /\
    state t = Uninitialized /\
    minimum_balance rent_default TOKEN_ACCOUNT_LEN <= lamports (acct l ni) /\
    (if decide (unsigned_key mi = native_mint_id) then
       exists reserve, nat = Some reserve /\
         reserve = minimum_balance rent_default TOKEN_ACCOUNT_LEN /\
         amt = lamports (acct l ni) - reserve /\ 0 <= amt
     else
       nat = None /\ amt = 0 /\ owner (acct l mi) = pid /\
       exists m, unpack (T:=Mint) (data (acct l mi)) = Ok m) /\
    pack (mkTokenAccount (unsigned_key mi) k amt None Initialized nat 0 (close_authority t))
      (data (acct l ni)) = Ok d /\
    l' = write_one l (unsigned_key ni) d.
Proof.
  unfold process_initialize_account_aux. intros H. prog_inv.
  match goal with H : match ow with _ => _ end _ = Ok (?k, ?l1) |- _ =>
    assert (l1 = l) as -> by (destruct ow; prog_inv; done); clear H end.
  prog_inv.
  match goal with H : unpack_unchecked _ = Ok ?t |- _ =>
    pose proof H as Hlen; apply unpack_unchecked_Ok in Hlen as [Hlen _];
    cbn [LEN TokenAccount_Pack] in Hlen end.
  match goal with H : is_initialized _ = false |- _ =>
    cbn in H; apply negb_false_iff, bool_decide_eq_true in H end.
  match goal with H : is_exempt _ _ _ = true |- _ =>
    unfold is_exempt in H; rewrite Hlen in H; apply Z.leb_le in H end.
  exists k, k0. destruct (decide (unsigned_key k0 = native_mint_id)) as [Hn|Hn];
    (rewrite bool_decide_eq_true_2 in * by done) || (rewrite bool_decide_eq_false_2 in * by done);
    prog_inv; eexists _, _, _, _, _;
    (split; [set_solver|]); (split; [eassumption|]); (split; [done|]); (split; [done|]);
    (split; [|split; [eassumption|done]]).
  - eexists. split; [done|]. rewrite Hlen. split; [done|]. split; [done|].
    rewrite <- Hlen. lia.
  - eauto 10.
Qed.

Lemma process_initialize_multisig_Ok accs m l u l' :
  process_initialize_multisig accs m l = Ok (u, l') ->
  exists mi ms signers d, head accs = Some mi /\
    unpack_unchecked (data (acct l mi)) = Ok ms /\ ms_is_initialized ms = false /\
    store_signers 0 (tail accs) (ms_signers ms) = Ok signers /\
    pack (mkMultisig m (as_u8 (Z.of_nat (length (tail accs)))) true signers)
      (data (acct l mi)) = Ok d /\
    l' = write_one l (unsigned_key mi) d.
Proof.
  unfold process_initialize_multisig. intros H. prog_inv.
  exists k. eexists _, _, _. split; [done|]. eauto 10.
Qed.
End Handlers.
