(* ===== verification/TokenAuth.v ===== *)
(** * Authorization in the token program

    What [Processor::validate_owner] accepts, stated without its loops, and
    who must have signed for each handler to succeed. *)

From Stdlib Require Import ZArith Lia.
From Stdlib Require Import Strings.Byte.
From stdpp Require Import prelude gmap list numbers.
From S2P Require Import Prelude Sdk Utf8 TokenState TokenInstruction TokenProcessor TokenFacts.

(** ** Counting signatures *)

Definition signed_by (signers : list KeyedAccount) (key : Pubkey) : bool :=
  existsb (fun s => is_signer s && bool_decide (unsigned_key s = key)) signers.

(** The positions of [keys] for which a signer is present. *)
Definition approvals (keys : list Pubkey) (signers : list KeyedAccount) : Z :=
  Z.of_nat (length (filter (fun k => signed_by signers k = true) keys)).

Definition count_true (l : list bool) : Z := Z.of_nat (length (filter (fun b => b = true) l)).

Lemma count_true_cons b l : count_true (b :: l) = (if b then 1 else 0) + count_true l.
Proof.
  unfold count_true. destruct b.
  - rewrite filter_cons_True by done. cbn. lia.
  - rewrite filter_cons_False by done. done.
Qed.

(** One signer against the keys: [cur] are the flags of [keys]. *)
Definition mark (s : KeyedAccount) (keys : list Pubkey) (cur : list bool) : list bool :=
  zip_with (fun k b => b || bool_decide (k = unsigned_key s)) keys cur.

Lemma match_positions_mark keys s pre cur post num r :
  length cur = length keys ->
  match_positions keys (length pre) s (pre ++ cur ++ post) num = Ok r ->
  r = (pre ++ mark s keys cur ++ post, num + (count_true (mark s keys cur) - count_true cur)) /\
  (mark s keys cur = cur \/ is_signer s = true).
Proof.
  revert pre cur num. induction keys as [|k keys IH]; intros pre [|b cur] num Hlen H;
    cbn in Hlen; try done.
  { cbn in H. injection H as <-. cbn. split; [|by left]. f_equal. lia. }
  cbn [match_positions] in H. rewrite cmp_pubkeys_spec in H.
  rewrite lookup_app_r, Nat.sub_diag in H by lia. cbn [lookup list_lookup app from_option] in H. unfold id in H.
  unfold mark. cbn [zip_with app]. fold (mark s keys cur). rewrite !count_true_cons.
  destruct (bool_decide (k = unsigned_key s) && negb b) eqn:E.
  - apply andb_true_iff in E as [-> ->%negb_true_iff]. unfold signer_key in H.
    destruct (is_signer s) eqn:Hs; [|done].
    rewrite insert_app_r_alt, Nat.sub_diag in H by lia. cbn [insert list_insert] in H.
    rewrite (cons_middle true pre), app_assoc in H.
    replace (S (length pre)) with (length (pre ++ [true])) in H by (rewrite length_app; cbn; lia).
    apply IH in H as [-> _]; [|lia]. rewrite <- app_assoc. cbn. split; [|by right]. f_equal. lia.
  - rewrite (cons_middle b pre), app_assoc in H.
    replace (S (length pre)) with (length (pre ++ [b])) in H by (rewrite length_app; cbn; lia).
    apply IH in H as [-> Hm]; [|lia]. rewrite <- app_assoc. cbn.
    assert (b || bool_decide (k = unsigned_key s) = b) as ->
      by (destruct b, (bool_decide (k = unsigned_key s)); done).
    split; [f_equal; lia|]. destruct Hm as [->|]; auto.
Qed.

Lemma count_signed signers keys : count_true (signed_by signers <$> keys) = approvals keys signers.
Proof.
  unfold approvals. induction keys as [|k keys IH]; [done|].
  cbn [fmap list_fmap]. rewrite count_true_cons, IH. destruct (signed_by signers k) eqn:E.
  - rewrite filter_cons_True by done. cbn. lia.
  - rewrite filter_cons_False by congruence. done.
Qed.

Lemma signed_by_snoc dn s k :
  signed_by (dn ++ [s]) k = signed_by dn k || is_signer s && bool_decide (k = unsigned_key s).
Proof.
  unfold signed_by. rewrite existsb_app. cbn. rewrite orb_false_r. do 2 f_equal.
  apply bool_decide_ext. naive_solver.
Qed.

Lemma mark_signed s keys dn :
  mark s keys (signed_by dn <$> keys) = signed_by dn <$> keys \/ is_signer s = true ->
  mark s keys (signed_by dn <$> keys) = signed_by (dn ++ [s]) <$> keys.
Proof.
  unfold mark. induction keys as [|k keys IH]; [done|]. cbn. rewrite signed_by_snoc. intros Hsig.
  f_equal; [|apply IH; destruct Hsig as [[= _ ?]|]; auto].
  destruct Hsig as [[= Hk _]| ->]; [|done]. rewrite Hk.
  destruct (signed_by dn k); [done|]. cbn in Hk |- *. by rewrite Hk, andb_false_r.
Qed.

(** The loops count the keys that have a signer. *)
Lemma match_signers_spec ms signers post num r dn :
  (Z.to_nat (ms_n ms) <= length (ms_signers ms))%nat ->
  num = approvals (take (Z.to_nat (ms_n ms)) (ms_signers ms)) dn ->
  match_signers ms signers
    ((signed_by dn <$> take (Z.to_nat (ms_n ms)) (ms_signers ms)) ++ post) num = Ok r ->
  r.2 = approvals (take (Z.to_nat (ms_n ms)) (ms_signers ms)) (dn ++ signers).
Proof.
  set (keys := take (Z.to_nat (ms_n ms)) (ms_signers ms)). intros Hn.
  revert num dn. induction signers as [|s signers IH]; intros num dn Hnum H.
  { cbn in H. injection H as <-. by rewrite app_nil_r. }
  cbn [match_signers] in H. unfold slice_to in H. apply Nat.leb_le in Hn as Hn'. rewrite Hn' in H.
  fold keys in H. apply bind_Ok in H as (keys' & [= <-] & H).
  apply bind_Ok in H as ([matched num'] & Hmp & H).
  apply (match_positions_mark keys s []) in Hmp as [Hr Hsig]; [|by rewrite length_fmap].
  cbn [app] in Hr. injection Hr as -> ->. rewrite (mark_signed _ _ _ Hsig), !count_signed in H.
  rewrite cons_middle, app_assoc. eapply IH; [|exact H]. lia.
Qed.

Lemma approvals_nil keys : approvals keys [] = 0.
Proof.
  unfold approvals. induction keys as [|k keys IH]; [done|]. by rewrite filter_cons_False.
Qed.

Lemma signed_by_nil keys : signed_by [] <$> keys = replicate (length keys) false.
Proof. induction keys as [|k keys IH]; [done|]. cbn. by f_equal. Qed.

(** From no flag set, as [validate_owner] starts. *)
Lemma match_signers_count ms signers r :
  length (ms_signers ms) = MAX_SIGNERS ->
  match_signers ms signers (replicate MAX_SIGNERS false) 0 = Ok r ->
  r.2 = approvals (take (Z.to_nat (ms_n ms)) (ms_signers ms)) signers.
Proof.
  intros Hlen H. set (n := Z.to_nat (ms_n ms)) in *.
  destruct (decide (n <= length (ms_signers ms))%nat) as [Hn|Hn].
  - assert (replicate MAX_SIGNERS false =
      (signed_by [] <$> take n (ms_signers ms)) ++ replicate (MAX_SIGNERS - n) false) as Hr.
    { replace (replicate MAX_SIGNERS false) with (replicate (n + (MAX_SIGNERS - n)) false)
        by (f_equal; lia).
      rewrite replicate_add, signed_by_nil, length_take. do 2 f_equal. lia. }
    rewrite Hr in H. eapply (match_signers_spec ms signers _ 0 _ []); [done| |exact H].
    by rewrite approvals_nil.
  - destruct signers as [|s signers].
    + cbn in H. injection H as <-. by rewrite approvals_nil.
    + cbn in H. unfold slice_to in H. fold n in H.
      destruct (Nat.leb_spec n (length (ms_signers ms))); [lia|done].
Qed.

Lemma match_positions_total keys p s matched num :
  is_signer s = true \/ unsigned_key s ∉ keys ->
  exists r, match_positions keys p s matched num = Ok r.
Proof.
  revert p matched num. induction keys as [|k keys IH]; intros p matched num Hs; cbn; [by eexists|].
  rewrite cmp_pubkeys_spec. unfold signer_key.
  assert (is_signer s = true \/ unsigned_key s ∉ keys) as Hs' by set_solver.
  case_bool_decide as Hk; cbn; [|by apply IH].
  destruct Hs as [->|Hs]; [case_match; by apply IH|]. set_solver.
Qed.

Lemma match_signers_total ms signers matched num :
  (Z.to_nat (ms_n ms) <= length (ms_signers ms))%nat ->
  (forall s, s ∈ signers -> is_signer s = true \/
     unsigned_key s ∉ take (Z.to_nat (ms_n ms)) (ms_signers ms)) ->
  exists r, match_signers ms signers matched num = Ok r.
Proof.
  intros Hn. revert matched num. induction signers as [|s signers IH]; intros matched num Hs;
    [by eexists|].
  cbn. unfold slice_to. apply Nat.leb_le in Hn as ->. cbn.
  destruct (match_positions_total (take (Z.to_nat (ms_n ms)) (ms_signers ms)) 0 s matched num)
    as [[m' n'] ->]; [apply Hs; by left|]. cbn. apply IH. intros. apply Hs. by right.
Qed.

(** ** [validate_owner] *)

(** A multisig account approves with [m] of the first [n] keys; any other
    account approves by signing. *)
Definition authorized (pid : Pubkey) (l : ledger) (ka : KeyedAccount)
    (signers : list KeyedAccount) : Prop :=
  if decide (owner (acct l ka) = pid /\ length (data (acct l ka)) = MULTISIG_LEN) then
    exists ms, unpack (data (acct l ka)) = Ok ms /\
      ms_m ms <= approvals (take (Z.to_nat (ms_n ms)) (ms_signers ms)) signers
  else is_signer ka = true.

Lemma unpack_multisig_signers d ms : unpack d = Ok ms -> length (ms_signers ms) = MAX_SIGNERS.
Proof.
  intros (_ & Hu & _)%unpack_Ok. cbn in Hu. unfold multisig_unpack_from_slice in Hu.
  repeat case_match; run_inv; done.
Qed.

Lemma validate_owner_Ok pid k ka signers l u l' :
  validate_owner pid k ka signers l = Ok (u, l') ->
  unsigned_key ka = k /\ l' = l /\ authorized pid l ka signers.
Proof.
  unfold validate_owner, authorized. intros H. run_inv.
  apply ka_owner_Ok in H1 as [-> ->]. apply ka_data_len_Ok in H2 as [-> ->].
  rewrite cmp_pubkeys_spec in *. apply negb_false_iff, bool_decide_eq_true in H0.
  destruct (Nat.eqb_spec (length (data (acct l ka))) MULTISIG_LEN) as [Hl|Hl].
  - rewrite andb_true_r in H. case_bool_decide as Ho.
    + rewrite decide_True by done. run_inv. apply ka_data_Ok in H1 as [-> ->]. split_and!; [done..|].
      eexists. split; [eassumption|].
      match goal with H : match_signers _ _ _ _ = Ok _ |- _ =>
        apply match_signers_count in H; [|by eapply unpack_multisig_signers]; cbn in H end.
      subst. apply Z.ltb_ge. done.
    + rewrite decide_False by naive_solver. run_inv. by apply negb_false_iff in H.
  - rewrite andb_false_r in H. rewrite decide_False by naive_solver. run_inv.
    by apply negb_false_iff in H.
Qed.

Lemma validate_owner_complete pid ka signers l :
  authorized pid l ka signers ->
  (forall ms, unpack (data (acct l ka)) = Ok ms ->
     (Z.to_nat (ms_n ms) <= MAX_SIGNERS)%nat /\
     forall s, s ∈ signers -> is_signer s = true \/
       unsigned_key s ∉ take (Z.to_nat (ms_n ms)) (ms_signers ms)) ->
  validate_owner pid (unsigned_key ka) ka signers l = Ok (tt, l).
Proof.
  unfold authorized, validate_owner. intros Ha Hms. rewrite cmp_pubkeys_spec, bool_decide_eq_true_2 by done.
  unfold ka_owner, ka_data_len, ka_data, account_ref, gets, mbind, st_bind, lift, mret, st_ret.
  cbn [negb fail_if]. rewrite cmp_pubkeys_spec.
  destruct (Nat.eqb_spec (length (data (acct l ka))) MULTISIG_LEN) as [Hl|Hl].
  - case_bool_decide as Ho; cbn [andb].
    + rewrite decide_True in Ha by done. destruct Ha as (ms & Hu & Hm).
      destruct (Hms _ Hu) as [Hn Hs]. rewrite Hu.
      pose proof (unpack_multisig_signers _ _ Hu) as Hlen. rewrite <- Hlen in Hn.
      destruct (match_signers_total ms signers (replicate MAX_SIGNERS false) 0 Hn Hs) as [r Hr].
      pose proof (match_signers_count _ _ _ Hlen Hr) as Hnum. destruct r as [? num]. cbn in Hnum.
      rewrite Hr. subst num. by apply Z.ltb_ge in Hm as ->.
    + rewrite decide_False in Ha by naive_solver. by rewrite Ha.
  - rewrite andb_false_r. rewrite decide_False in Ha by naive_solver. by rewrite Ha.
Qed.

(** ** Who signed for an instruction *)

Section Signed.
Implicit Types (l : ledger) (pid : Pubkey).

(** Who may take tokens out of an account: its owner, or its delegate within
    the allowance. *)
Definition may_debit (src : TokenAccount) (auth : Pubkey) (amt : Z) : Prop :=
  auth = ta_owner src \/ (delegate src = Some auth /\ amt <= delegated_amount src).

Ltac auth_inv :=
  repeat first
    [ match goal with
      | H : validate_owner _ _ _ _ _ = Ok (_, _) |- _ =>
          apply validate_owner_Ok in H; destruct H as (? & ? & ?); subst
      | H : next_expected_mint _ _ _ = Ok (_, _, _) |- _ =>
          apply next_expected_mint_Ok in H; destruct H as [? Hmi]; subst
      | H : check_expected_mint _ _ _ = Ok (_, _) |- _ =>
          apply check_expected_mint_Ok in H; destruct H as [? _]; subst
      end
    | run_inv_step | prog_inv_step ].

Lemma debit_authority_auth pid src auth it amt self l src' l' :
  debit_authority pid src auth it amt self l = Ok (src', l') ->
  l' = l /\ authorized pid l auth it /\ may_debit src (unsigned_key auth) amt.
Proof.
  unfold debit_authority, spend_delegation, may_debit. intros H.
  destruct (delegate src) as [dlg|] eqn:Hd; [case_match|]; auth_inv; [|by auto..].
  destruct self; auth_inv; auto 6.
Qed.

Ltac debit_inv :=
  match goal with H : debit_authority _ _ _ _ _ _ _ = Ok (_, _) |- _ =>
    apply debit_authority_auth in H; destruct H as (? & ? & ?); subst end.

Lemma process_transfer_auth pid accs amt ed l u l' :
  process_transfer pid accs amt ed l = Ok (u, l') ->
  exists si opt di ai signers src,
    accs = si :: opt ++ di :: ai :: signers /\ unpack (data (acct l si)) = Ok src /\
    authorized pid l ai signers /\ may_debit src (unsigned_key ai) amt.
Proof.
  unfold process_transfer. intros H. auth_inv. debit_inv.
  destruct Hmi as [(_ & _ & ->)|(? & mi & _ & _ & ->)].
  - exists k, []. eexists _, _, _, _. split; [done|]. eauto.
  - exists k, [mi]. eexists _, _, _, _. split; [done|]. eauto.
Qed.

Lemma process_burn_auth pid accs amt ed l u l' :
  process_burn pid accs amt ed l = Ok (u, l') ->
  exists si mi ai signers src,
    accs = si :: mi :: ai :: signers /\ unpack (data (acct l si)) = Ok src /\
    authorized pid l ai signers /\ may_debit src (unsigned_key ai) amt.
Proof.
  unfold process_burn. intros H. auth_inv. debit_inv.
  exists k. eexists _, _, _, _. split; [done|]. eauto.
Qed.

Lemma process_mint_to_auth pid accs amt ed l u l' :
  process_mint_to pid accs amt ed l = Ok (u, l') ->
  exists mi di oi signers m,
    accs = mi :: di :: oi :: signers /\ unpack (data (acct l mi)) = Ok m /\
    authorized pid l oi signers /\ mint_authority m = Some (unsigned_key oi).
Proof.
  unfold process_mint_to. intros H. prog_inv.
  destruct (mint_authority _) eqn:Hma; auth_inv.
  exists k. eexists _, _, _, _. split; [done|]. eauto.
Qed.

Lemma process_close_account_auth pid accs l u l' :
  process_close_account pid accs l = Ok (u, l') ->
  exists si di ai signers src,
    accs = si :: di :: ai :: signers /\ unpack (data (acct l si)) = Ok src /\
    authorized pid l ai signers /\
    unsigned_key ai = default (ta_owner src) (close_authority src).
Proof.
  unfold process_close_account. intros H. auth_inv.
  exists k. eexists _, _, _, _. split; [done|]. eauto.
Qed.

Lemma process_toggle_freeze_auth pid accs fr l u l' :
  process_toggle_freeze_account pid accs fr l = Ok (u, l') ->
  exists si mi ai signers m,
    accs = si :: mi :: ai :: signers /\ unpack (data (acct l mi)) = Ok m /\
    authorized pid l ai signers /\ freeze_authority m = Some (unsigned_key ai).
Proof.
  unfold process_toggle_freeze_account. intros H. prog_inv.
  destruct (freeze_authority _) eqn:Hfa; auth_inv.
  eexists k, _, _, _, _. split; [done|]. eauto.
Qed.

Lemma process_set_authority_auth pid accs ty na l u l' :
  process_set_authority pid accs ty na l = Ok (u, l') ->
  exists ai au signers,
    accs = ai :: au :: signers /\ authorized pid l au signers /\
    match ty with
    | AtMintTokens =>
        exists m, unpack (data (acct l ai)) = Ok m /\ mint_authority m = Some (unsigned_key au)
    | AtFreezeAccount =>
        exists m, unpack (data (acct l ai)) = Ok m /\ freeze_authority m = Some (unsigned_key au)
    | AtAccountOwner =>
        exists t, unpack (data (acct l ai)) = Ok t /\ unsigned_key au = ta_owner t
    | AtCloseAccount =>
        exists t, unpack (data (acct l ai)) = Ok t /\
          unsigned_key au = default (ta_owner t) (close_authority t)
    end.
Proof.
  unfold process_set_authority. intros H. prog_inv.
  case_match eqn:E1; [|case_match eqn:E2]; prog_inv; destruct ty; auth_inv;
    exists k, k0; eexists; (split; [done|]); eauto.
Qed.
Lemma process_approve_auth pid accs amt ed l u l' :
  process_approve pid accs amt ed l = Ok (u, l') ->
  exists si opt di oi signers src,
    accs = si :: opt ++ di :: oi :: signers /\ unpack (data (acct l si)) = Ok src /\
    authorized pid l oi signers /\ unsigned_key oi = ta_owner src.
Proof.
  unfold process_approve. intros H. auth_inv.
  destruct Hmi as [(_ & _ & ->)|(? & mi & _ & _ & ->)].
  - exists k, []. eexists _, _, _, _. split; [done|]. eauto.
  - exists k, [mi]. eexists _, _, _, _. split; [done|]. eauto.
Qed.

Lemma process_revoke_auth pid accs l u l' :
  process_revoke pid accs l = Ok (u, l') ->
  exists si oi signers src,
    accs = si :: oi :: signers /\ unpack (data (acct l si)) = Ok src /\
    authorized pid l oi signers /\ unsigned_key oi = ta_owner src.
Proof.
  unfold process_revoke. intros H. auth_inv. eexists k, _, _, _. split; [done|]. eauto.
Qed.

(** Which account must approve each instruction, and in which role. *)
Definition approved (pid : Pubkey) (l : ledger) (accs : list KeyedAccount)
    (i : TokenInstruction) : Prop :=
  match i with
  | InitializeMint _ _ _ _ _ | InitializeAccount | InitializeAccount2 _ | InitializeMultisig _
  | SyncNative => True
  | Transfer amt | TransferChecked amt _ =>
      exists si opt di ai signers src,
        accs = si :: opt ++ di :: ai :: signers /\ unpack (data (acct l si)) = Ok src /\
        authorized pid l ai signers /\ may_debit src (unsigned_key ai) amt
  | Burn amt | BurnChecked amt _ =>
      exists si mi ai signers src,
        accs = si :: mi :: ai :: signers /\ unpack (data (acct l si)) = Ok src /\
        authorized pid l ai signers /\ may_debit src (unsigned_key ai) amt
  | Approve _ | ApproveChecked _ _ =>
      exists si opt di oi signers src,
        accs = si :: opt ++ di :: oi :: signers /\ unpack (data (acct l si)) = Ok src /\
        authorized pid l oi signers /\ unsigned_key oi = ta_owner src
  | Revoke =>
      exists si oi signers src,
        accs = si :: oi :: signers /\ unpack (data (acct l si)) = Ok src /\
        authorized pid l oi signers /\ unsigned_key oi = ta_owner src
  | MintTo _ | MintToChecked _ _ =>
      exists mi di oi signers m,
        accs = mi :: di :: oi :: signers /\ unpack (data (acct l mi)) = Ok m /\
        authorized pid l oi signers /\ mint_authority m = Some (unsigned_key oi)
  | CloseAccount =>
      exists si di ai signers src,
        accs = si :: di :: ai :: signers /\ unpack (data (acct l si)) = Ok src /\
        authorized pid l ai signers /\
        unsigned_key ai = default (ta_owner src) (close_authority src)
  | FreezeAccount | ThawAccount =>
      exists si mi ai signers m,
        accs = si :: mi :: ai :: signers /\ unpack (data (acct l mi)) = Ok m /\
        authorized pid l ai signers /\ freeze_authority m = Some (unsigned_key ai)
  | SetAuthority ty _ =>
      exists ai au signers,
        accs = ai :: au :: signers /\ authorized pid l au signers /\
        match ty with
        | AtMintTokens =>
            exists m, unpack (data (acct l ai)) = Ok m /\ mint_authority m = Some (unsigned_key au)
        | AtFreezeAccount =>
            exists m, unpack (data (acct l ai)) = Ok m /\ freeze_authority m = Some (unsigned_key au)
        | AtAccountOwner =>
            exists t, unpack (data (acct l ai)) = Ok t /\ unsigned_key au = ta_owner t
        | AtCloseAccount =>
            exists t, unpack (data (acct l ai)) = Ok t /\
              unsigned_key au = default (ta_owner t) (close_authority t)
        end
  end.

Lemma dispatch_approved pid accs i l u l' :
  dispatch pid accs i l = Ok (u, l') -> approved pid l accs i.
Proof.
  intros H. destruct i; cbn [dispatch approved] in *;
    eauto using process_transfer_auth, process_burn_auth, process_approve_auth,
      process_revoke_auth, process_mint_to_auth, process_close_account_auth,
      process_toggle_freeze_auth, process_set_authority_auth.
Qed.
End Signed.
