(* ===== verification/TokenSpec.v ===== *)
(** * Abstract specification of the token program

    What the token program promises, independently of byte layouts, account
    lists and signatures: a machine on token accounts and mints, with the
    invariant that every mint's supply is exactly what its accounts hold and
    that native accounts are backed by lamports. *)

From Stdlib Require Import ZArith Lia.
From stdpp Require Import prelude gmap list numbers relations.
From S2P Require Import Prelude Sdk TokenState TokenProcessor.

(** ** State *)

Record AMint : Type := mkAMint {
  am_supply : Z;
  am_authority : option Pubkey;
  am_freeze : option Pubkey;
  am_decimals : Z;
}.

(** Token accounts with the lamports of the account that holds them. *)
Record tok_state : Type := mkTok {
  accts : gmap Pubkey (TokenAccount * Z);
  mints : gmap Pubkey AMint;
}.

(** ** Steps *)

Inductive label : Type :=
| LTransfer (ks kd : Pubkey) (x : Z)
| LUpdate (k : Pubkey)
| LFreeze (k : Pubkey)
| LThaw (k : Pubkey)
| LMintTo (M k : Pubkey) (x : Z)
| LBurn (k M : Pubkey) (x : Z)
| LClose (k : Pubkey)
| LDeposit
| LSync (k : Pubkey)
| LInitMint (M : Pubkey)
| LInitAccount (k : Pubkey)
| LAuthority (M : Pubkey).

(** The fields that no owner or delegate operation touches. *)
Definition same_holding (t t' : TokenAccount) : Prop :=
  ta_mint t' = ta_mint t /\ amount t' = amount t /\ is_native t' = is_native t /\
  state t' = state t.

Definition backed (t : TokenAccount) : Z := if is_native_b t then 1 else 0.

(** Anybody may send lamports to a token account. *)
Definition deposited (e e' : TokenAccount * Z) : Prop := e'.1 = e.1 /\ e.2 <= e'.2.

Inductive tok_step : label -> tok_state -> tok_state -> Prop :=
| ts_transfer s ks kd a la a' b lb x :
    ks <> kd -> accts s !! ks = Some (a, la) -> accts s !! kd = Some (b, lb) ->
    is_frozen a = false -> is_frozen b = false -> ta_mint a = ta_mint b ->
    same_holding a a' -> 0 <= x <= amount a -> amount b + x <= u64_max ->
    tok_step (LTransfer ks kd x) s
      (mkTok (<[kd := (set_amount (amount b + x) b, lb + backed a * x)]>
               (<[ks := (set_amount (amount a - x) a', la - backed a * x)]> (accts s)))
             (mints s))
| ts_update s k t lam t' :
    accts s !! k = Some (t, lam) -> is_frozen t = false -> same_holding t t' ->
    tok_step (LUpdate k) s (mkTok (<[k := (t', lam)]> (accts s)) (mints s))
| ts_freeze s k t lam m :
    accts s !! k = Some (t, lam) -> is_frozen t = false -> is_native t = None ->
    mints s !! ta_mint t = Some m -> is_Some (am_freeze m) ->
    tok_step (LFreeze k) s (mkTok (<[k := (set_state Frozen t, lam)]> (accts s)) (mints s))
| ts_thaw s k t lam m :
    accts s !! k = Some (t, lam) -> is_frozen t = true -> is_native t = None ->
    mints s !! ta_mint t = Some m -> is_Some (am_freeze m) ->
    tok_step (LThaw k) s
      (mkTok (<[k := (set_state Initialized t, lam)]> (accts s)) (mints s))
| ts_mint_to s M k t lam m x :
    accts s !! k = Some (t, lam) -> mints s !! M = Some m -> ta_mint t = M ->
    is_frozen t = false -> is_native t = None -> is_Some (am_authority m) ->
    0 <= x -> amount t + x <= u64_max -> am_supply m + x <= u64_max ->
    tok_step (LMintTo M k x) s
      (mkTok (<[k := (set_amount (amount t + x) t, lam)]> (accts s))
             (<[M := mkAMint (am_supply m + x) (am_authority m) (am_freeze m)
                       (am_decimals m)]> (mints s)))
| ts_burn s M k t lam t' m x :
    accts s !! k = Some (t, lam) -> mints s !! M = Some m -> ta_mint t = M ->
    is_frozen t = false -> is_native t = None -> same_holding t t' ->
    0 <= x <= amount t -> x <= am_supply m ->
    tok_step (LBurn k M x) s
      (mkTok (<[k := (set_amount (amount t - x) t', lam)]> (accts s))
             (<[M := mkAMint (am_supply m - x) (am_authority m) (am_freeze m)
                       (am_decimals m)]> (mints s)))
| ts_close s k t lam :
    accts s !! k = Some (t, lam) -> is_native_b t = true \/ amount t = 0 ->
    tok_step (LClose k) s (mkTok (delete k (accts s)) (mints s))
| ts_deposit s s' :
    mints s' = mints s ->
    (forall k, option_Forall2 deposited (accts s !! k) (accts s' !! k)) ->
    tok_step LDeposit s s'
| ts_sync s k t lam r :
    accts s !! k = Some (t, lam) -> is_native t = Some r ->
    amount t <= lam - r <= u64_max ->
    tok_step (LSync k) s (mkTok (<[k := (set_amount (lam - r) t, lam)]> (accts s)) (mints s))
| ts_init_mint s M m :
    mints s !! M = None -> am_supply m = 0 ->
    tok_step (LInitMint M) s (mkTok (accts s) (<[M := m]> (mints s)))
| ts_init_account s k t lam :
    accts s !! k = None -> state t = Initialized ->
    0 <= amount t <= u64_max ->
    match is_native t with
    | Some r => ta_mint t = native_mint_id /\ 0 < r /\ amount t + r <= lam
    | None => ta_mint t <> native_mint_id /\ 0 < lam /\ amount t = 0 /\
              is_Some (mints s !! ta_mint t)
    end ->
    tok_step (LInitAccount k) s (mkTok (<[k := (t, lam)]> (accts s)) (mints s))
| ts_authority s M m m' :
    mints s !! M = Some m -> am_supply m' = am_supply m ->
    (am_authority m = None -> am_authority m' = None) ->
    (am_freeze m = None -> am_freeze m' = None) ->
    tok_step (LAuthority M) s (mkTok (accts s) (<[M := m']> (mints s))).

(** Sequences of steps, with their labels. *)
Inductive tok_steps : list label -> tok_state -> tok_state -> Prop :=
| tss_nil s : tok_steps [] s s
| tss_cons a s1 s2 tr s3 :
    tok_step a s1 s2 -> tok_steps tr s2 s3 -> tok_steps (a :: tr) s1 s3.

Lemma tok_steps_app tr1 tr2 s1 s2 s3 :
  tok_steps tr1 s1 s2 -> tok_steps tr2 s2 s3 -> tok_steps (tr1 ++ tr2) s1 s3.
Proof. induction 1; simpl; [done|]. intros. econstructor; eauto. Qed.

Lemma tok_steps_one a s1 s2 : tok_step a s1 s2 -> tok_steps [a] s1 s2.
Proof. intros. by repeat econstructor. Qed.

(** ** The invariant *)

(** What the accounts of mint [M] hold; native accounts are counted in
    lamports, not here. *)
Definition holds (M : Pubkey) (e : TokenAccount * Z) : Z :=
  if bool_decide (ta_mint e.1 = M) && negb (is_native_b e.1) then amount e.1 else 0.
Definition total_held (s : tok_state) (M : Pubkey) : Z := map_sum (holds M) (accts s).

Definition acct_ok (s : tok_state) (t : TokenAccount) (lam : Z) : Prop :=
  0 <= amount t <= u64_max /\
  match is_native t with
  | Some r => ta_mint t = native_mint_id /\ 0 < r /\ amount t + r <= lam /\ state t <> Frozen
  | None => ta_mint t <> native_mint_id /\ 0 < lam /\ is_Some (mints s !! ta_mint t)
  end.

Definition mint_ok (s : tok_state) (M : Pubkey) (m : AMint) : Prop :=
  0 <= am_supply m <= u64_max /\ am_supply m = total_held s M.

Definition tok_inv (s : tok_state) : Prop :=
  (forall k t lam, accts s !! k = Some (t, lam) -> acct_ok s t lam) /\
  (forall M m, mints s !! M = Some m -> mint_ok s M m).

(** ** Preservation *)

Definition counts (M : Pubkey) (t : TokenAccount) : bool :=
  bool_decide (ta_mint t = M) && negb (is_native_b t).

Lemma holds_counts M t lam : holds M (t, lam) = if counts M t then amount t else 0.
Proof. done. Qed.

Lemma counts_same M t t' : same_holding t t' -> counts M t' = counts M t.
Proof. intros (Hm & _ & Hn & _). unfold counts, is_native_b. by rewrite Hm, Hn. Qed.

Lemma acct_ok_counts s t lam M :
  acct_ok s t lam ->
  counts M t = bool_decide (ta_mint t = M) && bool_decide (M <> native_mint_id).
Proof.
  intros [_ H]. unfold counts, is_native_b. destruct (is_native t).
  - destruct H as (Hm & _). rewrite andb_false_r. symmetry. apply andb_false_iff.
    rewrite !bool_decide_eq_false. destruct (decide (M = native_mint_id)); [naive_solver|].
    left. congruence.
  - destruct H as (Hm & _). case_bool_decide; [|done]. subst.
    by rewrite bool_decide_eq_true_2.
Qed.

Lemma acct_ok_same s t t' lam : same_holding t t' -> acct_ok s t lam -> acct_ok s t' lam.
Proof.
  intros (Hm & Ha & Hn & Hs). unfold acct_ok. by rewrite Hm, Ha, Hn, Hs.
Qed.

(** Changing the accounts keeps [acct_ok] of the others. *)
Lemma acct_ok_mints s s' t lam :
  (forall M, is_Some (mints s !! M) -> is_Some (mints s' !! M)) ->
  acct_ok s t lam -> acct_ok s' t lam.
Proof. unfold acct_ok. intros HM [? H]. split; [done|]. destruct (is_native t); naive_solver. Qed.

Lemma total_held_insert s M k t lam ms :
  total_held (mkTok (<[k := (t, lam)]> (accts s)) ms) M =
  total_held s M - from_option (holds M) 0 (accts s !! k) + holds M (t, lam).
Proof. apply map_sum_insert. Qed.

Lemma total_held_mints s M ms : total_held (mkTok (accts s) ms) M = total_held s M.
Proof. done. Qed.

(** No account of a mint that does not exist holds anything. *)
Lemma total_held_no_mint s M :
  tok_inv s -> mints s !! M = None -> total_held s M = 0.
Proof.
  intros [HA _] HM. apply map_sum_zero. intros k [t lam] Hk. rewrite holds_counts.
  specialize (HA _ _ _ Hk) as Hok. unfold counts. case_bool_decide as Hm; [|done]. subst.
  destruct Hok as [_ Hok]. unfold is_native_b. destruct (is_native t); [done|].
  destruct Hok as (_ & _ & ? & ?). congruence.
Qed.

(** The account part of the invariant after one account was replaced. *)
Lemma accts_insert_ok s k t lam ms :
  (forall k t lam, accts s !! k = Some (t, lam) -> acct_ok s t lam) ->
  (forall M, is_Some (mints s !! M) -> is_Some (ms !! M)) ->
  acct_ok (mkTok (accts s) ms) t lam ->
  forall k' t' lam', <[k := (t, lam)]> (accts s) !! k' = Some (t', lam') ->
    acct_ok (mkTok (<[k := (t, lam)]> (accts s)) ms) t' lam'.
Proof.
  intros HA HM Hok k' t' lam' Hk'. apply lookup_insert_Some in Hk' as [[_ [= <- <-]]|[_ Hk']].
  - done.
  - apply (acct_ok_mints s); [done|]. eauto.
Qed.

(** A replacement that keeps the holding keeps the whole invariant. *)
Lemma tok_inv_same s k t lam t' lam' :
  tok_inv s -> accts s !! k = Some (t, lam) ->
  (forall M, holds M (t', lam') = holds M (t, lam)) -> acct_ok s t' lam' ->
  tok_inv (mkTok (<[k := (t', lam')]> (accts s)) (mints s)).
Proof.
  intros [HA HM] Hk Hh Hok. split.
  - by apply accts_insert_ok.
  - intros M m Hm. destruct (HM M m Hm) as [? Hs]. split; [done|].
    rewrite total_held_insert, Hk. cbn. rewrite Hh. lia.
Qed.

(** A replacement that changes one mint and one of its accounts by the same
    amount keeps the invariant. *)
Lemma tok_inv_supply s k M t lam t' m m' :
  tok_inv s -> accts s !! k = Some (t, lam) -> mints s !! M = Some m ->
  ta_mint t = M -> ta_mint t' = M -> is_native t = None -> is_native t' = None ->
  0 <= amount t' <= u64_max -> 0 <= am_supply m' <= u64_max ->
  am_supply m' - am_supply m = amount t' - amount t ->
  tok_inv (mkTok (<[k := (t', lam)]> (accts s)) (<[M := m']> (mints s))).
Proof.
  intros [HA HM] Hk Hm Ht Ht' Hn Hn' Ha' Hs' Hd. split.
  - apply accts_insert_ok; [done| |].
    + intros M' ?. rewrite lookup_insert. case_decide; eauto.
    + destruct (HA _ _ _ Hk) as [_ Hok]. rewrite Hn in Hok. split; [done|].
      rewrite Hn', Ht', <- Ht. destruct Hok as (? & ? & ?). split; [done|]. split; [done|].
      cbn. rewrite Ht, lookup_insert_eq. eauto.
  - intros M' m0 Hm0. cbn in Hm0.
    assert (total_held (mkTok (<[k := (t', lam)]> (accts s)) (<[M := m']> (mints s))) M' =
            total_held s M' + if decide (M = M') then amount t' - amount t else 0) as Hsum.
    { rewrite total_held_insert, Hk. cbn. unfold holds, is_native_b; cbn.
      rewrite Hn, Hn', Ht, Ht'. repeat case_bool_decide; case_decide; simplify_eq; cbn; lia. }
    unfold mint_ok. rewrite Hsum. apply lookup_insert_Some in Hm0 as [[<- <-]|[? Hm0]].
    + rewrite decide_True by done. destruct (HM M m Hm). split; [done|lia].
    + rewrite decide_False by done. destruct (HM M' m0 Hm0). split; [done|lia].
Qed.

Lemma holds_set_amount M t lam x :
  holds M (set_amount x t, lam) = if counts M t then x else 0.
Proof. done. Qed.

Lemma tok_inv_transfer s ks kd a la a' b lb x :
  tok_inv s -> ks <> kd -> accts s !! ks = Some (a, la) -> accts s !! kd = Some (b, lb) ->
  ta_mint a = ta_mint b -> same_holding a a' -> 0 <= x <= amount a -> amount b + x <= u64_max ->
  tok_inv (mkTok (<[kd := (set_amount (amount b + x) b, lb + backed a * x)]>
               (<[ks := (set_amount (amount a - x) a', la - backed a * x)]> (accts s)))
             (mints s)).
Proof.
  intros Hinv Hne Hks Hkd Hmint Hsame Hx Hov.
  destruct (proj1 Hinv _ _ _ Hks) as [Hra Hna]. destruct (proj1 Hinv _ _ _ Hkd) as [Hrb Hnb].
  pose proof Hsame as (Hm' & Ha' & Hn' & Hs').
  assert (is_native_b a = is_native_b b) as Hnat.
  { unfold is_native_b. rewrite Hmint in *.
    destruct (is_native a), (is_native b); naive_solver. }
  split.
  - set (s1 := mkTok (<[ks := (set_amount (amount a - x) a', la - backed a * x)]> (accts s))
                 (mints s)).
    apply (accts_insert_ok s1); [|done|].
    + apply accts_insert_ok; [apply Hinv|done|]. unfold acct_ok, backed, is_native_b; cbn.
      rewrite Hn', Hm', Hs'. revert Hna. destruct (is_native a); intros Hna;
        destruct Hna as (? & ? & ? & ?) || destruct Hna as (? & ? & ?); split_and!; done || lia.
    + unfold acct_ok, backed; cbn. rewrite Hnat. unfold is_native_b.
      revert Hnb. destruct (is_native b); intros Hnb;
        destruct Hnb as (? & ? & ? & ?) || destruct Hnb as (? & ? & ?); split_and!; done || lia.
  - intros M m Hm. destruct (proj2 Hinv M m Hm) as [? Hs]. split; [done|]. rewrite Hs.
    unfold total_held; cbn. rewrite !map_sum_insert, lookup_insert_ne, Hks, Hkd by done. cbn.
    rewrite !holds_set_amount, !holds_counts, (counts_same M a a') by done.
    assert (counts M a = counts M b) as ->; [|destruct (counts M b); lia].
    unfold counts. by rewrite Hmint, Hnat.
Qed.

Lemma tok_inv_deposit s s' :
  tok_inv s -> mints s' = mints s ->
  (forall k, option_Forall2 deposited (accts s !! k) (accts s' !! k)) -> tok_inv s'.
Proof.
  intros [HA HM] Hms Hd. split.
  - intros k t lam Hk. specialize (Hd k). rewrite Hk in Hd.
    destruct (accts s !! k) as [[t0 lam0]|] eqn:Hk0; inversion Hd as [? ? [Ht Hlam]|]; subst.
    cbn in Ht, Hlam; subst t0. apply (acct_ok_mints s); [by rewrite Hms|].
    destruct (HA _ _ _ Hk0) as [? Hok]. split; [done|].
    destruct (is_native t); [|naive_solver lia]. destruct Hok as (? & ? & ? & ?).
    split_and!; done || lia.
  - intros M m Hm. rewrite Hms in Hm. destruct (HM M m Hm) as [? Hs]. split; [done|].
    rewrite Hs. apply map_sum_relate. intros k. destruct (Hd k) as [[t lam] [t' lam'] [Ht _]|].
    + constructor. cbn in Ht; subst t'. by rewrite !holds_counts.
    + constructor.
Qed.

Lemma tok_inv_step a s s' : tok_inv s -> tok_step a s s' -> tok_inv s'.
Proof.
  intros Hinv Hstep. destruct Hstep.
  - by eapply tok_inv_transfer.
  - eapply tok_inv_same; [done..| |].
    + intros M. rewrite !holds_counts, (counts_same M t t') by done. by destruct H1 as (_ & -> & _).
    + eapply acct_ok_same; [done|]. by eapply Hinv.
  - eapply tok_inv_same; [done..|].
    destruct (proj1 Hinv _ _ _ H) as [? Hok]. unfold acct_ok; cbn. rewrite H1 in *. done.
  - eapply tok_inv_same; [done..|].
    destruct (proj1 Hinv _ _ _ H) as [? Hok]. unfold acct_ok; cbn. rewrite H1 in *. done.
  - destruct (proj1 Hinv _ _ _ H), (proj2 Hinv _ _ H0).
    eapply tok_inv_supply; try done; cbn; lia.
  - destruct H4 as (Hm & Ha & Hn & Hs). destruct (proj1 Hinv _ _ _ H), (proj2 Hinv _ _ H0).
    eapply tok_inv_supply; try done; cbn; congruence || lia.
  - split.
    + intros k' t' lam' Hk'. cbn in Hk'. apply lookup_delete_Some in Hk' as [_ Hk'].
      apply (acct_ok_mints s); [done|]. by eapply Hinv.
    + intros M m Hm. destruct (proj2 Hinv M m Hm) as [? Hs]. split; [done|].
      unfold total_held; cbn. rewrite map_sum_delete, H. cbn. rewrite Hs, holds_counts.
      unfold total_held, counts. destruct H0 as [-> | ->]; [rewrite andb_false_r; lia|].
      case_match; lia.
  - by eapply tok_inv_deposit.
  - eapply tok_inv_same; [done..| |].
    + intros M. rewrite holds_set_amount, holds_counts. unfold counts, is_native_b.
      rewrite H0. by rewrite andb_false_r.
    + destruct (proj1 Hinv _ _ _ H) as [? Hok]. unfold acct_ok; cbn. rewrite H0 in *.
      naive_solver lia.
  - split.
    + intros k t lam Hk. apply (acct_ok_mints s); [|by eapply Hinv].
      intros M' ?. cbn. rewrite lookup_insert. case_decide; eauto.
    + intros M' m' Hm'. cbn in Hm'. apply lookup_insert_Some in Hm' as [[<- <-]|[? Hm']].
      * unfold mint_ok. rewrite total_held_mints, total_held_no_mint by done. unfold u64_max. lia.
      * by apply Hinv.
  - assert (acct_ok s t lam) as Hok.
    { split; [done|]. destruct (is_native t); [|naive_solver]. rewrite H0. naive_solver. }
    split.
    + apply accts_insert_ok; [apply Hinv|done|done].
    + intros M m Hm. destruct (proj2 Hinv M m Hm) as [? Hs]. split; [done|].
      rewrite total_held_insert, H, holds_counts. cbn. rewrite Hs.
      unfold counts, is_native_b. destruct (is_native t); [rewrite andb_false_r; lia|].
      destruct H2 as (_ & _ & -> & _). case_match; lia.
  - split.
    + intros k t lam Hk. apply (acct_ok_mints s); [|by eapply Hinv].
      intros M' ?. cbn. rewrite lookup_insert. case_decide; eauto.
    + intros M' m0 Hm0. cbn in Hm0. apply lookup_insert_Some in Hm0 as [[<- <-]|[? Hm0]].
      * unfold mint_ok. rewrite H0, total_held_mints. by apply Hinv.
      * by apply Hinv.
Qed.

Lemma tok_inv_steps tr s s' : tok_inv s -> tok_steps tr s s' -> tok_inv s'.
Proof. intros Hinv. induction 1; eauto using tok_inv_step. Qed.

(** ** What no sequence of steps can do *)

(** A mint without an authority never gets one back, and its supply only
    shrinks; the same for the freeze authority. *)
Definition mint_fixed (m m' : AMint) : Prop :=
  (am_authority m = None -> am_authority m' = None /\ am_supply m' <= am_supply m) /\
  (am_freeze m = None -> am_freeze m' = None).

#[global] Instance mint_fixed_refl : Reflexive mint_fixed.
Proof. intros m. split; [done|]. done. Qed.
#[global] Instance mint_fixed_trans : Transitive mint_fixed.
Proof. intros m1 m2 m3 [H1 H1'] [H2 H2']. split; naive_solver lia. Qed.

Lemma tok_step_mint a s s' M m :
  tok_step a s s' -> mints s !! M = Some m ->
  exists m', mints s' !! M = Some m' /\ mint_fixed m m'.
Proof.
  intros Hstep HM. destruct Hstep; cbn [mints];
    try (match goal with H : mints s' = mints s |- _ => rewrite H end);
    try (exists m; by split).
  all: rewrite lookup_insert; case_decide; [subst|by eexists; split; [eassumption|]].
  all: simplify_eq; eexists; (split; [done|]); split; cbn.
  all: try done; try (intros; split; [done|lia]); try (intros; split; auto; lia).
  intros Hn. match goal with H : is_Some _ |- _ => rewrite Hn in H; by destruct H end.
Qed.

Lemma tok_steps_mint tr s s' M m :
  tok_steps tr s s' -> mints s !! M = Some m ->
  exists m', mints s' !! M = Some m' /\ mint_fixed m m'.
Proof.
  intros Hsteps. revert m. induction Hsteps as [s|a s1 s2 tr s3 Hstep _ IH]; intros m HM.
  { by exists m. }
  destruct (tok_step_mint _ _ _ _ _ Hstep HM) as (m1 & Hm1 & ?).
  destruct (IH _ Hm1) as (m2 & ? & ?). exists m2. split; [done|]. by transitivity m1.
Qed.

(** A frozen account with a positive balance stays as it is until it is
    thawed; it can only receive lamports. *)
Lemma tok_step_frozen a s s' k t lam :
  tok_inv s -> tok_step a s s' -> a <> LThaw k ->
  accts s !! k = Some (t, lam) -> is_frozen t = true -> 0 < amount t ->
  exists lam', accts s' !! k = Some (t, lam') /\ lam <= lam'.
Proof.
  intros Hinv Hstep Ha Hk Hf Hpos.
  assert (is_native t = None) as Hn.
  { destruct (proj1 Hinv _ _ _ Hk) as [_ Hok]. destruct (is_native t); [|done].
    destruct Hok as (_ & _ & _ & Hst). unfold is_frozen in Hf. by apply bool_decide_eq_true in Hf. }
  destruct Hstep; cbn [accts].
  7: { rewrite lookup_delete_ne; [by exists lam|]. intros ->. rewrite Hk in *. simplify_eq.
       unfold is_native_b in *. rewrite Hn in *. naive_solver lia. }
  7: { match goal with H : forall k, option_Forall2 _ _ _ |- _ => specialize (H k); rewrite Hk in H;
         inversion H as [? [t' lam'] [Ht Hlam]|]; subst end.
       cbn in *. subst t'. by exists lam'. }
  all: rewrite ?lookup_insert; repeat case_decide; subst; simplify_eq; try by exists lam.
  all: congruence.
Qed.

Lemma tok_steps_frozen tr s s' k t lam :
  tok_steps tr s s' -> tok_inv s -> Forall (fun a => a <> LThaw k) tr ->
  accts s !! k = Some (t, lam) -> is_frozen t = true -> 0 < amount t ->
  exists lam', accts s' !! k = Some (t, lam') /\ lam <= lam'.
Proof.
  intros Hsteps. revert lam. induction Hsteps as [s|a s1 s2 tr s3 Hstep _ IH];
    intros lam Hinv Htr Hk Hf Hpos.
  { exists lam. split; [done|lia]. }
  inversion Htr; subst.
  destruct (tok_step_frozen a s1 s2 k t lam) as (lam1 & Hk1 & ?); try done.
  destruct (IH lam1) as (lam2 & ? & ?); try done; [by eapply tok_inv_step|].
  exists lam2. split; [done|lia].
Qed.

(** Deposits leave the token state alone. *)
Lemma tok_steps_deposits tr s s' :
  tok_steps tr s s' -> Forall (fun a => a = LDeposit) tr ->
  mints s' = mints s /\ forall k, option_Forall2 deposited (accts s !! k) (accts s' !! k).
Proof.
  induction 1 as [s|a s1 s2 tr s3 Hstep _ IH]; intros Htr.
  { split; [done|]. intros k. destruct (accts s !! k); by constructor. }
  inversion Htr; subst. destruct IH as [Hm Ha]; [done|].
  inversion Hstep as [| | | | | | | ? ? Hm1 Ha1| | | |]; subst. split; [congruence|].
  intros k. specialize (Ha1 k). specialize (Ha k).
  destruct Ha1 as [x y [Hx ?]|]; inversion Ha as [? z [Hz ?]|]; subst; constructor.
  split; [congruence|lia].
Qed.
