(* ===== verification/TokenRefine.v ===== *)
(** * The token program refines its specification

    The abstract state of a ledger, and the simulation: every successful
    instruction of the token program is a sequence of steps of TokenSpec.v,
    and every successful instruction of another program is at most a deposit. *)

From Stdlib Require Import ZArith Lia.
From Stdlib Require Import Strings.Byte.
From stdpp Require Import prelude gmap list numbers.
From S2P Require Import Prelude Sdk Utf8 Runtime TokenState TokenInstruction.
From S2P Require Import TokenProcessor TokenFacts TokenSpec.

(** ** Abstraction *)

Definition ok_to_option {E A} (o : outcome E A) : option A :=
  match o with Ok a => Some a | _ => None end.

Definition abs_mint (m : Mint) : AMint :=
  mkAMint (supply m) (mint_authority m) (freeze_authority m) (decimals m).

(** What an account is for the token program: a token account with its
    lamports, a mint, or nothing. *)
Definition view_acct (a : AccountSharedData) : option (TokenAccount * Z) :=
  if decide (owner a = token_program_id) then
    (fun t => (t, lamports a)) <$> ok_to_option (unpack (data a))
  else None.
Definition view_mint (a : AccountSharedData) : option AMint :=
  if decide (owner a = token_program_id) then abs_mint <$> ok_to_option (unpack (data a))
  else None.

Definition abs (l : ledger) : tok_state := mkTok (omap view_acct l) (omap view_mint l).

(** What the ledger promises beyond the abstract invariant: balances are
    64-bit, a mint that is not initialized yet has no supply, and mints keep a
    positive balance. *)
Definition account_ok (a : AccountSharedData) : Prop :=
  in_u64 (lamports a) /\
  (owner a = token_program_id ->
     forall m, unpack_unchecked (data a) = Ok m -> mint_is_initialized m = false -> supply m = 0) /\
  (is_Some (view_mint a) -> 0 < lamports a).
Definition ledger_ok (l : ledger) : Prop := forall k, account_ok (get_account l k).

Lemma ok_to_option_Some {E A} (o : outcome E A) a : ok_to_option o = Some a <-> o = Ok a.
Proof. destruct o; naive_solver. Qed.

Lemma view_acct_Some a t lam :
  view_acct a = Some (t, lam) <->
  owner a = token_program_id /\ unpack (data a) = Ok t /\ lam = lamports a.
Proof.
  unfold view_acct. case_decide; [|naive_solver].
  rewrite fmap_Some. setoid_rewrite ok_to_option_Some. naive_solver.
Qed.

Lemma view_mint_Some a am :
  view_mint a = Some am <->
  owner a = token_program_id /\ exists m, unpack (data a) = Ok m /\ am = abs_mint m.
Proof.
  unfold view_mint. case_decide; [|naive_solver].
  rewrite fmap_Some. setoid_rewrite ok_to_option_Some. naive_solver.
Qed.

(** The layouts have different lengths: an account has one role. *)
Lemma view_acct_no_mint a e : view_acct a = Some e -> view_mint a = None.
Proof.
  destruct e as [t lam]. intros (_ & [Hl _]%unpack_Ok & _)%view_acct_Some.
  destruct (view_mint a) eqn:E; [|done].
  apply view_mint_Some in E as (_ & m & [Hl' _]%unpack_Ok & _). rewrite Hl in Hl'. done.
Qed.

Lemma view_mint_no_acct a m : view_mint a = Some m -> view_acct a = None.
Proof.
  intros Hm. destruct (view_acct a) eqn:E; [|done]. apply view_acct_no_mint in E. congruence.
Qed.

Lemma view_default_acct : view_acct account_default = None.
Proof. vm_compute. done. Qed.
Lemma view_default_mint : view_mint account_default = None.
Proof. vm_compute. done. Qed.

Lemma abs_accts l k : accts (abs l) !! k = view_acct (get_account l k).
Proof.
  cbn. rewrite lookup_omap. unfold get_account. destruct (l !! k); cbn; [done|].
  by rewrite view_default_acct.
Qed.
Lemma abs_mints l k : mints (abs l) !! k = view_mint (get_account l k).
Proof.
  cbn. rewrite lookup_omap. unfold get_account. destruct (l !! k); cbn; [done|].
  by rewrite view_default_mint.
Qed.

Lemma tok_state_eq s s' :
  (forall k, accts s !! k = accts s' !! k) -> (forall k, mints s !! k = mints s' !! k) -> s = s'.
Proof. destruct s, s'; cbn. intros. f_equal; by apply map_eq. Qed.

(** ** Abstract state after a write *)

Lemma abs_set_acct l k a e :
  view_acct a = Some e -> view_mint (get_account l k) = None ->
  abs (<[k := a]> l) = mkTok (<[k := e]> (accts (abs l))) (mints (abs l)).
Proof.
  intros He Hm. apply tok_state_eq; intros j; cbn [accts mints].
  - rewrite abs_accts, get_account_insert, lookup_insert, abs_accts. by case_decide.
  - rewrite !abs_mints, get_account_insert. case_decide; [|done]. subst j.
    by rewrite Hm, (view_acct_no_mint _ _ He).
Qed.

Lemma abs_set_mint l k a m :
  view_mint a = Some m -> view_acct (get_account l k) = None ->
  abs (<[k := a]> l) = mkTok (accts (abs l)) (<[k := m]> (mints (abs l))).
Proof.
  intros He Hm. apply tok_state_eq; intros j; cbn [accts mints].
  - rewrite !abs_accts, get_account_insert. case_decide; [|done]. subst j.
    by rewrite Hm, (view_mint_no_acct _ _ He).
  - rewrite abs_mints, get_account_insert, lookup_insert, abs_mints. by case_decide.
Qed.

Lemma abs_unset l k a :
  view_acct a = None -> view_mint a = None -> view_mint (get_account l k) = None ->
  abs (<[k := a]> l) = mkTok (delete k (accts (abs l))) (mints (abs l)).
Proof.
  intros Ha Hm Hk. apply tok_state_eq; intros j; cbn [accts mints].
  - rewrite abs_accts, get_account_insert, lookup_delete, abs_accts. by case_decide.
  - rewrite !abs_mints, get_account_insert. case_decide; [|done]. subst j. congruence.
Qed.

Lemma abs_same l l' :
  (forall k, view_acct (get_account l' k) = view_acct (get_account l k)) ->
  (forall k, view_mint (get_account l' k) = view_mint (get_account l k)) -> abs l' = abs l.
Proof.
  intros Ha Hm. apply tok_state_eq; intros k; rewrite ?abs_accts, ?abs_mints; auto.
Qed.

(** ** Packed values read back *)

Lemma pack_unpack {T} `{PackSpec T} (v : T) d d' :
  packable v -> pack v d = Ok d' -> length d' = LEN T /\ unpack_unchecked d' = Ok (norm v).
Proof.
  intros Hv [Hl Hp]%pack_Ok. destruct (pack_total v d Hv Hl) as (d2 & Hp' & Hl' & Hu).
  rewrite Hp in Hp'. injection Hp' as <-. split; [done|]. by apply unpack_unchecked_Ok.
Qed.

Lemma acct_pack_unpack t d d' :
  token_account_packable t -> pack t d = Ok d' ->
  length d' = TOKEN_ACCOUNT_LEN /\ unpack_unchecked d' = Ok t.
Proof. exact (pack_unpack t d d'). Qed.

Lemma multisig_pack_length ms d d' :
  multisig_packable ms -> pack ms d = Ok d' -> length d' = MULTISIG_LEN.
Proof. intros Hms Hp. exact (proj1 (pack_unpack ms d d' Hms Hp)). Qed.

Lemma mint_pack_packable m d d' :
  in_u64 (supply m) -> in_u8 (decimals m) -> pack m d = Ok d' -> mint_packable m.
Proof.
  intros Hs Hd [Hl Hp]%pack_Ok.
  destruct (decide (length (name m) <= MAX_NAME_LENGTH)%nat),
    (decide (length (symbol m) <= MAX_SYMBOL_LENGTH)%nat); [by split_and!|..].
  all: cbn [pack_into_slice Mint_Pack] in Hp; rewrite mint_pack_too_long in Hp; [done|done|lia].
Qed.

Lemma mint_pack_unpack_norm m d d' :
  in_u64 (supply m) -> in_u8 (decimals m) -> pack m d = Ok d' ->
  length d' = MINT_LEN /\ unpack_unchecked d' = Ok (mint_norm m).
Proof.
  intros Hs Hd Hp. exact (pack_unpack m d d' (mint_pack_packable _ _ _ Hs Hd Hp) Hp).
Qed.

Lemma repack_acct a t d :
  owner a = token_program_id -> pack t (data a) = Ok d -> token_account_packable t ->
  is_initialized t = true -> view_acct (set_data d a) = Some (t, lamports a).
Proof.
  intros Ho Hp Ht Hi. apply view_acct_Some. split; [done|]. split; [|done].
  destruct (acct_pack_unpack t _ _ Ht Hp) as [_ Hu]. cbn [set_data data]. unfold unpack.
  rewrite Hu. cbn [mbind outcome_bind]. by rewrite Hi.
Qed.

Lemma repack_mint a m d :
  owner a = token_program_id -> pack m (data a) = Ok d -> in_u64 (supply m) ->
  in_u8 (decimals m) -> mint_is_initialized m = true ->
  view_mint (set_data d a) = Some (abs_mint m).
Proof.
  intros Ho Hp Hs Hd Hi. apply view_mint_Some. split; [done|]. exists (mint_norm m).
  split; [|done]. destruct (mint_pack_unpack_norm m _ _ Hs Hd Hp) as [_ Hu]. cbn [set_data data]. unfold unpack.
  rewrite Hu. cbn -[mint_norm]. cbn. by rewrite Hi.
Qed.

(** ** Accounts that are in order *)

Lemma account_ok_acct a :
  in_u64 (lamports a) -> length (data a) = TOKEN_ACCOUNT_LEN -> account_ok a.
Proof.
  intros Hl Hlen. split; [done|]. split.
  - intros _ m [Hm _]%unpack_unchecked_Ok. rewrite Hlen in Hm. done.
  - intros [am (_ & m & [Hm _]%unpack_Ok & _)%view_mint_Some]. rewrite Hlen in Hm. done.
Qed.

Lemma account_ok_mint a m :
  in_u64 (lamports a) -> 0 < lamports a -> view_mint a = Some m -> account_ok a.
Proof.
  intros Hl Hp Hm. split; [done|]. split; [|done]. intros _ m' Hm' Hi.
  apply view_mint_Some in Hm as (_ & m0 & Hm0 & _). unfold unpack in Hm0. rewrite Hm' in Hm0.
  cbn in Hm0. by rewrite Hi in Hm0.
Qed.

Lemma ledger_ok_insert l k a : ledger_ok l -> account_ok a -> ledger_ok (<[k := a]> l).
Proof. intros Hl Ha j. rewrite get_account_insert. by case_decide. Qed.

Lemma length_repack t d d' :
  token_account_packable t -> pack t d = Ok d' -> length d' = TOKEN_ACCOUNT_LEN.
Proof. intros Ht Hp. by apply (acct_pack_unpack t d d'). Qed.

(** The token program only changes what it owns: what [verify] checks, on the
    whole ledger. *)
Definition guarded (l l' : ledger) : Prop :=
  forall k, data (get_account l k) <> data (get_account l' k) \/
            lamports (get_account l' k) < lamports (get_account l k) ->
  owner (get_account l k) = token_program_id.

(** The labels the steps of an instruction can have. *)
Definition label_for (i : TokenInstruction) (a : label) : Prop :=
  match i, a with
  | (Transfer x | TransferChecked x _), LTransfer _ _ x' => x' = x
  | (Approve _ | Revoke | ApproveChecked _ _), LUpdate _ => True
  | SetAuthority (AtMintTokens | AtFreezeAccount) _, LAuthority _ => True
  | SetAuthority (AtAccountOwner | AtCloseAccount) _, LUpdate _ => True
  | (MintTo x | MintToChecked x _), LMintTo _ _ x' => x' = x
  | (Burn x | BurnChecked x _), LBurn _ _ x' => x' = x
  | CloseAccount, (LDeposit | LClose _) => True
  | FreezeAccount, LFreeze _ => True
  | ThawAccount, LThaw _ => True
  | SyncNative, LSync _ => True
  | InitializeMint _ _ _ _ _, LInitMint _ => True
  | (InitializeAccount | InitializeAccount2 _), LInitAccount _ => True
  | _, _ => False
  end.

Definition simulates (P : label -> Prop) (l l' : ledger) : Prop :=
  ledger_ok l' /\ exists tr, tok_steps tr (abs l) (abs l') /\ Forall P tr.

Lemma simulates_one (P : label -> Prop) a l l' :
  P a -> ledger_ok l' -> tok_step a (abs l) (abs l') -> simulates P l l'.
Proof. intros ? ? ?. split; [done|]. exists [a]. split; [by apply tok_steps_one|by constructor]. Qed.

Lemma simulates_refl (P : label -> Prop) l : ledger_ok l -> simulates P l l.
Proof. intros ?. split; [done|]. exists []. split; constructor. Qed.

(** ** One account written *)

Lemma unpack_packable d t : unpack d = Ok t -> token_account_packable t /\ is_initialized t = true.
Proof.
  intros (Hl & Hu & Hi)%unpack_Ok. split; [|done]. by eapply token_account_unpack_packable.
Qed.

Lemma write_one_unowned l k d :
  guarded l (write_one l k d) -> owner (get_account l k) <> token_program_id ->
  abs (write_one l k d) = abs l.
Proof.
  intros Hg Ho. assert (d = data (get_account l k)) as ->.
  { destruct (decide (data (get_account l k) = d)) as [|Hne]; [done|].
    destruct Ho. apply Hg. left. unfold write_one. by rewrite get_account_insert_eq. }
  assert (set_data (data (get_account l k)) (get_account l k) = get_account l k) as Hid
    by (by destruct (get_account l k)).
  apply abs_same; intros j; unfold write_one; rewrite get_account_insert, Hid;
    case_decide; by subst.
Qed.

Lemma sim_write_acct (P : label -> Prop) a l k t d (t' : TokenAccount) :
  ledger_ok l -> guarded l (write_one l k d) ->
  length (data (get_account l k)) = TOKEN_ACCOUNT_LEN ->
  pack t' (data (get_account l k)) = Ok d ->
  token_account_packable t' -> is_initialized t' = true -> P a ->
  view_acct (get_account l k) = t ->
  (owner (get_account l k) = token_program_id ->
   tok_step a (abs l) (mkTok (<[k := (t', lamports (get_account l k))]> (accts (abs l)))
                         (mints (abs l)))) ->
  simulates P l (write_one l k d).
Proof.
  intros Hl Hg Hlen Hp Ht' Hi HP <- Hstep.
  assert (ledger_ok (write_one l k d)) as Hl'.
  { apply ledger_ok_insert; [done|]. apply account_ok_acct; [apply Hl|].
    by eapply length_repack. }
  destruct (decide (owner (get_account l k) = token_program_id)) as [Ho|Ho].
  - eapply simulates_one; [done..|]. unfold write_one at 1.
    erewrite abs_set_acct; [by apply Hstep|by apply repack_acct|].
    destruct (view_mint _) eqn:E; [|done].
    apply view_mint_Some in E as (_ & m & [Hm _]%unpack_Ok & _). rewrite Hlen in Hm. done.
  - split; [done|]. exists []. rewrite write_one_unowned by done. split; constructor.
Qed.

(** The same for an account that already holds a token account. *)
Lemma sim_rewrite_acct (P : label -> Prop) a l k t d (t' : TokenAccount) :
  ledger_ok l -> guarded l (write_one l k d) ->
  unpack (data (get_account l k)) = Ok t -> pack t' (data (get_account l k)) = Ok d ->
  token_account_packable t' -> is_initialized t' = true -> P a ->
  (accts (abs l) !! k = Some (t, lamports (get_account l k)) ->
   tok_step a (abs l) (mkTok (<[k := (t', lamports (get_account l k))]> (accts (abs l)))
                         (mints (abs l)))) ->
  simulates P l (write_one l k d).
Proof.
  intros Hl Hg Hu Hp Ht' Hi HP Hstep. eapply sim_write_acct; try done.
  - by apply unpack_Ok in Hu as [? _].
  - intros Ho. apply Hstep. rewrite abs_accts. by apply view_acct_Some.
Qed.

Lemma repack_ne d d' t t' :
  unpack d = Ok t -> pack t' d = Ok d' -> token_account_packable t' -> t <> t' -> d <> d'.
Proof.
  intros (Hl & Hu & _)%unpack_Ok Hp Ht' Hne <-.
  destruct (acct_pack_unpack _ _ _ Ht' Hp) as [_ [_ Hu']%unpack_unchecked_Ok]. congruence.
Qed.

Lemma debit_same src auth amt self src' :
  debit_spec src auth amt self src' -> 0 <= amt -> token_account_packable src ->
  same_holding src src' /\ token_account_packable src'.
Proof.
  intros [[_ ->]|(_ & Hd & ->)] Hamt (Ha & (? & ?) & Hn); [done|].
  destruct self; [done|]. split; [done|]. split; [done|]. split; [unfold in_u64; cbn; lia|done].
Qed.

Lemma packable_set_amount x t :
  token_account_packable t -> in_u64 x -> token_account_packable (set_amount x t).
Proof. intros (_ & ? & ?) Hx. done. Qed.

Lemma set_authority_account_same ty na a a' auth :
  set_authority_account ty na a a' auth -> token_account_packable a ->
  same_holding a a' /\ token_account_packable a' /\ is_initialized a' = is_initialized a.
Proof.
  intros Hset (? & ? & ?).
  destruct ty; try done; [destruct Hset as (_ & k & _ & ->)|destruct Hset as (_ & ->)]; [|done].
  by destruct (is_native_b a).
Qed.

Section Simulation.
Context (l : ledger) (Hl : ledger_ok l) (Hinv : tok_inv (abs l)).
Context (accs : list KeyedAccount).
Abbreviation pid := token_program_id.

Lemma sim_approve P amt ed u l' :
  in_u64 amt -> guarded l l' -> (forall k, P (LUpdate k)) ->
  process_approve pid accs amt ed l = Ok (u, l') -> simulates P l l'.
Proof.
  intros Hamt Hg HP (si & oi & dlg & src & d & _ & Hsrc & Hfr & _ & Hp & ->)%process_approve_Ok.
  destruct (unpack_packable _ _ Hsrc) as [(? & ? & ?) ?].
  eapply sim_rewrite_acct; try done. intros Hk. by eapply ts_update.
Qed.

Lemma sim_revoke P u l' :
  guarded l l' -> (forall k, P (LUpdate k)) ->
  process_revoke pid accs l = Ok (u, l') -> simulates P l l'.
Proof.
  intros Hg HP (si & oi & src & d & _ & Hsrc & Hfr & _ & Hp & ->)%process_revoke_Ok.
  destruct (unpack_packable _ _ Hsrc) as [(? & ? & ?) ?].
  eapply sim_rewrite_acct; try done. intros Hk. by eapply ts_update.
Qed.

Lemma sim_sync_native P u l' :
  guarded l l' -> (forall k, P (LSync k)) ->
  process_sync_native pid accs l = Ok (u, l') -> simulates P l l'.
Proof.
  intros Hg HP (ni & t & r & d & _ & _ & Ht & Hn & Ham & Hp & ->)%process_sync_native_Ok.
  destruct (unpack_packable _ _ Ht) as [(Ha & ? & Hr) ?].
  assert (in_u64 (lamports (acct l ni))) as Hlam by apply Hl.
  pose proof (Hr r Hn) as Hr'. unfold in_u64 in *.
  eapply sim_rewrite_acct; try done.
  - split; [|done]. unfold in_u64. cbn. lia.
  - intros Hk. eapply ts_sync; [done..|lia].
Qed.

(** The mint of a token account that is not native is a mint of the ledger. *)
Lemma holder_mint k t lam :
  accts (abs l) !! k = Some (t, lam) -> is_native_b t = false ->
  is_native t = None /\ ta_mint t <> native_mint_id /\
  owner (get_account l (ta_mint t)) = pid /\
  exists m, unpack (data (get_account l (ta_mint t))) = Ok m /\
            mints (abs l) !! ta_mint t = Some (abs_mint m).
Proof.
  intros Hk Hn. destruct (proj1 Hinv _ _ _ Hk) as [_ Hok]. unfold is_native_b in Hn.
  destruct (is_native t); [done|]. destruct Hok as (? & _ & am & Hm).
  rewrite abs_mints in Hm. split; [done|]. split; [done|].
  rewrite abs_mints, Hm. apply view_mint_Some in Hm as (Ho & m & Hm & ->). eauto.
Qed.

Lemma sim_toggle_freeze (P : label -> Prop) (fr : bool) u l' :
  guarded l l' -> (forall k, P (if fr then LFreeze k else LThaw k)) ->
  process_toggle_freeze_account pid accs fr l = Ok (u, l') -> simulates P l l'.
Proof.
  intros Hg HP (si & mi & ai & src & m & d & _ & Hsrc & Hfr & Hn & Hm & Hum & Hfa & Hp & ->)
    %process_toggle_freeze_account_Ok.
  destruct (unpack_packable _ _ Hsrc) as [(? & ? & ?) ?].
  eapply sim_rewrite_acct; try done; [by destruct fr|]. intros Hk.
  destruct (holder_mint _ _ _ Hk Hn) as (Hn' & _ & _ & m' & Hm' & Hms).
  rewrite Hm, Hum in Hm'. injection Hm' as <-. rewrite <- Hm in *.
  destruct fr; [eapply ts_freeze|eapply ts_thaw]; try done; by eexists.
Qed.

(** Both accounts of a transfer belong to the token program. *)
Lemma transfer_owned ks kd ds dd x src dst src' amt :
  guarded l (write_pair l ks kd ds dd x) -> ks <> kd ->
  unpack (data (get_account l ks)) = Ok src -> unpack (data (get_account l kd)) = Ok dst ->
  token_account_packable (set_amount (amount src - amt) src') ->
  token_account_packable (set_amount (amount dst + amt) dst) ->
  pack (set_amount (amount src - amt) src') (data (get_account l ks)) = Ok ds ->
  pack (set_amount (amount dst + amt) dst) (data (get_account l kd)) = Ok dd ->
  amt <> 0 -> owner (get_account l ks) = pid /\ owner (get_account l kd) = pid.
Proof.
  intros Hg Hne Hs Hd Hps Hpd Hds Hdd Hamt. unfold write_pair in Hg. split; apply Hg; left; ga_simpl.
  - eapply repack_ne; [done..|]. intros Heq. apply (f_equal amount) in Heq. cbn in Heq. lia.
  - eapply repack_ne; [done..|]. intros Heq. apply (f_equal amount) in Heq. cbn in Heq. lia.
Qed.

Lemma sim_transfer (P : label -> Prop) amt ed u l' :
  in_u64 amt -> guarded l l' -> (forall k k', P (LTransfer k k' amt)) ->
  process_transfer pid accs amt ed l = Ok (u, l') -> simulates P l l'.
Proof.
  intros [Hamt _] Hg HP (si & di & ai & src & dst & src' & _ & _ & Hs & Hd & Hfs & Hfd & Hle & Hm &
    Hdeb & Hown & [[_ ->]|(Hne & Hov & Hnat & ds & dd & Hds & Hdd & ->)])%process_transfer_Ok.
  { by apply simulates_refl. }
  destruct (unpack_packable _ _ Hs) as [Hps His], (unpack_packable _ _ Hd) as [Hpd Hid].
  destruct (debit_same _ _ _ _ _ Hdeb Hamt Hps) as [Hsame Hps'].
  pose proof (proj1 Hps) as Hra. pose proof (proj1 Hpd) as Hrb. unfold in_u64 in Hra, Hrb.
  assert (token_account_packable (set_amount (amount src - amt) src')) as Hp1
    by (apply packable_set_amount; [done|unfold in_u64; lia]).
  assert (token_account_packable (set_amount (amount dst + amt) dst)) as Hp2
    by (apply packable_set_amount; [done|unfold in_u64; lia]).
  assert (owner (acct l si) = pid /\ owner (acct l di) = pid) as [Hos Hod].
  { destruct (decide (amt = 0)); [by apply Hown; right|]. by eapply transfer_owned. }
  assert (in_u64 (lamports (acct l si)) /\ in_u64 (lamports (acct l di))) as [[] []]
    by (split; apply Hl).
  assert (is_initialized src' = true) as His'.
  { destruct Hsame as (_ & _ & _ & Hst). cbn in *. by rewrite Hst. }
  apply (simulates_one P (LTransfer (unsigned_key si) (unsigned_key di) amt)); [done| |].
  { apply ledger_ok_insert; [apply ledger_ok_insert; [done|]|]; apply account_ok_acct; cbn;
      try (by eapply length_repack; [|eassumption]); unfold in_u64; (destruct (is_native_b src) ; [destruct (Hnat eq_refl)|]; lia). }
  assert (accts (abs l) !! unsigned_key si = Some (src, lamports (acct l si))) as Hks
    by (rewrite abs_accts; by apply view_acct_Some).
  assert (accts (abs l) !! unsigned_key di = Some (dst, lamports (acct l di))) as Hkd
    by (rewrite abs_accts; by apply view_acct_Some).
  pose proof (ts_transfer (abs l) _ _ _ _ src' _ _ amt Hne Hks Hkd Hfs Hfd Hm Hsame
    (conj Hamt Hle) Hov) as Hstep.
  replace (backed src * amt) with (if is_native_b src then amt else 0) in Hstep
    by (unfold backed; destruct (is_native_b src); lia).
  unfold write_pair. erewrite abs_set_acct, abs_set_acct; [exact Hstep|..].
  - rewrite set_data_lamports. apply (repack_acct (set_lamports _ (acct l si))); done.
  - eapply view_acct_no_mint. rewrite <- abs_accts. done.
  - rewrite set_data_lamports. apply (repack_acct (set_lamports _ (acct l di))); done.
  - rewrite get_account_insert_ne by done. eapply view_acct_no_mint. rewrite <- abs_accts. done.
Qed.

(** ** Mints written *)

Lemma view_mint_owned k m :
  owner (get_account l k) = pid -> unpack (data (get_account l k)) = Ok m ->
  mints (abs l) !! k = Some (abs_mint m).
Proof. intros Ho Hm. rewrite abs_mints. apply view_mint_Some. eauto. Qed.

Lemma unpack_mint_range d (m : Mint) :
  unpack d = Ok m -> in_u64 (supply m) /\ in_u8 (decimals m) /\ mint_is_initialized m = true.
Proof.
  intros (Hlen & Hu & Hi)%unpack_Ok. destruct (mint_unpack_range _ _ Hlen Hu). done.
Qed.

(** A mint keeps its lamports when only its data is rewritten. *)
Lemma mint_account_ok k m d (m' : Mint) :
  owner (get_account l k) = pid -> mints (abs l) !! k = Some m ->
  view_mint (set_data d (get_account l k)) = Some (abs_mint m') ->
  account_ok (set_data d (get_account l k)).
Proof.
  intros Ho Hm Hv. destruct (Hl k) as (Hu & _ & Hpos). rewrite abs_mints in Hm.
  eapply account_ok_mint; [done| |done]. apply Hpos. by rewrite Hm.
Qed.

Lemma sim_set_authority_mint (P : label -> Prop) k m (m' : Mint) d :
  guarded l (write_one l k d) -> (forall k, P (LAuthority k)) ->
  unpack (data (get_account l k)) = Ok m -> pack m' (data (get_account l k)) = Ok d ->
  supply m' = supply m -> decimals m' = decimals m -> mint_is_initialized m' = true ->
  (mint_authority m = None -> mint_authority m' = None) ->
  (freeze_authority m = None -> freeze_authority m' = None) ->
  simulates P l (write_one l k d).
Proof.
  intros Hg HP Hm Hp Hs Hdec Hi Hma Hfa.
  destruct (unpack_mint_range _ _ Hm) as (Hs' & Hd' & _). rewrite <- Hs in Hs'. rewrite <- Hdec in Hd'.
  destruct (mint_pack_unpack_norm _ _ _ Hs' Hd' Hp) as [Hlen Hu].
  destruct (decide (owner (get_account l k) = pid)) as [Ho|Ho].
  - pose proof (repack_mint _ _ _ Ho Hp Hs' Hd' Hi) as Hv.
    pose proof (view_mint_owned _ _ Ho Hm) as Hk.
    apply (simulates_one P (LAuthority k)); [done| |].
    + apply ledger_ok_insert; [done|]. by eapply mint_account_ok.
    + unfold write_one. erewrite abs_set_mint; [|done|].
      * by eapply ts_authority.
      * rewrite abs_mints in Hk. by eapply view_mint_no_acct.
  - split.
    + apply ledger_ok_insert; [done|]. destruct (Hl k) as (? & _ & _).
      split; [done|]. split; [done|]. intros [am (? & _)%view_mint_Some]. done.
    + exists []. rewrite write_one_unowned by done. split; constructor.
Qed.

Lemma sim_set_authority (P : label -> Prop) ty na u l' :
  guarded l l' -> (forall a, label_for (SetAuthority ty na) a -> P a) ->
  process_set_authority pid accs ty na l = Ok (u, l') -> simulates P l l'.
Proof.
  intros Hg HP (ai & au & d & _ & -> & [(a & a' & Ha & Hfr & Hset & Hp)|(m & m' & Hm & Hset & Hp)])
    %process_set_authority_Ok.
  - destruct (unpack_packable _ _ Ha) as [Hpa ?].
    destruct (set_authority_account_same _ _ _ _ _ Hset Hpa) as (? & ? & ?).
    apply (sim_rewrite_acct P (LUpdate (unsigned_key ai)) _ _ a _ a'); try done.
    + congruence.
    + apply HP. by destruct ty.
    + intros Hk. by eapply ts_update.
  - destruct (unpack_mint_range _ _ Hm) as (? & ? & ?).
    eapply (sim_set_authority_mint P _ m m'); try done;
      destruct ty; try done; try (destruct Hset as (? & ->); try done; naive_solver);
      intros; by apply HP.
Qed.

(** ** A token account and its mint written together *)

Lemma supply_owned ks km ds dm t t' m s' :
  guarded l (write_pair l ks km ds dm 0) -> ks <> km ->
  unpack (data (get_account l ks)) = Ok t -> unpack (data (get_account l km)) = Ok m ->
  token_account_packable t' -> in_u64 s' ->
  pack t' (data (get_account l ks)) = Ok ds ->
  pack (set_supply s' m) (data (get_account l km)) = Ok dm ->
  amount t <> amount t' -> supply m <> s' ->
  owner (get_account l ks) = pid /\ owner (get_account l km) = pid.
Proof.
  intros Hg Hne Ht Hm Ht' Hs' Hds Hdm Hat Hms. unfold write_pair in Hg.
  split; apply Hg; left; ga_simpl.
  - eapply repack_ne; [done..|]. congruence.
  - destruct (unpack_mint_range _ _ Hm) as (_ & Hd & _).
    destruct (mint_pack_unpack_norm (set_supply s' m) _ _ Hs' Hd Hdm) as [_ Hu].
    intros Heq. rewrite <- Heq in Hu. unfold unpack in Hm. rewrite Hu in Hm. cbn in Hm.
    case_match; [|done]. injection Hm as Hm. apply (f_equal supply) in Hm. cbn in Hm. congruence.
Qed.

Lemma sim_supply (P : label -> Prop) a ks km ds dm t (t' : TokenAccount) m s' :
  P a -> ks <> km -> owner (get_account l ks) = pid -> owner (get_account l km) = pid ->
  unpack (data (get_account l ks)) = Ok t -> unpack (data (get_account l km)) = Ok m ->
  token_account_packable t' -> is_initialized t' = true -> in_u64 s' ->
  pack t' (data (get_account l ks)) = Ok ds ->
  pack (set_supply s' m) (data (get_account l km)) = Ok dm ->
  (accts (abs l) !! ks = Some (t, lamports (get_account l ks)) ->
   mints (abs l) !! km = Some (abs_mint m) ->
   tok_step a (abs l)
     (mkTok (<[ks := (t', lamports (get_account l ks))]> (accts (abs l)))
            (<[km := abs_mint (set_supply s' m)]> (mints (abs l))))) ->
  simulates P l (write_pair l ks km ds dm 0).
Proof.
  intros HP Hne Hos Hom Ht Hm Ht' Hi Hs' Hds Hdm Hstep.
  destruct (unpack_mint_range _ _ Hm) as (_ & Hd & Hmi).
  pose proof (repack_mint _ _ _ Hom Hdm Hs' Hd Hmi) as Hvm.
  pose proof (repack_acct _ _ _ Hos Hds Ht' Hi) as Hva.
  assert (accts (abs l) !! ks = Some (t, lamports (get_account l ks))) as Hks
    by (rewrite abs_accts; by apply view_acct_Some).
  pose proof (view_mint_owned _ _ Hom Hm) as Hkm.
  unfold write_pair. rewrite Z.add_0_r, Z.sub_0_r, !set_lamports_id.
  apply (simulates_one P a); [done| |].
  - apply ledger_ok_insert; [apply ledger_ok_insert; [done|]|].
    + apply account_ok_acct; [apply Hl|]. by eapply length_repack.
    + by eapply mint_account_ok.
  - erewrite abs_set_mint, abs_set_acct; [by apply Hstep|done|..|done|].
    + rewrite abs_accts in Hks. by eapply view_acct_no_mint.
    + rewrite get_account_insert_ne by done. rewrite abs_mints in Hkm.
      by eapply view_mint_no_acct.
Qed.

Lemma sim_mint_to (P : label -> Prop) amt ed u l' :
  in_u64 amt -> guarded l l' -> (forall k k', P (LMintTo k k' amt)) ->
  process_mint_to pid accs amt ed l = Ok (u, l') -> simulates P l l'.
Proof.
  intros [Hamt _] Hg HP (mi & di & oi & dst & m & dd & dm & _ & _ & Hne & Hd & Hm & Hfr & Hn &
    Hmint & Hauth & Hown & Hov & Hovm & Hdd & Hdm & ->)%process_mint_to_Ok.
  destruct (unpack_packable _ _ Hd) as [Hpd Hi], (unpack_mint_range _ _ Hm) as ((? & ?) & _ & _).
  pose proof (proj1 Hpd) as Hrb. unfold in_u64 in Hrb.
  assert (token_account_packable (set_amount (amount dst + amt) dst)) as Hp
    by (apply packable_set_amount; [done|unfold in_u64; lia]).
  assert (in_u64 (supply m + amt)) as Hs by (unfold in_u64; lia).
  assert (owner (acct l di) = pid /\ owner (acct l mi) = pid) as [Hod Hom].
  { destruct (decide (amt = 0)); [by apply and_comm, Hown|].
    eapply supply_owned; try done; cbn; lia. }
  eapply (sim_supply P (LMintTo (unsigned_key mi) (unsigned_key di) amt)); try done.
  intros Hk Hkm. eapply (ts_mint_to _ _ _ dst _ (abs_mint m));
    try done. by unfold is_native_b in Hn; destruct (is_native dst).
Qed.

Lemma sim_burn (P : label -> Prop) amt ed u l' :
  in_u64 amt -> guarded l l' -> (forall k k', P (LBurn k k' amt)) ->
  process_burn pid accs amt ed l = Ok (u, l') -> simulates P l l'.
Proof.
  intros [Hamt _] Hg HP (si & mi & ai & src & m & src' & ds & dm & _ & _ & Hne & Hs & Hm & Hfr & Hn &
    Hmint & Hle & Hlem & Hdeb & Hown & Hds & Hdm & ->)%process_burn_Ok.
  destruct (unpack_packable _ _ Hs) as [Hps Hi], (unpack_mint_range _ _ Hm) as ((? & ?) & _ & _).
  destruct (debit_same _ _ _ _ _ Hdeb Hamt Hps) as [Hsame Hps'].
  pose proof (proj1 Hps) as Hra. unfold in_u64 in Hra.
  assert (token_account_packable (set_amount (amount src - amt) src')) as Hp
    by (apply packable_set_amount; [done|unfold in_u64; lia]).
  assert (in_u64 (supply m - amt)) as Hss by (unfold in_u64; lia).
  assert (owner (acct l si) = pid /\ owner (acct l mi) = pid) as [Hos Hom].
  { destruct (decide (amt = 0)); [by apply Hown|]. eapply supply_owned; try done; cbn; lia. }
  assert (is_initialized src' = true) as His'.
  { destruct Hsame as (_ & _ & _ & Hst). cbn in *. by rewrite Hst. }
  eapply (sim_supply P (LBurn (unsigned_key si) (unsigned_key mi) amt)); try done.
  intros Hk Hkm. eapply (ts_burn _ _ _ src _ src' (abs_mint m)); try done. by unfold is_native_b in Hn; destruct (is_native src).
Qed.

(** ** Closing an account *)

Lemma view_lamports x a :
  view_acct (set_lamports x a) = (fun e => (e.1, x)) <$> view_acct a /\
  view_mint (set_lamports x a) = view_mint a.
Proof.
  unfold view_acct, view_mint. cbn. case_decide; [|done].
  by destruct (ok_to_option (unpack (data a))).
Qed.

Lemma account_ok_deposit x a :
  account_ok a -> lamports a <= x <= u64_max -> account_ok (set_lamports x a).
Proof.
  intros ([? ?] & Hc & Hpos) Hx. split; [unfold in_u64; cbn; lia|]. split; [done|].
  rewrite (proj2 (view_lamports x a)). intros Hv. apply Hpos in Hv. cbn. lia.
Qed.

Lemma abs_deposit k x :
  lamports (get_account l k) <= x ->
  tok_step LDeposit (abs l) (abs (<[k := set_lamports x (get_account l k)]> l)).
Proof.
  intros Hx. apply ts_deposit.
  - apply map_eq. intros j. rewrite !abs_mints, get_account_insert. case_decide; [|done].
    subst j. apply view_lamports.
  - intros j. rewrite !abs_accts, get_account_insert. case_decide.
    + subst j. rewrite (proj1 (view_lamports x _)).
      destruct (view_acct _) as [[t lam]|] eqn:E; constructor.
      apply view_acct_Some in E as (_ & _ & ->). done.
    + destruct (view_acct _); by constructor.
Qed.

Lemma view_closed a :
  data a = replicate TOKEN_ACCOUNT_LEN x00 -> view_acct a = None /\ view_mint a = None.
Proof.
  intros Hd. unfold view_acct, view_mint. rewrite Hd. case_decide; [|done]. by vm_compute.
Qed.

Lemma unpack_not_closed t :
  unpack (replicate TOKEN_ACCOUNT_LEN x00) = Ok (t : TokenAccount) -> False.
Proof. by vm_compute. Qed.

Lemma sim_close_account (P : label -> Prop) u l' :
  guarded l l' -> P LDeposit -> (forall k, P (LClose k)) ->
  process_close_account pid accs l = Ok (u, l') -> simulates P l l'.
Proof.
  intros Hg HP1 HP2 (si & di & ai & src & _ & _ & Hne & Hs & Hz & _ & Hov & ->)
    %process_close_account_Ok.
  assert (owner (acct l si) = pid) as Ho.
  { apply Hg. left. rewrite get_account_insert_eq. cbn. intros Heq. rewrite Heq in Hs.
    by apply unpack_not_closed in Hs. }
  destruct (Hl (unsigned_key si)) as ([? ?] & _). destruct (Hl (unsigned_key di)) as ([? ?] & _).
  set (x := lamports (acct l di) + lamports (acct l si)) in *.
  set (l1 := <[unsigned_key di := set_lamports x (acct l di)]> l).
  destruct (view_closed (set_data (replicate TOKEN_ACCOUNT_LEN x00)
    (set_lamports 0 (acct l si))) eq_refl) as [Hca Hcm].
  split.
  { apply ledger_ok_insert; [apply ledger_ok_insert; [done|]|].
    - apply account_ok_deposit; [apply Hl|lia].
    - apply account_ok_acct; [done|done]. }
  exists [LDeposit; LClose (unsigned_key si)]. split; [|by repeat constructor].
  econstructor; [apply (abs_deposit (unsigned_key di) x); lia|]. apply tok_steps_one.
  assert (accts (abs l1) !! unsigned_key si = Some (src, lamports (acct l si))) as Hk.
  { rewrite abs_accts. unfold l1. rewrite get_account_insert_ne by congruence.
    by apply view_acct_Some. }
  fold l1. erewrite abs_unset; [by eapply ts_close|done|done|].
  eapply view_acct_no_mint. by rewrite <- abs_accts, Hk.
Qed.

(** ** Initialization *)

Lemma sim_initialize_mint (P : label -> Prop) nm sym dec auth fr u l' :
  in_u8 dec -> guarded l l' -> (forall k, P (LInitMint k)) ->
  process_initialize_mint accs nm sym dec auth fr l = Ok (u, l') -> simulates P l l'.
Proof.
  intros Hdec Hg HP (mi & m & d & _ & Hm & Hi & Hex & Hp & ->)%process_initialize_mint_Ok.
  pose proof Hm as [Hlen Hm']%unpack_unchecked_Ok.
  destruct (mint_unpack_range _ _ Hlen Hm') as [Hs _].
  destruct (mint_pack_unpack_norm (mkMint (Some auth) nm sym (supply m) dec true fr) _ _ Hs Hdec Hp)
    as [_ Hu].
  assert (owner (acct l mi) = pid) as Ho.
  { apply Hg. left. unfold write_one. rewrite get_account_insert_eq. cbn. intros <-.
    rewrite Hm in Hu. injection Hu as Hu. by rewrite Hu in Hi. }
  destruct (Hl (unsigned_key mi)) as (Hlam & Hclean & _).
  pose proof (repack_mint _ (mkMint (Some auth) nm sym (supply m) dec true fr) _
    Ho Hp Hs Hdec eq_refl) as Hv.
  assert (view_acct (acct l mi) = None) as Hna.
  { destruct (view_acct (acct l mi)) as [[]|] eqn:E; [|done].
    apply view_acct_Some in E as (_ & [Hl2 _]%unpack_Ok & _). rewrite Hlen in Hl2. done. }
  apply (simulates_one P (LInitMint (unsigned_key mi))); [done| |].
  - apply ledger_ok_insert; [done|]. eapply account_ok_mint; [done| |done]. cbn.
    eapply Z.lt_le_trans; [|exact Hex]. by vm_compute.
  - unfold write_one. erewrite abs_set_mint by done. apply ts_init_mint.
    + rewrite abs_mints. destruct (view_mint (acct l mi)) eqn:E; [|done].
      apply view_mint_Some in E as (_ & m' & Hm2 & _). unfold unpack in Hm2.
      rewrite Hm in Hm2. cbn in Hm2. by rewrite Hi in Hm2.
    + cbn. by apply (Hclean Ho).
Qed.

Lemma sim_initialize_account (P : label -> Prop) ow u l' :
  guarded l l' -> (forall k, P (LInitAccount k)) ->
  process_initialize_account_aux pid accs ow l = Ok (u, l') -> simulates P l l'.
Proof.
  intros Hg HP (ni & mi & k & t & native & amt & d & _ & Ht & Hst & Hex & Hmint & Hp & ->)
    %process_initialize_account_Ok.
  pose proof Ht as [Hlen Hu]%unpack_unchecked_Ok.
  assert (in_u64 (lamports (acct l ni))) as Hlam by apply Hl.
  assert (0 < minimum_balance rent_default TOKEN_ACCOUNT_LEN <= u64_max) as Hmin by done.
  set (r0 := minimum_balance rent_default TOKEN_ACCOUNT_LEN) in *. unfold in_u64 in Hlam.
  set (t' := mkTokenAccount (unsigned_key mi) k amt None Initialized native 0 (close_authority t)) in *.
  assert (token_account_packable t') as Ht'.
  { split_and!; unfold in_u64; cbn; try (unfold u64_max; lia).
    all: case_decide; [destruct Hmint as (? & -> & -> & -> & ?)|destruct Hmint as (-> & -> & _)].
    all: intros; simplify_eq; unfold in_u64, u64_max in *; lia. }
  eapply (sim_write_acct P (LInitAccount (unsigned_key ni)) _ _ _ _ t'); try done.
  intros Ho. apply ts_init_account.
  - rewrite abs_accts. destruct (view_acct (acct l ni)) as [[t1 ?]|] eqn:E; [|done].
    apply view_acct_Some in E as (_ & (_ & Hu' & Hi)%unpack_Ok & _). rewrite Hu in Hu'.
    injection Hu' as <-. cbn in Hi. rewrite Hst in Hi. done.
  - done.
  - exact (proj1 Ht').
  - cbn. case_decide as Hn.
    + destruct Hmint as (? & -> & -> & -> & ?). split_and!; [done|lia..].
    + destruct Hmint as (-> & -> & Hom & m & Hm). split_and!; [done|lia|done|].
      exists (abs_mint m). by apply view_mint_owned.
Qed.

Lemma length_store_signers i infos signers signers' :
  store_signers i infos signers = Ok signers' -> length signers' = length signers.
Proof.
  revert i signers. induction infos as [|info infos IH]; cbn; intros i signers H; [congruence|].
  case_match; [|done]. apply IH in H. by rewrite length_insert in H.
Qed.

Lemma multisig_unpack_signers d ms :
  unpack_unchecked d = Ok ms -> length (ms_signers ms) = MAX_SIGNERS.
Proof.
  intros [_ Hu]%unpack_unchecked_Ok. cbn in Hu. unfold multisig_unpack_from_slice in Hu.
  repeat case_match; run_inv; try done.
Qed.

Lemma sim_initialize_multisig (P : label -> Prop) m u l' :
  in_u8 m -> process_initialize_multisig accs m l = Ok (u, l') -> simulates P l l'.
Proof.
  intros Hm (mi & ms & signers & d & _ & Hms & _ & Hst & Hp & ->)%process_initialize_multisig_Ok.
  pose proof (multisig_unpack_signers _ _ Hms) as Hsig.
  apply length_store_signers in Hst. rewrite Hsig in Hst.
  assert (multisig_packable (mkMultisig m (as_u8 (Z.of_nat (length (tail accs)))) true signers))
    as Hpk.
  { split; [done|]. split; [|done]. unfold in_u8, as_u8, u8_max. cbn.
    pose proof (Z.mod_pos_bound (Z.of_nat (length (tail accs))) 256). lia. }
  apply unpack_unchecked_Ok in Hms as [Hlen _].
  pose proof (multisig_pack_length _ _ _ Hpk Hp) as Hlen'.
  assert (forall a, length (data a) = MULTISIG_LEN -> view_acct a = None /\ view_mint a = None)
    as Hview.
  { intros a Ha. split.
    - destruct (view_acct a) as [[]|] eqn:E; [|done].
      apply view_acct_Some in E as (_ & [Hl2 _]%unpack_Ok & _). by rewrite Ha in Hl2.
    - destruct (view_mint a) eqn:E; [|done].
      apply view_mint_Some in E as (_ & ? & [Hl2 _]%unpack_Ok & _). by rewrite Ha in Hl2. }
  destruct (Hview _ Hlen) as [Ha Hmi].
  destruct (Hview (set_data d (acct l mi)) Hlen') as [Ha' Hmi'].
  split.
  - apply ledger_ok_insert; [done|]. destruct (Hl (unsigned_key mi)) as (? & _ & _).
    split; [done|]. split; [|rewrite Hmi'; by intros []].
    intros _ m' [Hl2 _]%unpack_unchecked_Ok. cbn in Hl2. rewrite Hlen' in Hl2. done.
  - exists []. split; [|constructor]. erewrite abs_same; [constructor|..].
    all: intros k; unfold write_one; rewrite get_account_insert; case_decide; [subst k|done].
    all: congruence.
Qed.
End Simulation.

(** ** The whole program *)

(** The ranges the instruction's types give its fields. *)
Definition instr_ok (i : TokenInstruction) : Prop :=
  match i with
  | InitializeMint _ _ dec _ _ => in_u8 dec
  | InitializeMultisig m => in_u8 m
  | Transfer x | Approve x | MintTo x | Burn x => in_u64 x
  | TransferChecked x dec | ApproveChecked x dec | MintToChecked x dec | BurnChecked x dec =>
      in_u64 x /\ in_u8 dec
  | _ => True
  end.

Lemma sim_dispatch l l' accs i u :
  ledger_ok l -> tok_inv (abs l) -> guarded l l' -> instr_ok i ->
  dispatch token_program_id accs i l = Ok (u, l') -> simulates (label_for i) l l'.
Proof.
  intros Hl Hinv Hg Hi H. destruct i; cbn [dispatch instr_ok] in *;
    unfold process_initialize_account, process_initialize_account2 in H.
  - by eapply sim_initialize_mint.
  - by eapply sim_initialize_account.
  - by eapply sim_initialize_multisig.
  - by eapply sim_transfer.
  - by eapply sim_approve.
  - by eapply sim_revoke.
  - by eapply sim_set_authority.
  - by eapply sim_mint_to.
  - by eapply sim_burn.
  - by eapply sim_close_account.
  - by eapply (sim_toggle_freeze l Hl Hinv accs _ true).
  - by eapply (sim_toggle_freeze l Hl Hinv accs _ false).
  - destruct Hi. by eapply sim_transfer.
  - destruct Hi. by eapply sim_approve.
  - destruct Hi. by eapply sim_mint_to.
  - destruct Hi. by eapply sim_burn.
  - by eapply sim_initialize_account.
  - by eapply sim_sync_native.
Qed.

(** A handler writes only accounts it was given. *)
Lemma dispatch_frame pid accs i l u l' k :
  dispatch pid accs i l = Ok (u, l') -> (forall ka, ka ∈ accs -> unsigned_key ka <> k) ->
  l' !! k = l !! k.
Proof.
  intros H Hk. destruct i; cbn [dispatch] in H.
  all: unfold process_initialize_account, process_initialize_account2 in H.
  all: lazymatch type of H with
    | process_initialize_mint _ _ _ _ _ _ _ = _ =>
        apply process_initialize_mint_Ok in H as (? & ? & ? & ? & ? & ? & ? & ? & ->)
    | process_initialize_account_aux _ _ _ _ = _ =>
        apply process_initialize_account_Ok in H
          as (? & ? & ? & ? & ? & ? & ? & ? & ? & ? & ? & ? & ? & ->)
    | process_initialize_multisig _ _ _ = _ =>
        apply process_initialize_multisig_Ok in H as (? & ? & ? & ? & Hhd & ? & ? & ? & ? & ->)
    | process_transfer _ _ _ _ _ = _ =>
        apply process_transfer_Ok in H as (? & ? & ? & ? & ? & ? & ? & ? & ? & ? & ? & ? & ? & ? &
          ? & ? & [[_ ->]|(? & ? & ? & ? & ? & ? & ? & ->)]); [done|]
    | process_approve _ _ _ _ _ = _ =>
        apply process_approve_Ok in H as (? & ? & ? & ? & ? & ? & ? & ? & ? & ? & ->)
    | process_revoke _ _ _ = _ =>
        apply process_revoke_Ok in H as (? & ? & ? & ? & ? & ? & ? & ? & ? & ->)
    | process_set_authority _ _ _ _ _ = _ =>
        apply process_set_authority_Ok in H as (? & ? & ? & ? & -> & _)
    | process_mint_to _ _ _ _ _ = _ =>
        apply process_mint_to_Ok in H as (? & ? & ? & ? & ? & ? & ? & ? & ? & ? & ? & ? & ? & ? &
          ? & ? & ? & ? & ? & ? & ? & ->)
    | process_burn _ _ _ _ _ = _ =>
        apply process_burn_Ok in H as (? & ? & ? & ? & ? & ? & ? & ? & ? & ? & ? & ? & ? & ? & ? &
          ? & ? & ? & ? & ? & ? & ? & ->)
    | process_close_account _ _ _ = _ =>
        apply process_close_account_Ok in H as (? & ? & ? & ? & ? & ? & ? & ? & ? & ? & ? & ->)
    | process_toggle_freeze_account _ _ _ _ = _ =>
        apply process_toggle_freeze_account_Ok in H
          as (? & ? & ? & ? & ? & ? & ? & ? & ? & ? & ? & ? & ? & ? & ->)
    | process_sync_native _ _ _ = _ =>
        apply process_sync_native_Ok in H as (? & ? & ? & ? & ? & ? & ? & ? & ? & ? & ->)
    end.
  all: unfold write_one, write_pair; rewrite ?lookup_insert_ne; try done; try by apply Hk.
  destruct accs; [done|]. injection Hhd as ->. apply Hk. by constructor.
Qed.

(** ** Other programs *)

Lemma view_zeroed a n :
  data a = replicate n x00 -> view_acct a = None /\ view_mint a = None.
Proof.
  intros Hd. split.
  - destruct (view_acct a) as [[t ?]|] eqn:E; [|done].
    apply view_acct_Some in E as (_ & Hu & _). pose proof Hu as [Hl _]%unpack_Ok.
    rewrite Hd, length_replicate in Hl. rewrite Hd, Hl in Hu. by vm_compute in Hu.
  - destruct (view_mint a) as [m|] eqn:E; [|done].
    apply view_mint_Some in E as (_ & m' & Hu & _). pose proof Hu as [Hl _]%unpack_Ok.
    rewrite Hd, length_replicate in Hl. rewrite Hd, Hl in Hu. by vm_compute in Hu.
Qed.

Lemma mint_zeroed n m : unpack_unchecked (replicate n x00) = Ok m -> supply m = 0.
Proof.
  intros Hu. pose proof Hu as [Hl _]%unpack_unchecked_Ok. rewrite length_replicate in Hl.
  rewrite Hl in Hu. vm_compute in Hu. by injection Hu as <-.
Qed.

(** What another program can do to an account of the token program: send it
    lamports, or create it empty. *)
Lemma foreign_change pid w rent ra pre post :
  pid <> token_program_id -> change_allowed pid w rent ra pre post ->
  option_Forall2 deposited (view_acct pre) (view_acct post) /\ view_mint post = view_mint pre /\
  (account_ok pre -> in_u64 (lamports post) -> account_ok post).
Proof.
  intros Hpid Hc. destruct (decide (owner pre = token_program_id)) as [Ho|Ho].
  - assert (owner post = owner pre) as Ho'.
    { destruct (decide (owner pre = owner post)) as [|Hne]; [done|].
      apply (ca_owner _ _ _ _ _ _ Hc) in Hne as (_ & _ & ? & _). congruence. }
    assert (data post = data pre) as Hd.
    { destruct (decide (data pre = data post)) as [|Hne]; [done|].
      apply (ca_data _ _ _ _ _ _ Hc) in Hne as (? & _). congruence. }
    pose proof (ca_spend _ _ _ _ _ _ Hc) as Hlam. rewrite Ho in Hlam. specialize (Hlam Hpid).
    assert (view_mint post = view_mint pre) as Hvm by (unfold view_mint; by rewrite Ho', Hd).
    split_and!; [|done|].
    + unfold view_acct. rewrite Ho', Hd. case_decide; [|done].
      destruct (ok_to_option _); cbn; by constructor.
    + intros (_ & Hcl & Hpos) Hu. split; [done|]. rewrite Ho', Hd. split; [done|].
      rewrite Hvm. intros ?%Hpos. lia.
  - assert (view_acct pre = None /\ view_mint pre = None) as [-> ->]
      by (unfold view_acct, view_mint; by rewrite !decide_False by done).
    destruct (decide (owner post = token_program_id)) as [Ho'|Ho'].
    + assert (owner pre <> owner post) as Hne by congruence.
      apply (ca_owner _ _ _ _ _ _ Hc) in Hne as (_ & _ & _ & Hz).
      destruct (view_zeroed _ _ Hz) as [-> Hm]. split_and!; [constructor|done|].
      intros _ Hu. split; [done|]. split; [|rewrite Hm; by intros []].
      intros _ m Hum _. rewrite Hz in Hum. by eapply mint_zeroed.
    + assert (view_acct post = None /\ view_mint post = None) as [-> Hm]
        by (unfold view_acct, view_mint; by rewrite !decide_False by done).
      split_and!; [constructor|done|]. intros _ Hu. split; [done|]. split; [done|].
      rewrite Hm. by intros [].
Qed.

Lemma sim_foreign l l' :
  ledger_ok l -> (forall k, in_u64 (lamports (get_account l' k))) ->
  (forall k, get_account l' k = get_account l k \/
     exists pid w rent ra, pid <> token_program_id /\
       change_allowed pid w rent ra (get_account l k) (get_account l' k)) ->
  simulates (eq LDeposit) l l'.
Proof.
  intros Hl Hu Hch.
  assert (forall k, option_Forall2 deposited (view_acct (get_account l k))
                      (view_acct (get_account l' k)) /\
    view_mint (get_account l' k) = view_mint (get_account l k) /\
    account_ok (get_account l' k)) as Hall.
  { intros k. destruct (Hch k) as [->|(pid & w & rent & ra & Hpid & Hc)].
    - split_and!; [|done|done]. destruct (view_acct _); by constructor.
    - destruct (foreign_change _ _ _ _ _ _ Hpid Hc) as (? & ? & Hok). auto. }
  apply (simulates_one _ LDeposit); [done|intros k; apply Hall|]. apply ts_deposit.
  - apply map_eq. intros k. rewrite !abs_mints. apply Hall.
  - intros k. rewrite !abs_accts. apply Hall.
Qed.
