(* ===== verification/TokenSafety.v ===== *)
(** * Safety of the token program on the ledger

    Transactions run by [MessageProcessor::process_message] on a bank whose
    builtins include the token program: the refinement of TokenRefine.v lifted
    to messages and to histories of the ledger, and what follows from it. *)

From Stdlib Require Import ZArith Lia.
From Stdlib Require Import Strings.Byte.
From stdpp Require Import prelude gmap list numbers relations.
From S2P Require Import Prelude Sdk Utf8 Runtime TokenState TokenInstruction.
From S2P Require Import TokenProcessor TokenFacts TokenSpec TokenRefine.
From S2P Require Import SystemInstruction SystemProgram SystemFacts.

(** ** The bank *)

(** Balances are [u64]: a program leaves them in range. *)
Definition balances_ok (l : ledger) : Prop := forall k, in_u64 (lamports (get_account l k)).
Definition typed (f : builtin) : Prop :=
  forall n d kas l u l', f n d kas l = Ok (u, l') -> balances_ok l -> balances_ok l'.

(** The builtins of a bank with the token program: the others write only the
    accounts they are given, and the native loader is not a program. *)
Class Bank (deserialize : bytes -> option TokenInstruction) (ic : InvokeContext builtin) : Prop := {
  bank_deserialize : forall d i, deserialize d = Some i -> instr_ok i;
  bank_token : find_builtin token_program_id (ic_builtin_programs ic) = Some (process deserialize);
  bank_loader : find_builtin native_loader_id (ic_builtin_programs ic) = None;
  bank_other : forall k f, k <> token_program_id ->
    find_builtin k (ic_builtin_programs ic) = Some f -> confined f /\ typed f;
}.

(** The system program keeps the promises of [bank_other]. *)
Lemma system_builtin_ok hashv
    `{Bincode NonceVersions, Bincode (list (Hash * Z)), Bincode Rent} env des :
  (forall d i, des d = Some i -> sys_instr_ok i) ->
  confined (System.process_instruction hashv env des) /\
  typed (System.process_instruction hashv env des).
Proof.
  intros Hdes. split.
  - intros n d kas l u l' (i & Hi & He)%system_process_Ok k Hk.
    destruct (execute_evolves _ _ _ _ _ _ _ _ (Hdes _ _ Hi) He k) as [|[(ka & Hka & Hk') _]];
      [done|]. by destruct (Hk ka Hka).
  - intros n d kas l u l' (i & Hi & He)%system_process_Ok Hl k.
    eapply execute_balances; [by eapply Hdes|exact He|apply Hl].
Qed.

(** A message with its accounts and programs loaded. *)
Record loaded (msg : Message) (keys : list Pubkey) (program_indices : list (list nat))
    (l : ledger) : Prop := {
  loaded_keys : exists programs, keys = account_keys msg ++ programs;
  loaded_programs : forall ix pis, (ix, pis) ∈ zip (instructions msg) program_indices ->
    exists pid, native_program msg keys l ix pis pid;
  loaded_sysvar : owner (get_account l instructions_sysvar_id) <> token_program_id;
}.

Section Builtin.
Context (deserialize : bytes -> option TokenInstruction).

Lemma process_Ok n d kas l u l' :
  process deserialize n d kas l = Ok (u, l') ->
  exists ka i, kas !! 0%nat = Some ka /\ deserialize d = Some i /\
    dispatch (unsigned_key ka) (drop n kas) i l = Ok (u, l').
Proof.
  intros H. unfold process, keyed_account_at_index in H. run_inv. case_match; run_inv. eauto.
Qed.

Lemma token_confined : confined (process deserialize).
Proof.
  intros n d kas l u l' (ka & i & _ & _ & H)%process_Ok k Hk. by eapply dispatch_frame.
Qed.

(** The labels of the steps an instruction of program [pid] can make. *)
Definition step_label (pid : Pubkey) (d : bytes) (a : label) : Prop :=
  a = LDeposit \/
  (pid = token_program_id /\ exists i, deserialize d = Some i /\ label_for i a).

(** Every account is as before or was changed as the rules allow program [pid]. *)
Definition verified_change (pid : Pubkey) (rent : Rent) (realloc : bool) (l l' : ledger) : Prop :=
  forall k, get_account l' k = get_account l k \/
  exists w, change_allowed pid w rent realloc (get_account l k) (get_account l' k).

Lemma verified_guarded rent realloc l l' :
  verified_change token_program_id rent realloc l l' -> guarded l l'.
Proof.
  intros Hv k Hk. destruct (Hv k) as [Heq|(w & Hc)].
  - rewrite Heq in Hk. destruct Hk; [done|lia].
  - destruct (decide (token_program_id = owner (get_account l k))) as [|Ho]; [done|].
    destruct Hk as [Hd|Hd].
    + symmetry. exact (proj1 (ca_data _ _ _ _ _ _ Hc Hd)).
    + apply (ca_spend _ _ _ _ _ _ Hc) in Ho. lia.
Qed.

(** A run of the token program whose changes were verified is a sequence of abstract steps. *)
Lemma token_sim rent realloc d kas u l l' :
  (forall d i, deserialize d = Some i -> instr_ok i) ->
  process deserialize 1%nat d (mkKeyed false false token_program_id :: kas) l = Ok (u, l') ->
  verified_change token_program_id rent realloc l l' -> ledger_ok l -> tok_inv (abs l) ->
  simulates (step_label token_program_id d) l l'.
Proof.
  intros Hdes Hexec Hv Hl Hinv.
  apply process_Ok in Hexec as (ka & instr & [= <-] & Hi & Hexec). cbn [unsigned_key] in Hexec.
  destruct (sim_dispatch l l' kas instr u) as (? & tr & ? & Htr);
    [done|done|by eapply verified_guarded|by eapply Hdes|exact Hexec|].
  split; [done|]. exists tr. split; [done|]. eapply Forall_impl; [exact Htr|].
  intros a Ha. right. eauto.
Qed.

(** The verified changes of another program are deposits. *)
Lemma foreign_sim pid rent realloc d l l' :
  pid <> token_program_id -> balances_ok l' -> verified_change pid rent realloc l l' ->
  ledger_ok l -> simulates (step_label pid d) l l'.
Proof.
  intros Hpid Hb Hv Hl. destruct (sim_foreign l l') as (? & tr & ? & Htr); [done|done|..].
  - intros k. destruct (Hv k) as [|(w & ?)]; [by left|right]. eauto 10.
  - split; [done|]. exists tr. split; [done|]. eapply Forall_impl; [exact Htr|]. by left.
Qed.
End Builtin.

Section Bank.
Context (deserialize : bytes -> option TokenInstruction) (ic : InvokeContext builtin).
Context `{Hbank : !Bank deserialize ic}.

Lemma bank_confined : ic_confined ic.
Proof.
  intros k f Hf. destruct (decide (k = token_program_id)) as [->|Hk].
  - rewrite bank_token in Hf. injection Hf as <-. apply token_confined.
  - by eapply bank_other.
Qed.

Section Instruction.
Context (msg : Message) (keys : list Pubkey) (l l' : ledger) (ix : CompiledInstruction).
Context (pis : list nat) (meter meter' : AccountsDataMeter) (pid : Pubkey).
Context (Hrun : process_instruction ic msg keys ix pis l meter = Ok (l', meter')).
Context (Hnat : native_program msg keys l ix pis pid).

Lemma instruction_sim :
  ledger_ok l -> tok_inv (abs l) -> simulates (step_label deserialize pid (ci_data ix)) l l'.
Proof.
  destruct (process_instruction_Ok _ _ _ _ _ _ _ _ _ _ Hrun Hnat)
    as (f & kas & u & Hf & Hexec & _).
  assert (verified_change pid (ic_rent ic) (ic_do_support_realloc ic) l l') as Hv.
  { intros k. destruct (instruction_change _ bank_confined _ _ _ _ _ _ _ _ _ Hrun Hnat k)
      as [|(i & _ & ?)]; eauto. }
  intros Hl Hinv. destruct (decide (pid = token_program_id)) as [->|Hpid].
  - rewrite bank_token in Hf. injection Hf as <-. eapply token_sim; try done. apply bank_deserialize.
  - eapply foreign_sim; try done. apply (proj2 (bank_other _ _ Hpid Hf) _ _ _ _ _ _ Hexec).
    intros k. apply Hl.
Qed.

Lemma instruction_sysvar :
  (exists programs, keys = account_keys msg ++ programs) ->
  owner (get_account l' instructions_sysvar_id) = owner (get_account l instructions_sysvar_id).
Proof.
  intros [programs Hkeys]. destruct (instruction_change _ bank_confined _ _ _ _ _ _ _ _ _ Hrun Hnat instructions_sysvar_id) as [->|(i & Hi & Hc)]; [done|].
  destruct (decide (owner (get_account l instructions_sysvar_id) =
    owner (get_account l' instructions_sysvar_id))) as [|Hne]; [done|].
  apply (ca_owner _ _ _ _ _ _ Hc) in Hne as (Hw & _). unfold msg_is_writable in Hw.
  destruct (account_keys msg !! i) as [k|] eqn:Hk; [|by rewrite andb_false_r in Hw].
  rewrite Hkeys in Hi. rewrite (lookup_app_l_Some _ _ _ _ Hk) in Hi. injection Hi as ->.
  rewrite bool_decide_eq_true_2 in Hw.
  - cbn in Hw. by rewrite andb_false_r in Hw.
  - do 9 apply list_elem_of_further. apply list_elem_of_here.
Qed.
End Instruction.

(** ** Messages *)

Definition message_label (msg : Message) (a : label) : Prop :=
  exists ix pid, ix ∈ instructions msg /\ account_keys msg !! program_id_index ix = Some pid /\
    step_label deserialize pid (ci_data ix) a.

Lemma simulates_trans (P : label -> Prop) l1 l2 l3 :
  simulates P l1 l2 -> simulates P l2 l3 -> simulates P l1 l3.
Proof.
  intros (_ & tr1 & H1 & Hp1) (? & tr2 & H2 & Hp2). split; [done|]. exists (tr1 ++ tr2).
  split; [by eapply tok_steps_app|]. by apply Forall_app.
Qed.

Lemma simulates_inv (P : label -> Prop) l l' :
  simulates P l l' -> tok_inv (abs l) -> tok_inv (abs l').
Proof.
  intros (_ & tr & H & _) Hinv. by eapply tok_inv_steps.
Qed.

Lemma simulates_weaken (P Q : label -> Prop) l l' :
  (forall a, P a -> Q a) -> simulates P l l' -> simulates Q l l'.
Proof.
  intros HPQ (? & tr & ? & Htr). split; [done|]. exists tr. split; [done|].
  by eapply Forall_impl.
Qed.

Lemma fixup_sim P msg keys index l l1 :
  fixup_instructions_sysvar msg keys index l = Ok l1 -> ledger_ok l ->
  owner (get_account l instructions_sysvar_id) <> token_program_id -> simulates P l l1.
Proof.
  intros [Hol Hne]%fixup_spec Hl Ho. set (s := instructions_sysvar_id) in *.
  assert (forall k, view_acct (get_account l1 k) = view_acct (get_account l k) /\
                    view_mint (get_account l1 k) = view_mint (get_account l k)) as Hv.
  { intros k. destruct (decide (k = s)) as [->|Hk]; [|by rewrite Hne].
    unfold view_acct, view_mint. by rewrite (proj1 (Hol s)), !decide_False. }
  split.
  - intros k. destruct (decide (k = s)) as [->|Hk]; [|by rewrite Hne].
    destruct (Hol s) as [Ho' Hlam]. destruct (Hl s) as (? & _ & Hpos).
    split; [by rewrite Hlam|]. split; [by rewrite Ho'|].
    by rewrite (proj2 (Hv s)), Hlam.
  - exists []. rewrite (abs_same l l1) by apply Hv. split; constructor.
Qed.

Lemma instructions_sim msg keys ixs index l meter l' meter' :
  (exists programs, keys = account_keys msg ++ programs) ->
  (forall ix pis, (ix, pis) ∈ ixs ->
     ix ∈ instructions msg /\ exists pid, native_program msg keys l ix pis pid) ->
  owner (get_account l instructions_sysvar_id) <> token_program_id ->
  ledger_ok l -> tok_inv (abs l) ->
  process_instructions ic msg keys index ixs l meter = Ok (l', meter') ->
  simulates (message_label msg) l l'.
Proof.
  intros Hkeys. revert index l meter.
  induction ixs as [|[ix pis] ixs IH]; intros index l meter Hpr Hsys Hl Hinv H; cbn in H.
  { run_inv. by apply simulates_refl. }
  case_bool_decide; run_inv.
  match goal with H : fixup_instructions_sysvar _ _ _ _ = Ok ?m |- _ =>
    rename m into l1, H into Hfix end.
  match goal with H : process_instruction _ _ _ _ _ _ _ = Ok (?m, _) |- _ =>
    rename m into l2, H into Hrun end.
  destruct (fixup_spec _ _ _ _ _ Hfix) as [Hol Hne].
  pose proof (fixup_sim (message_label msg) _ _ _ _ _ Hfix Hl Hsys) as Hsim1.
  pose proof (simulates_inv _ _ _ Hsim1 Hinv) as Hinv1.
  destruct (Hpr ix pis) as (Hix & pid & Hpid); [constructor|].
  pose proof (fixup_native _ _ _ _ _ _ _ _ Hfix Hpid) as Hpid1.
  assert (simulates (message_label msg) l1 l2) as Hsim2.
  { eapply simulates_weaken; [|eapply instruction_sim; [exact Hrun|exact Hpid1|apply Hsim1|done]].
    intros lab Hlab. exists ix, pid. split_and!; [done| |done]. by destruct Hpid as (? & _ & _ & ? & _). }
  eapply simulates_trans; [exact Hsim1|]. eapply simulates_trans; [exact Hsim2|].
  eapply IH; [..|exact H].
  - intros ix2 pis2 Hin. destruct (Hpr ix2 pis2) as (? & pid2 & Hn2); [by constructor|].
    split; [done|]. exists pid2. eapply instruction_native; [apply bank_confined|apply bank_loader|exact Hrun|exact Hpid1|].
    by eapply fixup_native.
  - rewrite (instruction_sysvar _ _ _ _ _ _ _ _ _ Hrun Hpid1 Hkeys). by rewrite (proj1 (Hol _)).
  - apply Hsim2.
  - by eapply simulates_inv.
Qed.

Lemma message_sim msg keys program_indices l n l' delta :
  loaded msg keys program_indices l -> ledger_ok l -> tok_inv (abs l) ->
  process_message ic msg keys program_indices l n = Ok (l', delta) ->
  simulates (message_label msg) l l'.
Proof.
  intros [Hkeys Hpr Hsys] Hl Hinv H. unfold process_message in H. run_inv.
  eapply instructions_sim; try done. intros ix pis Hin. split; [|by apply Hpr].
  by apply elem_of_zip_l in Hin.
Qed.
End Bank.

(** ** Histories of the ledger *)

Section History.
Context (deserialize : bytes -> option TokenInstruction) (ic : InvokeContext builtin).
Context `{Hbank : !Bank deserialize ic}.

(** The bank commits successful messages and drops accounts with no lamports. *)
Inductive ledger_step : ledger -> ledger -> Prop :=
| ls_message msg keys program_indices l n l' delta :
    loaded msg keys program_indices l ->
    process_message ic msg keys program_indices l n = Ok (l', delta) -> ledger_step l l'
| ls_sweep l : ledger_step l (filter (fun ka => lamports ka.2 <> 0) l).

(** A genesis ledger has no token accounts or mints yet: what the token
    program owns is zeroed. *)
Definition genesis (l : ledger) : Prop :=
  forall k, in_u64 (lamports (get_account l k)) /\
    (owner (get_account l k) = token_program_id ->
       exists n, data (get_account l k) = replicate n x00).

Definition token_ledger_ok (l : ledger) : Prop := ledger_ok l /\ tok_inv (abs l).

Lemma genesis_views l k :
  genesis l -> view_acct (get_account l k) = None /\ view_mint (get_account l k) = None.
Proof.
  intros Hg. destruct (Hg k) as [_ Hz].
  destruct (decide (owner (get_account l k) = token_program_id)) as [Ho|Ho].
  - destruct (Hz Ho) as [n Hn]. by eapply view_zeroed.
  - unfold view_acct, view_mint. by rewrite !decide_False.
Qed.

Lemma genesis_ok l : genesis l -> token_ledger_ok l.
Proof.
  intros Hg. split; [|split].
  - intros k. destruct (genesis_views l k Hg) as [_ Hm]. destruct (Hg k) as [? Hz].
    split; [done|]. split; [|rewrite Hm; by intros []].
    intros Ho m Hm' _. destruct (Hz Ho) as [n Hn]. rewrite Hn in Hm'. by eapply mint_zeroed.
  - intros k t lam. rewrite abs_accts. by rewrite (proj1 (genesis_views l k Hg)).
  - intros k m. rewrite abs_mints. by rewrite (proj2 (genesis_views l k Hg)).
Qed.

Lemma get_account_sweep l k :
  get_account (filter (fun ka => lamports ka.2 <> 0) l) k =
  if decide (lamports (get_account l k) <> 0) then get_account l k else account_default.
Proof.
  unfold get_account. rewrite map_lookup_filter. destruct (l !! k) as [a|]; cbn; [|done].
  repeat (case_guard || case_decide); by try congruence.
Qed.

(** Dropping empty accounts loses no token account and no mint. *)
Lemma sweep_sim P l :
  token_ledger_ok l -> simulates P l (filter (fun ka => lamports ka.2 <> 0) l).
Proof.
  intros [Hl Hinv].
  assert (forall k, lamports (get_account l k) = 0 ->
    view_acct (get_account l k) = None /\ view_mint (get_account l k) = None) as Hz.
  { intros k Hk. split.
    - destruct (view_acct (get_account l k)) as [[t lam]|] eqn:E; [|done].
      pose proof E as (_ & _ & ->)%view_acct_Some. rewrite <- abs_accts in E.
      destruct (proj1 Hinv _ _ _ E) as [? Hok].
      destruct (is_native t); [destruct Hok as (_ & ? & ? & _)|destruct Hok as (_ & ? & _)]; lia.
    - destruct (view_mint (get_account l k)) eqn:E; [|done].
      destruct (Hl k) as (_ & _ & Hpos). rewrite E in Hpos. specialize (Hpos ltac:(by eexists)). lia. }
  split.
  - intros k. rewrite get_account_sweep. case_decide; [apply Hl|].
    split; [done|]. split; [done|]. rewrite view_default_mint. by intros [].
  - exists []. split; [|constructor]. erewrite abs_same; [constructor|..].
    all: intros k; rewrite get_account_sweep; case_decide as Hk; [done|];
      (rewrite (proj1 (Hz k ltac:(lia))) || rewrite (proj2 (Hz k ltac:(lia))));
      apply view_default_acct || apply view_default_mint.
Qed.

Definition any_label (a : label) : Prop := True.

Lemma step_sim l l' : ledger_step l l' -> token_ledger_ok l -> simulates any_label l l'.
Proof.
  intros [msg keys pis l0 n l1 delta Hload Hrun|l0] Hok.
  - eapply simulates_weaken; [|by eapply message_sim; [..|exact Hrun]; try apply Hok]. done.
  - by apply sweep_sim.
Qed.

Lemma history_sim l l' :
  rtc ledger_step l l' -> token_ledger_ok l -> simulates any_label l l' /\ token_ledger_ok l'.
Proof.
  induction 1 as [l|l l1 l2 Hstep _ IH]; intros Hok.
  { split; [apply simulates_refl, Hok|done]. }
  pose proof (step_sim _ _ Hstep Hok) as Hsim.
  destruct IH as [Hsim' Hok']. { split; [apply Hsim|]. eapply simulates_inv; [done|apply Hok]. }
  split; [by eapply simulates_trans|done].
Qed.

(** What account [a] holds of mint [M], when [M] is not the native mint. *)
Definition token_balance (M : Pubkey) (a : AccountSharedData) : Z :=
  from_option (holds M) 0 (view_acct a).

Lemma total_held_ledger l M : total_held (abs l) M = map_sum (token_balance M) l.
Proof. unfold total_held. cbn. symmetry. apply map_sum_omap. Qed.
End History.
