(* ===== verification/TokenExample.v ===== *)
(** * A concrete bank

    A small ledger and messages on which the theorems about the token program
    are exercised: a mint, two of its accounts, a native account, and their
    authority. *)

From Stdlib Require Import ZArith Lia.
From Stdlib Require Import Strings.Byte.
From stdpp Require Import prelude gmap list numbers relations.
From S2P Require Import Prelude Sdk Utf8 Runtime TokenState TokenInstruction.
From S2P Require Import TokenProcessor TokenFacts TokenSpec TokenRefine TokenSafety.
From S2P Require Import SystemInstruction SystemProgram SystemFacts SystemExample.

Module Example.
(** The keys: a payer that is also the authority of everything, a mint, two of
    its accounts and a native account. *)
Definition payer : Pubkey := pk_of_Z 1.
Definition mint_key : Pubkey := pk_of_Z 2.
Definition alice : Pubkey := pk_of_Z 3.
Definition bob : Pubkey := pk_of_Z 4.
Definition carol : Pubkey := pk_of_Z 5.

(** The instructions of the example, one byte each. *)
Definition decode (d : bytes) : option TokenInstruction :=
  match d with
  | [x00] => Some (InitializeMint [x41] [x42] 2 payer (Some payer))
  | [x01] => Some (InitializeAccount2 payer)
  | [x02] => Some (MintTo 50)
  | [x03] => Some (Transfer 20)
  | [x04] => Some (SetAuthority AtMintTokens None)
  | [x05] => Some FreezeAccount
  | [x06] => Some (Burn 5)
  | _ => None
  end.

(** The one system instruction of the example. *)
Definition system_decode (d : bytes) : option SystemInstruction :=
  match d with [x07] => Some (SysTransfer 1000) | _ => None end.
Definition system_program : builtin :=
  System.process_instruction SystemExample.hashv SystemExample.env system_decode.

Definition bank : InvokeContext builtin :=
  mkContext rent_default
    [(token_program_id, process decode); (system_program_id, system_program)] true true true 4.

Lemma system_not_token : system_program_id <> token_program_id.
Proof. apply (bool_decide_eq_false (system_program_id = token_program_id)). by vm_compute. Qed.
Lemma loader_not_token : native_loader_id <> token_program_id.
Proof. apply (bool_decide_eq_false (native_loader_id = token_program_id)). by vm_compute. Qed.
Lemma loader_not_system : native_loader_id <> system_program_id.
Proof. apply (bool_decide_eq_false (native_loader_id = system_program_id)). by vm_compute. Qed.

#[global] Instance bank_ok : Bank decode bank.
Proof.
  split.
  - intros d i H. unfold decode in H. repeat case_match; simplify_eq; done.
  - cbn [bank ic_builtin_programs find_builtin]. by rewrite bool_decide_eq_true_2.
  - cbn [bank ic_builtin_programs find_builtin].
    pose proof loader_not_token. pose proof loader_not_system.
    by rewrite !bool_decide_eq_false_2 by congruence.
  - intros k f Hk Hf. cbn [bank ic_builtin_programs find_builtin] in Hf.
    rewrite (bool_decide_eq_false_2 (token_program_id = k)) in Hf by congruence.
    destruct (bool_decide (system_program_id = k)); [|done]. injection Hf as <-.
    apply system_builtin_ok. intros d i H. unfold system_decode in H.
    repeat case_match; simplify_eq. by vm_compute.
Qed.

(** The accounts exist, owned by the token program, with zeroed data. *)
Definition ledger0 : ledger :=
  <[payer := mkAccount 1000000000 [] system_program_id false 0]>
  (<[mint_key := mkAccount 10000000 (replicate 124 x00) token_program_id false 0]>
  (<[alice := mkAccount 10000000 (replicate 165 x00) token_program_id false 0]>
  (<[bob := mkAccount 10000000 (replicate 165 x00) token_program_id false 0]>
  (<[carol := mkAccount 7000000 (replicate 165 x00) token_program_id false 0]>
  (<[token_program_id := mkAccount 1 [] native_loader_id true 0]>
  (<[system_program_id := mkAccount 1 [] native_loader_id true 0]> ∅)))))).

Definition keys : list Pubkey := [payer; mint_key; alice; bob; carol; native_mint_id; token_program_id].

Definition message (ixs : list (list nat * byte)) : Message :=
  mkMessage (mkHeader 1 0 2) keys pk_default
    ((fun '(accs, b) => mkCompiled 6 accs [b]) <$> ixs).

(** Initialize the mint and the accounts, mint 50 to Alice. *)
Definition setup : Message :=
  message [([1], x00); ([2; 1], x01); ([3; 1], x01); ([4; 5], x01); ([1; 2; 0], x02)]%nat.
(** Alice sends 20 to Bob; the mint authority is given up; Bob burns 5; Alice's
    account is frozen. *)
Definition trade : Message :=
  message [([2; 3; 0], x03); ([1; 0], x04); ([3; 1; 0], x06); ([2; 1; 0], x05)]%nat.
(** Bob burns 5 more while Alice is frozen. *)
Definition later : Message := message [([3; 1; 0], x06)]%nat.

Definition program_indices (msg : Message) : list (list nat) :=
  replicate (length (instructions msg)) [6%nat].

Definition run (msg : Message) (l : ledger) : ledger :=
  match process_message bank msg keys (program_indices msg) l 0 with
  | Ok (l', _) => l'
  | _ => ∅
  end.

Definition ledger1 : ledger := run setup ledger0.
Definition ledger2 : ledger := run trade ledger1.
Definition ledger3 : ledger := run later ledger2.

Lemma message_loaded l ixs :
  owner (get_account l token_program_id) = native_loader_id ->
  owner (get_account l instructions_sysvar_id) <> token_program_id ->
  loaded (message ixs) keys (program_indices (message ixs)) l.
Proof.
  intros Ho Hs. split; [by exists []| |done]. intros ix pis Hin. exists token_program_id.
  exists 6%nat. pose proof (elem_of_zip_l _ _ _ _ Hin) as Hix.
  pose proof (elem_of_zip_r _ _ _ _ Hin) as Hpis.
  apply elem_of_replicate_inv in Hpis as ->. split_and!; [done|done| |done].
  cbn in Hix. apply list_elem_of_fmap in Hix as ([accs b] & -> & _). done.
Qed.

Lemma loaded_setup : loaded setup keys (program_indices setup) ledger0.
Proof. apply message_loaded; by vm_compute. Qed.
Lemma loaded_trade : loaded trade keys (program_indices trade) ledger1.
Proof. apply message_loaded; by vm_compute. Qed.

Lemma loaded_later : loaded later keys (program_indices later) ledger2.
Proof. apply message_loaded; by vm_compute. Qed.

Lemma run_ok msg l :
  is_Ok (process_message bank msg keys (program_indices msg) l 0) = true ->
  exists delta, process_message bank msg keys (program_indices msg) l 0 = Ok (run msg l, delta).
Proof.
  unfold run. destruct (process_message _ _ _ _ _ _) as [[l' delta]| |]; [|done..]. eauto.
Qed.

Lemma run_setup :
  exists delta, process_message bank setup keys (program_indices setup) ledger0 0 = Ok (ledger1, delta).
Proof. apply run_ok. by vm_compute. Qed.
Lemma run_trade :
  exists delta, process_message bank trade keys (program_indices trade) ledger1 0 = Ok (ledger2, delta).
Proof. apply run_ok. by vm_compute. Qed.

Lemma run_later :
  exists delta, process_message bank later keys (program_indices later) ledger2 0 = Ok (ledger3, delta).
Proof. apply run_ok. by vm_compute. Qed.


Lemma genesis_ledger0 : genesis ledger0.
Proof.
  intros k. unfold ledger0. rewrite !get_account_insert.
  assert (get_account ∅ k = account_default) as -> by (unfold get_account; by rewrite lookup_empty).
  repeat case_decide; cbn;
    (split; [unfold in_u64, u64_max; lia|]).
  all: intros Ho; first [by destruct (system_not_token Ho) | by destruct (loader_not_token Ho)
                        | exists 124%nat; reflexivity | exists 165%nat; reflexivity].
Qed.

Lemma history2 : rtc (ledger_step bank) ledger0 ledger2.
Proof.
  destruct run_setup as [? Hsetup], run_trade as [? Htrade].
  eapply rtc_l; [eapply ls_message; [apply loaded_setup|exact Hsetup]|].
  eapply rtc_l; [eapply ls_message; [apply loaded_trade|exact Htrade]|]. apply rtc_refl.
Qed.

Lemma ledger1_ok : token_ledger_ok ledger1.
Proof.
  destruct run_setup as [? Hsetup].
  apply (history_sim decode bank ledger0 ledger1); [|apply genesis_ok, genesis_ledger0].
  eapply rtc_once, ls_message; [apply loaded_setup|exact Hsetup].
Qed.
Lemma ledger2_ok : token_ledger_ok ledger2.
Proof. apply (history_sim decode bank ledger0 ledger2 history2), genesis_ok, genesis_ledger0. Qed.

(** A message of the system program: the payer sends lamports to Alice's token
    account. *)
Definition gift_keys : list Pubkey := [payer; alice; system_program_id].
Definition gift : Message :=
  mkMessage (mkHeader 1 0 1) gift_keys pk_default [mkCompiled 2 [0; 1]%nat [x07]].

Lemma loaded_gift : loaded gift gift_keys [[2%nat]] ledger1.
Proof.
  split; [by exists []| |by vm_compute]. intros ix pis Hin. cbn in Hin.
  apply list_elem_of_singleton in Hin. injection Hin as -> ->. exists system_program_id, 2%nat.
  split_and!; by vm_compute.
Qed.

(** The mint as a ledger has it. *)
Definition mint_of (l : ledger) : Mint :=
  default (mkMint None [] [] 0 0 false None)
    (ok_to_option (unpack (data (get_account l mint_key)))).
Lemma unpack_mint_of l :
  is_Ok (unpack (T:=Mint) (data (get_account l mint_key))) = true ->
  unpack (data (get_account l mint_key)) = Ok (mint_of l).
Proof. unfold mint_of. by destruct (unpack _). Qed.
End Example.
