(* ===== verification/TokenTheorems.v ===== *)
(** * Theorems about the token program

    The properties of the token program, each with a witness on the concrete
    bank of TokenExample.v where it has hypotheses. *)

From Stdlib Require Import ZArith Lia.
From Stdlib Require Import Strings.Byte.
From stdpp Require Import prelude gmap list numbers relations.
From S2P Require Import Prelude Sdk Utf8 Runtime TokenState TokenInstruction.
From S2P Require Import TokenProcessor TokenFacts TokenAuth TokenSpec TokenRefine TokenSafety TokenExample.

(** ** Histories *)

(** In every ledger the bank can reach from genesis, the supply recorded in
    a mint is exactly the sum of what the token accounts of that mint hold, and
    fits 64 bits: no sequence of transactions creates, duplicates or loses
    tokens other than through the mint. *)
Theorem supply_conserved deserialize ic `{!Bank deserialize ic} l0 l M m :
  genesis l0 -> rtc (ledger_step ic) l0 l ->
  owner (get_account l M) = token_program_id -> unpack (data (get_account l M)) = Ok m ->
  supply m = map_sum (token_balance M) l /\ 0 <= supply m <= u64_max.
Proof.
  intros Hg Hr Ho Hm. destruct (history_sim _ _ _ _ Hr (genesis_ok _ Hg)) as [_ [_ [_ HM]]].
  rewrite <- total_held_ledger. destruct (HM M (abs_mint m)) as [? Hs]; [|done].
  rewrite abs_mints. apply view_mint_Some. eauto.
Qed.

Lemma supply_conserved_witness :
  supply (Example.mint_of Example.ledger2) = 45 /\
  map_sum (token_balance Example.mint_key) Example.ledger2 = 45.
Proof.
  assert (supply (Example.mint_of Example.ledger2) = 45) as Hs by (vm_compute; reflexivity).
  split; [exact Hs|].
  destruct (supply_conserved Example.decode Example.bank Example.ledger0 Example.ledger2
    Example.mint_key (Example.mint_of Example.ledger2)) as [Heq _].
  - apply Example.genesis_ledger0.
  - apply Example.history2.
  - vm_compute. reflexivity.
  - apply Example.unpack_mint_of. vm_compute. reflexivity.
  - rewrite <- Heq. exact Hs.
Defined.

(** In every reachable ledger a native token account is backed by the
    lamports of its account: its amount plus its rent reserve never exceeds
    them. *)
Theorem native_backed deserialize ic `{!Bank deserialize ic} l0 l k t r :
  genesis l0 -> rtc (ledger_step ic) l0 l ->
  owner (get_account l k) = token_program_id -> unpack (data (get_account l k)) = Ok t ->
  is_native t = Some r ->
  ta_mint t = native_mint_id /\ 0 < r /\ amount t + r <= lamports (get_account l k).
Proof.
  intros Hg Hr Ho Ht Hn. destruct (history_sim _ _ _ _ Hr (genesis_ok _ Hg)) as [_ [_ [HA _]]].
  destruct (HA k t (lamports (get_account l k))) as [_ Hok].
  { rewrite abs_accts. by apply view_acct_Some. }
  rewrite Hn in Hok. naive_solver.
Qed.

Lemma native_backed_witness :
  exists t, unpack (data (get_account Example.ledger2 Example.carol)) = Ok t /\
    amount t + 1019640 <= 7000000.
Proof.
  destruct (unpack (T:=TokenAccount) (data (get_account Example.ledger2 Example.carol)))
    as [t| |] eqn:Ht; [|vm_compute in Ht; discriminate Ht..].
  exists t. split; [reflexivity|].
  assert (is_native t = Some 1019640) as Hn.
  { assert (match unpack (T:=TokenAccount) (data (get_account Example.ledger2 Example.carol)) with
            | Ok t => is_native t | _ => None end = Some 1019640) as H
      by (vm_compute; reflexivity).
    rewrite Ht in H. exact H. }
  destruct (native_backed Example.decode Example.bank Example.ledger0 Example.ledger2
    Example.carol t 1019640) as (_ & _ & H).
  - apply Example.genesis_ledger0.
  - apply Example.history2.
  - vm_compute. reflexivity.
  - exact Ht.
  - exact Hn.
  - exact H.
Defined.

(** C2: A transaction refines the abstract machine: a successful message is a
    sequence of steps of [tok_step], each of them a deposit or a step that a
    token instruction of that message stands for. *)
Theorem message_refines deserialize ic `{!Bank deserialize ic} msg keys pis l n l' delta :
  loaded msg keys pis l -> token_ledger_ok l ->
  process_message ic msg keys pis l n = Ok (l', delta) ->
  token_ledger_ok l' /\
  exists tr, tok_steps tr (abs l) (abs l') /\ Forall (message_label deserialize msg) tr.
Proof.
  intros Hload [Hl Hinv] H. pose proof (message_sim _ _ _ _ _ _ _ _ _ Hload Hl Hinv H) as Hsim.
  split; [split; [apply Hsim|by eapply simulates_inv]|apply Hsim].
Qed.

Lemma message_refines_witness :
  exists tr, tok_steps tr (abs Example.ledger0) (abs Example.ledger1) /\
    Forall (message_label Example.decode Example.setup) tr.
Proof.
  destruct Example.run_setup as [delta Hrun].
  apply (message_refines Example.decode Example.bank Example.setup Example.keys
    (Example.program_indices Example.setup) Example.ledger0 0 Example.ledger1 delta).
  - apply Example.loaded_setup.
  - apply genesis_ok, Example.genesis_ledger0.
  - exact Hrun.
Defined.

(** Once a mint has no authority its supply can never grow again and no
    authority can come back; the same for the freeze authority.  Mints are
    never removed. *)
Theorem fixed_supply deserialize ic `{!Bank deserialize ic} l l' M m :
  token_ledger_ok l -> rtc (ledger_step ic) l l' ->
  owner (get_account l M) = token_program_id -> unpack (data (get_account l M)) = Ok m ->
  exists m', owner (get_account l' M) = token_program_id /\
    unpack (data (get_account l' M)) = Ok m' /\
    (mint_authority m = None -> mint_authority m' = None /\ supply m' <= supply m) /\
    (freeze_authority m = None -> freeze_authority m' = None).
Proof.
  intros Hok Hr Ho Hm. destruct (history_sim _ _ _ _ Hr Hok) as [(_ & tr & Htr & _) _].
  destruct (tok_steps_mint tr _ _ M (abs_mint m) Htr) as (am & Ham & Hfix).
  { rewrite abs_mints. apply view_mint_Some. eauto. }
  rewrite abs_mints in Ham. apply view_mint_Some in Ham as (Ho' & m' & Hm' & ->).
  exists m'. split_and!; [done|done|apply Hfix|apply Hfix].
Qed.

Lemma fixed_supply_witness :
  exists m', unpack (data (get_account Example.ledger2 Example.mint_key)) = Ok m' /\
    (freeze_authority (Example.mint_of Example.ledger1) = None -> freeze_authority m' = None).
Proof.
  destruct (fixed_supply Example.decode Example.bank Example.ledger1 Example.ledger2
    Example.mint_key (Example.mint_of Example.ledger1)) as (m' & _ & Hm' & _ & Hf).
  - apply Example.ledger1_ok.
  - destruct Example.run_trade as [delta Hrun].
    apply rtc_once. eapply ls_message; [apply Example.loaded_trade|exact Hrun].
  - vm_compute. reflexivity.
  - apply Example.unpack_mint_of. vm_compute. reflexivity.
  - exists m'. split; [exact Hm'|exact Hf].
Defined.

(** C7: A frozen account with a positive balance keeps its owner, delegate,
    balance and every other field through any transaction that contains no
    thaw instruction; it can only receive lamports. *)
Theorem frozen_account_inert deserialize ic `{!Bank deserialize ic} msg keys pis l n l' delta k t :
  loaded msg keys pis l -> token_ledger_ok l ->
  process_message ic msg keys pis l n = Ok (l', delta) ->
  (forall ix, ix ∈ instructions msg -> deserialize (ci_data ix) <> Some ThawAccount) ->
  owner (get_account l k) = token_program_id -> unpack (data (get_account l k)) = Ok t ->
  is_frozen t = true -> 0 < amount t ->
  unpack (data (get_account l' k)) = Ok t /\
  lamports (get_account l k) <= lamports (get_account l' k).
Proof.
  intros Hload [Hl Hinv] H Hth Ho Ht Hf Hpos.
  destruct (message_sim _ _ _ _ _ _ _ _ _ Hload Hl Hinv H) as (_ & tr & Htr & Hlab).
  destruct (tok_steps_frozen tr _ _ k t (lamports (get_account l k)) Htr Hinv) as (lam & Hk & ?);
    try done.
  - eapply Forall_impl; [exact Hlab|]. intros a (ix & pid & Hix & _ & [->|(_ & i & Hi & Ha)]); [done|].
    intros ->. destruct i; try done; [by destruct authority_type|]. by destruct (Hth ix Hix).
  - rewrite abs_accts. by apply view_acct_Some.
  - rewrite abs_accts in Hk. apply view_acct_Some in Hk as (_ & ? & ->). done.
Qed.

Lemma frozen_account_inert_witness :
  exists t, is_frozen t = true /\ amount t = 30 /\
    unpack (data (get_account Example.ledger3 Example.alice)) = Ok t.
Proof.
  destruct (unpack (T:=TokenAccount) (data (get_account Example.ledger2 Example.alice)))
    as [t| |] eqn:Ht; [|vm_compute in Ht; discriminate Ht..].
  assert (is_frozen t = true /\ amount t = 30) as [Hf Ha].
  { assert (match unpack (T:=TokenAccount) (data (get_account Example.ledger2 Example.alice)) with
            | Ok t => is_frozen t = true /\ amount t = 30 | _ => False end) as H
      by (vm_compute; split; reflexivity).
    rewrite Ht in H. exact H. }
  exists t. split; [exact Hf|]. split; [exact Ha|].
  destruct Example.run_later as [delta Hrun].
  apply (frozen_account_inert Example.decode Example.bank Example.later Example.keys
    (Example.program_indices Example.later) Example.ledger2 0 Example.ledger3 delta
    Example.alice t).
  - apply Example.loaded_later.
  - apply Example.ledger2_ok.
  - exact Hrun.
  - intros ix Hix. cbn in Hix. apply list_elem_of_singleton in Hix as ->. discriminate.
  - vm_compute. reflexivity.
  - exact Ht.
  - exact Hf.
  - rewrite Ha. reflexivity.
Defined.

(** C5: A transaction conserves the total of the lamports on the ledger. *)
Theorem lamports_conserved deserialize ic `{!Bank deserialize ic} msg keys pis l n l' delta :
  loaded msg keys pis l -> NoDup (account_keys msg) ->
  process_message ic msg keys pis l n = Ok (l', delta) ->
  map_sum lamports l' = map_sum lamports l.
Proof.
  intros [Hkeys Hpr _] Hnd H. unfold process_message in H. run_inv.
  eapply process_instructions_sum; try done.
  - by eapply bank_confined.
  - apply bank_loader.
Qed.

Lemma lamports_conserved_witness :
  map_sum lamports Example.ledger2 = map_sum lamports Example.ledger1.
Proof.
  destruct Example.run_trade as [delta Hrun].
  apply (lamports_conserved Example.decode Example.bank Example.trade Example.keys
    (Example.program_indices Example.trade) Example.ledger1 0 Example.ledger2 delta).
  - apply Example.loaded_trade.
  - apply (bool_decide_eq_true_1 (NoDup Example.keys)). vm_compute. reflexivity.
  - exact Hrun.
Defined.

(** C8: A transaction that never calls the token program leaves every token
    account and every mint as they were; token accounts can only receive
    lamports. *)
Theorem token_state_isolated deserialize ic `{!Bank deserialize ic} msg keys pis l n l' delta :
  loaded msg keys pis l -> token_ledger_ok l ->
  process_message ic msg keys pis l n = Ok (l', delta) ->
  (forall ix, ix ∈ instructions msg ->
     account_keys msg !! program_id_index ix <> Some token_program_id) ->
  mints (abs l') = mints (abs l) /\
  forall k, option_Forall2 deposited (accts (abs l) !! k) (accts (abs l') !! k).
Proof.
  intros Hload [Hl Hinv] H Hpid.
  destruct (message_sim _ _ _ _ _ _ _ _ _ Hload Hl Hinv H) as (_ & tr & Htr & Hlab).
  apply (tok_steps_deposits tr); [done|]. eapply Forall_impl; [exact Hlab|].
  intros a (ix & pid & Hix & Hk & [->|(-> & _)]); [done|]. by destruct (Hpid ix Hix).
Qed.

Lemma token_state_isolated_witness :
  exists l' delta,
    process_message Example.bank Example.gift Example.gift_keys [[2%nat]] Example.ledger1 0
      = Ok (l', delta) /\
    mints (abs l') = mints (abs Example.ledger1) /\
    option_Forall2 deposited (accts (abs Example.ledger1) !! Example.alice)
      (accts (abs l') !! Example.alice).
Proof.
  assert (is_Ok (process_message Example.bank Example.gift Example.gift_keys [[2%nat]]
    Example.ledger1 0) = true) as [[l' delta] E]%is_Ok_ex by (by vm_compute).
  destruct (token_state_isolated Example.decode Example.bank Example.gift Example.gift_keys
    [[2%nat]] Example.ledger1 0 l' delta Example.loaded_gift Example.ledger1_ok E) as [Hm Ha].
  - intros ix Hix. cbn in Hix. apply list_elem_of_singleton in Hix as ->.
    change (Some system_program_id <> Some token_program_id). intros Hk.
    by destruct (Example.system_not_token (Some_inj _ _ Hk)).
  - exists l', delta. split; [exact E|]. split; [exact Hm|apply Ha].
Defined.

(** ** Authorization *)

(** C4: No token instruction succeeds without the approval it needs: debits by
    the owner or the delegate within its allowance, approvals by the owner,
    minting, freezing and changes of authority by the authority on record,
    closing by the close authority or else the owner.  Approval is a signature
    or, for a multisig, enough of its keys having signed. *)
Theorem dispatch_authorized pid accs i l u l' :
  dispatch pid accs i l = Ok (u, l') -> approved pid l accs i.
Proof. apply dispatch_approved. Qed.

Definition example_accounts : list KeyedAccount :=
  [mkKeyed false true Example.alice; mkKeyed false true Example.bob;
   mkKeyed true true Example.payer].

Lemma dispatch_authorized_witness :
  approved token_program_id Example.ledger1 example_accounts (Transfer 20).
Proof.
  assert (is_Ok (dispatch token_program_id example_accounts (Transfer 20) Example.ledger1) = true)
    as Hok by (vm_compute; reflexivity).
  destruct (dispatch token_program_id example_accounts (Transfer 20) Example.ledger1)
    as [[u l']| |] eqn:H; [|discriminate Hok..].
  exact (dispatch_authorized _ _ _ _ u l' H).
Defined.

(** [validate_owner] accepts exactly the expected account when it approves:
    for a multisig account of the program, when at least [m] of its first [n]
    keys are signers among the given accounts, and otherwise when it signed
    itself.  The multisig must be well formed, and the accounts given for its
    keys must be signers (an account of theirs that is not a signer is an
    error at once). *)
Theorem validate_owner_exact pid k ka signers l :
  (forall ms, unpack (data (acct l ka)) = Ok ms ->
     (Z.to_nat (ms_n ms) <= MAX_SIGNERS)%nat /\
     forall s, s ∈ signers -> is_signer s = true \/
       unsigned_key s ∉ take (Z.to_nat (ms_n ms)) (ms_signers ms)) ->
  validate_owner pid k ka signers l = Ok (tt, l) <->
  unsigned_key ka = k /\ authorized pid l ka signers.
Proof.
  intros Hms. split.
  - intros (? & _ & ?)%validate_owner_Ok. done.
  - intros [<- Ha]. by apply validate_owner_complete.
Qed.

Lemma validate_owner_exact_witness :
  validate_owner token_program_id Example.payer (mkKeyed true true Example.payer) []
    Example.ledger0 = Ok (tt, Example.ledger0) <->
  Example.payer = Example.payer /\
  authorized token_program_id Example.ledger0 (mkKeyed true true Example.payer) [].
Proof.
  apply (validate_owner_exact token_program_id Example.payer (mkKeyed true true Example.payer) []
    Example.ledger0).
  intros ms H. vm_compute in H. discriminate H.
Defined.

(** C34: [PreAccount::verify] accepts a change of an account exactly when the
    rules in its comments hold: only the owning program changes data or takes
    lamports, only writable and non-executable accounts change, an assigned
    account is zeroed, executable is set once, the rent epoch is fixed. *)
Theorem verify_account_exact pid writable rent pre post realloc :
  verify_account pid writable rent pre post realloc = Ok tt <->
  change_allowed pid writable rent realloc pre post.
Proof. apply verify_account_Ok. Qed.

(** ** Transfers *)


Lemma pack_acct_total (t : TokenAccount) d :
  token_account_packable t -> length d = TOKEN_ACCOUNT_LEN ->
  exists d', pack t d = Ok d' /\ length d' = TOKEN_ACCOUNT_LEN /\
    (is_initialized t = true -> unpack d' = Ok t).
Proof.
  intros Ht Hl. destruct (token_account_pack_unpack t d Ht Hl) as (d' & Hp & Hl' & Hu).
  exists d'. split; [by apply pack_Ok|]. split; [done|]. intros Hi. by apply unpack_Ok.
Qed.





(** ** Layouts *)

(** A token account written with [pack] reads back with [unpack] as the same account,
    whatever was in the buffer before. *)
Lemma token_account_roundtrip t d :
  token_account_packable t -> state t <> Uninitialized -> length d = TOKEN_ACCOUNT_LEN ->
  exists d', pack t d = Ok d' /\ unpack d' = Ok t.
Proof.
  intros Ht Hs Hl. destruct (pack_acct_total t d Ht Hl) as (d' & Hp & _ & Hu).
  exists d'. split; [done|]. apply Hu. cbn. by rewrite bool_decide_eq_false_2.
Qed.

(** A mint whose strings fit and are UTF-8 reads back as itself, except that the name and
    the symbol come back with the zero bytes that pad them. *)
Lemma mint_roundtrip m d :
  mint_packable m -> mint_is_initialized m = true -> length d = MINT_LEN ->
  valid_utf8 (name m) = true -> valid_utf8 (symbol m) = true ->
  exists d', pack m d = Ok d' /\
    unpack d' = Ok (mkMint (mint_authority m) (pad MAX_NAME_LENGTH (name m))
                      (pad MAX_SYMBOL_LENGTH (symbol m)) (supply m) (decimals m) true
                      (freeze_authority m)).
Proof.
  intros Hm Hi Hl Hn Hs. destruct (mint_pack_unpack m d Hm Hl) as (d' & Hp & Hl' & Hu).
  exists d'. split; [by apply pack_Ok|]. apply unpack_Ok. split; [done|].
  cbn [unpack_from_slice Mint_Pack]. rewrite Hu. unfold mint_norm, pad.
  rewrite !from_utf8_lossy_valid by (apply valid_utf8_app; [done|apply valid_utf8_zeros]).
  by rewrite Hi.
Qed.

Lemma multisig_roundtrip ms d :
  multisig_packable ms -> ms_is_initialized ms = true -> length d = MULTISIG_LEN ->
  exists d', pack ms d = Ok d' /\ unpack d' = Ok ms.
Proof.
  intros Hm Hi Hl. destruct (multisig_pack_unpack ms d Hm Hl) as (d' & Hp & Hl' & Hu).
  exists d'. split; [by apply pack_Ok|]. by apply unpack_Ok.
Qed.

(** What the token program packs it unpacks, whatever was in the buffer before: token
    accounts and multisigs come back unchanged, mints with their strings padded by zero
    bytes and all else unchanged. *)
Theorem token_state_roundtrip :
  (forall t d, token_account_packable t -> state t <> Uninitialized ->
     length d = TOKEN_ACCOUNT_LEN -> exists d', pack t d = Ok d' /\ unpack d' = Ok t)
  /\ (forall m d, mint_packable m -> mint_is_initialized m = true -> length d = MINT_LEN ->
        valid_utf8 (name m) = true -> valid_utf8 (symbol m) = true ->
        exists d', pack m d = Ok d' /\
          unpack d' = Ok (mkMint (mint_authority m) (pad MAX_NAME_LENGTH (name m))
                            (pad MAX_SYMBOL_LENGTH (symbol m)) (supply m) (decimals m) true
                            (freeze_authority m)))
  /\ (forall ms d, multisig_packable ms -> ms_is_initialized ms = true ->
        length d = MULTISIG_LEN -> exists d', pack ms d = Ok d' /\ unpack d' = Ok ms).
Proof.
  split_and!; [apply token_account_roundtrip|apply mint_roundtrip|apply multisig_roundtrip].
Qed.

Definition example_account : TokenAccount :=
  mkTokenAccount Example.mint_key Example.payer 7 (Some Example.bob) Frozen (Some 5) u64_max None.
Definition example_mint : Mint :=
  mkMint (Some Example.payer) [x41; xc3; xa9] [x42] 1000 6 true None.
Definition example_multisig : Multisig :=
  mkMultisig 2 3 true (replicate 11 Example.payer).

Lemma token_state_roundtrip_witness :
  (exists d', pack example_account (replicate 165 xff) = Ok d' /\ unpack d' = Ok example_account)
  /\ (exists d', pack example_mint (replicate 124 x00) = Ok d' /\
        unpack d' = Ok (mkMint (Some Example.payer) (pad 32 [x41; xc3; xa9]) (pad 10 [x42])
                          1000 6 true None))
  /\ (exists d', pack example_multisig (replicate 355 x00) = Ok d' /\
        unpack d' = Ok example_multisig).
Proof.
  destruct token_state_roundtrip as (Ht & Hm & Hs). split; [|split].
  - apply (Ht example_account (replicate 165 xff)); [|discriminate|reflexivity].
    split; [|split; [|intros x [= <-]]]; cbn; unfold in_u64, u64_max; lia.
  - apply (Hm example_mint (replicate 124 x00)); try (vm_compute; reflexivity).
    split; [|split; [|split]]; cbn;
      unfold MAX_NAME_LENGTH, MAX_SYMBOL_LENGTH, in_u64, in_u8, u64_max, u8_max; lia.
  - apply (Hs example_multisig (replicate 355 x00)); [|reflexivity..].
    split; [|split]; [unfold in_u8, u8_max; cbn; lia..|reflexivity].
Defined.

(** ** Behaviours that differ from what the code means to do *)










(** A frozen account with no balance can still be closed by its owner,
    which takes its lamports: closing does not look at the frozen state. *)
Lemma frozen_account_closes pid si di ai signers l src :
  unpack (data (acct l si)) = Ok src -> is_frozen src = true -> amount src = 0 ->
  unsigned_key si <> unsigned_key di -> close_authority src = None ->
  validate_owner pid (ta_owner src) ai signers l = Ok (tt, l) ->
  lamports (acct l di) + lamports (acct l si) <= u64_max ->
  exists l', process_close_account pid (si :: di :: ai :: signers) l = Ok (tt, l') /\
    lamports (acct l' di) = lamports (acct l di) + lamports (acct l si) /\
    lamports (acct l' si) = 0 /\ data (acct l' si) = replicate TOKEN_ACCOUNT_LEN x00.
Proof.
  intros Hs _ Ha Hne Hc Hv Hov. pose proof Hs as [Hl _]%unpack_Ok.
  eexists. split.
  - unfold process_close_account. fwd reflexivity. fwd reflexivity. fwd reflexivity.
    rewrite cmp_pubkeys_spec, bool_decide_eq_false_2 by done. fwd reflexivity. fwd reflexivity.
    fwd (by apply lift_run). rewrite Ha, andb_false_r. fwd reflexivity. rewrite Hc.
    fwd (exact Hv). fwd reflexivity. fwd reflexivity.
    fwd (apply lift_run, ok_or_Ok, checked_add_Some; split; [reflexivity|lia]).
    fwd (apply write_lamports_run). fwd (apply write_lamports_run).
    unfold update_account. rewrite bool_decide_eq_false_2 by apply not_elem_of_nil.
    fwd reflexivity. fwd reflexivity. ga_simpl. rewrite unsafe_memset_all by done. reflexivity.
  - ga_simpl. done.
Qed.

(** Bob's empty account, frozen. *)
Definition frozen_ledger : ledger :=
  Example.run (Example.message [([3; 1; 0]%nat, x05)]) Example.ledger1.

Lemma frozen_account_closes_witness :
  exists l', process_close_account token_program_id
    [mkKeyed false true Example.bob; mkKeyed false true Example.alice;
     mkKeyed true true Example.payer] frozen_ledger = Ok (tt, l') /\
    lamports (get_account l' Example.bob) = 0.
Proof.
  destruct (unpack (T:=TokenAccount) (data (get_account frozen_ledger Example.bob)))
    as [src| |] eqn:Hs; [|vm_compute in Hs; discriminate Hs..].
  assert (match unpack (T:=TokenAccount) (data (get_account frozen_ledger Example.bob)) with
    | Ok s => is_frozen s = true /\ amount s = 0 /\ close_authority s = None /\
        is_Ok (validate_owner token_program_id (ta_owner s) (mkKeyed true true Example.payer) []
          frozen_ledger) = true
    | _ => False end) as H by (vm_compute; repeat split; reflexivity).
  rewrite Hs in H. destruct H as (Hf & Ha & Hc & Hok).
  destruct (validate_owner token_program_id (ta_owner src) (mkKeyed true true Example.payer) []
    frozen_ledger) as [[[] l1]| |] eqn:Hv; [|discriminate Hok..].
  pose proof (validate_owner_state _ _ _ _ _ _ _ Hv) as [_ Hl1]. subst l1.
  destruct (frozen_account_closes token_program_id (mkKeyed false true Example.bob)
    (mkKeyed false true Example.alice) (mkKeyed true true Example.payer) [] frozen_ledger src)
    as (l' & Hrun & _ & Hlam & _).
  - exact Hs.
  - exact Hf.
  - exact Ha.
  - apply (bool_decide_eq_false_1 (Example.bob = Example.alice)). vm_compute. reflexivity.
  - exact Hc.
  - exact Hv.
  - vm_compute. discriminate.
  - exists l'. split; [exact Hrun|exact Hlam].
Defined.
