(* ===== verification/AssociatedAccount.v ===== *)
(** * Associated token accounts (programs/token-account/src)

    Addresses derived from seeds (sdk/program/src/pubkey.rs) and the program that creates
    the token account of a wallet and a mint at such an address, by calls to the system
    program and to the token program. *)

From Stdlib Require Import ZArith Lia.
From Stdlib Require Import Strings.Byte.
From stdpp Require Import prelude gmap list numbers.
From S2P Require Import Prelude Sdk Runtime SystemInstruction MessageCompile Invoke TokenState TokenInstruction.

(** ** Program derived addresses *)

Definition MAX_SEEDS : nat := 16.

Inductive PubkeyError : Type := PkMaxSeedLengthExceeded | PkInvalidSeeds | PkIllegalOwner.

(** The conversion of program_error.rs, from the discriminant *)
Definition pubkey_error (e : PubkeyError) : InstructionError :=
  Custom match e with
         | PkMaxSeedLengthExceeded => 0
         | PkInvalidSeeds => 1
         | PkIllegalOwner => 2
         end.

Section Derive.
(** SHA-256 of the concatenation, and whether bytes are a point of the curve. *)
Context (hashv : list bytes -> Hash) (bytes_are_curve_point : Hash -> bool).

Definition create_program_address (seeds : list bytes) (program_id : Pubkey)
    : outcome PubkeyError Pubkey :=
  _ ← fail_if (MAX_SEEDS <? length seeds)%nat PkMaxSeedLengthExceeded;
  _ ← fail_if (existsb (fun seed => MAX_SEED_LEN <? length seed)%nat seeds)
        PkMaxSeedLengthExceeded;
  let hash := hashv (seeds ++ [pk_bytes program_id; PDA_MARKER]) in
  _ ← fail_if (bytes_are_curve_point hash) PkInvalidSeeds;
  Ok hash.

(** The loop over the bump seeds, down from [bump] *)
Fixpoint find_bump (turns : nat) (bump : Z) (seeds : list bytes) (program_id : Pubkey)
    : option (Pubkey * Z) :=
  match turns with
  | O => None
  | S turns =>
      match create_program_address (seeds ++ [[byte_of_Z bump]]) program_id with
      | Ok address => Some (address, bump)
      | Err PkInvalidSeeds => find_bump turns (bump - 1) seeds program_id
      | _ => None
      end
  end.

Definition try_find_program_address (seeds : list bytes) (program_id : Pubkey)
    : option (Pubkey * Z) :=
  find_bump 255 255 seeds program_id.

Definition find_program_address {E} (seeds : list bytes) (program_id : Pubkey)
    : outcome E (Pubkey * Z) :=
  match try_find_program_address seeds program_id with
  | Some r => Ok r
  | None => Panic
  end.

(** ** The program *)

Definition token_account_program_id : Pubkey :=
  pk_of_Z 0x06ddf6e19e57b14ae06d791b39c15e008b9a1aafd56c976b1422bbfc80000000.

Definition get_associated_token_address_and_bump_seed_internal {E}
    (wallet mint program_id token_program : Pubkey) : outcome E (Pubkey * Z) :=
  find_program_address [pk_bytes wallet; pk_bytes token_program; pk_bytes mint] program_id.

Definition get_associated_token_address {E} (wallet mint : Pubkey) : outcome E Pubkey :=
  r ← get_associated_token_address_and_bump_seed_internal wallet mint token_account_program_id
        token_program_id;
  Ok r.1.

Inductive AssociatedTokenAccountInstruction : Type := Create.

Section Program.
(** [bincode::serialize] of instructions, and the rent of the sysvar cache *)
Context (serialize_system : SystemInstruction -> bytes).
Context (serialize_token : TokenInstruction -> bytes).
Context (cached_rent : option Rent).

Definition create_associated_token_account {E}
    (serialize : AssociatedTokenAccountInstruction -> bytes) (funding wallet mint : Pubkey)
    : outcome E Instruction :=
  associated ← get_associated_token_address wallet mint;
  Ok (mkInstruction token_account_program_id
        [meta_new funding true; meta_new associated false; meta_new_readonly wallet false;
         meta_new_readonly mint false; meta_new_readonly system_program_id false;
         meta_new_readonly token_program_id false] (serialize Create)).

(** The account is made a token account that pays its rent: from an account with
    lamports, or from none. *)
Definition fund_account (funder associated : KeyedAccount) (signer : Pubkey) (rent : Rent)
    : cpi unit :=
  let funder_key := unsigned_key funder in
  let key := unsigned_key associated in
  balance ← local (ka_lamports associated);
  if 0 <? balance then
    balance ← local (ka_lamports associated);
    let required := saturating_sub (Z.max (minimum_balance rent TOKEN_ACCOUNT_LEN) 1) balance in
    _ ← (if 0 <? required
         then invoke (ix_transfer serialize_system funder_key key required) [funder_key; key]
         else mret tt);
    _ ← invoke (ix_allocate serialize_system key (Z.of_nat TOKEN_ACCOUNT_LEN)) [signer];
    invoke (ix_assign serialize_system key token_program_id) [signer]
  else
    invoke (ix_create_account serialize_system funder_key key
              (Z.max (minimum_balance rent TOKEN_ACCOUNT_LEN) 1) (Z.of_nat TOKEN_ACCOUNT_LEN)
              token_program_id) [signer].

Definition process_create_associated_token_account (kas : list KeyedAccount) (first : nat)
    : cpi unit :=
  program ← local (keyed_account_at_index kas 0);
  let program_id := unsigned_key program in
  accounts ← local (if (first <=? length kas)%nat then mret (drop first kas) else panic);
  '(funder, it) ← local (next_keyed_account accounts);
  '(associated, it) ← local (next_keyed_account it);
  '(wallet, it) ← local (next_keyed_account it);
  '(mint, _) ← local (next_keyed_account it);
  let wallet_key := unsigned_key wallet in
  let mint_key := unsigned_key mint in
  '(address, bump_seed) ← local (lift (get_associated_token_address_and_bump_seed_internal
                                         wallet_key mint_key program_id token_program_id));
  _ ← local (lift (fail_if (negb (bool_decide (address = unsigned_key associated))) InvalidSeeds));
  signer ← local (lift (map_err pubkey_error (create_program_address
             [pk_bytes wallet_key; pk_bytes token_program_id; pk_bytes mint_key;
              [byte_of_Z bump_seed]] program_id)));
  rent ← local (lift (ok_or cached_rent UnsupportedSysvar));
  _ ← fund_account funder associated signer rent;
  ix ← local (lift (initialize_account2 serialize_token token_program_id
                      (unsigned_key associated) mint_key wallet_key));
  invoke ix [].

Definition process_associated (deserialize : bytes -> option AssociatedTokenAccountInstruction)
    (first : nat) (d : bytes) (kas : list KeyedAccount) : cpi unit :=
  i ← local (lift (ok_or (deserialize d) InvalidInstructionData));
  match i with
  | Create => process_create_associated_token_account kas first
  end.
End Program.
End Derive.
