(* ===== verification/CallerFacts.v ===== *)
(** * The builtin programs as callees and callers

    The system, token and token-account programs satisfy [caller_ok], what the theorem
    about cross-program calls asks of a program. *)

From Stdlib Require Import ZArith Lia.
From Stdlib Require Import Strings.Byte.
From stdpp Require Import prelude gmap list numbers sorting.
From S2P Require Import Prelude Sdk Runtime SystemInstruction SystemProgram SystemFacts.
From S2P Require Import MessageCompile MessageFacts Invoke InvokeFacts.
From S2P Require Import TokenState TokenInstruction TokenProcessor TokenFacts TokenSafety AssociatedAccount.

(** ** Programs that keep the executable flags *)

Definition keeps {A} (p : prog A) : Prop :=
  forall l a l', p l = Ok (a, l') -> same_executable l l'.

Section Keeps.
Context {A B : Type}.

Lemma keeps_bind (p : prog A) (f : A -> prog B) :
  keeps p -> (forall a, keeps (f a)) -> keeps (p ≫= f).
Proof.
  intros Hp Hf l b l' (a & l1 & Ha & Hb)%st_bind_Ok k.
  rewrite (Hf a _ _ _ Hb k). by apply (Hp _ _ _ Ha).
Qed.
Lemma keeps_lift (o : outcome InstructionError A) : keeps (lift o).
Proof. intros l a l' [_ ->]%lift_Ok. done. Qed.
Lemma keeps_ret (a : A) : keeps (mret a).
Proof. by intros l a' l' [= <- <-]. Qed.
Lemma keeps_throw e : keeps (throw e : prog A).
Proof. done. Qed.
Lemma keeps_panic : keeps (panic : prog A).
Proof. done. Qed.
Lemma keeps_gets (f : ledger -> A) : keeps (gets f).
Proof. by intros l a l' [= <- <-]. Qed.
Lemma keeps_if (b : bool) (p q : prog A) : keeps p -> keeps q -> keeps (if b then p else q).
Proof. by destruct b. Qed.
End Keeps.

Lemma keeps_update held ka f :
  (forall a a', f a = Ok a' -> executable a' = executable a) ->
  keeps (update_account held ka f).
Proof.
  intros Hf. unfold update_account. apply keeps_bind; [apply keeps_lift|]. intros _.
  intros l u l' (a & l1 & [= <- <-] & H)%st_bind_Ok. apply st_bind_Ok in H as (a' & l2 & [Ha ->]%lift_Ok & H).
  injection H as <- <-. intros k. rewrite get_account_insert. case_decide as Hk; [|done].
  rewrite (Hf _ _ Ha). by subst.
Qed.

Create HintDb keeps.
#[export] Hint Resolve keeps_lift keeps_ret keeps_throw keeps_panic keeps_gets : keeps.
Ltac keeps_step :=
  match goal with
  | |- forall _, _ => intros ?
  | _ => solve [eauto with keeps]
  | |- keeps (_ ≫= _) => apply keeps_bind
  | |- keeps (if _ then _ else _) => apply keeps_if
  | |- keeps (update_account _ _ _) =>
      apply keeps_update; intros ? ? ?; run_inv; repeat case_match; run_inv; done
  | |- keeps (let '(_, _) := ?x in _) => destruct x
  | |- keeps (match ?x with _ => _ end) => destruct x
  end.
Ltac keep := repeat keeps_step.

Lemma keeps_keyed kas i : keeps (keyed_account_at_index kas i).
Proof. unfold keyed_account_at_index. keep. Qed.
Lemma keeps_next kas : keeps (next_keyed_account kas).
Proof. destruct kas; keep. Qed.
Lemma keeps_data ka : keeps (ka_data ka).
Proof. unfold ka_data, account_ref. keep. Qed.
Lemma keeps_data_len ka : keeps (ka_data_len ka).
Proof. unfold ka_data_len, account_ref. keep. Qed.
Lemma keeps_lamports ka : keeps (ka_lamports ka).
Proof. unfold ka_lamports, account_ref. keep. Qed.
Lemma keeps_owner ka : keeps (ka_owner ka).
Proof. unfold ka_owner, account_ref. keep. Qed.
Lemma keeps_state {T} `{Bincode T} ka : keeps (ka_state (T:=T) ka).
Proof. unfold ka_state, account_ref. keep. Qed.
Lemma keeps_from {T} `{Bincode T} id ka : keeps (from_keyed_account (S:=T) id ka).
Proof. unfold from_keyed_account, account_ref. keep. Qed.
Lemma keeps_write held ka x : keeps (write_lamports held ka x).
Proof. unfold write_lamports. keep. Qed.
Lemma keeps_set_state {T} `{Bincode T} ka (v : T) : keeps (ka_set_state ka v).
Proof. unfold ka_set_state, account_set_state. keep. Qed.
Lemma keeps_pack {T} `{Pack T} held ka (v : T) : keeps (pack_account held ka v).
Proof. unfold pack_account. keep. Qed.
#[export] Hint Resolve keeps_keyed keeps_next keeps_data keeps_data_len keeps_lamports keeps_owner
  keeps_state keeps_from keeps_write keeps_set_state keeps_pack : keeps.

Section System.
Context (hashv : list bytes -> Hash).
Context `{Bincode NonceVersions, Bincode (list (Hash * Z)), Bincode Rent}.
Context (env : SystemEnv).

Lemma allocate_executable a addr n S a' :
  System.allocate a addr n S = Ok a' -> executable a' = executable a.
Proof. unfold System.allocate. intros Hrun. by run_inv. Qed.
Lemma assign_executable a addr o S a' :
  System.assign env a addr o S = Ok a' -> executable a' = executable a.
Proof. unfold System.assign. intros Hrun. case_bool_decide; by run_inv. Qed.
Lemma allocate_and_assign_executable a addr n o S a' :
  System.allocate_and_assign env a addr n o S = Ok a' -> executable a' = executable a.
Proof.
  unfold System.allocate_and_assign. intros (b & Hb & Ha)%bind_Ok.
  apply allocate_executable in Hb. apply assign_executable in Ha. congruence.
Qed.
#[local] Hint Resolve keeps_update allocate_executable assign_executable
  allocate_and_assign_executable : keeps.

Lemma keeps_transfer from to x : keeps (System.transfer_verified from to x).
Proof.
  unfold System.transfer_verified, System.checked_sub_lamports, System.checked_add_lamports. keep.
Qed.
#[local] Hint Resolve keeps_transfer : keeps.
Lemma keeps_create from to addr x n o S :
  keeps (System.create_account env from to addr x n o S).
Proof.
  unfold System.create_account, System.transfer. keep. apply keeps_update.
  intros a a' (_ & _ & Hrun)%bind_Ok. by eapply allocate_and_assign_executable.
Qed.
#[local] Hint Resolve keeps_create : keeps.

Lemma system_keeps des n d kas : keeps (System.process_instruction hashv env des n d kas).
Proof.
  unfold System.process_instruction, System.execute, System.transfer, System.transfer_with_seed,
    System.require_blockhashes, System.advance_nonce_account, System.withdraw_nonce_account,
    System.withdraw_signer, System.initialize_nonce_account, System.authorize_nonce_account.
  keep.
Qed.
End System.

Lemma keeps_validate pid k ka signers : keeps (validate_owner pid k ka signers).
Proof. unfold validate_owner. keep. Qed.
#[export] Hint Resolve keeps_validate : keeps.

Lemma token_keeps des n d kas : keeps (process des n d kas).
Proof.
  unfold process, dispatch, process_initialize_mint, process_initialize_account,
    process_initialize_account2, process_initialize_account_aux, process_initialize_multisig,
    process_transfer, process_approve, process_revoke, process_set_authority, process_mint_to,
    process_burn, process_close_account, process_toggle_freeze_account, process_sync_native,
    debit_authority, check_account_owner, check_expected_mint, next_expected_mint. keep.
Qed.

Lemma no_calls_ok f :
  confined f -> (forall n d kas, keeps (f n d kas)) -> caller_ok (no_calls f).
Proof.
  intros Hc Hk d root kas l _. unfold no_calls, local.
  destruct (f 1%nat d (root :: kas) l) as [[u l']|e|] eqn:E; cbn; try done. split.
  - intros k Hnk. apply (Hc _ _ _ _ _ _ E). intros ka Hka <-. cbn in Hka. rewrite drop_0 in Hka.
    by apply Hnk, list_elem_of_fmap_2.
  - by eapply Hk.
Qed.

(** ** Programs that read and call *)

Fixpoint only_calls {A} (l : ledger) (t : tree A) : Prop :=
  match t with
  | TRet _ l' => l' = l
  | TCall ix _ l' k =>
      l' = l /\ joined (requested [ix] None) /\ forall l'', native_ok l'' -> only_calls l'' (k l'')
  | _ => True
  end.

Definition pure_caller {A} (m : cpi A) : Prop := forall l, native_ok l -> only_calls l (m l).

Lemma only_calls_confined ks t l : native_ok l -> only_calls l t -> confined_tree ks l t.
Proof.
  revert l. induction t as [u l'|e| |ix s l' k IH]; intros l Hl H; try done; cbn in H |- *.
  - by subst.
  - destruct H as (-> & Hj & Hk). split_and!; try done. auto.
Qed.

Section PureCaller.
Context {A B : Type}.

Lemma only_calls_bind (f : A -> cpi B) (t : tree A) l :
  native_ok l -> only_calls l t -> (forall a, pure_caller (f a)) -> only_calls l (tree_bind f t).
Proof.
  intros Hl Ht Hf. revert l Hl Ht.
  induction t as [a l'|e| |ix s l' k IH]; intros l Hl Ht; try done; cbn in Ht |- *.
  - subst. by apply Hf.
  - destruct Ht as (-> & Hj & Hk). split_and!; try done. auto.
Qed.
Lemma pure_bind (m : cpi A) (f : A -> cpi B) :
  pure_caller m -> (forall a, pure_caller (f a)) -> pure_caller (m ≫= f).
Proof. intros Hm Hf l Hl. apply only_calls_bind; auto. Qed.
Lemma pure_ret (a : A) : pure_caller (mret a).
Proof. by intros l _. Qed.
Lemma pure_local (p : prog A) :
  (forall l a l', p l = Ok (a, l') -> l' = l) -> pure_caller (local p).
Proof. intros Hp l _. unfold local. destruct (p l) as [[a l']| |] eqn:E; cbn; eauto. Qed.
Lemma pure_lift (o : outcome InstructionError A) : pure_caller (local (lift o)).
Proof. apply pure_local. by intros l a l' [_ ->]%lift_Ok. Qed.
Lemma pure_lift_bind (o : outcome InstructionError A) (f : A -> cpi B) :
  (forall a, o = Ok a -> pure_caller (f a)) -> pure_caller (local (lift o) ≫= f).
Proof.
  intros Hf l Hl. unfold mbind, cpi_bind, local, lift. destruct o as [a|e|]; cbn; try done.
  by apply Hf.
Qed.
Lemma pure_if (b : bool) (m m' : cpi A) :
  pure_caller m -> pure_caller m' -> pure_caller (if b then m else m').
Proof. by destruct b. Qed.
End PureCaller.

Lemma pure_invoke ix signers : joined (requested [ix] None) -> pure_caller (invoke ix signers).
Proof. intros Hj l _. cbn. by split_and!. Qed.
Lemma pure_next kas : pure_caller (local (next_keyed_account kas)).
Proof. apply pure_local. by destruct kas; intros l a l' [= <- <-]. Qed.
Lemma pure_lamports ka : pure_caller (local (ka_lamports ka)).
Proof. apply pure_local. by intros l a l' [= <- <-]. Qed.

(** Metas in the order of their flags *)
Lemma joined_descending l : StronglySorted dominates l -> joined l.
Proof.
  induction 1 as [|x l Hl IH Hx]; intros m Hm; [by apply not_elem_of_nil in Hm|].
  rewrite List.Forall_forall in Hx.
  destruct (decide (meta_pubkey x = meta_pubkey m)) as [Hk|Hne].
  - exists x. split_and!; [by left|done|]. intros m' [->|Hm']%elem_of_cons _; [by split|].
    by apply Hx, list_elem_of_In.
  - apply elem_of_cons in Hm as [->|Hm]; [done|]. destruct (IH m Hm) as (d & Hd & Hdk & Hdom).
    exists d. split_and!; [by right|done|]. intros m' [->|Hm']%elem_of_cons Hk'; [done|auto].
Qed.

Ltac descending := apply joined_descending; repeat constructor; cbn; done.

Section Associated.
Context (hashv : list bytes -> Hash) (on_curve : Hash -> bool).
Context (ser_sys : SystemInstruction -> bytes) (ser_tok : TokenInstruction -> bytes).
Context (rent : option Rent) (des : bytes -> option AssociatedTokenAccountInstruction).

Ltac pure_step :=
  match goal with
  | |- forall _, _ => intros ?
  | |- pure_caller (local (lift _) ≫= _) => apply pure_lift_bind; intros ? ?
  | |- pure_caller (_ ≫= _) => apply pure_bind
  | |- pure_caller (mret _) => apply pure_ret
  | |- pure_caller (local (lift _)) => apply pure_lift
  | |- pure_caller (local (next_keyed_account _)) => apply pure_next
  | |- pure_caller (local (ka_lamports _)) => apply pure_lamports
  | |- pure_caller (local (keyed_account_at_index _ _)) => apply pure_lift
  | |- pure_caller (if _ then _ else _) => apply pure_if
  | |- pure_caller (let '(_, _) := ?x in _) => destruct x
  | |- pure_caller (match ?x with _ => _ end) => destruct x
  end.

Lemma fund_pure funder assoc signer r : pure_caller (fund_account ser_sys funder assoc signer r).
Proof. unfold fund_account. repeat pure_step; apply pure_invoke; descending. Qed.

Lemma associated_pure first kas :
  pure_caller (process_create_associated_token_account hashv on_curve ser_sys ser_tok rent kas first).
Proof.
  unfold process_create_associated_token_account. repeat pure_step.
  - apply pure_local. intros l b l' Hrun. case_match; [by injection Hrun as <- <-|done].
  - apply fund_pure.
  - match goal with H : initialize_account2 _ _ _ _ _ = Ok _ |- _ =>
      apply bind_Ok in H as (_ & _ & H); injection H as <- end.
    apply pure_invoke. descending.
Qed.

Lemma associated_pure_any first d kas :
  pure_caller (process_associated hashv on_curve ser_sys ser_tok rent des first d kas).
Proof. unfold process_associated. repeat pure_step. apply associated_pure. Qed.

Lemma associated_ok : caller_ok (process_associated hashv on_curve ser_sys ser_tok rent des).
Proof.
  intros d root kas l Hl. apply only_calls_confined; [done|].
  by apply associated_pure_any.
Qed.
End Associated.
