(* ===== verification/AssociatedFacts.v ===== *)
(** * What a successful Create of the token-account program does

    Runs of programs that call programs without calls, and the steps of the creation
    of an associated token account. *)

From Stdlib Require Import ZArith Lia.
From Stdlib Require Import Strings.Byte.
From stdpp Require Import prelude gmap list numbers.
From S2P Require Import Prelude Sdk Runtime SystemInstruction SystemProgram SystemFacts.
From S2P Require Import MessageCompile MessageFacts Invoke InvokeFacts InvokeRuns.
From S2P Require Import TokenState TokenInstruction TokenProcessor TokenFacts TokenSpec TokenRefine.
From S2P Require Import AssociatedAccount CallerFacts.

Import Invoke.

(** ** Runs with a result *)

Fixpoint run_to {A} (call : Instruction -> list Pubkey -> InvokeState ->
                            outcome InstructionError InvokeState)
    (t : tree A) (st : InvokeState) : outcome InstructionError (A * InvokeState) :=
  match t with
  | TRet a l => Ok (a, set_ledger l st)
  | TErr e => Err e
  | TPanic => Panic
  | TCall ix signers l k =>
      st' ← call ix signers (set_ledger l st);
      run_to call (k (st_ledger st')) st'
  end.

Section RunTo.
Context (call : Instruction -> list Pubkey -> InvokeState -> outcome InstructionError InvokeState).

(** The run of a program from where the state is *)
Definition runs {A} (m : cpi A) (st : InvokeState) (a : A) (st' : InvokeState) : Prop :=
  run_to call (m (st_ledger st)) st = Ok (a, st').

Lemma run_tree_to t st st' :
  run_tree call t st = Ok st' -> run_to call t st = Ok (tt, st').
Proof.
  revert st. induction t as [[] l|e| |ix signers l k IH]; intros st Hrun; cbn in *; try done.
  - by injection Hrun as <-.
  - apply bind_Ok in Hrun as (st1 & Hc & Hrun). rewrite Hc. cbn. by apply IH.
Qed.

Lemma run_to_ledger {A} (t : tree A) l st : run_to call t (set_ledger l st) = run_to call t st.
Proof. by destruct t. Qed.

Lemma run_to_bind {A B} (f : A -> cpi B) t st :
  run_to call (tree_bind f t) st
  = ('(a, st1) ← run_to call t st; run_to call (f a (st_ledger st1)) st1).
Proof.
  revert st. induction t as [a l|e| |ix signers l k IH]; intros st; cbn; try done.
  - by rewrite run_to_ledger.
  - destruct (call ix signers (set_ledger l st)) as [st1| |]; [|done..]. cbn. apply IH.
Qed.

Lemma runs_bind {A B} (m : cpi A) (f : A -> cpi B) st b st' :
  runs (m ≫= f) st b st' -> exists a st1, runs m st a st1 /\ runs (f a) st1 b st'.
Proof.
  unfold runs. cbv [mbind cpi_bind]. rewrite run_to_bind. intros ([a st1] & Hm & Hf)%bind_Ok.
  by exists a, st1.
Qed.

Lemma runs_local {A} (p : prog A) st a st' :
  runs (local p) st a st' -> exists l', p (st_ledger st) = Ok (a, l') /\ st' = set_ledger l' st.
Proof.
  unfold runs, local. destruct (p (st_ledger st)) as [[x l']| |]; [|done..].
  cbn. intros [= <- <-]. by exists l'.
Qed.

Lemma runs_lift {A} (o : outcome InstructionError A) st a st' :
  runs (local (lift o)) st a st' -> o = Ok a /\ st' = st.
Proof.
  intros (l' & (-> & ->)%lift_Ok & ->)%runs_local. by destruct st.
Qed.

Lemma runs_lamports ka st x st' :
  runs (local (ka_lamports ka)) st x st' ->
  x = lamports (get_account (st_ledger st) (unsigned_key ka)) /\ st' = st.
Proof. intros (l' & (-> & ->)%ka_lamports_Ok & ->)%runs_local. by destruct st. Qed.

Lemma runs_next it st ka it' st' :
  runs (local (next_keyed_account it)) st (ka, it') st' -> it = ka :: it' /\ st' = st.
Proof. intros (l' & (-> & ->)%next_keyed_account_Ok & ->)%runs_local. by destruct st. Qed.

Lemma runs_ret {A} (x : A) st a st' : runs (mret x) st a st' -> a = x /\ st' = st.
Proof. unfold runs. cbn. intros [= <- <-]. by destruct st. Qed.

Lemma runs_invoke ix signers st u st' :
  runs (invoke ix signers) st u st' -> call ix signers st = Ok st'.
Proof.
  unfold runs, invoke. cbn. intros (st1 & Hc & [= _ <-])%bind_Ok.
  destruct st, st1. exact Hc.
Qed.

Lemma runs_if {A} (b : bool) (m m' : cpi A) st a st' :
  runs (if b then m else m') st a st' -> (b = true /\ runs m st a st') \/ (b = false /\ runs m' st a st').
Proof. destruct b; auto. Qed.
End RunTo.

(** ** Messages of one instruction *)

Lemma requested_length ix :
  (length (requested [ix] None) <= length (ix_accounts ix) + 1)%nat.
Proof. cbn. rewrite !length_app. cbn. case_bool_decide; cbn; lia. Qed.

Lemma message_compiles ix msg :
  joined (requested [ix] None) -> (length (requested [ix] None) <= 255)%nat ->
  message_new (E:=InstructionError) [ix] None = Ok msg ->
  exists ci, instructions msg = [ci] /\ compiles_to (account_keys msg) ix ci.
Proof.
  intros Hj Hlen Hm. set (U := unique_metas (sorted_metas [ix] None)).
  assert (length U <= 255)%nat as HU.
  { etrans; [|exact Hlen]. rewrite <- (length_fmap meta_pubkey U), <- (length_fmap meta_pubkey (requested _ _)).
    apply submseteq_length, NoDup_submseteq; [apply (uq_nodup _ _ _ (unique_ok [ix] None Hj))|].
    intros k Hk. by apply (keys_requested [ix] None Hj) in Hk. }
  destruct (compile_eq [ix] None Hj HU (E:=InstructionError) pk_default) as (cis & Hm' & Hall).
  unfold message_new in Hm. rewrite Hm' in Hm. injection Hm as <-.
  inversion_clear Hall as [|? ci ? cis' Hci Hnil]. inversion_clear Hnil. by exists ci.
Qed.

(** ** Calling a program without calls *)

Section Call.
Context (ic : InvokeContext caller) (keys : list Pubkey).

Lemma instruction_accounts_keys msg ais idxs kas :
  instruction_accounts keys msg ais idxs = Ok kas ->
  Forall2 (fun i ka => exists j, account_index ais i = Ok j /\ keys !! j = Some (unsigned_key ka))
    idxs kas.
Proof.
  revert kas. induction idxs as [|i idxs IH]; intros kas H; cbn in H.
  { injection H as <-. constructor. }
  apply bind_Ok in H as (j & Hj & H). destruct (keys !! j) as [k|] eqn:Hk; [|done].
  apply bind_Ok in H as (rest & Hrest & H). injection H as <-.
  constructor; [by exists j|by apply IH].
Qed.

Lemma called_keys f l ix signers msg ws ais pis ci kas :
  called keys f l ix signers msg ws ais pis -> compiles_to (account_keys msg) ix ci ->
  instruction_accounts keys msg ais (ci_accounts ci) = Ok kas ->
  unsigned_key <$> kas = meta_pubkey <$> ix_accounts ix.
Proof.
  intros Hc (_ & Hacc & _) Hkas%instruction_accounts_keys.
  assert (forall i j, account_index ais i = Ok j -> forall k, account_keys msg !! i = Some k ->
    keys !! j = Some k) as Hidx.
  { intros i j Hij k Hk. pose proof (cd_length _ _ _ _ _ _ _ _ _ Hc) as Hlen.
    unfold account_index in Hij. destruct ais as [|a ais'] eqn:Hais.
    { cbn in Hlen. by destruct (account_keys msg). }
    rewrite <- Hais in *. destruct (ais !! i) as [j'|] eqn:Hj; [|done]. injection Hij as <-.
    destruct (cd_index _ _ _ _ _ _ _ _ _ Hc i j' Hj) as (k' & ? & ?). by simplify_eq. }
  clear Hc. revert kas Hkas. induction Hacc as [|m i metas idxs Hm _ IH]; intros kas Hkas;
    inversion_clear Hkas as [|? ka ? kas' (j & Hij & Hj)]; [done|].
  cbn. f_equal; [|by apply IH]. pose proof (Hidx _ _ Hij _ Hm). congruence.
Qed.

Lemma push_frame_Ok st msg ci p ais st' pid :
  push ic keys st msg ci [p] ais = Ok st' -> keys !! p = Some pid ->
  exists kas, instruction_accounts keys msg ais (ci_accounts ci) = Ok kas /\
    invoke_stack st' = mkFrame 1 (mkKeyed false false pid :: kas) :: invoke_stack st /\
    st_ledger st' = st_ledger st.
Proof.
  unfold push. intros H Hp. cbn [keyed_accounts] in H. rewrite Hp in H.
  repeat (apply bind_Ok in H as (? & ? & H)). injection H as <-.
  match goal with H : (_ ← Ok _; _) = Ok _ |- _ => injection H as <- end.
  eexists. split; [eassumption|done].
Qed.

(** The entry of a native program *)
Lemma find_entry_builtin st pid kas S d f :
  invoke_stack st = mkFrame 1 (mkKeyed false false pid :: kas) :: S ->
  owner (get_account (st_ledger st) pid) = native_loader_id ->
  find_builtin pid (ic_builtin_programs ic) = Some f ->
  find_entry ic st d = Ok (f 1%nat d (mkKeyed false false pid :: kas) (st_ledger st)).
Proof.
  intros Hst Hown Hf. unfold find_entry. rewrite Hst.
  cbn [head mbind outcome_bind ok_or frame_keyed_accounts lookup list_lookup unsigned_key].
  by rewrite Hown, bool_decide_eq_true_2, Hf.
Qed.

(** The program runs on the accounts of the call, in their order. *)
Lemma call_no_calls fuel ix signers st st' g :
  native_invoke ic keys (process_instruction ic keys fuel) ix signers st = Ok st' ->
  find_builtin (ix_program_id ix) (ic_builtin_programs ic) = Some (no_calls g) ->
  native_ok (st_ledger st) -> joined (requested [ix] None) ->
  (length (requested [ix] None) <= 255)%nat ->
  exists kas u, unsigned_key <$> kas = meta_pubkey <$> ix_accounts ix /\
    g 1%nat (ix_data ix) (mkKeyed false false (ix_program_id ix) :: kas) (st_ledger st)
    = Ok (u, st_ledger st').
Proof.
  intros Hrun Hg Hnat Hj Hlen. destruct (native_invoke_stack _ _ _ _ _ _ _ Hrun) as (f & S & Hst).
  destruct (native_invoke_Ok _ _ _ _ _ _ _ _ _ Hst Hrun)
    as (n & msg & ci & ws & ais & pis & st1 & st2 & st3 & st4 & t & -> & Hiv).
  destruct Hiv as [Hc Hci Hv1 Hp _ Ht Hr Hv2 ->].
  destruct (message_compiles _ _ Hj Hlen (cd_message _ _ _ _ _ _ _ _ _ Hc)) as (ci' & Hins & Hcomp).
  rewrite Hins in Hci. injection Hci as <-.
  apply verify_and_update_steady in Hv1 as [_ Hl1]. apply verify_and_update_steady in Hv2 as [_ Hl4].
  destruct (cd_program _ _ _ _ _ _ _ _ _ Hc) as (p & -> & Hkp).
  destruct (push_frame_Ok _ _ _ _ _ _ _ Hp Hkp) as (kas & Hkas & Hst2 & Hl2).
  assert (st_ledger st2 = st_ledger st) as Hl by (by rewrite Hl2, Hl1).
  erewrite find_entry_builtin in Ht; [|exact Hst2| |exact Hg].
  2: { rewrite Hl. by apply Hnat, (cd_executable _ _ _ _ _ _ _ _ _ Hc). }
  injection Ht as <-. pose proof Hcomp as (_ & _ & Hdata).
  exists kas. rewrite Hl, Hdata in Hr. unfold no_calls, local in Hr.
  destruct (g _ _ _ _) as [[u l']| |] eqn:Hgr; [|done..]. cbn in Hr. injection Hr as <-.
  exists u. split; [by eapply called_keys|]. cbn. by rewrite Hl4.
Qed.
End Call.

(** ** The calls of the creation *)

Section SystemCalls.
Context (hashv : list bytes -> Hash) (env : SystemEnv).
Context `{Bincode NonceVersions, Bincode (list (Hash * Z)), Bincode Rent}.
Abbreviation execute := (System.execute hashv env).

Lemma allocate_run root ka rest n l u l' :
  execute (root :: ka :: rest) 1 (Allocate n) l = Ok (u, l') ->
  acct l' ka = set_data (replicate (Z.to_nat n) x00) (acct l ka).
Proof.
  unfold System.execute. intros H'. keyed_inv. simplify_eq/=. rewrite get_account_insert_eq.
  match goal with H : System.allocate _ _ _ _ = Ok _ |- _ => unfold System.allocate in H; run_inv end.
  done.
Qed.

Lemma assign_run root ka rest o l u l' :
  execute (root :: ka :: rest) 1 (Assign o) l = Ok (u, l') ->
  acct l' ka = set_owner o (acct l ka).
Proof.
  unfold System.execute. intros H'. keyed_inv. simplify_eq/=. rewrite get_account_insert_eq.
  match goal with H : System.assign _ _ _ _ _ = Ok _ |- _ =>
    unfold System.assign in H; case_bool_decide as Ho; run_inv end; [|done].
  by destruct (get_account l _); cbn in *; subst.
Qed.

Lemma transfer_keeps_data from to x l u l' ka :
  System.transfer from to x l = Ok (u, l') ->
  data (acct l' ka) = data (acct l ka) /\ owner (acct l' ka) = owner (acct l ka) /\
  (lamports (acct l to) <= u64_max -> lamports (acct l' to) <= u64_max).
Proof.
  unfold System.transfer. intros H'. run_inv.
  match goal with H : System.transfer_verified _ _ _ _ = _ |- _ =>
    apply transfer_verified_Ok in H as (_ & _ & l1 & -> & Hmax & ->) end.
  rewrite get_account_insert_eq. split_and!; [| |done].
  all: rewrite !get_account_insert; repeat case_decide; cbn; congruence.
Qed.

Lemma transfer_call_run root from to rest x l u l' ka :
  execute (root :: from :: to :: rest) 1 (SysTransfer x) l = Ok (u, l') ->
  data (acct l' ka) = data (acct l ka) /\ owner (acct l' ka) = owner (acct l ka) /\
  (lamports (acct l to) <= u64_max -> lamports (acct l' to) <= u64_max).
Proof.
  unfold System.execute. intros H'. keyed_inv. simplify_eq/=. by eapply transfer_keeps_data.
Qed.

Lemma allocate_and_assign_fresh a addr n o signers a' :
  System.allocate_and_assign env a addr n o signers = Ok a' ->
  data a' = replicate (Z.to_nat n) x00 /\ owner a' = o /\ lamports a' = lamports a.
Proof.
  unfold System.allocate_and_assign, System.allocate, System.assign. intros H'. run_inv.
  case_bool_decide as Ho; run_inv; done.
Qed.

Lemma create_run root from to rest x n o l u l' :
  execute (root :: from :: to :: rest) 1 (CreateAccount x n o) l = Ok (u, l') ->
  data (acct l' to) = replicate (Z.to_nat n) x00 /\ owner (acct l' to) = o /\
  lamports (acct l' to) <= u64_max.
Proof.
  unfold System.execute, System.create_account. intros H'. keyed_inv. simplify_eq/=.
  match goal with
  | H : System.transfer _ ?t _ _ = _, H' : System.allocate_and_assign _ _ _ _ _ _ = Ok _ |- _ =>
      apply transfer_keeps_data with (ka := t) in H as (-> & -> & Hmax);
      apply allocate_and_assign_fresh in H' as (Hd & Ho & Hl) end.
  rewrite get_account_insert_eq in *. split_and!; [done..|]. apply Hmax. unfold u64_max. lia.
Qed.
End SystemCalls.

(** A call to the system program *)
Lemma system_call hashv env
    `{Bincode NonceVersions, Bincode (list (Hash * Z)), Bincode Rent} des ser ic keys fuel i metas
    signers st st' :
  native_invoke ic keys (process_instruction ic keys fuel)
    (mkInstruction system_program_id metas (ser i)) signers st = Ok st' ->
  find_builtin system_program_id (ic_builtin_programs ic)
    = Some (no_calls (System.process_instruction hashv env des)) ->
  des (ser i) = Some i -> native_ok (st_ledger st) ->
  joined (requested [mkInstruction system_program_id metas (ser i)] None) ->
  (length metas <= 254)%nat ->
  exists root kas u, unsigned_key <$> kas = meta_pubkey <$> metas /\
    System.execute hashv env (root :: kas) 1 i (st_ledger st) = Ok (u, st_ledger st').
Proof.
  intros Hrun Hg Hdes Hnat Hj Hlen.
  destruct (call_no_calls _ _ _ _ _ _ _ _ Hrun Hg Hnat Hj) as (kas & u & Hk & Hr).
  { rewrite requested_length. cbn. lia. }
  apply system_process_Ok in Hr as (i' & Hi & Hr). cbn in Hi, Hk. simplify_eq.
  eexists _, kas, u. split; [exact Hk|exact Hr].
Qed.

(** ** The token program *)

Lemma zeroed_no_authority t :
  unpack_unchecked (T:=TokenAccount) (replicate TOKEN_ACCOUNT_LEN x00) = Ok t ->
  close_authority t = None.
Proof.
  intros Ht.
  assert (match unpack_unchecked (T:=TokenAccount) (replicate TOKEN_ACCOUNT_LEN x00) with
          | Ok t => bool_decide (close_authority t = None) | _ => true end = true) as Hb
    by (vm_compute; reflexivity).
  rewrite Ht in Hb. by apply bool_decide_eq_true in Hb.
Qed.

Lemma initialize_run pid ni mi rest w l u l' :
  process_initialize_account_aux pid (ni :: mi :: rest) (Some w) l = Ok (u, l') ->
  data (acct l ni) = replicate TOKEN_ACCOUNT_LEN x00 -> owner (acct l ni) = token_program_id ->
  lamports (acct l ni) <= u64_max ->
  let mint := unsigned_key mi in
  let reserve := minimum_balance rent_default TOKEN_ACCOUNT_LEN in
  let native := bool_decide (mint = native_mint_id) in
  reserve <= lamports (acct l' ni) /\
  view_acct (acct l' ni)
  = Some (mkTokenAccount mint w (if native then lamports (acct l' ni) - reserve else 0) None
            Initialized (if native then Some reserve else None) 0 None,
          lamports (acct l' ni)).
Proof.
  unfold process_initialize_account_aux. intros H Hd Ho Hmax. prog_inv.
  match goal with H : _ :: _ = _ :: _ |- _ => injection H as <- <- <- end.
  match goal with H : unpack_unchecked _ = Ok ?t |- _ =>
    rewrite Hd in H; assert (close_authority t = None) as Hca by (by apply zeroed_no_authority) end.
  rewrite Hca in *.
  assert (length (data (acct l ni)) = TOKEN_ACCOUNT_LEN) as Hlen by (by rewrite Hd).
  unfold is_exempt in *.
  match goal with H : (_ <=? _) = true |- _ => rewrite Hlen in H; apply Z.leb_le in H end.
  pose proof (minimum_balance_u64 rent_default TOKEN_ACCOUNT_LEN) as Hr.
  destruct (bool_decide (unsigned_key mi = native_mint_id)); prog_inv; rewrite ?Hlen in *;
    rewrite get_account_insert_eq; (split; [done|]); apply (repack_acct (acct l ni)); try done;
    unfold in_u64 in Hr; repeat split; cbn in *; simplify_eq; lia.
Qed.

(** ** The creation *)

(** The system instructions the program sends *)
Definition sent (i : SystemInstruction) : Prop :=
  sys_instr_ok i /\
  match i with
  | Allocate _ | Assign _ | SysTransfer _ | CreateAccount _ _ _ => True
  | _ => False
  end.

Section Create.
Context (hashv : list bytes -> Hash) (on_curve : Hash -> bool) (env : SystemEnv).
Context `{Bincode NonceVersions, Bincode (list (Hash * Z)), Bincode Rent}.
Context (des_sys : bytes -> option SystemInstruction) (ser_sys : SystemInstruction -> bytes).
Context (des_tok : bytes -> option TokenInstruction) (ser_tok : TokenInstruction -> bytes).
Context (Hdes_sys : forall i, sent i -> des_sys (ser_sys i) = Some i).
Context (Hdes_tok : forall w,
  des_tok (ser_tok (InitializeAccount2 w)) = Some (InitializeAccount2 w)).
Context (ic : InvokeContext caller) (keys : list Pubkey) (fuel : nat).
Context (Hsys : find_builtin system_program_id (ic_builtin_programs ic)
                = Some (no_calls (System.process_instruction hashv env des_sys))).
Context (Htok : find_builtin token_program_id (ic_builtin_programs ic)
                = Some (no_calls (process des_tok))).
Abbreviation call := (native_invoke ic keys (process_instruction ic keys fuel)).
(** What holds in every state of the run *)
Context (G : InvokeState -> Prop).
Context (Gnative : forall st, G st -> native_ok (st_ledger st)).
Context (Gcall : forall ix signers st st',
  G st -> call ix signers st = Ok st' -> joined (requested [ix] None) -> G st').

Lemma sent_call i metas signers st st' :
  call (mkInstruction system_program_id metas (ser_sys i)) signers st = Ok st' ->
  sent i -> G st -> joined (requested [mkInstruction system_program_id metas (ser_sys i)] None) ->
  (length metas <= 254)%nat ->
  G st' /\ exists root kas u, unsigned_key <$> kas = meta_pubkey <$> metas /\
    System.execute hashv env (root :: kas) 1 i (st_ledger st) = Ok (u, st_ledger st').
Proof.
  intros Hrun Hi HG Hj Hlen. split; [by eapply Gcall|].
  eapply (system_call hashv env des_sys ser_sys); eauto.
Qed.
Abbreviation at_ st k := (get_account (st_ledger st) k).

Definition fresh_token (st : InvokeState) (k : Pubkey) : Prop :=
  data (at_ st k) = replicate TOKEN_ACCOUNT_LEN x00 /\ owner (at_ st k) = token_program_id /\
  lamports (at_ st k) <= u64_max.

Lemma one_key (kas : list KeyedAccount) k :
  unsigned_key <$> kas = [k] -> exists ka, kas = [ka] /\ k = unsigned_key ka.
Proof. destruct kas as [|ka []]; [done| |done]. intros [= <-]. eauto. Qed.
Lemma two_keys (kas : list KeyedAccount) k k' :
  unsigned_key <$> kas = [k; k'] ->
  exists ka ka', kas = [ka; ka'] /\ k = unsigned_key ka /\ k' = unsigned_key ka'.
Proof. destruct kas as [|ka [|ka' []]]; [done..| |done]. intros [= <- <-]. eauto 6. Qed.

Ltac sent_inv H HG root kas Hk :=
  apply runs_invoke in H; apply sent_call in H as (HG & root & kas & ? & Hk & H);
  [|split; [cbn -[TOKEN_ACCOUNT_LEN]; unfold in_u64, u64_max, TOKEN_ACCOUNT_LEN in *; try lia|done]
   |done|descending|cbn; lia];
  cbn in Hk.

Lemma allocate_assign_runs k signers st u1 st1 u2 st2 :
  runs call (invoke (ix_allocate ser_sys k (Z.of_nat TOKEN_ACCOUNT_LEN)) signers) st u1 st1 ->
  runs call (invoke (ix_assign ser_sys k token_program_id) signers) st1 u2 st2 ->
  G st -> lamports (at_ st k) <= u64_max -> G st2 /\ fresh_token st2 k.
Proof.
  intros Ha Hs HG Hmax. sent_inv Ha HG1 root kas Hk. sent_inv Hs HG2 root' kas' Hk'.
  apply one_key in Hk as (ka & -> & Hk). apply one_key in Hk' as (ka' & -> & Hk').
  apply allocate_run in Ha. apply assign_run in Hs. rewrite <- Hk in Ha. rewrite <- Hk', Ha in Hs.
  rewrite Nat2Z.id in Hs. split; [done|]. unfold fresh_token. by rewrite Hs.
Qed.

Lemma transfer_runs from k x signers st u st' :
  runs call (invoke (ix_transfer ser_sys from k x) signers) st u st' ->
  G st -> in_u64 x -> lamports (at_ st k) <= u64_max -> G st' /\ lamports (at_ st' k) <= u64_max.
Proof.
  intros Hr HG Hx Hmax. sent_inv Hr HG1 root kas Hk. apply two_keys in Hk as (ka & ka' & -> & _ & Hk').
  apply transfer_call_run with (ka := ka) in Hr as (_ & _ & Hr). rewrite <- Hk' in Hr. auto.
Qed.

Lemma fund_runs funder assoc signer r st u st' :
  runs call (fund_account ser_sys funder assoc signer r) st u st' -> G st ->
  in_u64 (lamports (at_ st (unsigned_key assoc))) ->
  G st' /\ fresh_token st' (unsigned_key assoc).
Proof.
  intros Hr HG Hty. unfold fund_account in Hr.
  apply runs_bind in Hr as (b & ? & (-> & ->)%runs_lamports & Hr).
  pose proof (minimum_balance_u64 r TOKEN_ACCOUNT_LEN) as Hmin. destruct Hty as [Hlo Hmax].
  apply runs_if in Hr as [[_ Hr]|[_ Hr]].
  - apply runs_bind in Hr as (b & ? & (-> & ->)%runs_lamports & Hr).
    apply runs_bind in Hr as ([] & st1 & Ht & Hr). apply runs_bind in Hr as ([] & st2 & Ha & Hs).
    assert (G st1 /\ lamports (at_ st1 (unsigned_key assoc)) <= u64_max) as [HG1 Hmax1].
    { apply runs_if in Ht as [[_ Ht]|[_ (_ & ->)%runs_ret]]; [|done].
      eapply transfer_runs; [exact Ht|done| |done].
      unfold in_u64, saturating_sub, u64_max in *. lia. }
    by eapply allocate_assign_runs.
  - sent_inv Hr HG1 root kas Hk. apply two_keys in Hk as (ka & ka' & -> & _ & Hk').
    apply create_run in Hr. rewrite <- Hk', Nat2Z.id in Hr. by split.
Qed.

Lemma initialize_runs k mint wallet ix st st' :
  initialize_account2 ser_tok token_program_id k mint wallet = Ok ix -> call ix [] st = Ok st' ->
  G st -> fresh_token st k ->
  let reserve := minimum_balance rent_default TOKEN_ACCOUNT_LEN in
  let native := bool_decide (mint = native_mint_id) in
  let a := at_ st' k in
  reserve <= lamports a /\
  view_acct a = Some (mkTokenAccount mint wallet (if native then lamports a - reserve else 0) None
                        Initialized (if native then Some reserve else None) 0 None, lamports a).
Proof.
  intros Hix Hr HG (Hd & Ho & Hmax). apply bind_Ok in Hix as (_ & _ & Hix). injection Hix as <-.
  apply call_no_calls with (g := process des_tok) in Hr as (kas & u & Hk & Hr);
    [|done|by apply Gnative|descending|by rewrite requested_length; cbn; lia].
  cbn in Hk. apply two_keys in Hk as (ka & ka' & -> & -> & ->). cbn [ix_data ix_program_id] in Hr.
  unfold process in Hr. apply st_bind_Ok in Hr as (? & ? & Hp & Hr). injection Hp as <- <-.
  apply st_bind_Ok in Hr as (? & ? & Hp & Hr). injection Hp as <- <-.
  cbn [new_with_bincode ix_data] in Hr. rewrite Hdes_tok in Hr.
  apply st_bind_Ok in Hr as (? & ? & Hp & Hr). injection Hp as <- <-.
  cbn [dispatch unsigned_key] in Hr. unfold process_initialize_account2 in Hr.
  exact (initialize_run _ _ _ _ _ _ _ _ Hr Hd Ho Hmax).
Qed.

(** A successful Create *)
Lemma create_runs cached_rent root funder assoc wallet mint rest st u st' :
  runs call (process_create_associated_token_account hashv on_curve ser_sys ser_tok cached_rent
               (root :: funder :: assoc :: wallet :: mint :: rest) 1) st u st' ->
  G st -> in_u64 (lamports (at_ st (unsigned_key assoc))) ->
  let reserve := minimum_balance rent_default TOKEN_ACCOUNT_LEN in
  let native := bool_decide (unsigned_key mint = native_mint_id) in
  let a := at_ st' (unsigned_key assoc) in
  (exists bump, find_program_address (E:=InstructionError) hashv on_curve
     [pk_bytes (unsigned_key wallet); pk_bytes token_program_id; pk_bytes (unsigned_key mint)]
     (unsigned_key root) = Ok (unsigned_key assoc, bump)) /\
  reserve <= lamports a /\
  view_acct a
  = Some (mkTokenAccount (unsigned_key mint) (unsigned_key wallet)
            (if native then lamports a - reserve else 0) None
            Initialized (if native then Some reserve else None) 0 None, lamports a).
Proof.
  intros Hr HG Hty. cbv zeta. unfold process_create_associated_token_account in Hr.
  apply runs_bind in Hr as (x & ? & (Hx & ->)%runs_lift & Hr). injection Hx as <-.
  apply runs_bind in Hr as (accts & ? & (l' & Ha & ->)%runs_local & Hr).
  cbn in Ha. injection Ha as <- <-.
  assert (set_ledger (st_ledger st) st = st) as Heq by (by destruct st). rewrite Heq in Hr. clear Heq.
  do 4 (apply runs_bind in Hr as ([? ?] & ? & ([= <- <-] & ->)%runs_next & Hr)).
  apply runs_bind in Hr as ([address bump] & ? & (Haddr & ->)%runs_lift & Hr).
  apply runs_bind in Hr as ([] & ? & (Hseed%fail_if_Ok & ->)%runs_lift & Hr).
  apply negb_false_iff, bool_decide_eq_true in Hseed as ->.
  apply runs_bind in Hr as (signer & ? & (_ & ->)%runs_lift & Hr).
  apply runs_bind in Hr as (r & ? & (_ & ->)%runs_lift & Hr).
  apply runs_bind in Hr as ([] & st1 & Hfund & Hr).
  apply fund_runs in Hfund as (HG1 & Hd & Ho & Hmax); [|done..].
  apply runs_bind in Hr as (ix & ? & (Hix & ->)%runs_lift & Hr%runs_invoke).
  split; [exists bump; exact Haddr|].
  exact (initialize_runs _ _ _ _ _ _ Hix Hr HG1 (conj Hd (conj Ho Hmax))).
Qed.
End Create.

(** ** The instruction *)

Section TopCreate.
Context (ic : InvokeContext caller) (keys : list Pubkey) (msg : Message).
Context (ci : CompiledInstruction) (pis : list nat) (top : Instruction) (l : ledger) (pid : Pubkey).
Context (Hnd : NoDup (account_keys msg)) (Hlen : (length (account_keys msg) <= 255)%nat).
Context (Hkeys : exists programs, keys = account_keys msg ++ programs).
Context (Htop : decompile msg ci = Ok top) (Hnative : native_program msg keys l ci pis pid).
Context (Hl : native_ok l).
Context (Hprograms : forall k f, find_builtin k (ic_builtin_programs ic) = Some f -> caller_ok f).

Abbreviation call :=
  (native_invoke ic keys (process_instruction ic keys (ic_max_invoke_depth ic))).

Lemma decompiled_keys idxs metas kas :
  decompile_metas msg idxs = Ok metas -> instruction_accounts keys msg [] idxs = Ok kas ->
  unsigned_key <$> kas = meta_pubkey <$> metas.
Proof.
  revert metas kas. induction idxs as [|i idxs IH]; intros metas kas Hm Hk; cbn in Hm, Hk.
  { by simplify_eq. }
  apply bind_Ok in Hm as (k & Hi%ok_or_Ok & Hm). apply bind_Ok in Hm as (metas' & Hm' & Hm).
  injection Hm as <-. destruct Hkeys as [programs Heq].
  rewrite Heq, (lookup_app_l_Some _ _ _ _ Hi), <- Heq in Hk.
  apply bind_Ok in Hk as (kas' & Hk' & Hk). injection Hk as <-. cbn. f_equal. by apply IH.
Qed.

(** The program of a successful instruction ran from a state that calls keep good. *)
Lemma process_top_runs f meter st' :
  process_top ic keys msg ci pis top l meter = Ok st' ->
  find_builtin pid (ic_builtin_programs ic) = Some f ->
  exists (G : InvokeState -> Prop) st1 st2 kas,
    (forall st, G st -> native_ok (st_ledger st)) /\
    (forall ix signers st st', G st -> call ix signers st = Ok st' ->
       joined (requested [ix] None) -> G st') /\
    G st1 /\ st_ledger st1 = l /\ st_ledger st' = st_ledger st2 /\
    unsigned_key <$> kas = meta_pubkey <$> ix_accounts top /\
    runs call (f 1%nat (ci_data ci) (mkKeyed false false pid :: kas)) st1 tt st2.
Proof.
  intros Hrun Hf. unfold process_top in Hrun. cbn [process_instruction] in Hrun.
  rewrite bool_decide_eq_true_2 in Hrun by done. cbn [mbind outcome_bind] in Hrun.
  apply bind_Ok in Hrun as (st1 & Hp & Hrun).
  destruct (push_top ic keys msg ci pis top l pid Htop Hnative _ _ Hp)
    as (accts & Hst1 & Hl1 & _ & _ & Hinv1).
  pose proof Hnative as (p & -> & Hkp & Hpid & Hown). rewrite Hpid in Hrun.
  destruct (push_frame_Ok _ _ _ _ _ _ _ _ _ Hp Hkp) as (kas & Hkas & Hst1' & _).
  assert (kas = accts) as -> by (rewrite Hst1 in Hst1'; by injection Hst1').
  apply bind_Ok in Hrun as (t & Ht & Hrun). apply bind_Ok in Hrun as (st2 & Hr & Hrun).
  apply bind_Ok in Hrun as (st3 & Hv & Hrun). injection Hrun as <-.
  apply bind_Ok in Hv as (m & _ & Hv). injection Hv as <-.
  erewrite find_entry_builtin in Ht; [|exact Hst1|by rewrite Hl1|exact Hf]. injection Ht as <-.
  set (W := writes keys msg ci) in *. set (K := keys_of keys (visit_each_account ci)) in *.
  assert (length K <= 255)%nat as HK by (by eapply top_keys_length).
  exists (fun st => (invoke_stack st = invoke_stack st1 /\ inv ic l W K st) /\ native_ok (st_ledger st)).
  exists st1, st2, accts. split_and!; try done.
  - by intros st [_ ?].
  - intros ix signers st st' [[Hst Hinv] Hn] Hc Hj. rewrite Hst1 in Hst.
    destruct (native_invoke_kept ic keys l W K HK Hl Hprograms
      _ _ _ _ _ _ _ Hst Hc Hinv Hn Hj) as [[Hinv' Hst' _ _] Hn'].
    rewrite Hst1, Hst', Hst. done.
  - by rewrite Hl1.
  - pose proof Htop as H. unfold decompile in H. apply bind_Ok in H as (pid' & _ & H).
    apply bind_Ok in H as (metas & Hm & H). injection H as <-. by apply (decompiled_keys (ci_accounts ci)).
  - unfold runs. rewrite Hl1. rewrite Hl1 in Hr. by apply run_tree_to.
Qed.
End TopCreate.

(** ** The programs of the creation *)

Record creates (hashv : list bytes -> Hash) (on_curve : Hash -> bool) (env : SystemEnv)
    `{Bincode NonceVersions, Bincode (list (Hash * Z)), Bincode Rent}
    (des_sys : bytes -> option SystemInstruction) (ser_sys : SystemInstruction -> bytes)
    (des_tok : bytes -> option TokenInstruction) (ser_tok : TokenInstruction -> bytes)
    (des : bytes -> option AssociatedTokenAccountInstruction) (cached_rent : option Rent)
    (ic : InvokeContext caller) : Prop := {
  cr_programs : forall k f, find_builtin k (ic_builtin_programs ic) = Some f -> caller_ok f;
  cr_associated : find_builtin token_account_program_id (ic_builtin_programs ic)
    = Some (process_associated hashv on_curve ser_sys ser_tok cached_rent des);
  cr_system : find_builtin system_program_id (ic_builtin_programs ic)
    = Some (no_calls (System.process_instruction hashv env des_sys));
  cr_token : find_builtin token_program_id (ic_builtin_programs ic)
    = Some (no_calls (process des_tok));
  cr_des_sys : forall i, sent i -> des_sys (ser_sys i) = Some i;
  cr_des_tok : forall w, des_tok (ser_tok (InitializeAccount2 w)) = Some (InitializeAccount2 w);
}.

(** Derived addresses are no points of the curve. *)
Lemma find_bump_off_curve hashv on_curve turns bump seeds pid k b :
  find_bump hashv on_curve turns bump seeds pid = Some (k, b) -> on_curve k = false.
Proof.
  revert bump. induction turns as [|turns IH]; intros bump Hf; [done|]. cbn in Hf.
  destruct (create_program_address hashv on_curve (seeds ++ [[byte_of_Z bump]]) pid)
    as [a|[]|] eqn:Hc; try done; [|by eapply IH].
  injection Hf as <- <-. unfold create_program_address in Hc. by run_inv.
Qed.
