(* ===== verification/LookupTable.v ===== *)
(** * The address lookup table program (programs/address-lookup-table/src)

    The slot hashes (sdk/program/src/slot_hashes.rs), lookup tables and their use
    (state.rs, and Accounts::load_lookup_table_addresses of runtime/src/accounts.rs), and
    the program that creates, extends, freezes, deactivates and closes them
    (instruction.rs and processor.rs). *)

From Stdlib Require Import ZArith Lia.
From Stdlib Require Import Strings.Byte.
From stdpp Require Import prelude gmap list numbers.
From S2P Require Import Prelude Sdk Runtime SystemInstruction SystemProgram MessageCompile.
From S2P Require Import VoteState BinarySearch Invoke AssociatedAccount.

(** ** Slot hashes *)

Module SlotHashes.
Definition MAX_ENTRIES : nat := 512.

Abbreviation t := (list (Z * Hash)).

Definition search (slot : Z) (h : t) : nat + nat :=
  binary_search_by (fun probe => Z.compare slot probe.1) h.

Definition add (h : t) (slot : Z) (hash : Hash) : t :=
  take MAX_ENTRIES
    match search slot h with
    | inl index => <[index := (slot, hash)]> h
    | inr index => take index h ++ (slot, hash) :: drop index h
    end.

Definition position (h : t) (slot : Z) : option nat :=
  match search slot h with inl index => Some index | inr _ => None end.

Definition get (h : t) (slot : Z) : option Hash :=
  match search slot h with inl index => snd <$> h !! index | inr _ => None end.
End SlotHashes.

Module Lookup.

(** ** Tables *)

Definition LOOKUP_TABLE_MAX_ADDRESSES : nat := 256.
Definition LOOKUP_TABLE_META_SIZE : nat := 56.

Record LookupTableMeta : Type := mkTableMeta {
  deactivation_slot : Z;
  last_extended_slot : Z;
  last_extended_slot_start_index : Z;
  authority : option Pubkey;
  padding : Z;
}.

Inductive ProgramState : Type :=
| Uninitialized
| LookupTable (meta : LookupTableMeta).

Inductive LookupTableStatus : Type :=
| Activated
| Deactivating (remaining_blocks : nat)
| Deactivated.

(** [Slot::MAX] *)
Abbreviation slot_max := u64_max.

Definition table_meta_default : LookupTableMeta := mkTableMeta slot_max 0 0 None 0.

Definition set_authority (a : option Pubkey) (m : LookupTableMeta) : LookupTableMeta :=
  mkTableMeta (deactivation_slot m) (last_extended_slot m) (last_extended_slot_start_index m) a
    (padding m).
Definition set_deactivation_slot (s : Z) (m : LookupTableMeta) : LookupTableMeta :=
  mkTableMeta s (last_extended_slot m) (last_extended_slot_start_index m) (authority m) (padding m).
Definition set_last_extended (s i : Z) (m : LookupTableMeta) : LookupTableMeta :=
  mkTableMeta (deactivation_slot m) s i (authority m) (padding m).

Definition table_meta_new (authority : Pubkey) : LookupTableMeta :=
  set_authority (Some authority) table_meta_default.

Definition status (m : LookupTableMeta) (current_slot : Z) (slot_hashes : SlotHashes.t)
    : LookupTableStatus :=
  if deactivation_slot m =? slot_max then Activated
  else if deactivation_slot m =? current_slot then Deactivating (SlotHashes.MAX_ENTRIES + 1)
  else match SlotHashes.position slot_hashes (deactivation_slot m) with
       | Some slot_hash_position => Deactivating (SlotHashes.MAX_ENTRIES - slot_hash_position)
       | None => Deactivated
       end.

Definition is_active (m : LookupTableMeta) (current_slot : Z) (slot_hashes : SlotHashes.t) : bool :=
  match status m current_slot slot_hashes with
  | Activated => true
  | Deactivating _ => true
  | Deactivated => false
  end.

Record AddressLookupTable : Type := mkTable {
  meta : LookupTableMeta;
  addresses : list Pubkey;
}.

(** [bytemuck::try_cast_slice] of bytes to keys *)
Fixpoint key_slices (n : nat) (d : bytes) : list Pubkey :=
  match n with
  | O => []
  | S n => new_from_array (take 32 d) :: key_slices n (drop 32 d)
  end.
Definition try_cast_slice (d : bytes) : option (list Pubkey) :=
  if (length d mod 32 =? 0)%nat then Some (key_slices (length d / 32) d) else None.

Section Bytes.
Context `{Bincode ProgramState}.

Definition overwrite_meta_data (d : bytes) (m : LookupTableMeta) : outcome InstructionError bytes :=
  _ ← fail_if (length d <? LOOKUP_TABLE_META_SIZE)%nat InvalidAccountData;
  let e := bincode_encode (LookupTable m) in
  _ ← fail_if (LOOKUP_TABLE_META_SIZE <? length e)%nat GenericError;
  Ok (e ++ replicate (LOOKUP_TABLE_META_SIZE - length e) x00 ++ drop LOOKUP_TABLE_META_SIZE d).

Definition deserialize (d : bytes) : outcome InstructionError AddressLookupTable :=
  program_state ← ok_or (bincode_decode (T:=ProgramState) d) InvalidAccountData;
  m ← match program_state with
      | LookupTable m => Ok m
      | Uninitialized => Err UninitializedAccount
      end;
  _ ← fail_if (length d <? LOOKUP_TABLE_META_SIZE)%nat InvalidAccountData;
  ks ← ok_or (try_cast_slice (drop LOOKUP_TABLE_META_SIZE d)) InvalidAccountData;
  Ok (mkTable m ks).
End Bytes.

(** ** Looking addresses up *)

Inductive AddressLookupError : Type :=
| LookupTableAccountNotFound
| LookupInvalidAccountOwner
| LookupInvalidAccountData
| InvalidLookupIndex.

Definition get_active_addresses_len (t : AddressLookupTable) (current_slot : Z)
    (slot_hashes : SlotHashes.t) : outcome AddressLookupError nat :=
  _ ← fail_if (negb (is_active (meta t) current_slot slot_hashes)) LookupTableAccountNotFound;
  Ok (if last_extended_slot (meta t) <? current_slot then length (addresses t)
      else Z.to_nat (last_extended_slot_start_index (meta t))).

(** The slice of the active addresses panics when the table is shorter. *)
Definition lookup (t : AddressLookupTable) (current_slot : Z) (indexes : list Z)
    (slot_hashes : SlotHashes.t) : outcome AddressLookupError (list Pubkey) :=
  active_addresses_len ← get_active_addresses_len t current_slot slot_hashes;
  if (length (addresses t) <? active_addresses_len)%nat then Panic
  else
    let active_addresses := take active_addresses_len (addresses t) in
    ok_or (mapM (fun idx => active_addresses !! Z.to_nat idx) indexes) InvalidLookupIndex.

Record MessageAddressTableLookup : Type := mkLookup {
  lookup_account_key : Pubkey;
  writable_indexes : list Z;
  readonly_indexes : list Z;
}.

Record LoadedAddresses : Type := mkLoaded {
  loaded_writable : list Pubkey;
  loaded_readonly : list Pubkey;
}.

Definition lookup_program_id : Pubkey :=
  pk_of_Z 0x0277a6af97339b7ac88d1892c90446f50002309266f62e53c118244982000000.

(** [Accounts::load_lookup_table_addresses]; the ledger stands for the accounts of the
    ancestors, the last of which is the current slot. *)
Definition load_lookup_table_addresses `{Bincode ProgramState} (l : ledger) (current_slot : Z)
    (address_table_lookup : MessageAddressTableLookup) (slot_hashes : SlotHashes.t)
    : outcome AddressLookupError LoadedAddresses :=
  table_account ← ok_or (l !! lookup_account_key address_table_lookup) LookupTableAccountNotFound;
  if bool_decide (owner table_account = lookup_program_id) then
    lookup_table ← map_err (fun _ => LookupInvalidAccountData) (deserialize (data table_account));
    writable ← lookup lookup_table current_slot (writable_indexes address_table_lookup) slot_hashes;
    readonly ← lookup lookup_table current_slot (readonly_indexes address_table_lookup) slot_hashes;
    Ok (mkLoaded writable readonly)
  else Err LookupInvalidAccountOwner.

(** ** The program *)

Inductive ProgramInstruction : Type :=
| CreateLookupTable (recent_slot bump_seed : Z)
| FreezeLookupTable
| ExtendLookupTable (new_addresses : list Pubkey)
| DeactivateLookupTable
| CloseLookupTable.

(** What the program reads of the sysvar cache *)
Record LookupEnv : Type := mkLookupEnv {
  env_clock : option Clock;
  env_rent : option Rent;
  env_slot_hashes : option SlotHashes.t;
}.
Definition get_clock (e : LookupEnv) : outcome InstructionError Clock :=
  ok_or (env_clock e) UnsupportedSysvar.
Definition get_rent (e : LookupEnv) : outcome InstructionError Rent :=
  ok_or (env_rent e) UnsupportedSysvar.
Definition get_slot_hashes (e : LookupEnv) : outcome InstructionError SlotHashes.t :=
  ok_or (env_slot_hashes e) UnsupportedSysvar.

Definition checked_add (a b : nat) : outcome InstructionError nat :=
  _ ← fail_if (u64_max <? Z.of_nat (a + b)) ArithmeticOverflow; Ok (a + b)%nat.

Section Program.
(** SHA-256 of the concatenation, whether bytes are a point of the curve, and bincode *)
Context (hashv : list bytes -> Hash) (bytes_are_curve_point : Hash -> bool).
Context `{Bincode ProgramState} (serialize_system : SystemInstruction -> bytes).
Context (env : LookupEnv).
Implicit Types (kas : list KeyedAccount) (first : nat).

Definition account_after kas first (n : nat) : prog KeyedAccount :=
  i ← lift (checked_add first n); keyed_account_at_index kas i.
Definition key_of_signer (ka : KeyedAccount) : prog Pubkey :=
  lift (ok_or (signer_key ka) MissingRequiredSignature).

(** What is missing for an account of this size to be rent exempt *)
Definition required_lamports (table : KeyedAccount) (data_len : nat) : prog Z :=
  rent ← lift (get_rent env);
  balance ← ka_lamports table;
  mret (saturating_sub (Z.max (minimum_balance rent data_len) 1) balance).

Definition transfer_required (payer_key table_key : Pubkey) (required : Z) : cpi unit :=
  if 0 <? required
  then invoke (ix_transfer serialize_system payer_key table_key required) [payer_key]
  else mret tt.

(** The checks of [create_lookup_table]: the authority, the payer, the table and the
    lamports it needs *)
Definition check_create kas first (untrusted_recent_slot bump_seed : Z)
    : prog (Pubkey * Pubkey * Pubkey * Z) :=
  table ← keyed_account_at_index kas first;
  len ← ka_data_len table;
  _ ← lift (fail_if (0 <? len)%nat AccountAlreadyInitialized);
  authority_account ← account_after kas first 1;
  authority_key ← key_of_signer authority_account;
  payer_account ← account_after kas first 2;
  payer_key ← key_of_signer payer_account;
  slot_hashes ← lift (get_slot_hashes env);
  _ ← lift (fail_if (bool_decide (SlotHashes.get slot_hashes untrusted_recent_slot = None))
             InvalidInstructionData);
  derived_table_key ← lift (map_err pubkey_error
    (create_program_address hashv bytes_are_curve_point
       [pk_bytes authority_key; to_le_bytes 8 untrusted_recent_slot; [byte_of_Z bump_seed]]
       lookup_program_id));
  let table_key := unsigned_key table in
  _ ← lift (fail_if (negb (bool_decide (table_key = derived_table_key))) InvalidArgument);
  required ← required_lamports table LOOKUP_TABLE_META_SIZE;
  mret (authority_key, payer_key, table_key, required).

Definition create_lookup_table kas first (untrusted_recent_slot bump_seed : Z) : cpi unit :=
  '(authority_key, payer_key, table_key, required) ←
    local (check_create kas first untrusted_recent_slot bump_seed);
  _ ← transfer_required payer_key table_key required;
  _ ← invoke (ix_allocate serialize_system table_key (Z.of_nat LOOKUP_TABLE_META_SIZE)) [table_key];
  _ ← invoke (ix_assign serialize_system table_key lookup_program_id) [table_key];
  local (table ← keyed_account_at_index kas first;
         ka_set_state table (LookupTable (table_meta_new authority_key))).

(** The table and its authority, which signs *)
Definition table_and_authority kas first : prog (KeyedAccount * KeyedAccount) :=
  table ← keyed_account_at_index kas first;
  o ← ka_owner table;
  _ ← lift (fail_if (negb (bool_decide (o = lookup_program_id))) InvalidAccountOwner);
  authority_account ← account_after kas first 1;
  _ ← key_of_signer authority_account;
  mret (table, authority_account).

(** The table as the authority may change it *)
Definition authorized_table (table authority_account : KeyedAccount) : prog AddressLookupTable :=
  d ← ka_data table;
  lookup_table ← lift (deserialize d);
  _ ← lift (fail_if (bool_decide (authority (meta lookup_table) = None)) Immutable);
  _ ← lift (fail_if (negb (bool_decide (authority (meta lookup_table)
                                        = Some (unsigned_key authority_account))))
             IncorrectAuthority);
  mret lookup_table.

Definition write_meta (table : KeyedAccount) (m : LookupTableMeta) : prog unit :=
  update_account [] table (fun a =>
    d ← overwrite_meta_data (data a) m; Ok (set_data d a)).

Definition freeze_lookup_table kas first : prog unit :=
  '(table, authority_account) ← table_and_authority kas first;
  lookup_table ← authorized_table table authority_account;
  _ ← lift (fail_if (negb (deactivation_slot (meta lookup_table) =? slot_max)) InvalidArgument);
  _ ← lift (fail_if (bool_decide (addresses lookup_table = [])) InvalidInstructionData);
  write_meta table (set_authority None (meta lookup_table)).

(** The meta data of a table that is extended in a slot *)
Definition extended_meta (t : AddressLookupTable) (slot : Z)
    : outcome InstructionError LookupTableMeta :=
  if slot =? last_extended_slot (meta t) then Ok (meta t)
  else
    let len := Z.of_nat (length (addresses t)) in
    _ ← fail_if (u8_max <? len) InvalidAccountData;
    Ok (set_last_extended slot len (meta t)).

(** [extend_lookup_table] up to its call: the payer, the table and the lamports it needs *)
Definition extend_table kas first (new_addresses : list Pubkey) : prog (Pubkey * Pubkey * Z) :=
  '(table, authority_account) ← table_and_authority kas first;
  payer_account ← account_after kas first 2;
  payer_key ← key_of_signer payer_account;
  lookup_table ← authorized_table table authority_account;
  _ ← lift (fail_if (negb (deactivation_slot (meta lookup_table) =? slot_max)) InvalidArgument);
  _ ← lift (fail_if (LOOKUP_TABLE_MAX_ADDRESSES <=? length (addresses lookup_table))%nat
             InvalidArgument);
  _ ← lift (fail_if (bool_decide (new_addresses = [])) InvalidInstructionData);
  let new_table_addresses_len := (length (addresses lookup_table) + length new_addresses)%nat in
  _ ← lift (fail_if (LOOKUP_TABLE_MAX_ADDRESSES <? new_table_addresses_len)%nat
             InvalidInstructionData);
  clock ← lift (get_clock env);
  m ← lift (extended_meta lookup_table (clock_slot clock));
  new_table_data_len ← lift (checked_add LOOKUP_TABLE_META_SIZE (new_table_addresses_len * 32));
  _ ← update_account [] table (fun a =>
        d ← overwrite_meta_data (data a) m;
        Ok (set_data (d ++ concat (pk_bytes <$> new_addresses)) a));
  required ← required_lamports table new_table_data_len;
  mret (payer_key, unsigned_key table, required).

Definition extend_lookup_table kas first (new_addresses : list Pubkey) : cpi unit :=
  '(payer_key, table_key, required) ← local (extend_table kas first new_addresses);
  transfer_required payer_key table_key required.

Definition deactivate_lookup_table kas first : prog unit :=
  '(table, authority_account) ← table_and_authority kas first;
  lookup_table ← authorized_table table authority_account;
  _ ← lift (fail_if (negb (deactivation_slot (meta lookup_table) =? slot_max)) InvalidArgument);
  clock ← lift (get_clock env);
  write_meta table (set_deactivation_slot (clock_slot clock) (meta lookup_table)).

Definition close_lookup_table kas first : prog unit :=
  '(table, authority_account) ← table_and_authority kas first;
  recipient ← account_after kas first 2;
  _ ← lift (fail_if (bool_decide (unsigned_key recipient = unsigned_key table)) InvalidArgument);
  lookup_table ← authorized_table table authority_account;
  clock ← lift (get_clock env);
  slot_hashes ← lift (get_slot_hashes env);
  _ ← lift (match status (meta lookup_table) (clock_slot clock) slot_hashes with
            | Activated => Err InvalidArgument
            | Deactivating _ => Err InvalidArgument
            | Deactivated => Ok tt
            end);
  withdrawn_lamports ← ka_lamports table;
  _ ← update_account [] recipient (System.checked_add_lamports withdrawn_lamports);
  update_account [] table (fun a => Ok (set_lamports 0 (set_data [] a))).

Definition process_lookup (limited_deserialize : bytes -> option ProgramInstruction)
    (first : nat) (d : bytes) (kas : list KeyedAccount) : cpi unit :=
  i ← local (lift (ok_or (limited_deserialize d) InvalidInstructionData));
  match i with
  | CreateLookupTable recent_slot bump_seed => create_lookup_table kas first recent_slot bump_seed
  | FreezeLookupTable => local (freeze_lookup_table kas first)
  | ExtendLookupTable new_addresses => extend_lookup_table kas first new_addresses
  | DeactivateLookupTable => local (deactivate_lookup_table kas first)
  | CloseLookupTable => local (close_lookup_table kas first)
  end.

(** ** Building instructions *)

Context (serialize_lookup : ProgramInstruction -> bytes).

Definition derive_lookup_table_address {E} (authority_address : Pubkey) (recent_block_slot : Z)
    : outcome E (Pubkey * Z) :=
  find_program_address hashv bytes_are_curve_point
    [pk_bytes authority_address; to_le_bytes 8 recent_block_slot] lookup_program_id.

Definition ix_create_lookup_table {E} (authority_address payer_address : Pubkey) (recent_slot : Z)
    : outcome E (Instruction * Pubkey) :=
  '(lookup_table_address, bump_seed) ← derive_lookup_table_address authority_address recent_slot;
  Ok (mkInstruction lookup_program_id
        [meta_new lookup_table_address false; meta_new_readonly authority_address true;
         meta_new payer_address true; meta_new_readonly system_program_id false]
        (serialize_lookup (CreateLookupTable recent_slot bump_seed)), lookup_table_address).

Definition ix_freeze_lookup_table (lookup_table_address authority_address : Pubkey) : Instruction :=
  mkInstruction lookup_program_id
    [meta_new lookup_table_address false; meta_new_readonly authority_address true]
    (serialize_lookup FreezeLookupTable).

Definition ix_extend_lookup_table (lookup_table_address authority_address payer_address : Pubkey)
    (new_addresses : list Pubkey) : Instruction :=
  mkInstruction lookup_program_id
    [meta_new lookup_table_address false; meta_new_readonly authority_address true;
     meta_new payer_address true; meta_new_readonly system_program_id false]
    (serialize_lookup (ExtendLookupTable new_addresses)).

Definition ix_deactivate_lookup_table (lookup_table_address authority_address : Pubkey)
    : Instruction :=
  mkInstruction lookup_program_id
    [meta_new lookup_table_address false; meta_new_readonly authority_address true]
    (serialize_lookup DeactivateLookupTable).

Definition ix_close_lookup_table (lookup_table_address authority_address recipient_address : Pubkey)
    : Instruction :=
  mkInstruction lookup_program_id
    [meta_new lookup_table_address false; meta_new_readonly authority_address true;
     meta_new recipient_address false]
    (serialize_lookup CloseLookupTable).
End Program.
End Lookup.
