(* ===== verification/CallSteps.v ===== *)
(** * Messages with calls as sequences of verified stretches

    A program runs in stretches between its calls.  When it hands the accounts it wrote
    to the next call, or returns, the runtime verifies what the stretch changed.  So a
    message is a sequence of stretches, each of one program and verified, whatever the
    nesting of the calls.  [does] says what the stretches of a program do. *)

From Stdlib Require Import ZArith Lia.
From Stdlib Require Import Strings.Byte.
From stdpp Require Import prelude gmap list numbers relations.
From S2P Require Import Prelude Sdk Runtime SystemInstruction MessageCompile MessageFacts.
From S2P Require Import Invoke InvokeFacts InvokeRuns TokenSafety CallerFacts AssociatedFacts.

Import Invoke.

Section Steps.
Context (ic : InvokeContext caller).
Context (does : Pubkey -> list KeyedAccount -> ledger -> ledger -> Prop).
(** What holds of every ledger between stretches *)
Context (holds : ledger -> Prop).

(** ** Stretches *)

Record stretch (pid : Pubkey) (kas : list KeyedAccount) (l l' : ledger) : Prop := {
  sc_found : is_Some (find_builtin pid (ic_builtin_programs ic));
  sc_does : does pid kas l l';
  sc_executable : same_executable l l';
  sc_verified : verified_change pid (ic_rent ic) (ic_do_support_realloc ic) l l';
}.

(** A stretch of a program and accounts that [Q] allows *)
Definition step_in (Q : Pubkey -> list KeyedAccount -> Prop) (l l' : ledger) : Prop :=
  exists pid kas, Q pid kas /\ stretch pid kas l l'.
Definition anyone : Pubkey -> list KeyedAccount -> Prop := fun _ _ => True.

(** Only the callee runs when it makes no calls. *)
Definition calls_none (p : Pubkey) : Prop :=
  forall f, find_builtin p (ic_builtin_programs ic) = Some f -> exists g, f = no_calls g.
Definition within (p : Pubkey) : Pubkey -> list KeyedAccount -> Prop :=
  fun q _ => calls_none p -> q = p.

(** The run of a callee that makes no calls *)
Definition leaf_ran (ix : Instruction) (l l' : ledger) : Prop :=
  forall g, find_builtin (ix_program_id ix) (ic_builtin_programs ic) = Some (no_calls g) ->
  joined (requested [ix] None) -> (length (ix_accounts ix) <= 254)%nat ->
  exists kas u, unsigned_key <$> kas = meta_pubkey <$> ix_accounts ix /\
    g 1%nat (ix_data ix) (mkKeyed false false (ix_program_id ix) :: kas) l = Ok (u, l').

(** What a stretch leaves when the accounts [ks] are verified next *)
Definition handed (pid : Pubkey) (kas : list KeyedAccount) (ks : list Pubkey) (l l' : ledger) : Prop :=
  l' = l \/ (agree_outside ks l l' /\ same_executable l l' /\ does pid kas l l').

(** A program whose stretches do what they should and hand over what they write *)
Fixpoint stretches (Q : Pubkey -> list KeyedAccount -> Prop) (pid : Pubkey) (kas : list KeyedAccount)
    (l : ledger) (t : tree unit) : Prop :=
  match t with
  | TRet _ l' => handed pid kas (unsigned_key <$> kas) l l'
  | TCall ix _ l' k =>
      handed pid kas (meta_pubkey <$> ix_accounts ix) l l' /\
      (l' = l \/ joined (requested [ix] None) /\ (length (ix_accounts ix) <= 254)%nat) /\
      (forall q kas', within (ix_program_id ix) q kas' -> Q q kas') /\
      forall l'', native_ok l'' -> holds l'' -> rtc (step_in (within (ix_program_id ix))) l' l'' ->
        leaf_ran ix l' l'' -> stretches Q pid kas l'' (k l'')
  | _ => True
  end.

Definition well_stretched (pid : Pubkey) (f : caller) : Prop :=
  forall d kas l, native_ok l -> holds l ->
  stretches anyone pid kas l (f 1%nat d (mkKeyed false false pid :: kas) l).

Context (Hholds : forall pid kas l l', does pid kas l l' -> holds l -> holds l').
Context (Hprograms : forall p f, find_builtin p (ic_builtin_programs ic) = Some f -> well_stretched p f).

(** Programs that make no calls, and programs that write nothing *)
Lemma no_calls_stretched pid g :
  confined g -> (forall n d kas, keeps (g n d kas)) ->
  (forall d kas l u l', g 1%nat d (mkKeyed false false pid :: kas) l = Ok (u, l') -> does pid kas l l') ->
  well_stretched pid (no_calls g).
Proof.
  intros Hc Hk Hd d kas l _ _. unfold no_calls, local.
  destruct (g _ _ _ _) as [[u l']| |] eqn:Hrun; cbn; try done. right. split_and!.
  - intros k Hnk. apply (Hc _ _ _ _ _ _ Hrun). intros ka Hka <-. cbn in Hka. rewrite drop_0 in Hka.
    by apply Hnk, list_elem_of_fmap_2.
  - by eapply Hk.
  - by eapply Hd.
Qed.

Lemma only_calls_stretched pid kas t l :
  native_ok l -> only_calls l t -> stretches anyone pid kas l t.
Proof.
  revert l. induction t as [u l'|e| |ix s l' k IH]; intros l Hl H; try done; cbn in H |- *.
  - by left.
  - destruct H as (-> & _ & Hk). split_and!; [by left|by left|done|]. intros l'' Hn _ _ _. auto.
Qed.

Lemma pure_stretched pid f : (forall n d kas, pure_caller (f n d kas)) -> well_stretched pid f.
Proof. intros Hp d kas l Hl _. apply only_calls_stretched; [done|]. by apply Hp. Qed.

Lemma step_in_mono Q Q' l l' :
  (forall q kas, Q q kas -> Q' q kas) -> step_in Q l l' -> step_in Q' l l'.
Proof. intros HQ (pid & kas & Hq & Hs). exists pid, kas. auto. Qed.
Lemma steps_in_mono Q Q' l l' :
  (forall q kas, Q q kas -> Q' q kas) -> rtc (step_in Q) l l' -> rtc (step_in Q') l l'.
Proof. intros HQ. apply rtc_subrel. intros ??. by apply step_in_mono. Qed.

Lemma stretch_native Q l l' : step_in Q l l' -> native_ok l -> native_ok l' /\ same_executable l l'.
Proof.
  intros (pid & kas & _ & [_ _ Hex Hv]) Hl. split; [|done].
  intros k Hk. rewrite Hex in Hk. destruct (Hv k) as [->|(w & Hc)]; [by apply Hl|].
  destruct (decide (owner (get_account l k) = owner (get_account l' k))) as [<-|Hne]; [by apply Hl|].
  apply (ca_owner _ _ _ _ _ _ Hc) in Hne as (_ & Hne & _). congruence.
Qed.

(** What no program owns keeps its owner. *)
Lemma stretch_owner Q l l' k :
  step_in Q l l' -> find_builtin (owner (get_account l k)) (ic_builtin_programs ic) = None ->
  owner (get_account l' k) = owner (get_account l k).
Proof.
  intros (pid & kas & _ & [Hf _ _ Hv]) Hk. destruct (Hv k) as [->|(w & Hc)]; [done|].
  destruct (decide (owner (get_account l k) = owner (get_account l' k))) as [|Hne]; [done|].
  apply (ca_owner _ _ _ _ _ _ Hc) in Hne as (_ & _ & Hpid & _). rewrite <- Hpid in Hk.
  destruct Hf as [g Hg]. congruence.
Qed.

(** ** The pre-accounts follow the ledger *)

Context (keys : list Pubkey).

Definition synced (l : ledger) (pres : list PreAccount) : Prop :=
  Forall (fun p => pre_account p = get_account l (pre_key p)) pres.

(** The ledger [l] is the last that was verified. *)
Record good (l : ledger) (st : InvokeState) : Prop := {
  gd_synced : synced l (st_pre_accounts st);
  gd_nodup : NoDup (pre_key <$> st_pre_accounts st);
  gd_native : native_ok l;
  gd_holds : holds l;
}.

(** A check when nothing was changed since the last one *)
Lemma verify_and_update_good st ci ais ws st' :
  verify_and_update ic keys st ci ais ws = Ok st' -> good (st_ledger st) st ->
  good (st_ledger st) st'.
Proof.
  unfold verify_and_update. intros H [Hs Hnd Hnat Hh]. run_inv.
  match goal with H : verify_and_update_loop _ _ _ _ _ _ _ _ _ _ _ = _ |- _ =>
    eapply (verify_and_update_loop_Ok _ _ _ _ _ _
      (fun k a => a = get_account (st_ledger st) k)) in H as (Hall & _ & Hkeys & _); [|done|exact Hs] end.
  split; [done| |done|done]. cbn. by rewrite Hkeys.
Qed.
(** The check after a run: visited pre-accounts are those of the ledger [l'], the others
    those of [l]. *)
Section Loop.
Context (prog : Pubkey) (ais : list nat) (ws : list bool) (l l' : ledger).

Definition tracks (done : list Pubkey) (pres : list PreAccount) : Prop :=
  Forall (fun p => pre_account p = get_account (if decide (pre_key p ∈ done) then l' else l)
                                    (pre_key p)) pres.
Abbreviation allowed_change k :=
  (exists w, change_allowed prog w (ic_rent ic) (ic_do_support_realloc ic) (get_account l k)
               (get_account l' k)).

Lemma verify_loop_tracks idxs pres done s0 s0' m pres' s1 s1' m' :
  verify_and_update_loop ic keys prog ais ws l' idxs pres s0 s0' m = Ok (pres', s1, s1', m') ->
  tracks done pres -> NoDup (pre_key <$> pres) ->
  exists visited, tracks (visited ++ done) pres' /\ pre_key <$> pres' = pre_key <$> pres /\
    (forall k, k ∈ visited -> k ∈ done \/ allowed_change k) /\
    (forall i j k, i ∈ idxs -> ais !! i = Some j -> keys !! j = Some k -> k ∈ visited).
Proof.
  revert pres done s0 s0' m. induction idxs as [|i idxs IH]; intros pres done s0 s0' m Hrun Ht Hnd.
  { cbn in Hrun. simplify_eq. exists []. split_and!; [done|done|..]; set_solver. }
  cbn in Hrun. destruct (ws !! i) as [w|] eqn:Hw; [|done].
  destruct (ais !! i) as [j|] eqn:Hj; [|done]. destruct (keys !! j) as [k|] eqn:Hk; [|done].
  run_inv. fold (updated_pre w (get_account l' k) p) in *.
  match goal with H : list_find _ _ = _ |- _ => apply list_find_Some in H as (Hn & Hkey & _) end.
  match goal with H : verify_account _ _ _ _ _ _ = _ |- _ => apply verify_account_Ok in H as Hc end.
  pose proof (updated_pre_account _ _ _ _ _ Hc) as Hup.
  assert (pre_key <$> <[n := updated_pre w (get_account l' k) p]> pres = pre_key <$> pres) as Hkeys.
  { rewrite list_fmap_insert, updated_pre_key. apply list_insert_id. by rewrite list_lookup_fmap, Hn. }
  assert (k ∈ done \/ allowed_change k) as Hstep.
  { pose proof (proj1 (Forall_lookup _ _) Ht n p Hn) as Hp. cbn beta in Hp. rewrite Hkey in Hp.
    case_decide; [by left|right]. exists w. by rewrite <- Hp. }
  destruct (IH _ (k :: done) _ _ _ Hrun) as (visited & Ht' & Hk' & Hall & Hvis).
  - apply Forall_lookup. intros n' q Hq. destruct (decide (n' = n)) as [->|Hne].
    + rewrite list_lookup_insert_eq in Hq by (by eapply lookup_lt_Some). injection Hq as <-.
      rewrite Hup, updated_pre_key, Hkey, decide_True by (by left). done.
    + rewrite list_lookup_insert_ne in Hq by done.
      pose proof (proj1 (Forall_lookup _ _) Ht n' q Hq) as Hq'. rewrite Hq'. f_equal.
      assert (pre_key q <> k) as Hqk.
      { intros Hqk. apply Hne. eapply (NoDup_lookup _ _ _ k Hnd); rewrite list_lookup_fmap, ?Hq, ?Hn; cbn; congruence. }
      rewrite (decide_ext (pre_key q ∈ k :: done) (pre_key q ∈ done)); [done|].
      rewrite elem_of_cons. naive_solver.
  - by rewrite Hkeys.
  - exists (visited ++ [k]). split_and!.
    + rewrite <- app_assoc. exact Ht'.
    + congruence.
    + intros k' [Hin|Hin]%elem_of_app; [|by apply list_elem_of_singleton in Hin as ->].
      destruct (Hall k' Hin) as [[->|?]%elem_of_cons|?]; [done|by left|by right].
    + intros i' j' k' [->|Hi']%elem_of_cons Hj' Hk''; apply elem_of_app.
      * right. apply list_elem_of_singleton. congruence.
      * left. by eapply Hvis.
Qed.
End Loop.

(** The check after the run of a program that makes no calls *)
Lemma verify_leaf st st' ci ais ws l pid f S :
  verify_and_update ic keys st ci ais ws = Ok st' ->
  invoke_stack st = f :: S -> frame_program_id f = Some pid ->
  synced l (st_pre_accounts st) -> NoDup (pre_key <$> st_pre_accounts st) ->
  (forall k, (forall i j, i ∈ ci_accounts ci -> ais !! i = Some j -> keys !! j <> Some k) ->
     st_ledger st !! k = l !! k) ->
  verified_change pid (ic_rent ic) (ic_do_support_realloc ic) l (st_ledger st) /\
  synced (st_ledger st) (st_pre_accounts st') /\
  pre_key <$> st_pre_accounts st' = pre_key <$> st_pre_accounts st /\
  st_ledger st' = st_ledger st.
Proof.
  unfold verify_and_update. intros H Hst Hpid Hs Hnd Hconf. rewrite Hst in H.
  cbn [head mbind option_bind] in H. rewrite Hpid in H. run_inv.
  match goal with H : Some pid = Some _ |- _ => injection H as <- end.
  match goal with H : verify_and_update_loop _ _ _ _ _ _ _ _ _ _ _ = _ |- _ =>
    eapply (verify_loop_tracks _ _ _ l _ _ _ []) in H as (visited & Ht & Hk & Hall & Hvis); [|exact Hs|done] end.
  rewrite app_nil_r in Ht.
  assert (forall k, k ∉ visited -> get_account (st_ledger st) k = get_account l k) as Hout.
  { intros k Hk'. unfold get_account. rewrite Hconf; [done|]. intros i j Hi Hij Hjk. apply Hk'.
    apply (Hvis i j k); [|done..]. by apply visit_each_account_spec. }
  split_and!; [| |done|done].
  - intros k. destruct (decide (k ∈ visited)) as [Hin|Hout']; [|left; by apply Hout].
    destruct (Hall k Hin) as [Hnil|?]; [by apply not_elem_of_nil in Hnil|by right].
  - eapply Forall_impl; [exact Ht|]. intros p Hp. cbn beta in Hp |- *. rewrite Hp.
    case_decide as Hin; [done|]. symmetry. by apply Hout.
Qed.

(** ** Calls *)

(** The check of the accounts of a call, or after it, when the program hands over [ks] *)
Lemma verify_handed st st' ci ais ws l pid kas ks f S :
  verify_and_update ic keys st ci ais ws = Ok st' ->
  invoke_stack st = f :: S -> frame_program_id f = Some pid ->
  is_Some (find_builtin pid (ic_builtin_programs ic)) ->
  good l st -> handed pid kas ks l (st_ledger st) ->
  (st_ledger st = l \/ forall k, k ∈ ks ->
     exists i j, i ∈ ci_accounts ci /\ ais !! i = Some j /\ keys !! j = Some k) ->
  (st_ledger st = l \/ stretch pid kas l (st_ledger st)) /\ good (st_ledger st) st'.
Proof.
  intros Hv Hst Hpid Hf Hg Hh Hks.
  destruct (decide (st_ledger st = l)) as [<-|Hne].
  { split; [by left|]. by eapply verify_and_update_good. }
  destruct Hh as [?|(Hag & Hex & Hd)]; [done|]. destruct Hks as [?|Hks]; [done|].
  destruct (verify_leaf _ _ _ _ _ l pid _ _ Hv Hst Hpid) as (Hvc & Hs & Hk & Hl').
  - apply Hg.
  - apply Hg.
  - intros k Hk. apply Hag. intros (i & j & Hi & Hij & Hj)%Hks. by apply (Hk i j).
  - assert (stretch pid kas l (st_ledger st)) as Hstr by (by split).
    split; [by right|]. split; [done|rewrite Hk; apply Hg| |].
    + apply (stretch_native anyone l); [|apply Hg]. by exists pid, kas.
    + eapply Hholds; [exact Hd|apply Hg].
Qed.

Lemma stretch_steps (Q : Pubkey -> list KeyedAccount -> Prop) pid kas l l' :
  l' = l \/ stretch pid kas l l' -> Q pid kas -> rtc (step_in Q) l l'.
Proof. intros [->|Hs] HQ; [done|]. apply rtc_once. by exists pid, kas. Qed.

Definition step_call
    (call : Instruction -> list Pubkey -> InvokeState -> outcome InstructionError InvokeState)
    : Prop :=
  forall ix signers st st' l f S pid kas,
  call ix signers st = Ok st' -> invoke_stack st = f :: S -> frame_program_id f = Some pid ->
  is_Some (find_builtin pid (ic_builtin_programs ic)) -> good l st ->
  handed pid kas (meta_pubkey <$> ix_accounts ix) l (st_ledger st) ->
  (st_ledger st = l \/ joined (requested [ix] None) /\ (length (ix_accounts ix) <= 254)%nat) ->
  (st_ledger st = l \/ stretch pid kas l (st_ledger st)) /\
  rtc (step_in (within (ix_program_id ix))) (st_ledger st) (st_ledger st') /\
  leaf_ran ix (st_ledger st) (st_ledger st') /\ good (st_ledger st') st'.

Lemma run_tree_steps Q call t f S pid kas : step_call call -> steady_call call ->
  frame_program_id f = Some pid -> is_Some (find_builtin pid (ic_builtin_programs ic)) ->
  Q pid kas -> forall st st', run_tree call t st = Ok st' -> invoke_stack st = f :: S ->
  good (st_ledger st) st -> stretches Q pid kas (st_ledger st) t ->
  exists l, rtc (step_in Q) (st_ledger st) l /\ good l st' /\
    handed pid kas (unsigned_key <$> kas) l (st_ledger st') /\ invoke_stack st' = f :: S.
Proof.
  intros Hcall Hsteady Hpid Hf HQ.
  induction t as [a l|e| |ix signers l k IH]; intros st st' Hrun Hst Hg Ht; cbn in Hrun, Ht; try done.
  - injection Hrun as <-. exists (st_ledger st). by split_and!; [|destruct Hg|..].
  - destruct Ht as (Hh & Hj & Hsub & Hk). apply bind_Ok in Hrun as (st1 & Hc & Hrun).
    destruct (Hcall _ _ _ _ (st_ledger st) f S pid kas Hc Hst Hpid Hf) as (Hstep & Hcs & Hleaf & Hg1);
      [by destruct Hg|done|done|].
    pose proof (Hsteady _ _ _ _ Hc) as [Hst1 _]. cbn in Hst1, Hcs, Hstep.
    destruct (IH (st_ledger st1) st1 st' Hrun) as (l1 & Hsteps & Hg' & Hh' & Hst').
    + by rewrite Hst1.
    + done.
    + apply Hk; [apply Hg1|apply Hg1|done|done].
    + exists l1. split_and!; [|done..].
      etrans; [by eapply stretch_steps|]. etrans; [|exact Hsteps]. by eapply steps_in_mono.
Qed.

(** The frame of the called program, and that nothing else changed *)
Lemma push_good st st' msg ci p ais pid :
  push ic keys st msg ci [p] ais = Ok st' -> keys !! p = Some pid -> invoke_stack st <> [] ->
  exists kas, instruction_accounts keys msg ais (ci_accounts ci) = Ok kas /\
    invoke_stack st' = mkFrame 1 (mkKeyed false false pid :: kas) :: invoke_stack st /\
    st_ledger st' = st_ledger st /\ st_pre_accounts st' = st_pre_accounts st.
Proof.
  intros Hp Hkp Hne. destruct (push_frame_Ok _ _ _ _ _ _ _ _ _ Hp Hkp) as (kas & Hk & Hst & Hl).
  exists kas. split_and!; try done. unfold push in Hp.
  destruct (invoke_stack st) as [|f S]; [done|].
  repeat (apply bind_Ok in Hp as (? & ? & Hp)). injection Hp as <-. cbn.
  match goal with H : (_ ← check_reentrancy _ _; _) = Ok _ |- _ =>
    apply bind_Ok in H as (? & _ & H); by injection H as <- end.
Qed.

(** The program that runs *)
Lemma entry_stretches st pid kas S d t :
  find_entry ic st d = Ok t -> invoke_stack st = mkFrame 1 (mkKeyed false false pid :: kas) :: S ->
  owner (get_account (st_ledger st) pid) = native_loader_id -> native_ok (st_ledger st) ->
  holds (st_ledger st) ->
  exists f, find_builtin pid (ic_builtin_programs ic) = Some f /\
    t = f 1%nat d (mkKeyed false false pid :: kas) (st_ledger st) /\
    stretches anyone pid kas (st_ledger st) t.
Proof.
  intros Ht Hst Hown Hnat Hh. unfold find_entry in Ht. rewrite Hst in Ht.
  cbn [head mbind outcome_bind ok_or frame_keyed_accounts lookup list_lookup unsigned_key] in Ht.
  rewrite Hown, bool_decide_eq_true_2 in Ht by done.
  apply bind_Ok in Ht as (g & Hg & Ht). injection Ht as <-. apply ok_or_Ok in Hg.
  exists g. split_and!; [done..|]. by apply Hprograms.
Qed.

(** A callee that makes no calls runs alone. *)
Lemma stretches_within p kas t l :
  stretches anyone p kas l t -> (calls_none p -> match t with TCall _ _ _ _ => False | _ => True end) ->
  stretches (within p) p kas l t.
Proof.
  revert l. induction t as [a l'|e| |ix signers l' k IH]; intros l Ht Hnone; cbn in Ht |- *; try done.
  destruct Ht as (Hh & Hj & _ & Hk). split_and!; [done|done|by intros q kas' _ Hn|].
  intros l'' Hn Hho Hs Hlf. apply IH; [by apply Hk|]. by intros.
Qed.

(** The accounts of a call are verified before it. *)
Lemma called_visits f l ix signers msg ws ais pis ci :
  called keys f l ix signers msg ws ais pis -> instructions msg !! 0%nat = Some ci ->
  joined (requested [ix] None) -> (length (ix_accounts ix) <= 254)%nat ->
  forall k, k ∈ meta_pubkey <$> ix_accounts ix ->
  exists i j, i ∈ ci_accounts ci /\ ais !! i = Some j /\ keys !! j = Some k.
Proof.
  intros Hc Hci Hj Hlen k (m & -> & Hm)%list_elem_of_fmap.
  destruct (message_compiles ix msg Hj) as (ci' & Hins & _ & Hacc & _);
    [rewrite requested_length; lia|apply Hc|].
  rewrite Hins in Hci. injection Hci as <-. apply list_elem_of_lookup in Hm as [n Hn].
  destruct (Forall2_lookup_l _ _ _ _ _ Hacc Hn) as (i & Hi & Hik).
  destruct (lookup_lt_is_Some_2 ais i) as [j Hij].
  { rewrite (cd_length _ _ _ _ _ _ _ _ _ Hc). by eapply lookup_lt_Some. }
  destruct (cd_index _ _ _ _ _ _ _ _ _ Hc i j Hij) as (k & Hk & Hkj).
  exists i, j. split_and!; [by eapply list_elem_of_lookup_2|done|congruence].
Qed.

(** The accounts of a frame are those of its instruction. *)
Lemma accounts_visited f l ix signers msg ws ais pis ci kas :
  called keys f l ix signers msg ws ais pis ->
  is_Some (account_keys msg !! program_id_index ci) ->
  instruction_accounts keys msg ais (ci_accounts ci) = Ok kas ->
  forall k, k ∈ unsigned_key <$> kas ->
  exists i j, i ∈ ci_accounts ci /\ ais !! i = Some j /\ keys !! j = Some k.
Proof.
  intros Hc Hprog Hkas k (ka & -> & Hka)%list_elem_of_fmap.
  apply instruction_accounts_keys in Hkas. apply list_elem_of_lookup in Hka as [m Hm].
  destruct (Forall2_lookup_r _ _ _ _ _ Hkas Hm) as (i & Hi & j & Hij & Hj).
  exists i, j. split_and!; [by eapply list_elem_of_lookup_2| |done]. unfold account_index in Hij.
  pose proof (cd_length _ _ _ _ _ _ _ _ _ Hc) as Hlen. destruct ais as [|a ais'] eqn:Hais.
  { cbn in Hlen. destruct (account_keys msg); [by destruct Hprog|done]. }
  rewrite <- Hais in *. by destruct (ais !! i); simplify_eq.
Qed.

Lemma native_invoke_steps fuel :
  step_call (native_invoke ic keys (process_instruction ic keys fuel)).
Proof.
  induction fuel as [|fuel IH]; intros ix signers st st' l f S pid kas Hrun Hst Hpid Hf Hg Hh Hj;
    destruct (native_invoke_Ok _ _ _ _ _ _ _ _ _ Hst Hrun)
      as (n & msg & ci & ws & ais & pis & st1 & st2 & st3 & st4 & t & Hn & Hiv); [done|].
  injection Hn as <-. destruct Hiv as [Hc Hci Hv1 Hp Hprog Ht Hr Hv2 ->].
  destruct (verify_and_update_steady _ _ _ _ _ _ _ Hv1) as [[Hst1 _] Hl1]. cbn in Hst1, Hl1.
  destruct (verify_handed _ _ _ _ _ l pid kas (meta_pubkey <$> ix_accounts ix) f S Hv1 Hst Hpid Hf)
    as [Hstep Hg1]; [by destruct Hg|done| |].
  { destruct Hj as [?|[Hj Hlen]]; [by left|right]. by eapply called_visits. }
  cbn in Hstep, Hg1. split; [done|].
  destruct (cd_program _ _ _ _ _ _ _ _ _ Hc) as (p & -> & Hkp).
  destruct (push_good _ _ _ _ _ _ _ Hp Hkp) as (kas' & Hkas & Hst2 & Hl2 & Hpre2);
    [by rewrite Hst1, Hst|].
  rewrite Hl1 in Hl2.
  assert (good (st_ledger st2) st2) as Hg2 by (destruct Hg1; split; by rewrite ?Hl2, ?Hpre2).
  destruct (entry_stretches _ _ _ _ _ _ Ht Hst2) as (g & Hfg & Htg & Hstr).
  { rewrite Hl2. apply (gd_native _ _ Hg1), (cd_executable _ _ _ _ _ _ _ _ _ Hc). }
  { apply Hg2. }
  { apply Hg2. }
  destruct (run_tree_steps (within (ix_program_id ix)) _ t
    (mkFrame 1 (mkKeyed false false (ix_program_id ix) :: kas')) _ (ix_program_id ix) kas' IH
    (native_invoke_steady _ _ _) eq_refl (mk_is_Some _ _ Hfg) (fun _ => eq_refl) _ _ Hr Hst2 Hg2)
    as (l3 & Hsteps & Hg3 & Hh3 & Hst3).
  { apply stretches_within; [done|]. intros Hnone. destruct (Hnone _ Hfg) as [g' ->]. subst t.
    unfold no_calls, local. by repeat case_match. }
  destruct (verify_handed _ _ _ _ _ l3 (ix_program_id ix) kas' _ _ _ Hv2 Hst3 eq_refl
    (mk_is_Some _ _ Hfg) Hg3 Hh3) as [Hstep' Hg4]; [right; by eapply accounts_visited|].
  destruct (verify_and_update_steady _ _ _ _ _ _ _ Hv2) as [_ Hl4]. split_and!.
  - cbn. rewrite Hl4, <- Hl2. etrans; [exact Hsteps|]. by eapply stretch_steps.
  - intros g' Hg' Hj' Hlen. apply (call_no_calls _ _ _ _ _ _ _ _ Hrun Hg'); [apply Hg1|done|].
    rewrite requested_length. lia.
  - cbn. rewrite Hl4. by destruct Hg4.
Qed.

(** The keys of the pre-accounts stay. *)
Definition same_pre_keys (st st' : InvokeState) : Prop :=
  pre_key <$> st_pre_accounts st' = pre_key <$> st_pre_accounts st.

Lemma verify_and_update_pre_keys st ci ais ws st' :
  verify_and_update ic keys st ci ais ws = Ok st' -> same_pre_keys st st'.
Proof.
  unfold verify_and_update. intros H. run_inv.
  match goal with H : verify_and_update_loop _ _ _ _ _ _ _ _ _ _ _ = _ |- _ =>
    eapply (verify_and_update_loop_Ok _ _ _ _ _ _ (fun _ _ => True)) in H
      as (_ & _ & Hk & _); [done|done|by apply Forall_true] end.
Qed.

Lemma run_tree_pre_keys call t st st' :
  (forall ix signers st st', call ix signers st = Ok st' -> same_pre_keys st st') ->
  run_tree call t st = Ok st' -> same_pre_keys st st'.
Proof.
  intros Hcall. revert st. induction t as [a l|e| |ix signers l k IH]; intros st Hrun;
    cbn in Hrun; try done.
  - by injection Hrun as <-.
  - apply bind_Ok in Hrun as (st1 & Hc & Hrun). unfold same_pre_keys.
    rewrite (IH _ _ Hrun). apply (Hcall _ _ _ _ Hc).
Qed.

Lemma native_invoke_pre_keys fuel ix signers st st' :
  native_invoke ic keys (process_instruction ic keys fuel) ix signers st = Ok st' ->
  same_pre_keys st st'.
Proof.
  revert ix signers st st'. induction fuel as [|fuel IH]; intros ix signers st st' Hrun;
    destruct (native_invoke_stack _ _ _ _ _ _ _ Hrun) as (f & S & Hst);
    destruct (native_invoke_Ok _ _ _ _ _ _ _ _ _ Hst Hrun)
      as (n & msg & ci & ws & ais & pis & st1 & st2 & st3 & st4 & t & Hn & Hiv); [done|].
  injection Hn as <-. destruct Hiv as [Hc _ Hv1 Hp _ _ Hr Hv2 ->].
  destruct (cd_program _ _ _ _ _ _ _ _ _ Hc) as (p & -> & Hkp).
  destruct (verify_and_update_steady _ _ _ _ _ _ _ Hv1) as [[Hst1 _] _]. cbn in Hst1.
  destruct (push_good _ _ _ _ _ _ _ Hp Hkp) as (_ & _ & _ & _ & Hpre2); [by rewrite Hst1, Hst|].
  apply verify_and_update_pre_keys in Hv1, Hv2. apply run_tree_pre_keys in Hr; [|done].
  unfold same_pre_keys in *. cbn in *. by rewrite Hv2, Hr, Hpre2, Hv1.
Qed.

(** ** Instructions *)

Section Top.
Context (msg : Message) (ci : CompiledInstruction) (pis : list nat) (top : Instruction).
Context (l : ledger) (pid : Pubkey).
Context (Hnd : NoDup (account_keys msg)).
Context (Hkeys : exists programs, keys = account_keys msg ++ programs).
Context (Htop : decompile msg ci = Ok top) (Hnative : native_program msg keys l ci pis pid).
Context (Hl : native_ok l) (Hh : holds l).
Abbreviation K := (keys_of keys (visit_each_account ci)).

Lemma top_nodup : NoDup K.
Proof.
  apply (keys_of_NoDup msg); [done|done| |apply visit_each_account_spec].
  intros i Hi%visit_each_account_spec. by eapply top_index.
Qed.

Lemma push_top_good meter st1 :
  push ic keys (mkState [] [] l meter [(1%nat, top)]) msg ci pis [] = Ok st1 ->
  exists kas, instruction_accounts keys msg [] (ci_accounts ci) = Ok kas /\
    invoke_stack st1 = [mkFrame 1 (mkKeyed false false pid :: kas)] /\ st_ledger st1 = l /\
    pre_key <$> st_pre_accounts st1 = K /\ good l st1.
Proof.
  intros Hp. pose proof Hnative as (p & Hpis & Hkp & Hpid & _). rewrite Hpis in Hp.
  destruct (push_frame_Ok _ _ _ _ _ _ _ _ _ Hp Hkp) as (kas & Hk & Hst & Hl1). exists kas.
  unfold push in Hp. cbn [invoke_stack st_ledger] in Hp.
  repeat (apply bind_Ok in Hp as (? & ? & Hp)). injection Hp as <-.
  match goal with H : (accounts ← pre_accounts _ _ _; _) = Ok _ |- _ =>
    apply bind_Ok in H as (? & H & E); injection E as <-; apply pre_accounts_Ok in H as -> end.
  assert (pre_key <$> zip_with mkPre K (get_account l <$> K) = K) as HK.
  { clear. induction K as [|k ks IH]; [done|]. cbn. by f_equal. }
  split_and!; [done..|]. split; cbn; [|rewrite HK; apply top_nodup|done|done].
  clear. unfold synced. induction K as [|k ks IH]; [constructor|]. by constructor.
Qed.

(** The check at the lowest level *)
Lemma verify_top l1 st st' kas :
  verify ic keys st msg ci = Ok st' -> good l1 st -> pre_key <$> st_pre_accounts st = K ->
  is_Some (find_builtin pid (ic_builtin_programs ic)) ->
  instruction_accounts keys msg [] (ci_accounts ci) = Ok kas ->
  handed pid kas (unsigned_key <$> kas) l1 (st_ledger st) ->
  st_ledger st = l1 \/ stretch pid kas l1 (st_ledger st).
Proof.
  intros Hv Hg HK Hf Hkas [->|(Hag & Hex & Hd)]; [by left|right].
  unfold verify, verify_instruction in Hv. pose proof Hnative as (p & _ & _ & Hpid & _).
  rewrite Hpid in Hv. apply bind_Ok in Hv as (m & Hv & _).
  apply bind_Ok in Hv as ([[s1 s1'] m'] & Hloop & _).
  destruct (verify_loop_pres _ _ _ _ _ _ _ _ _ _ _ _ _ Hloop HK) as (Hall & _).
  split; [done|done|done|]. intros k. destruct (decide (k ∈ K)) as [Hin|Hnin].
  - rewrite <- HK in Hin. apply list_elem_of_fmap in Hin as (q & -> & Hq).
    destruct (Hall q Hq) as (i & _ & _ & Hc). right. exists (msg_is_writable msg i).
    rewrite <- (proj1 (list.Forall_forall _ _) (gd_synced _ _ Hg) q Hq). exact Hc.
  - left. unfold get_account. rewrite Hag; [done|].
    intros (ka & -> & Hka)%list_elem_of_fmap. apply Hnin.
    apply instruction_accounts_keys in Hkas. apply list_elem_of_lookup in Hka as [n Hn].
    destruct (Forall2_lookup_r _ _ _ _ _ Hkas Hn) as (i & Hi & j & [= <-] & Hj).
    apply list_elem_of_omap. exists i. split; [|done].
    apply visit_each_account_spec. by eapply list_elem_of_lookup_2.
Qed.

Lemma process_top_steps meter st :
  process_top ic keys msg ci pis top l meter = Ok st ->
  exists kas f, instruction_accounts keys msg [] (ci_accounts ci) = Ok kas /\
    find_builtin pid (ic_builtin_programs ic) = Some f /\
    forall Q : Pubkey -> list KeyedAccount -> Prop, Q pid kas ->
    stretches Q pid kas l (f 1%nat (ci_data ci) (mkKeyed false false pid :: kas) l) ->
    rtc (step_in Q) l (st_ledger st).
Proof.
  intros Hrun. unfold process_top in Hrun. cbn [process_instruction] in Hrun.
  rewrite bool_decide_eq_true_2 in Hrun by done. cbn [mbind outcome_bind] in Hrun.
  apply bind_Ok in Hrun as (st1 & Hp & Hrun).
  destruct (push_top_good _ _ Hp) as (kas & Hkas & Hst1 & Hl1 & HK & Hg1).
  pose proof Hnative as (p & _ & _ & Hpid & Hown). rewrite Hpid in Hrun.
  apply bind_Ok in Hrun as (t & Ht & Hrun). apply bind_Ok in Hrun as (st2 & Hr & Hrun).
  apply bind_Ok in Hrun as (st3 & Hv & Hrun). injection Hrun as <-.
  destruct (entry_stretches _ _ _ _ _ _ Ht Hst1) as (f & Hf & Htf & _);
    [by rewrite Hl1|by rewrite Hl1; apply Hg1|by rewrite Hl1; apply Hg1|].
  exists kas, f. split_and!; [done..|]. intros Q HQ Hstr. rewrite Hl1 in Htf. subst t.
  destruct (run_tree_steps Q _ _ (mkFrame 1 (mkKeyed false false pid :: kas)) _ pid kas
    (native_invoke_steps _) (native_invoke_steady _ _ _)
    eq_refl (mk_is_Some _ _ Hf) HQ _ _ Hr Hst1) as (l2 & Hsteps & Hg2 & Hh2 & _);
    [by rewrite Hl1|by rewrite Hl1|].
  apply run_tree_pre_keys in Hr; [|apply native_invoke_pre_keys].
  assert (st_ledger st2 = l2 \/ stretch pid kas l2 (st_ledger st2)) as Hlast.
  { eapply (verify_top _ _ _ _ Hv); [done|by rewrite Hr|by eexists|done..]. }
  apply bind_Ok in Hv as (m & _ & Hst3). injection Hst3 as <-. cbn.
  rewrite <- Hl1. etrans; [exact Hsteps|]. by eapply stretch_steps.
Qed.

Lemma process_top_any meter st :
  process_top ic keys msg ci pis top l meter = Ok st -> rtc (step_in anyone) l (st_ledger st).
Proof.
  intros (kas & f & _ & Hf & Hs)%process_top_steps. apply Hs; [done|]. by apply Hprograms.
Qed.
End Top.
End Steps.

(** ** Messages *)

Section Messages.
Context (ic : InvokeContext caller).
Context (does : Pubkey -> list KeyedAccount -> ledger -> ledger -> Prop).
Context (holds : ledger -> Prop).
Context (Hholds : forall pid kas l l', does pid kas l l' -> holds l -> holds l').
Context (Hsysvar : forall msg keys index l l',
  fixup_instructions_sysvar msg keys index l = Ok l' -> holds l -> holds l').
Context (Hprograms : forall p f, find_builtin p (ic_builtin_programs ic) = Some f ->
                       well_stretched ic does holds p f).

(** A stretch of a program, or the index of the instruction is written to its sysvar,
    which belongs to no program. *)
Inductive message_step : ledger -> ledger -> Prop :=
| ms_stretch l l' : step_in ic does anyone l l' -> message_step l l'
| ms_sysvar msg keys index l l' :
    fixup_instructions_sysvar msg keys index l = Ok l' ->
    find_builtin (owner (get_account l instructions_sysvar_id)) (ic_builtin_programs ic) = None ->
    message_step l l'.

Context (keys : list Pubkey).

(** What the instructions of a message rely on *)
Definition program_of (msg : Message) (l : ledger) (ix : CompiledInstruction) (pis : list nat) : Prop :=
  exists p pid, pis = [p] /\ keys !! p = Some pid /\
    account_keys msg !! program_id_index ix = Some pid /\ executable (get_account l pid) = true.

(** The instructions sysvar, if it is loaded, belongs to no program. *)
Definition run_ok (msg : Message) (l : ledger) : Prop :=
  native_ok l /\
  (instructions_sysvar_id ∈ take (length (account_keys msg)) keys ->
   find_builtin (owner (get_account l instructions_sysvar_id)) (ic_builtin_programs ic) = None).

Lemma steps_ok msg l l' :
  rtc (step_in ic does anyone) l l' -> run_ok msg l -> run_ok msg l' /\ same_executable l l'.
Proof.
  induction 1 as [l|l l1 l2 Hs _ IH]; intros [Hn Ho]; [done|].
  destruct (stretch_native _ _ _ _ _ Hs Hn) as [Hn1 He1].
  destruct IH as [? He2].
  { split; [done|]. intros Hin. rewrite (stretch_owner _ _ _ _ _ _ Hs (Ho Hin)). by apply Ho. }
  split; [done|]. intros k. by rewrite He2.
Qed.

Lemma fixup_same_executable msg index l l1 :
  fixup_instructions_sysvar msg keys index l = Ok l1 -> same_executable l l1.
Proof.
  unfold fixup_instructions_sysvar. intros H. case_bool_decide; run_inv; [|done].
  intros k. rewrite get_account_insert. by case_decide; subst.
Qed.

Lemma fixup_ok msg index l l1 :
  fixup_instructions_sysvar msg keys index l = Ok l1 -> run_ok msg l -> run_ok msg l1.
Proof.
  intros Hf [Hn Ho]. pose proof (fixup_same_executable _ _ _ _ Hf) as He.
  apply fixup_spec in Hf as [Hol _]. split; [|by rewrite (proj1 (Hol _))].
  intros k Hk. rewrite (proj1 (Hol k)). apply Hn. by rewrite <- He.
Qed.

Lemma fixup_steps msg index l l1 :
  fixup_instructions_sysvar msg keys index l = Ok l1 -> run_ok msg l -> rtc message_step l l1.
Proof.
  intros Hf [_ Ho].
  destruct (decide (instructions_sysvar_id ∈ take (length (account_keys msg)) keys)) as [Hin|Hin].
  - apply rtc_once. eapply ms_sysvar; [exact Hf|by apply Ho].
  - unfold fixup_instructions_sysvar in Hf. rewrite bool_decide_eq_false_2 in Hf by done.
    by injection Hf as <-.
Qed.

Lemma steps_hold l l' : rtc (step_in ic does anyone) l l' -> holds l -> holds l'.
Proof.
  induction 1 as [|l l1 l2 (pid & kas & _ & [_ Hd _ _]) _ IH]; [done|]. intros Hh. by eapply IH, Hholds.
Qed.

Lemma process_instructions_steps msg ixs index l meter l' meter' :
  NoDup (account_keys msg) -> (exists programs, keys = account_keys msg ++ programs) ->
  (forall ix pis, (ix, pis) ∈ ixs -> program_of msg l ix pis) -> run_ok msg l -> holds l ->
  process_instructions ic keys msg index ixs l meter = Ok (l', meter') -> rtc message_step l l'.
Proof.
  intros Hnd Hkeys. revert index l meter.
  induction ixs as [|[ix pis] ixs IH]; intros index l meter Hpr Hrun Hh H; cbn in H; [by run_inv|].
  case_bool_decide; [|done]. apply bind_Ok in H as (st & H1 & H).
  apply map_err_Ok in H1. apply bind_Ok in H1 as (top & Htop & H1).
  apply bind_Ok in H1 as (l1 & Hfix & H1).
  pose proof (fixup_same_executable _ _ _ _ Hfix) as He1.
  pose proof (fixup_ok _ _ _ _ Hfix Hrun) as Hrun1.
  destruct (Hpr ix pis) as (p & pid & Hpis & Hkp & Hpid & Hex); [by left|].
  assert (rtc (step_in ic does anyone) l1 (st_ledger st)) as Hsteps.
  { apply (process_top_any ic does holds Hholds Hprograms keys msg ix pis top l1 pid Hnd Hkeys Htop)
      with (meter := meter); [|apply Hrun1|by eapply Hsysvar|done].
    exists p. split_and!; try done. apply Hrun1. by rewrite He1. }
  destruct (steps_ok _ _ _ Hsteps Hrun1) as [Hrun2 He2].
  etrans; [by eapply fixup_steps|]. etrans.
  - eapply rtc_subrel; [|exact Hsteps]. intros ??. apply ms_stretch.
  - eapply IH; [|exact Hrun2|by eapply steps_hold; [|eapply Hsysvar]|exact H].
    intros ix2 pis2 Hin. destruct (Hpr ix2 pis2) as (p2 & pid2 & ? & ? & ? & Hex2); [by right|].
    exists p2, pid2. split_and!; try done. by rewrite He2, He1.
Qed.

(** A message with its accounts and programs loaded *)
Record loaded_calls (msg : Message) (program_indices : list (list nat)) (l : ledger) : Prop := {
  lc_nodup : NoDup (account_keys msg);
  lc_keys : exists programs, keys = account_keys msg ++ programs;
  lc_programs : forall ix pis, (ix, pis) ∈ zip (instructions msg) program_indices ->
    program_of msg l ix pis;
  lc_run : run_ok msg l;
}.

Lemma process_message_steps msg program_indices l n l' delta :
  loaded_calls msg program_indices l -> holds l ->
  process_message ic keys msg program_indices l n = Ok (l', delta) -> rtc message_step l l'.
Proof.
  intros [Hnd Hkeys Hpr Hrun] Hh H. unfold process_message in H.
  apply bind_Ok in H as ([l1 m] & H & E). injection E as <- _.
  by eapply process_instructions_steps.
Qed.
End Messages.

(** The bank commits successful messages and drops accounts with no lamports. *)
Inductive call_ledger_step (ic : InvokeContext caller) : ledger -> ledger -> Prop :=
| cls_message msg keys program_indices l n l' delta :
    loaded_calls ic keys msg program_indices l ->
    process_message ic keys msg program_indices l n = Ok (l', delta) ->
    call_ledger_step ic l l'
| cls_sweep l : call_ledger_step ic l (filter (fun ka => lamports ka.2 <> 0) l).
