(* ===== verification/LookupFacts.v ===== *)
(** * What the stretches of the lookup table program do

    The layout of tables in bytes, the steps of a table ([table_step]) with the authority
    that signs for them, and that every stretch of the program makes only such steps. *)

From Stdlib Require Import ZArith Lia.
From Stdlib Require Import Strings.Byte.
From stdpp Require Import prelude gmap list numbers relations.
From S2P Require Import Prelude Sdk Runtime SystemInstruction SystemProgram SystemFacts.
From S2P Require Import MessageCompile MessageFacts Invoke InvokeFacts TokenSafety.
From S2P Require Import VoteState BinarySearch AssociatedAccount CallerFacts AssociatedFacts LookupTable CallSteps.

Import Lookup.

(** ** The layout of a table *)

(** What fits the fields *)
Record meta_fits (m : LookupTableMeta) : Prop := {
  mf_deactivation : in_u64 (deactivation_slot m);
  mf_extended : in_u64 (last_extended_slot m);
  mf_index : in_u8 (last_extended_slot_start_index m);
  mf_padding : 0 <= padding m <= u16_max;
}.

(** The encoding of the state of a table: it is read back whatever follows, what is read
    fits, and zeroes are no table. *)
Class StateCodec `{Bincode ProgramState} : Prop := {
  codec_read : forall m rest, meta_fits m ->
    bincode_decode (bincode_encode (LookupTable m) ++ rest) = Some (LookupTable m);
  codec_fits : forall d m, bincode_decode d = Some (LookupTable m) -> meta_fits m;
  codec_zeroes : forall n m, bincode_decode (replicate n x00) <> Some (LookupTable m);
}.

Lemma key_slices_concat n d :
  length d = (32 * n)%nat -> concat (pk_bytes <$> key_slices n d) = d.
Proof.
  revert d. induction n as [|n IH]; intros d Hd.
  { by apply nil_length_inv in Hd as ->. }
  cbn [key_slices fmap list_fmap concat]. rewrite pk_bytes_new by (rewrite length_take; lia).
  rewrite IH by (rewrite length_drop; lia). apply take_drop.
Qed.

Lemma concat_key_slices ks : key_slices (length ks) (concat (pk_bytes <$> ks)) = ks.
Proof.
  induction ks as [|k ks IH]; [done|]. cbn [length key_slices fmap list_fmap concat].
  rewrite take_app_length', drop_app_length' by (by rewrite length_pk_bytes).
  by rewrite new_from_array_bytes, IH.
Qed.

Lemma length_keys ks : length (concat (pk_bytes <$> ks)) = (length ks * 32)%nat.
Proof.
  induction ks as [|k ks IH]; [done|]. cbn. rewrite length_app, length_pk_bytes, IH. lia.
Qed.

Lemma try_cast_slice_keys ks : try_cast_slice (concat (pk_bytes <$> ks)) = Some ks.
Proof.
  unfold try_cast_slice. rewrite length_keys, Nat.Div0.mod_mul, Nat.div_mul by done. cbn.
  by rewrite concat_key_slices.
Qed.

Lemma try_cast_slice_Some d ks : try_cast_slice d = Some ks -> d = concat (pk_bytes <$> ks).
Proof.
  unfold try_cast_slice. destruct (Nat.eqb_spec (length d mod 32) 0) as [Hm|]; [|done].
  assert (length d = 32 * (length d / 32))%nat as Hl by (pose proof (Nat.div_mod_eq (length d) 32); lia).
  revert Hl. generalize (length d / 32)%nat. intros n Hl [= <-]. by rewrite key_slices_concat.
Qed.

Section Layout.
Context `{StateCodec}.
Implicit Types (m : LookupTableMeta) (t : AddressLookupTable) (d : bytes).

(** The bytes of a table *)
Definition laid_out m (ks : list Pubkey) d : Prop :=
  exists z, (length (bincode_encode (LookupTable m)) + length z = LOOKUP_TABLE_META_SIZE)%nat /\
    d = bincode_encode (LookupTable m) ++ z ++ concat (pk_bytes <$> ks).

Lemma laid_out_read m ks d :
  laid_out m ks d -> meta_fits m -> deserialize d = Ok (mkTable m ks).
Proof.
  intros (z & Hz & ->) Hm. unfold deserialize. rewrite codec_read by done. cbn [ok_or mbind outcome_bind].
  rewrite !length_app. destruct (Nat.ltb_spec (length (bincode_encode (LookupTable m)) +
    (length z + length (concat (pk_bytes <$> ks)))) LOOKUP_TABLE_META_SIZE); [lia|].
  rewrite app_assoc, drop_app_length' by (rewrite length_app; lia).
  by rewrite try_cast_slice_keys.
Qed.

Lemma deserialize_Ok d t :
  deserialize d = Ok t ->
  meta_fits (meta t) /\ bincode_decode d = Some (LookupTable (meta t)) /\
  (LOOKUP_TABLE_META_SIZE <= length d)%nat /\
  drop LOOKUP_TABLE_META_SIZE d = concat (pk_bytes <$> addresses t).
Proof.
  unfold deserialize. intros Hd. run_inv. case_match; [done|]. run_inv.
  match goal with H : try_cast_slice _ = Some _ |- _ => apply try_cast_slice_Some in H as Hk end.
  match goal with H : (_ <? _)%nat = false |- _ => apply Nat.ltb_ge in H end.
  split_and!; [by eapply codec_fits|done..].
Qed.

Lemma overwrite_laid_out d m d' t :
  overwrite_meta_data d m = Ok d' -> deserialize d = Ok t ->
  forall new, laid_out m (addresses t ++ new) (d' ++ concat (pk_bytes <$> new)).
Proof.
  unfold overwrite_meta_data. intros Ho (_ & _ & _ & Hk)%deserialize_Ok new. run_inv.
  repeat match goal with H : (_ <? _)%nat = false |- _ => apply Nat.ltb_ge in H end.
  eexists (replicate _ x00). split; [|rewrite fmap_app, concat_app, <- Hk, <- !app_assoc; reflexivity].
  rewrite length_replicate. lia.
Qed.

Lemma zeroes_no_table d t : d = replicate (length d) x00 -> deserialize d <> Ok t.
Proof. intros Hz (_ & Hd & _)%deserialize_Ok. rewrite Hz in Hd. by apply codec_zeroes in Hd. Qed.

(** The table of an account *)
Definition table_of (a : AccountSharedData) : option AddressLookupTable :=
  if decide (owner a = lookup_program_id)
  then match deserialize (data a) with Ok t => Some t | _ => None end
  else None.

Lemma table_of_Some a t :
  table_of a = Some t <-> owner a = lookup_program_id /\ deserialize (data a) = Ok t.
Proof. unfold table_of. case_decide; [|naive_solver]. case_match; naive_solver. Qed.

(** ** Steps of a table *)

Inductive table_step (env : LookupEnv) (key : Pubkey)
    : AddressLookupTable -> option AddressLookupTable -> Prop :=
| step_freeze t :
    authority (meta t) = Some key -> deactivation_slot (meta t) = slot_max -> addresses t <> [] ->
    table_step env key t (Some (mkTable (set_authority None (meta t)) (addresses t)))
| step_extend t new clock m :
    authority (meta t) = Some key -> deactivation_slot (meta t) = slot_max -> new <> [] ->
    (length (addresses t ++ new) <= LOOKUP_TABLE_MAX_ADDRESSES)%nat ->
    env_clock env = Some clock -> extended_meta t (clock_slot clock) = Ok m ->
    table_step env key t (Some (mkTable m (addresses t ++ new)))
| step_deactivate t clock :
    authority (meta t) = Some key -> deactivation_slot (meta t) = slot_max ->
    env_clock env = Some clock ->
    table_step env key t
      (Some (mkTable (set_deactivation_slot (clock_slot clock) (meta t)) (addresses t)))
| step_close t clock slot_hashes :
    authority (meta t) = Some key ->
    env_clock env = Some clock -> env_slot_hashes env = Some slot_hashes ->
    status (meta t) (clock_slot clock) slot_hashes = Deactivated ->
    table_step env key t None.

(** A step with the signature of the authority, the creation of a table in zeroes, or
    something else than the data changes. *)
Inductive table_change (env : LookupEnv) (kas : list KeyedAccount) (a a' : AccountSharedData) : Prop :=
| change_none : data a' = data a -> lamports a <= lamports a' -> table_change env kas a a'
| change_create ka :
    ka ∈ kas -> is_signer ka = true -> data a = replicate (length (data a)) x00 ->
    table_of a' = Some (mkTable (table_meta_new (unsigned_key ka)) []) -> 0 < lamports a' ->
    table_change env kas a a'
| change_step ka t :
    ka ∈ kas -> is_signer ka = true -> table_of a = Some t ->
    table_step env (unsigned_key ka) t (table_of a') ->
    (table_of a' = None -> data a' = [] /\ lamports a' = 0) ->
    (table_of a' <> None -> lamports a' = lamports a) ->
    table_change env kas a a'.

Definition lookup_does (env : LookupEnv) (pid : Pubkey) (kas : list KeyedAccount)
    (l l' : ledger) : Prop :=
  balances_ok l -> balances_ok l' /\
  (pid = lookup_program_id -> forall k, owner (get_account l k) = lookup_program_id ->
   owner (get_account l' k) = lookup_program_id /\
   table_change env kas (get_account l k) (get_account l' k)).

(** ** Runs of the handlers *)

Section Handlers.
Context (env : LookupEnv) (root : KeyedAccount) (kas : list KeyedAccount).
Abbreviation all := (root :: kas).

Lemma account_after_Ok n l ka l' :
  account_after all 1 n l = Ok (ka, l') -> l' = l /\ kas !! n = Some ka.
Proof. unfold account_after, checked_add. intros Hr. by keyed_inv. Qed.

Lemma key_of_signer_Ok ka l k l' :
  key_of_signer ka l = Ok (k, l') -> l' = l /\ is_signer ka = true /\ k = unsigned_key ka.
Proof.
  unfold key_of_signer, signer_key. intros Hr. run_inv. by destruct (is_signer ka); simplify_eq.
Qed.

Lemma table_and_authority_Ok l table auth l' :
  table_and_authority all 1 l = Ok ((table, auth), l') ->
  l' = l /\ kas !! 0%nat = Some table /\ owner (acct l table) = lookup_program_id /\
  kas !! 1%nat = Some auth /\ is_signer auth = true.
Proof.
  unfold table_and_authority, keyed_account_at_index. intros Hr. keyed_inv.
  repeat match goal with
  | H : account_after _ _ _ _ = _ |- _ => apply account_after_Ok in H as [-> H]
  | H : key_of_signer _ _ = _ |- _ => apply key_of_signer_Ok in H as (-> & ? & ->) end.
  simplify_eq/=. split_and!; done.
Qed.

Lemma authorized_table_Ok table auth l t l' :
  authorized_table table auth l = Ok (t, l') ->
  l' = l /\ deserialize (data (acct l table)) = Ok t /\
  authority (meta t) = Some (unsigned_key auth).
Proof.
  unfold authorized_table. intros Hr. by keyed_inv.
Qed.

(** An account that is written *)
Lemma handed_write ka l a' ks :
  unsigned_key ka ∈ ks -> executable a' = executable (acct l ka) ->
  owner a' = owner (acct l ka) -> lamports a' = lamports (acct l ka) ->
  (owner (acct l ka) = lookup_program_id -> table_change env kas (acct l ka) a') ->
  handed (lookup_does env) lookup_program_id kas ks l (<[unsigned_key ka := a']> l).
Proof.
  intros Hk He Ho Hl Hc. right. split_and!.
  - intros k Hnk. apply lookup_insert_ne. congruence.
  - intros k. rewrite get_account_insert. by case_decide; subst.
  - intros Hb. split.
    + intros k. rewrite get_account_insert. case_decide; [rewrite Hl|]; apply Hb.
    + intros _ k Hk'. rewrite get_account_insert. case_decide; subst; [split; [congruence|auto]|].
      split; [done|by apply change_none].
Qed.

(** New meta data with the addresses of the table *)
Lemma meta_written table auth l t m d' :
  deserialize (data (acct l table)) = Ok t -> authority (meta t) = Some (unsigned_key auth) ->
  overwrite_meta_data (data (acct l table)) m = Ok d' -> meta_fits m ->
  forall new, owner (acct l table) = lookup_program_id ->
  table_of (set_data (d' ++ concat (pk_bytes <$> new)) (acct l table))
  = Some (mkTable m (addresses t ++ new)).
Proof.
  intros Ht Ha Hd Hm new Ho. apply table_of_Some. split; [done|].
  apply laid_out_read; [|done]. by eapply overwrite_laid_out.
Qed.

(** What a handler without calls leaves *)
Definition handles (p : prog unit) : Prop := forall l u l',
  p l = Ok (u, l') -> handed (lookup_does env) lookup_program_id kas (unsigned_key <$> kas) l l'.

Ltac table_inv :=
  keyed_inv;
  repeat match goal with
  | H : table_and_authority _ _ _ = Ok (?p, _) |- _ =>
      apply table_and_authority_Ok in H as (-> & ? & ? & ? & ?)
  | H : account_after _ _ _ _ = _ |- _ => apply account_after_Ok in H as [-> H]
  | H : key_of_signer _ _ = _ |- _ => apply key_of_signer_Ok in H as (-> & ? & ->)
  | H : authorized_table _ _ _ = _ |- _ => apply authorized_table_Ok in H as (-> & ? & ?)
  | H : write_meta _ _ _ = _ |- _ => unfold write_meta in H; keyed_inv
  end; keyed_inv.

Lemma in_kas i ka : kas !! i = Some ka -> ka ∈ kas /\ unsigned_key ka ∈ unsigned_key <$> kas.
Proof. intros Hi%list_elem_of_lookup_2. split; [done|by apply list_elem_of_fmap_2]. Qed.

(** A step of the table whose meta data is written *)
Lemma handed_step table auth l t m d' new ks :
  kas !! 1%nat = Some auth -> is_signer auth = true -> unsigned_key table ∈ ks ->
  owner (acct l table) = lookup_program_id -> deserialize (data (acct l table)) = Ok t ->
  authority (meta t) = Some (unsigned_key auth) ->
  overwrite_meta_data (data (acct l table)) m = Ok d' -> meta_fits m ->
  table_step env (unsigned_key auth) t (Some (mkTable m (addresses t ++ new))) ->
  handed (lookup_does env) lookup_program_id kas ks l
    (<[unsigned_key table := set_data (d' ++ concat (pk_bytes <$> new)) (acct l table)]> l).
Proof.
  intros Hauth Hs Hks Ho Ht Ha Hd Hm Hstep. apply handed_write; [done..|]. intros _.
  pose proof (meta_written _ _ _ _ _ _ Ht Ha Hd Hm new Ho) as Htab.
  eapply change_step; [by apply (in_kas 1)|done|by apply table_of_Some| |by rewrite Htab|done].
  by rewrite Htab.
Qed.

Lemma handed_meta table auth l t m d' ks :
  kas !! 1%nat = Some auth -> is_signer auth = true -> unsigned_key table ∈ ks ->
  owner (acct l table) = lookup_program_id -> deserialize (data (acct l table)) = Ok t ->
  authority (meta t) = Some (unsigned_key auth) ->
  overwrite_meta_data (data (acct l table)) m = Ok d' -> meta_fits m ->
  table_step env (unsigned_key auth) t (Some (mkTable m (addresses t))) ->
  handed (lookup_does env) lookup_program_id kas ks l
    (<[unsigned_key table := set_data d' (acct l table)]> l).
Proof.
  intros Hauth Hs Hks Ho Ht Ha Hd Hm Hstep. rewrite <- (app_nil_r d').
  by eapply (handed_step table auth l t m d' []); rewrite ?app_nil_r.
Qed.

Lemma freeze_handles : handles (freeze_lookup_table all 1).
Proof.
  intros l u l' Hr. unfold freeze_lookup_table in Hr. table_inv.
  eapply handed_meta; try done.
  - by eapply in_kas.
  - match goal with H : deserialize _ = Ok _ |- _ => apply deserialize_Ok in H as ([] & _) end.
    by split.
  - by apply step_freeze.
Qed.

Context (Hclock : forall clock, env_clock env = Some clock -> in_u64 (clock_slot clock)).

Lemma deactivate_handles : handles (deactivate_lookup_table env all 1).
Proof.
  intros l u l' Hr. unfold deactivate_lookup_table, get_clock in Hr. table_inv.
  eapply handed_meta; try done.
  - by eapply in_kas.
  - match goal with H : deserialize _ = Ok _ |- _ => apply deserialize_Ok in H as ([] & _) end.
    split; [by apply Hclock|done..].
  - by apply step_deactivate.
Qed.

Lemma close_handles : handles (close_lookup_table env all 1).
Proof.
  intros l u l' Hr. unfold close_lookup_table, get_clock, get_slot_hashes in Hr. table_inv.
  repeat case_match; keyed_inv. unfold System.checked_add_lamports in *. keyed_inv.
  match goal with H : kas !! 0%nat = Some ?x, H' : kas !! 2%nat = Some ?y |- _ =>
    rename x into table; rename y into recipient; apply in_kas in H as [_ Htable], H' as [_ Hrec] end.
  rewrite get_account_insert_ne by done. right. split_and!.
  - intros k Hk. rewrite !lookup_insert_ne; [done|intros <-; by apply Hk..].
  - intros k. rewrite !get_account_insert. by repeat (case_decide; subst).
  - intros Hb. pose proof (Hb (unsigned_key table)) as Hbt. pose proof (Hb (unsigned_key recipient)) as Hbr.
    unfold in_u64 in *. split.
    { intros k. rewrite !get_account_insert. repeat case_decide; cbn; [unfold in_u64, u64_max; lia| |apply Hb].
      unfold in_u64. lia. }
    intros _ k Hk. rewrite !get_account_insert. case_decide; [subst k|].
    + split; [done|].
      assert (table_of (set_lamports 0 (set_data [] (acct l table))) = None) as Hnone.
      { apply eq_None_not_Some. intros [t' [_ Ht']%table_of_Some]. by apply (zeroes_no_table []) in Ht'. }
      eapply change_step; [by apply (in_kas 1)|done|by apply table_of_Some| |done|done].
      rewrite Hnone. by eapply step_close.
    + case_decide; subst; split; try done; apply change_none; try done. cbn. lia.
Qed.

(** ** Handlers with calls *)

Context (hashv : list bytes -> Hash) (on_curve : Hash -> bool).
Context (ser_sys : SystemInstruction -> bytes) (ic : InvokeContext caller).
Context (Q : Pubkey -> list KeyedAccount -> Prop).
Context (HQ : forall q kas', within ic system_program_id q kas' -> Q q kas').
Abbreviation stretched := (stretches ic (lookup_does env) balances_ok Q lookup_program_id kas).

(** A call to the system program when nothing was written, or what it is handed *)
Lemma system_call_stretched l l' ix signers k :
  ix_program_id ix = system_program_id ->
  handed (lookup_does env) lookup_program_id kas (meta_pubkey <$> ix_accounts ix) l l' ->
  (l' = l \/ joined (requested [ix] None) /\ (length (ix_accounts ix) <= 254)%nat) ->
  (forall l'', leaf_ran ic ix l' l'' -> stretched l'' (k l'')) ->
  stretched l (TCall ix signers l' k).
Proof.
  intros Hp Hh Hj Hk. cbn [stretches]. repeat (split; [first [assumption|by rewrite Hp]|]).
  intros l'' _ _ _. apply Hk.
Qed.

Lemma handed_mono ks ks' l l' :
  ks ⊆ ks' -> handed (lookup_does env) lookup_program_id kas ks l l' ->
  handed (lookup_does env) lookup_program_id kas ks' l l'.
Proof. intros Hks [?|(Hag & ?)]; [by left|right]. split; [|done]. intros k Hk. apply Hag. set_solver. Qed.

(** The transfer, then the rest of the program *)
Lemma transfer_stretched l l' payer table required k :
  handed (lookup_does env) lookup_program_id kas [table] l l' ->
  (required <= 0 -> stretched l (k tt l')) ->
  (forall l'', 0 < required -> leaf_ran ic (ix_transfer ser_sys payer table required) l' l'' ->
     stretched l'' (k tt l'')) ->
  stretched l (tree_bind k (transfer_required ser_sys payer table required l')).
Proof.
  intros Hh Hk Hk'. unfold transfer_required. destruct (Z.ltb_spec 0 required); [|by apply Hk].
  apply system_call_stretched; [done| | |by intros l'' Hran; apply Hk'].
  - eapply handed_mono; [|done]. cbn. set_solver.
  - right. split; [descending|cbn; lia].
Qed.

Lemma extend_table_handed new l payer table required l' :
  extend_table env all 1 new l = Ok ((payer, table, required), l') ->
  handed (lookup_does env) lookup_program_id kas [table] l l' /\ [table] ⊆ unsigned_key <$> kas.
Proof.
  intros Hr. unfold extend_table, required_lamports, get_clock, checked_add in Hr. table_inv.
  split.
  - eapply handed_step; try done; [by left| |].
    + match goal with H : extended_meta ?t ?s = Ok _, H' : deserialize _ = Ok ?t |- _ =>
        unfold extended_meta in H; apply deserialize_Ok in H' as ([] & _) end.
      case_match; keyed_inv; [done|]. split; try done; [by apply Hclock|cbn; split; [lia|done]].
    + eapply step_extend; try done. rewrite length_app.
      by match goal with H : (LOOKUP_TABLE_MAX_ADDRESSES <? _)%nat = false |- _ =>
        apply Nat.ltb_ge in H end.
  - intros q ->%list_elem_of_singleton. by eapply in_kas.
Qed.

Lemma extend_stretched new l :
  stretched l (extend_lookup_table ser_sys env all 1 new l).
Proof.
  unfold extend_lookup_table. cbv [mbind cpi_bind]. unfold local.
  destruct (extend_table env all 1 new l) as [[[[payer table] required] l1]| |] eqn:Hr; [|done..].
  cbn [tree_bind]. apply extend_table_handed in Hr as [Hh Hin].
  unfold transfer_required. destruct (0 <? required); [|by eapply handed_mono].
  apply system_call_stretched; [done| | |by left].
  - eapply handed_mono; [|done]. cbn. set_solver.
  - right. split; [descending|cbn; lia].
Qed.

Lemma local_stretched p l : handles p -> stretched l (local p l).
Proof. intros Hp. unfold local. destruct (p l) as [[u l']| |] eqn:Hr; [|exact I..]. by apply (Hp _ u). Qed.

(** The checks of a creation *)
Record checked (l : ledger) (recent_slot : Z) (authority_key table_key : Pubkey) (required : Z)
    (table auth : KeyedAccount) : Prop := {
  ck_table : kas !! 0%nat = Some table;
  ck_table_key : table_key = unsigned_key table;
  ck_empty : data (acct l table) = [];
  ck_authority : kas !! 1%nat = Some auth;
  ck_signer : is_signer auth = true;
  ck_authority_key : authority_key = unsigned_key auth;
  ck_required : exists rent, env_rent env = Some rent /\
    required = saturating_sub (Z.max (minimum_balance rent LOOKUP_TABLE_META_SIZE) 1)
                 (lamports (acct l table));
  ck_recent : exists h, env_slot_hashes env = Some h /\ SlotHashes.get h recent_slot <> None;
}.

Lemma check_create_Ok recent_slot bump l authority_key payer_key table_key required l' :
  check_create hashv on_curve env all 1 recent_slot bump l
  = Ok ((authority_key, payer_key, table_key, required), l') ->
  l' = l /\ exists table auth, checked l recent_slot authority_key table_key required table auth.
Proof.
  intros Hr. unfold check_create, required_lamports, get_slot_hashes, get_rent in Hr. table_inv.
  split; [done|]. eexists _, _. split; try done.
  - by match goal with H : (0 <? length ?d)%nat = false |- _ => destruct d end.
  - eauto.
  - eauto.
Qed.

(** The last stretch of a creation, in an account that was allocated and assigned *)
Lemma create_last l table auth table_key recent_slot required l0 u l' :
  checked l0 recent_slot (unsigned_key auth) table_key required table auth ->
  0 < lamports (get_account l table_key) ->
  data (get_account l table_key) = replicate LOOKUP_TABLE_META_SIZE x00 ->
  (table ← keyed_account_at_index all 1;
   ka_set_state table (LookupTable (table_meta_new (unsigned_key auth)))) l = Ok (u, l') ->
  handed (lookup_does env) lookup_program_id kas (unsigned_key <$> kas) l l'.
Proof.
  intros [Ht -> _ Ha Hs _ _ _] Hpos Hd Hr. unfold ka_set_state, account_set_state in Hr. keyed_inv.
  match goal with H : all !! 1%nat = Some _ |- _ => change (kas !! 0%nat = Some x) in H; simplify_eq end.
  match goal with H : (_ <? _)%nat = false |- _ => apply Nat.ltb_ge in H as Hlen end.
  rewrite Hd, length_replicate in Hlen.
  apply handed_write; [by eapply in_kas|done..|]. intros Ho.
  eapply change_create; [by apply (in_kas 1)|done|by rewrite Hd, length_replicate| |done].
  apply table_of_Some. split; [done|]. apply laid_out_read.
  - exists (drop (length (bincode_encode (LookupTable (table_meta_new (unsigned_key auth)))))
              (replicate LOOKUP_TABLE_META_SIZE x00)).
    rewrite length_drop, length_replicate. split; [lia|]. cbn [data set_data fmap list_fmap concat].
    by rewrite app_nil_r, Hd.
  - split; cbn; unfold in_u64, in_u8, u8_max, u16_max, u64_max; lia.
Qed.

Context `{Bincode NonceVersions, Bincode (list (Hash * Z)), Bincode Rent} (sys_env : SystemEnv).
Context (des_sys : bytes -> option SystemInstruction).
Context (Hsys : find_builtin system_program_id (ic_builtin_programs ic)
                = Some (no_calls (System.process_instruction hashv sys_env des_sys))).
Context (Hdes_sys : forall i, sent i -> des_sys (ser_sys i) = Some i).

(** A system instruction that was called *)
Lemma sent_ran i metas l l' :
  leaf_ran ic (mkInstruction system_program_id metas (ser_sys i)) l l' -> sent i ->
  joined (requested [mkInstruction system_program_id metas (ser_sys i)] None) ->
  (length metas <= 254)%nat ->
  exists root' kas' u, unsigned_key <$> kas' = meta_pubkey <$> metas /\
    System.execute hashv sys_env (root' :: kas') 1 i l = Ok (u, l').
Proof.
  intros Hran Hi Hj Hlen. destruct (Hran _ Hsys Hj Hlen) as (kas' & u & Hk & Hr).
  apply system_process_Ok in Hr as (i' & Hi' & Hr). cbn in Hi', Hk.
  rewrite Hdes_sys in Hi' by done. simplify_eq. eexists _, kas', u. split; [exact Hk|exact Hr].
Qed.

Lemma allocated_ran k l1 l2 l3 :
  leaf_ran ic (ix_allocate ser_sys k (Z.of_nat LOOKUP_TABLE_META_SIZE)) l1 l2 ->
  leaf_ran ic (ix_assign ser_sys k lookup_program_id) l2 l3 ->
  data (get_account l3 k) = replicate LOOKUP_TABLE_META_SIZE x00 /\
  lamports (get_account l3 k) = lamports (get_account l1 k).
Proof.
  intros Ha Hs. apply sent_ran in Ha as (r1 & ks1 & u1 & Hk1 & Ha);
    [|split; [cbn -[LOOKUP_TABLE_META_SIZE]; unfold in_u64, u64_max, LOOKUP_TABLE_META_SIZE; lia|done]|descending|cbn; lia].
  apply sent_ran in Hs as (r2 & ks2 & u2 & Hk2 & Hs); [|split; done|descending|cbn; lia].
  cbn in Hk1, Hk2. apply one_key in Hk1 as (ka1 & -> & Hk1). apply one_key in Hk2 as (ka2 & -> & Hk2).
  apply allocate_run in Ha. apply assign_run in Hs. rewrite <- Hk1 in Ha. rewrite <- Hk2, Ha in Hs.
  by rewrite Hs, Nat2Z.id.
Qed.

(** The table has lamports after the transfer: its own, or what it was given. *)
Lemma funded_ran l l1 recent_slot akey tkey payer required table auth :
  checked l recent_slot akey tkey required table auth -> balances_ok l -> 0 < required ->
  leaf_ran ic (ix_transfer ser_sys payer tkey required) l l1 -> 0 < lamports (get_account l1 tkey).
Proof.
  intros Hck Hb Hreq Hran. destruct (ck_required _ _ _ _ _ _ _ Hck) as (rent & _ & Hr).
  pose proof (minimum_balance_u64 rent LOOKUP_TABLE_META_SIZE) as Hmin.
  pose proof (Hb (unsigned_key table)) as Hbt.
  assert (in_u64 required) as Hty by (unfold in_u64, saturating_sub, u64_max in *; lia).
  apply sent_ran in Hran as (root' & ks & u & Hk & Hran); [|by split|descending|cbn; lia].
  cbn in Hk. apply two_keys in Hk as (from & to & -> & _ & ->).
  unfold System.execute in Hran. keyed_inv. simplify_eq/=. unfold System.transfer in Hran. keyed_inv.
  match goal with H : System.transfer_verified _ _ _ _ = _ |- _ =>
    apply transfer_verified_Ok in H as (_ & Hle & l2 & -> & _ & ->) end.
  rewrite get_account_insert_eq. cbn. rewrite get_account_insert. case_decide as Heq; cbn.
  - rewrite Heq in *. lia.
  - match goal with |- context [lamports (get_account l ?k) + _] => pose proof (Hb k) as Hbto end.
    unfold in_u64 in Hbto. lia.
Qed.


Lemma create_stretched recent_slot bump l :
  balances_ok l -> stretched l (create_lookup_table hashv on_curve ser_sys env all 1 recent_slot bump l).
Proof.
  intros Hb. unfold create_lookup_table. cbv [mbind cpi_bind].
  change (local (check_create hashv on_curve env all 1 recent_slot bump) l) with
    match check_create hashv on_curve env all 1 recent_slot bump l with
    | Ok (a, l') => TRet a l' | Err e => TErr e | Panic => TPanic end.
  destruct (check_create hashv on_curve env all 1 recent_slot bump l)
    as [[[[[akey payer] tkey] required] l1]| |] eqn:Hr; [|exact I..].
  apply check_create_Ok in Hr as (-> & table & auth & Hck). cbn [tree_bind].
  pose proof (ck_authority_key _ _ _ _ _ _ _ Hck) as ->.
  assert (forall l1, 0 < lamports (get_account l1 tkey) -> stretched l1
    (tree_bind (fun _ => fun l => tree_bind (fun _ => local
       (table ← keyed_account_at_index all 1;
        ka_set_state table (LookupTable (table_meta_new (unsigned_key auth)))))
       (invoke (ix_assign ser_sys tkey lookup_program_id) [tkey] l))
      (invoke (ix_allocate ser_sys tkey (Z.of_nat LOOKUP_TABLE_META_SIZE)) [tkey] l1))) as Hrest.
  { intros l1 Hpos. cbn [tree_bind invoke]. apply system_call_stretched; [done|by left|by left|].
    intros l2 Hran2. cbn [tree_bind invoke]. apply system_call_stretched; [done|by left|by left|].
    intros l3 Hran3. cbn [tree_bind]. unfold local.
    match goal with |- context [match ?p l3 with _ => _ end] =>
      destruct (p l3) as [[u l4]| |] eqn:Hl4 end; [|exact I..]. cbn [stretches].
    destruct (allocated_ran _ _ _ _ Hran2 Hran3) as [Hd Hlam].
    eapply create_last; [done|by rewrite Hlam|done|exact Hl4]. }
  apply (transfer_stretched l l payer tkey required); [by left| |].
  - intros Hreq. apply Hrest. destruct (ck_required _ _ _ _ _ _ _ Hck) as (rent & _ & Hr).
    rewrite (ck_table_key _ _ _ _ _ _ _ Hck). unfold saturating_sub in Hr. lia.
  - intros l1 Hreq Hran. apply Hrest. by eapply funded_ran.
Qed.

Lemma lookup_stretched des d l :
  balances_ok l -> stretched l (process_lookup hashv on_curve ser_sys env des 1 d all l).
Proof.
  intros Hb. unfold process_lookup. cbv [mbind cpi_bind]. unfold local at 2, lift.
  destruct (des d) as [[recent_slot bump| |new| |]|]; cbn [ok_or tree_bind]; [..|exact I].
  - by apply create_stretched.
  - apply local_stretched, freeze_handles.
  - apply extend_stretched.
  - apply local_stretched, deactivate_handles.
  - apply local_stretched, close_handles.
Qed.
End Handlers.
End Layout.
