(* ===== verification/LookupSafety.v ===== *)
(** * Lookup tables over the history of the bank

    How tables change by messages with calls, by the sweep of empty accounts and from slot
    to slot: [evolves] relates a table to its later states, [tables_ok] is what holds of
    all of them. *)

From Stdlib Require Import ZArith Lia.
From Stdlib Require Import Strings.Byte.
From stdpp Require Import prelude gmap list numbers relations.
From S2P Require Import Prelude Sdk Runtime SystemInstruction SystemProgram SystemFacts.
From S2P Require Import MessageCompile MessageFacts Invoke InvokeFacts TokenSafety.
From S2P Require Import VoteState BinarySearch AssociatedAccount CallerFacts AssociatedFacts LookupTable CallSteps LookupFacts.

Import Lookup.

(** ** Slot hashes *)

Section Hashes.
Implicit Types (h : SlotHashes.t) (slot : Z).

Lemma slot_search h slot :
  newest_first h ->
  match SlotHashes.search slot h with
  | inl i => exists x, h !! i = Some (slot, x)
  | inr _ => slot ∉ h.*1
  end.
Proof.
  intros Hs. pose proof (binary_search_result _ _ (newest_first_ordered slot h Hs)) as Hr.
  unfold SlotHashes.search. destruct (binary_search_by _ h) as [i|k].
  - destruct Hr as ([s x] & Hx & Heq%Z.compare_eq). cbn in Heq. subst s. eauto.
  - destruct Hr as (_ & Hlt & Hgt). rewrite list_elem_of_fmap.
    intros ([s x] & Hsx & [i Hi]%list_elem_of_lookup). cbn in Hsx. subst s.
    destruct (Nat.lt_ge_cases i k) as [H|H]; [apply (Hlt i _ H) in Hi|apply (Hgt i _ H) in Hi];
      cbn in Hi; by rewrite Z.compare_refl in Hi.
Qed.

Lemma get_None h slot : newest_first h -> SlotHashes.get h slot = None <-> slot ∉ h.*1.
Proof.
  intros Hs. pose proof (slot_search h slot Hs) as Hr. unfold SlotHashes.get.
  destruct (SlotHashes.search slot h) as [i|]; [|done]. destruct Hr as [x Hx]. rewrite Hx. cbn.
  split; [done|]. intros Hn. destruct Hn. apply list_elem_of_fmap. exists (slot, x).
  split; [done|by eapply list_elem_of_lookup_2].
Qed.

Lemma position_None h slot : newest_first h -> SlotHashes.position h slot = None <-> slot ∉ h.*1.
Proof.
  intros Hs. rewrite <- get_None by done. pose proof (slot_search h slot Hs) as Hr.
  unfold SlotHashes.get, SlotHashes.position. destruct (SlotHashes.search slot h) as [i|]; [|done].
  destruct Hr as [x ->]. done.
Qed.

(** A slot after all others is put first. *)
Lemma add_newer h slot hash :
  newest_first h -> Forall (fun p => p.1 < slot) h ->
  SlotHashes.add h slot hash = take SlotHashes.MAX_ENTRIES ((slot, hash) :: h).
Proof.
  intros Hs Hall. unfold SlotHashes.add. destruct (SlotHashes.search slot h) as [i|k] eqn:Hk.
  - pose proof (slot_search h slot Hs) as Hr. rewrite Hk in Hr. destruct Hr as [x Hx].
    apply (proj1 (Forall_lookup _ _) Hall) in Hx. cbn in Hx. lia.
  - apply newest_search_gap in Hk as (_ & Hb & _); [|done].
    destruct k as [|k]; [done|]. destruct h as [|p h]; [done|]. cbn in Hb.
    inversion_clear Hb. inversion_clear Hall. lia.
Qed.

Lemma newest_first_take n h : newest_first h -> newest_first (take n h).
Proof. intros Hs. rewrite <- (take_drop n h) in Hs. by apply newest_first_app in Hs as (_ & ? & _). Qed.

(** What is dropped is older than what stays. *)
Lemma take_newer n h s d :
  newest_first h -> s ∈ (take n h).*1 -> d ∈ h.*1 -> s < d -> d ∈ (take n h).*1.
Proof.
  intros Hs Hin Hd Hlt. rewrite <- (take_drop n h) in Hd. rewrite fmap_app, elem_of_app in Hd.
  destruct Hd as [|Hd]; [done|]. rewrite <- (take_drop n h) in Hs.
  apply newest_first_app in Hs as (Hc & _). rewrite list_elem_of_fmap in Hin, Hd.
  destruct Hin as (p & -> & Hp), Hd as (q & -> & Hq). specialize (Hc p q Hp Hq). lia.
Qed.
End Hashes.

(** ** The slots of the bank *)

Record env_ok (env : LookupEnv) (slot : Z) (h : SlotHashes.t) : Prop := {
  eo_clock : exists clock, env_clock env = Some clock /\ clock_slot clock = slot;
  eo_hashes : env_slot_hashes env = Some h;
  eo_slot : 0 <= slot < slot_max;
  eo_sorted : newest_first h;
  eo_older : Forall (fun p => p.1 < slot) h;
}.

(** [Bank::new_from_parent]: the hash of the parent is added to the slot hashes
    ([Bank::update_slot_hashes]), and the clock shows the slot of the new bank. *)
Definition next_bank (env env' : LookupEnv) : Prop :=
  exists clock clock' h hash,
    env_clock env = Some clock /\ env_slot_hashes env = Some h /\
    env_clock env' = Some clock' /\ clock_slot clock < clock_slot clock' < slot_max /\
    env_slot_hashes env' = Some (SlotHashes.add h (clock_slot clock) hash).

Lemma next_bank_ok env env' slot h :
  next_bank env env' -> env_ok env slot h ->
  exists slot' hash, slot < slot' /\
    env_ok env' slot' (take SlotHashes.MAX_ENTRIES ((slot, hash) :: h)).
Proof.
  intros (c & c' & h0 & hash & Hc & Hh & Hc' & Hlt & Hh') [(c0 & Hc0 & <-) Hh0 Hs Hso Hol].
  simplify_eq. exists (clock_slot c'), hash. split; [lia|]. rewrite add_newer in Hh' by done.
  split; [eauto|done|lia| |].
  - apply newest_first_take, newest_first_cons. done.
  - apply Forall_take. constructor; [cbn; lia|]. eapply Forall_impl; [exact Hol|]. cbn. lia.
Qed.

(** ** Tables *)

(** The addresses of a table that can be looked up in a slot *)
Definition active_len (slot : Z) (t : AddressLookupTable) : nat :=
  if last_extended_slot (meta t) <? slot then length (addresses t)
  else Z.to_nat (last_extended_slot_start_index (meta t)).

Record table_ok (slot : Z) (t : AddressLookupTable) : Prop := {
  to_index : 0 <= last_extended_slot_start_index (meta t) <= Z.of_nat (length (addresses t));
  to_length : (length (addresses t) <= LOOKUP_TABLE_MAX_ADDRESSES)%nat;
  to_extended : last_extended_slot (meta t) <= slot;
  to_deactivation : deactivation_slot (meta t) = slot_max \/ deactivation_slot (meta t) <= slot;
}.

(** A table, and the same table later *)
Record evolves (slot : Z) (t : AddressLookupTable) (slot' : Z) (t' : AddressLookupTable) : Prop := {
  ev_slot : slot <= slot';
  ev_addresses : addresses t `prefix_of` addresses t';
  ev_authority : authority (meta t') = authority (meta t) \/ authority (meta t') = None;
  ev_frozen : authority (meta t) = None -> t' = t;
  ev_deactivated : deactivation_slot (meta t) <> slot_max -> t' = t;
  ev_deactivation : deactivation_slot (meta t') = deactivation_slot (meta t) \/
    slot <= deactivation_slot (meta t') <= slot';
  ev_active : (active_len slot t <= active_len slot' t')%nat;
}.

Lemma active_len_mono slot slot' t :
  table_ok slot t -> slot <= slot' -> (active_len slot t <= active_len slot' t)%nat.
Proof.
  intros [Hi _ _ _] Hle. unfold active_len.
  destruct (Z.ltb_spec (last_extended_slot (meta t)) slot),
    (Z.ltb_spec (last_extended_slot (meta t)) slot'); lia.
Qed.

Lemma active_len_le slot t : table_ok slot t -> (active_len slot t <= length (addresses t))%nat.
Proof. intros [Hi _ _ _]. unfold active_len. case_match; lia. Qed.

Lemma table_evolves_refl slot slot' t : table_ok slot t -> slot <= slot' -> evolves slot t slot' t.
Proof. intros Hok Hle. split; auto using active_len_mono. Qed.

Lemma table_evolves_trans s1 t1 s2 t2 s3 t3 :
  evolves s1 t1 s2 t2 -> evolves s2 t2 s3 t3 -> evolves s1 t1 s3 t3.
Proof.
  intros [H1 H2 H3 H4 H5 H6 H7] [K1 K2 K3 K4 K5 K6 K7]. split; try lia.
  - by etrans.
  - destruct K3 as [->|?]; [done|by right].
  - intros Ha. specialize (H4 Ha). subst t2. by apply K4.
  - intros Hd. specialize (H5 Hd). subst t2. by apply K5.
Qed.

Section Tables.
Context `{StateCodec}.

Lemma extended_meta_Ok t slot m :
  extended_meta t slot = Ok m ->
  deactivation_slot m = deactivation_slot (meta t) /\ authority m = authority (meta t) /\
  last_extended_slot m = slot /\
  last_extended_slot_start_index m
  = (if slot =? last_extended_slot (meta t) then last_extended_slot_start_index (meta t)
     else Z.of_nat (length (addresses t))).
Proof.
  unfold extended_meta. destruct (Z.eqb_spec slot (last_extended_slot (meta t))); intros Hm; keyed_inv;
    split_and!; done.
Qed.

Lemma table_step_evolves env slot h key t t' :
  table_step env key t (Some t') -> env_ok env slot h -> table_ok slot t ->
  table_ok slot t' /\ evolves slot t slot t'.
Proof.
  intros Hstep [(clock & Hc & Hslot) _ Hs _ _] Hok. pose proof Hok as [Hi Hl He Hd].
  inversion Hstep as [? Ha Hde Hne|? new clock' m Ha Hde Hnew Hlen Hclk Hm|? clock' Ha Hde Hclk|]; subst.
  - split; [by split|]. split; cbn; auto; try congruence; try lia.
  - simplify_eq. apply extended_meta_Ok in Hm as (Hmd & Hma & Hms & Hmi). rewrite length_app in Hlen.
    assert (active_len (clock_slot clock) (mkTable m (addresses t ++ new)) = active_len (clock_slot clock) t)
      as Hact.
    { unfold active_len. cbn [meta addresses]. rewrite Hms, Z.ltb_irrefl, Hmi.
      destruct (Z.eqb_spec (clock_slot clock) (last_extended_slot (meta t))) as [->|];
        [by rewrite Z.ltb_irrefl|].
      destruct (Z.ltb_spec (last_extended_slot (meta t)) (clock_slot clock)); [lia|lia]. }
    split; split; cbn [meta addresses]; rewrite ?Hmd, ?Hma, ?Hms, ?Hmi, ?length_app, ?Hact; try lia; auto.
    + case_match; lia.
    + apply prefix_app_r. done.
    + congruence.
  - simplify_eq. split; [split; cbn; try lia; right; lia|].
    split; cbn; auto; try congruence; try lia.
Qed.

(** A table can be closed in this state. *)
Definition closable (slot : Z) (h : SlotHashes.t) (t : AddressLookupTable) : Prop :=
  authority (meta t) <> None /\ status (meta t) slot h = Deactivated.

Lemma table_step_close env slot h key t :
  table_step env key t None -> env_ok env slot h -> closable slot h t.
Proof.
  intros Hstep [(clock & Hc & Hslot) Hh _ _ _]. inversion Hstep; subst; simplify_eq.
  split; [congruence|done].
Qed.
End Tables.

(** ** Messages *)

(** What a stretch, or the sweep, does to the table of an account *)
Record table_effect `{StateCodec} (env : LookupEnv) (a a' : AccountSharedData) : Prop := {
  te_table : forall t, table_of a = Some t ->
    (table_of a' = Some t /\ lamports a <= lamports a') \/
    exists key, table_step env key t (table_of a') /\
      (table_of a' <> None -> lamports a' = lamports a);
  te_none : table_of a = None -> table_of a' = None \/
    exists key, table_of a' = Some (mkTable (table_meta_new key) []) /\ 0 < lamports a';
}.

(** A bank with the lookup table program, for every state of the sysvar cache *)
Class LookupBank (hashv : list bytes -> Hash) (on_curve : Hash -> bool)
    `{Bincode ProgramState, Bincode NonceVersions, Bincode (list (Hash * Z)), Bincode Rent}
    (sys_env : SystemEnv) (des_sys : bytes -> option SystemInstruction)
    (ser_sys : SystemInstruction -> bytes) (des : bytes -> option ProgramInstruction)
    (context : LookupEnv -> InvokeContext caller) : Prop := {
  lb_codec :: StateCodec;
  lb_lookup : forall env, find_builtin lookup_program_id (ic_builtin_programs (context env))
    = Some (process_lookup hashv on_curve ser_sys env des);
  lb_system : forall env, find_builtin system_program_id (ic_builtin_programs (context env))
    = Some (no_calls (System.process_instruction hashv sys_env des_sys));
  lb_des_sys : forall i, sent i -> des_sys (ser_sys i) = Some i;
  lb_other : forall env k f, k <> lookup_program_id ->
    find_builtin k (ic_builtin_programs (context env)) = Some f ->
    well_stretched (context env) (lookup_does env) balances_ok k f;
}.

Section Bank.
Context (hashv : list bytes -> Hash) (on_curve : Hash -> bool).
Context `{Bincode ProgramState, Bincode NonceVersions, Bincode (list (Hash * Z)), Bincode Rent}.
Context (sys_env : SystemEnv) (des_sys : bytes -> option SystemInstruction).
Context (ser_sys : SystemInstruction -> bytes) (des : bytes -> option ProgramInstruction).
Context (context : LookupEnv -> InvokeContext caller).
Context `{Hbank : !LookupBank hashv on_curve sys_env des_sys ser_sys des context}.

Lemma lookup_does_holds env pid kas l l' :
  lookup_does env pid kas l l' -> balances_ok l -> balances_ok l'.
Proof. intros Hd Hb. by apply Hd. Qed.

Lemma fixup_holds msg keys index l l' :
  fixup_instructions_sysvar msg keys index l = Ok l' -> balances_ok l -> balances_ok l'.
Proof. intros [Hol _]%fixup_spec Hb k. rewrite (proj2 (Hol k)). apply Hb. Qed.

Lemma env_clock_fits env slot h clock :
  env_ok env slot h -> env_clock env = Some clock -> in_u64 (clock_slot clock).
Proof.
  intros [(c & Hc & Hs) _ Hlt _ _] Hc'. simplify_eq. unfold in_u64. lia.
Qed.

Lemma lookup_bank_stretched env slot h p f :
  env_ok env slot h -> find_builtin p (ic_builtin_programs (context env)) = Some f ->
  well_stretched (context env) (lookup_does env) balances_ok p f.
Proof.
  intros He Hf. destruct (decide (p = lookup_program_id)) as [->|Hp]; [|by apply lb_other].
  rewrite lb_lookup in Hf. injection Hf as <-. intros d kas l _ Hb.
  eapply lookup_stretched; try done; [|apply lb_system|apply lb_des_sys].
  intros clock. by eapply env_clock_fits.
Qed.

(** What a program may do to an account of another one *)
Lemma change_foreign pid w rent realloc a a' :
  change_allowed pid w rent realloc a a' -> pid <> owner a ->
  owner a' = owner a /\ data a' = data a /\ lamports a <= lamports a'.
Proof.
  intros Hc Hp. split_and!; [..|by apply (ca_spend _ _ _ _ _ _ Hc)]; symmetry; apply dec_stable; intros Hne.
  - by destruct (ca_owner _ _ _ _ _ _ Hc Hne) as (_ & _ & ? & _).
  - by destruct (ca_data _ _ _ _ _ _ Hc Hne) as (? & _).
Qed.

(** A stretch leaves a table as it is, or is one of the lookup table program. *)
Lemma stretch_change env Q l l' k (a := get_account l k) (a' := get_account l' k) :
  step_in (context env) (lookup_does env) Q l l' -> balances_ok l ->
  (table_of a' = table_of a /\ (table_of a = None \/ lamports a <= lamports a')) \/
  (exists kas, Q lookup_program_id kas /\ owner a' = owner a /\ table_change env kas a a').
Proof.
  subst a a'. intros (pid & kas & HQ & [_ Hd _ Hv]) Hb. destruct (Hd Hb) as [_ Hd'].
  destruct (decide (owner (get_account l k) = lookup_program_id)) as [Ho|Hno].
  - destruct (decide (pid = lookup_program_id)) as [Hpid|Hpid].
    + right. exists kas. destruct (Hd' Hpid k Ho) as [Ho' Hc]. subst pid.
      split_and!; [done|exact (eq_trans Ho' (eq_sym Ho))|done].
    + left. unfold table_of. destruct (Hv k) as [Heq|(w & Hc)]; [rewrite Heq; split; [done|right; done]|].
      apply change_foreign in Hc as (-> & -> & ?); [by auto|congruence].
  - left. assert (table_of (get_account l k) = None) as Hnone by (unfold table_of; by rewrite decide_False).
    rewrite Hnone. split; [|by left]. unfold table_of. case_decide as Ho'; [|done].
    destruct (Hv k) as [Heq|(w & Hc)]; [congruence|].
    destruct (ca_owner _ _ _ _ _ _ Hc) as (_ & _ & _ & Hz); [congruence|].
    destruct (deserialize (data (get_account l' k))) as [t| |] eqn:Ht; [|done..].
    by apply zeroes_no_table in Ht.
Qed.

Lemma stretch_tables env l l' k :
  step_in (context env) (lookup_does env) anyone l l' -> balances_ok l ->
  table_effect env (get_account l k) (get_account l' k).
Proof.
  intros Hs Hb. destruct (stretch_change _ _ _ _ k Hs Hb) as [[Heq Hl]|(kas & _ & Ho & Hc)].
  { split; rewrite Heq; [|auto]. intros t Ht. left. destruct Hl; [congruence|done]. }
  destruct Hc as [Hsame Hlam|ka _ _ Hz Ht Hlam|ka t _ _ Ht Hstep _ Hlam].
  - assert (table_of (get_account l' k) = table_of (get_account l k)) as Heq
      by (unfold table_of; by rewrite Ho, Hsame).
    split; rewrite Heq; auto.
  - split; [|eauto]. intros t [_ Ht']%table_of_Some. by apply zeroes_no_table in Ht'.
  - split; [|congruence]. intros t' Ht'. simplify_eq. eauto.
Qed.

(** Who signed for a change *)
Lemma change_signed env kas a a' :
  table_change env kas a a' -> owner a' = owner a ->
  table_of a' = table_of a \/
  exists ka, ka ∈ kas /\ is_signer ka = true /\
    forall t, table_of a = Some t -> authority (meta t) = Some (unsigned_key ka).
Proof.
  intros [Hsame _|ka Hka Hs Hz _ _|ka t Hka Hs Ht Hstep _ _] Ho.
  - left. unfold table_of. by rewrite Ho, Hsame.
  - right. exists ka. split_and!; [done..|]. intros t [_ Ht]%table_of_Some. by apply zeroes_no_table in Ht.
  - right. exists ka. split_and!; [done..|]. intros t' Ht'. simplify_eq. by inversion Hstep.
Qed.

(** Stretches of the lookup table program on the same accounts *)
Lemma steps_signed env Q kas l l' k :
  (forall kas', Q lookup_program_id kas' -> kas' = kas) ->
  rtc (step_in (context env) (lookup_does env) Q) l l' -> balances_ok l ->
  table_of (get_account l' k) = table_of (get_account l k) \/
  exists ka, ka ∈ kas /\ is_signer ka = true /\
    forall t, table_of (get_account l k) = Some t -> authority (meta t) = Some (unsigned_key ka).
Proof.
  intros HQ. induction 1 as [l|l l1 l2 Hs _ IH]; intros Hb; [by left|].
  assert (balances_ok l1) as Hb1 by (destruct Hs as (? & ? & _ & [_ Hd _ _]); by apply Hd).
  destruct (stretch_change _ _ _ _ k Hs Hb) as [[Heq _]|(kas' & ->%HQ & Ho & Hc)].
  - rewrite <- Heq. by apply IH.
  - destruct (change_signed _ _ _ _ Hc Ho) as [Heq|?]; [|by right]. rewrite <- Heq. by apply IH.
Qed.

Lemma message_step_tables env l l' k :
  message_step (context env) (lookup_does env) l l' -> balances_ok l ->
  table_effect env (get_account l k) (get_account l' k).
Proof.
  intros [l1 l2 Hs|msg keys index l1 l2 Hf Ho] Hb; [by apply stretch_tables|].
  apply fixup_spec in Hf as [Hol Hne].
  assert (table_of (get_account l2 k) = table_of (get_account l1 k)) as Heq.
  { destruct (decide (k = instructions_sysvar_id)) as [->|Hk]; [|by rewrite Hne].
    unfold table_of. rewrite (proj1 (Hol _)), !decide_False; [done|..];
      intros E; rewrite E, lb_lookup in Ho; done. }
  split; rewrite Heq; [|auto]. intros t Ht. left. split; [done|]. by rewrite (proj2 (Hol k)).
Qed.

Lemma message_step_holds env l l' :
  message_step (context env) (lookup_does env) l l' -> balances_ok l -> balances_ok l'.
Proof.
  intros [l1 l2 (pid & kas & _ & [_ Hd _ _])|msg keys index l1 l2 Hf _] Hb.
  - by apply Hd.
  - by eapply fixup_holds.
Qed.

(** ** What holds of all tables *)

Record tables_ok (s : LookupEnv * ledger) (slot : Z) (h : SlotHashes.t) : Prop := {
  tk_env : env_ok s.1 slot h;
  tk_balances : balances_ok s.2;
  tk_tables : forall k t, table_of (get_account s.2 k) = Some t ->
    table_ok slot t /\ 0 < lamports (get_account s.2 k);
}.

Lemma table_effect_ok env slot h a a' :
  table_effect env a a' -> env_ok env slot h ->
  (forall t, table_of a = Some t -> table_ok slot t /\ 0 < lamports a) ->
  forall t, table_of a' = Some t -> table_ok slot t /\ 0 < lamports a'.
Proof.
  intros [Ht Hn] He Hok t Ht'. destruct (table_of a) as [t0|] eqn:Ha.
  - destruct (Hok t0 eq_refl) as [Hok0 Hpos]. destruct (Ht t0 eq_refl) as [[Hs Hl]|(key & Hs & Hl)].
    + rewrite Hs in Ht'. simplify_eq. split; [done|lia].
    + rewrite Ht' in Hs, Hl. split; [by eapply table_step_evolves|]. rewrite Hl; done.
  - destruct (Hn eq_refl) as [|(key & Hs & Hl)]; [congruence|]. rewrite Hs in Ht'. simplify_eq.
    split; [|done]. pose proof (eo_slot _ _ _ He). split; cbn; lia || auto.
Qed.

(** The table of an account later, or that it could be closed *)
Definition table_fate (slot : Z) (t : AddressLookupTable) (slot' : Z) (h : SlotHashes.t)
    (a' : AccountSharedData) : Prop :=
  (exists t', table_of a' = Some t' /\ evolves slot t slot' t') \/
  (exists t', evolves slot t slot' t' /\ closable slot' h t').

Lemma message_fate env slot h l l' :
  rtc (message_step (context env) (lookup_does env)) l l' -> tables_ok (env, l) slot h ->
  tables_ok (env, l') slot h /\
  forall k t, table_of (get_account l k) = Some t -> table_fate slot t slot h (get_account l' k).
Proof.
  induction 1 as [l|l l1 l2 Hs _ IH]; intros [He Hb Hok].
  { split; [by split|]. intros k t Ht. left. exists t. split; [done|].
    apply table_evolves_refl; [|done]. by eapply (Hok k). }
  assert (tables_ok (env, l1) slot h) as Hok1.
  { split; [done|by eapply message_step_holds|]. intros k. eapply table_effect_ok; [|done|apply Hok].
    by apply message_step_tables. }
  destruct (IH Hok1) as [Hok2 Hfate]. split; [done|]. intros k t Ht.
  destruct (te_table _ _ _ (message_step_tables _ _ _ k Hs Hb) t Ht) as [[Ht1 _]|(key & Hstep & _)].
  - by apply Hfate.
  - destruct (Hok k t Ht) as [Hokt _]. destruct (table_of (get_account l1 k)) as [t1|] eqn:Ht1.
    + destruct (table_step_evolves _ _ _ _ _ _ Hstep He Hokt) as [_ Hev].
      destruct (Hfate k t1 Ht1) as [(t2 & ? & ?)|(t2 & ? & ?)]; [left|right]; exists t2;
        (split; [|try done]); try done; by eapply table_evolves_trans.
    + right. exists t. split; [by apply table_evolves_refl|]. by eapply table_step_close.
Qed.

(** ** The history of the bank *)

Inductive lookup_history : LookupEnv * ledger -> LookupEnv * ledger -> Prop :=
| lh_ledger env l l' : call_ledger_step (context env) l l' -> lookup_history (env, l) (env, l')
| lh_slot env env' l : next_bank env env' -> lookup_history (env, l) (env', l).

Lemma system_not_lookup : system_program_id <> lookup_program_id.
Proof. apply (bool_decide_eq_false_1 _). vm_compute. reflexivity. Qed.
Lemma default_not_lookup : owner account_default <> lookup_program_id.
Proof. apply (bool_decide_eq_false_1 _). vm_compute. reflexivity. Qed.

Lemma sweep_tables l k :
  let l' : ledger := filter (fun ka => lamports ka.2 <> 0) l in
  (0 < lamports (get_account l k) -> get_account l' k = get_account l k) /\
  (forall t, table_of (get_account l' k) = Some t ->
     get_account l' k = get_account l k).
Proof.
  cbn zeta. rewrite get_account_sweep. case_decide as Hk; [done|]. split; [lia|].
  intros t [Ho _]%table_of_Some. destruct (default_not_lookup Ho).
Qed.

Lemma process_message_tables env slot h keys msg pis l n l' delta :
  loaded_calls (context env) keys msg pis l -> tables_ok (env, l) slot h ->
  Invoke.process_message (context env) keys msg pis l n = Ok (l', delta) ->
  rtc (message_step (context env) (lookup_does env)) l l'.
Proof.
  intros Hload [He Hb _] Hrun. eapply (process_message_steps _ _ balances_ok); try done.
  - intros pid kas l1 l2. apply lookup_does_holds.
  - intros msg' keys' i l1 l2. apply fixup_holds.
  - intros p f. by eapply lookup_bank_stretched.
Qed.

Lemma ledger_step_fate env slot h l l' :
  call_ledger_step (context env) l l' -> tables_ok (env, l) slot h ->
  tables_ok (env, l') slot h /\
  forall k t, table_of (get_account l k) = Some t -> table_fate slot t slot h (get_account l' k).
Proof.
  intros Hstep Hok. destruct Hstep as [msg keys pis l n l' delta Hload Hrun|l].
  - apply message_fate; [|done]. by eapply process_message_tables.
  - destruct Hok as [He Hb Ht]. split; [split; [done| |]|].
    + intros k. cbn. rewrite get_account_sweep. case_decide; [apply Hb|]. split; cbn; unfold u64_max; lia.
    + intros k t Ht'. cbn in *. destruct (sweep_tables l k) as [_ Hs]. pose proof (Hs t Ht') as E.
      rewrite E in Ht' |- *. by apply (Ht k).
    + intros k t Ht'. destruct (Ht k t Ht') as [Hokt Hpos].
      destruct (sweep_tables l k) as [Hs _]. left. exists t. rewrite (Hs Hpos).
      split; [done|by apply table_evolves_refl].
Qed.

(** What a table became, or in which slot it was closed *)
Definition closed_within (s s' : LookupEnv * ledger) (slot : Z) (t : AddressLookupTable) : Prop :=
  exists env l l' slot1 h1 t1, rtc lookup_history s (env, l) /\ rtc lookup_history (env, l') s' /\
    call_ledger_step (context env) l l' /\ env_ok env slot1 h1 /\ evolves slot t slot1 t1 /\ closable slot1 h1 t1.

Lemma table_ok_later slot slot' t : table_ok slot t -> slot <= slot' -> table_ok slot' t.
Proof. intros [??? Hd] Hle. split; try done; [lia|]. destruct Hd; [by left|right; lia]. Qed.

Lemma history_fate s s' slot h :
  rtc lookup_history s s' -> tables_ok s slot h ->
  exists slot' h', slot <= slot' /\ tables_ok s' slot' h' /\
    forall k t, table_of (get_account s.2 k) = Some t ->
      (exists t', table_of (get_account s'.2 k) = Some t' /\ evolves slot t slot' t') \/
      closed_within s s' slot t.
Proof.
  intros Hr. revert slot h. induction Hr as [s|s s1 s2 Hs Hr IH]; intros slot h Hok.
  { exists slot, h. split_and!; [done|done|]. intros k t Ht. left. exists t. split; [done|].
    apply table_evolves_refl; [|done]. by eapply (tk_tables _ _ _ Hok k). }
  assert (exists slot1 h1, slot <= slot1 /\ tables_ok s1 slot1 h1 /\
    forall k t, table_of (get_account s.2 k) = Some t ->
      (exists t1, table_of (get_account s1.2 k) = Some t1 /\ evolves slot t slot1 t1) \/
      closed_within s s2 slot t) as (slot1 & h1 & Hle1 & Hok1 & Hfate1).
  { pose proof (tk_env _ _ _ Hok) as He. destruct Hs as [env l l' Hstep|env env' l Hnext].
    - destruct (ledger_step_fate _ _ _ _ _ Hstep Hok) as [Hok' Hf].
      exists slot, h. split_and!; [done|done|]. intros k t Ht.
      destruct (Hf k t Ht) as [?|(t1 & Hev & Hcl)]; [by left|right].
      exists env, l, l', slot, h, t1. by split_and!.
    - destruct (next_bank_ok _ _ _ _ Hnext He) as (slot' & hash & Hlt & He').
      exists slot', (take SlotHashes.MAX_ENTRIES ((slot, hash) :: h)). destruct Hok as [_ Hb Ht].
      split_and!; [lia| |].
      + split; [done|done|]. intros k t Hk. destruct (Ht k t Hk) as [Hokt ?].
        split; [|done]. eapply table_ok_later; [done|lia].
      + intros k t Hk. left. exists t. split; [done|]. apply table_evolves_refl; [by eapply (Ht k)|lia]. }
  destruct (IH _ _ Hok1) as (slot2 & h2 & Hle2 & Hok2 & Hfate2).
  exists slot2, h2. split_and!; [lia|done|]. intros k t Ht.
  destruct (Hfate1 k t Ht) as [(t1 & Ht1 & Hev1)|?]; [|by right].
  destruct (Hfate2 k t1 Ht1) as [(t2 & Ht2 & Hev2)|Hcl]; [left|right].
  - exists t2. split; [done|]. by eapply table_evolves_trans.
  - destruct Hcl as (env & l & l' & slot3 & h3 & t3 & H1' & H2' & H3' & H4' & H5' & H6').
    exists env, l, l', slot3, h3, t3. split_and!; try done; [by eapply rtc_l|by eapply table_evolves_trans].
Qed.

(** ** Slots of closed tables *)

(** As long as the table is there, a recent slot [r] before its deactivation is older than
    the deactivation slot, which then is recent too; afterwards [r] is not recent. *)
Definition slot_spent (r slot : Z) (h : SlotHashes.t) (a : AccountSharedData) : Prop :=
  r < slot /\
  ((exists t, table_of a = Some t /\
      (deactivation_slot (meta t) = slot_max \/ deactivation_slot (meta t) = slot \/
       (r < deactivation_slot (meta t) /\ (r ∈ h.*1 -> deactivation_slot (meta t) ∈ h.*1)))) \/
   r ∉ h.*1).

Lemma table_step_spent env slot h r key t a' :
  table_step env key t (table_of a') -> env_ok env slot h ->
  (deactivation_slot (meta t) = slot_max \/ deactivation_slot (meta t) = slot \/
   (r < deactivation_slot (meta t) /\ (r ∈ h.*1 -> deactivation_slot (meta t) ∈ h.*1))) ->
  r < slot -> slot_spent r slot h a'.
Proof.
  intros Hstep He Hd Hr. split; [done|]. destruct He as [(clock & Hc & Hslot) Hh _ Hso _].
  inversion Hstep as [? Ha Hde Hne|? new clock' m Ha Hde Hnew Hlen Hclk Hm|? clock' Ha Hde Hclk|
    ? clock' h' Ha Hclk Hh' Hst]; subst.
  - left. eexists. split; [done|]. by left.
  - left. eexists. split; [done|]. apply extended_meta_Ok in Hm as (Hmd & _). cbn [meta]. rewrite Hmd. by left.
  - left. eexists. split; [done|]. simplify_eq. right. by left.
  - right. simplify_eq. unfold status in Hst.
    destruct (Z.eqb_spec (deactivation_slot (meta t)) slot_max); [done|].
    destruct (Z.eqb_spec (deactivation_slot (meta t)) (clock_slot clock)); [done|].
    destruct (SlotHashes.position h (deactivation_slot (meta t))) eqn:Hp; [done|].
    apply position_None in Hp; [|done]. naive_solver.
Qed.

Lemma effect_spent env slot h r a a' :
  table_effect env a a' -> env_ok env slot h -> slot_spent r slot h a -> slot_spent r slot h a'.
Proof.
  intros [Ht _] He [Hr [(t & Ha & Hd)|Hgone]]; [|by split; [|right]].
  destruct (Ht t Ha) as [[Hs _]|(key & Hs & _)]; [|by eapply table_step_spent].
  split; [done|]. left. eauto.
Qed.

(** No older slot becomes recent. *)
Lemma next_recent r slot h (hash : Hash) :
  r < slot -> r ∈ (take SlotHashes.MAX_ENTRIES ((slot, hash) :: h)).*1 -> r ∈ h.*1.
Proof.
  intros Hr Hin. rewrite fmap_take in Hin. apply elem_of_take in Hin as (i & Hi & _).
  destruct i as [|i]; cbn in Hi; [simplify_eq; lia|]. by eapply list_elem_of_lookup_2.
Qed.

Lemma next_spent r slot h slot' hash a :
  slot < slot' -> newest_first ((slot, hash) :: h) -> slot_spent r slot h a ->
  slot_spent r slot' (take SlotHashes.MAX_ENTRIES ((slot, hash) :: h)) a.
Proof.
  intros Hlt Hso [Hr Hs]. split; [lia|]. pose proof (next_recent r slot h hash Hr) as Hold.
  destruct Hs as [(t & Ha & Hd)|Hgone]; [left|right; auto]. exists t. split; [done|].
  destruct Hd as [?|[Hd|[Hd Hin]]]; [by left|right; right..].
  - rewrite Hd. split; [done|]. intros _. cbn. left.
  - split; [done|]. intros Hr'. apply (take_newer _ _ r); try done. cbn. right. auto.
Qed.

Lemma message_spent env slot h r k l l' :
  rtc (message_step (context env) (lookup_does env)) l l' -> tables_ok (env, l) slot h ->
  slot_spent r slot h (get_account l k) -> slot_spent r slot h (get_account l' k).
Proof.
  induction 1 as [l|l l1 l2 Hs _ IH]; intros Hok Hsp; [done|]. apply IH.
  - apply (message_fate env slot h l l1); [by apply rtc_once|done].
  - eapply effect_spent; [|apply Hok|exact Hsp]. apply message_step_tables; [done|apply Hok].
Qed.

Lemma history_spent s s' slot h r k :
  rtc lookup_history s s' -> tables_ok s slot h -> slot_spent r slot h (get_account s.2 k) ->
  exists slot' h', tables_ok s' slot' h' /\ slot_spent r slot' h' (get_account s'.2 k).
Proof.
  intros Hr. revert slot h. induction Hr as [s|s s1 s2 Hs _ IH]; intros slot h Hok Hsp; [eauto|].
  assert (exists slot1 h1, tables_ok s1 slot1 h1 /\ slot_spent r slot1 h1 (get_account s1.2 k))
    as (slot1 & h1 & Hok1 & Hsp1); [|by eapply IH].
  pose proof (tk_env _ _ _ Hok) as He. destruct Hs as [env l l' Hstep|env env' l Hnext].
  - cbn [fst snd] in He, Hsp |- *. exists slot, h. split; [by eapply ledger_step_fate|].
    destruct Hstep as [msg keys pis l n l' delta Hload Hrun|l].
    + eapply message_spent; [by eapply process_message_tables|done|done].
    + destruct Hsp as [Hlt [(t & Ht & Hd)|Hgone]]; split; try done; [left|by right].
      exists t. split; [|done]. destruct (tk_tables _ _ _ Hok k t Ht) as [_ Hpos].
      destruct (sweep_tables l k) as [Hsw _]. cbn in *. by rewrite (Hsw Hpos).
  - destruct (next_bank_ok _ _ _ _ Hnext He) as (slot' & hash & Hlt & He').
    exists slot', (take SlotHashes.MAX_ENTRIES ((slot, hash) :: h)). split.
    + destruct Hok as [_ Hb Ht]. split; [done|done|]. intros k' t Hk. destruct (Ht k' t Hk) as [Hokt ?].
      split; [|done]. eapply table_ok_later; [done|lia].
    + apply next_spent; [done| |done]. destruct He as [_ _ _ Hso Hol]. by apply newest_first_cons.
Qed.

Lemma history_not_recent s s' slot h r :
  rtc lookup_history s s' -> env_ok s.1 slot h -> r < slot -> r ∉ h.*1 ->
  exists slot' h', env_ok s'.1 slot' h' /\ r ∉ h'.*1.
Proof.
  intros Hr. revert slot h. induction Hr as [s|s s1 s2 Hs _ IH]; intros slot h He Hlt Hn; [eauto|].
  destruct Hs as [env l l' _|env env' l Hnext]; cbn [fst] in *; [by eapply IH|].
  destruct (next_bank_ok _ _ _ _ Hnext He) as (slot' & hash & Hlt' & He').
  eapply IH; [exact He'|lia|]. by intros ?%next_recent.
Qed.

Lemma bind_fails {A B} (p : prog A) (f : A -> prog B) l :
  p l <> Panic -> (forall a l', p l = Ok (a, l') -> exists e, f a l' = Err e) ->
  exists e, (p ≫= f) l = Err e.
Proof.
  intros Hp Hf. cbv [mbind st_bind]. destruct (p l) as [[a l']|e|]; [by apply Hf|by exists e|done].
Qed.

Ltac lookup_total :=
  unfold checked_add, keyed_account_at_index, ka_data_len, account_ref, lift, ok_or, fail_if, mbind,
    st_bind, outcome_bind, mret; by repeat case_match.

(** A creation from a slot that is not recent fails. *)
Lemma create_not_recent env slot h r d bump_seed first kas l :
  des d = Some (CreateLookupTable r bump_seed) -> env_ok env slot h -> r ∉ h.*1 ->
  exists e, process_lookup hashv on_curve ser_sys env des first d kas l = TErr e.
Proof.
  intros Hdes He Hn. apply get_None in Hn; [|apply He].
  assert (exists e, check_create hashv on_curve env kas first r bump_seed l = Err e) as [e Hck].
  { unfold check_create, get_slot_hashes, account_after, key_of_signer. rewrite (eo_hashes _ _ _ He).
    repeat (apply bind_fails; [lookup_total|intros ???]).
    keyed_inv. simplify_eq. }
  exists e. cbv [process_lookup mbind cpi_bind local lift]. rewrite Hdes. cbn [ok_or tree_bind].
  cbv [create_lookup_table mbind cpi_bind local]. by rewrite Hck.
Qed.

(** ** Looking addresses up *)

Lemma lookup_active slot h t indexes :
  table_ok slot t -> is_active (meta t) slot h = true ->
  lookup t slot indexes h
  = ok_or (mapM (fun idx => take (active_len slot t) (addresses t) !! Z.to_nat idx) indexes)
      InvalidLookupIndex.
Proof.
  intros Hok Ha. unfold lookup, get_active_addresses_len. rewrite Ha. cbn [negb fail_if mbind outcome_bind].
  fold (active_len slot t). pose proof (active_len_le _ _ Hok).
  destruct (Nat.ltb_spec (length (addresses t)) (active_len slot t)); [lia|done].
Qed.

Lemma lookup_inactive slot h t indexes :
  is_active (meta t) slot h = false -> lookup t slot indexes h = Err LookupTableAccountNotFound.
Proof. intros Ha. unfold lookup, get_active_addresses_len. by rewrite Ha. Qed.

Lemma lookup_later slot h t slot' h' t' indexes ks :
  table_ok slot t -> table_ok slot' t' -> evolves slot t slot' t' ->
  lookup t slot indexes h = Ok ks -> is_active (meta t') slot' h' = true ->
  lookup t' slot' indexes h' = Ok ks.
Proof.
  intros Hok Hok' Hev Hl Ha'. rewrite lookup_active by done.
  destruct (is_active (meta t) slot h) eqn:Ha; [|by rewrite lookup_inactive in Hl].
  rewrite lookup_active in Hl by done. apply ok_or_Ok in Hl. apply ok_or_Ok.
  apply mapM_Some in Hl. apply mapM_Some. eapply Forall2_impl; [exact Hl|].
  intros idx k [Hk Hlt]%lookup_take_Some. apply lookup_take_Some.
  split; [|pose proof (ev_active _ _ _ _ Hev); lia].
  eapply prefix_lookup_Some; [exact Hk|apply Hev].
Qed.

Lemma deserialize_no_panic d : deserialize d <> Panic.
Proof.
  unfold deserialize, ok_or, fail_if, mbind, outcome_bind. by repeat case_match; simplify_eq.
Qed.

(** Loading addresses from an account with a table, and from one without *)
Lemma load_table l slot h lk t :
  table_of (get_account l (lookup_account_key lk)) = Some t ->
  load_lookup_table_addresses l slot lk h
  = (writable ← lookup t slot (writable_indexes lk) h;
     readonly ← lookup t slot (readonly_indexes lk) h;
     Ok (mkLoaded writable readonly)).
Proof.
  intros [Ho Hd]%table_of_Some. unfold load_lookup_table_addresses, get_account in *.
  destruct (l !! lookup_account_key lk) as [a|]; [|destruct (default_not_lookup Ho)].
  cbn [ok_or default id mbind outcome_bind] in *.
  rewrite bool_decide_eq_true_2 by done. by rewrite Hd.
Qed.

Lemma load_no_table l slot h lk :
  table_of (get_account l (lookup_account_key lk)) = None ->
  exists e, load_lookup_table_addresses l slot lk h = Err e.
Proof.
  unfold load_lookup_table_addresses, table_of, get_account.
  destruct (l !! lookup_account_key lk) as [a|]; cbn [ok_or default id mbind outcome_bind]; [|by eauto].
  case_decide as Ho; [rewrite bool_decide_eq_true_2 by done|rewrite bool_decide_eq_false_2 by done; by eauto].
  pose proof (deserialize_no_panic (data a)). destruct (deserialize (data a)); cbn; [done|by eauto|done].
Qed.

Lemma load_no_panic l slot h lk :
  (forall k t, table_of (get_account l k) = Some t -> table_ok slot t) ->
  load_lookup_table_addresses l slot lk h <> Panic.
Proof.
  intros Hok. destruct (table_of (get_account l (lookup_account_key lk))) as [t|] eqn:Ht.
  - rewrite (load_table _ _ _ _ _ Ht). pose proof (Hok _ _ Ht) as Hokt.
    destruct (is_active (meta t) slot h) eqn:Ha.
    + rewrite !lookup_active by done. generalize (take (active_len slot t) (addresses t)). intros ks.
      destruct (mapM _ (writable_indexes lk)); [|discriminate].
      destruct (mapM _ (readonly_indexes lk)); discriminate.
    + by rewrite !lookup_inactive.
  - by destruct (load_no_table l slot h lk Ht) as [e ->].
Qed.

Lemma load_later l slot h l' slot' h' lk t t' r :
  table_of (get_account l (lookup_account_key lk)) = Some t ->
  table_of (get_account l' (lookup_account_key lk)) = Some t' ->
  table_ok slot t -> table_ok slot' t' -> evolves slot t slot' t' ->
  load_lookup_table_addresses l slot lk h = Ok r ->
  load_lookup_table_addresses l' slot' lk h'
  = if is_active (meta t') slot' h' then Ok r else Err LookupTableAccountNotFound.
Proof.
  intros Ht Ht' Hok Hok' Hev Hr. rewrite (load_table _ _ _ _ _ Ht) in Hr. rewrite (load_table _ _ _ _ _ Ht').
  destruct (is_active (meta t') slot' h') eqn:Ha; [|by rewrite !lookup_inactive].
  apply bind_Ok in Hr as (w & Hw & Hr). apply bind_Ok in Hr as (o & Ho & [= <-]).
  by rewrite (lookup_later _ _ _ _ _ _ _ _ Hok Hok' Hev Hw Ha), (lookup_later _ _ _ _ _ _ _ _ Hok Hok' Hev Ho Ha).
Qed.

(** ** Instructions of the lookup table program *)

Lemma lookup_top_signed env slot h keys msg ci pis top l meter st k :
  NoDup (account_keys msg) -> (exists programs, keys = account_keys msg ++ programs) ->
  decompile msg ci = Ok top -> native_program msg keys l ci pis lookup_program_id -> native_ok l ->
  tables_ok (env, l) slot h ->
  Invoke.process_top (context env) keys msg ci pis top l meter = Ok st ->
  table_of (get_account (st_ledger st) k) <> table_of (get_account l k) ->
  exists i key, i ∈ ci_accounts ci /\ account_keys msg !! i = Some key /\ msg_is_signer msg i = true /\
    forall t, table_of (get_account l k) = Some t -> authority (meta t) = Some key.
Proof.
  intros Hnd Hkeys Htop Hnat Hl [He Hb _] Hrun Hne.
  eapply (process_top_steps (context env) (lookup_does env) balances_ok) in Hrun
    as (kas & f & Hkas & Hf & Hsteps); try done.
  2: { intros pid kas l1 l2. apply lookup_does_holds. }
  2: { intros p f. by eapply lookup_bank_stretched. }
  rewrite lb_lookup in Hf. injection Hf as <-.
  assert (rtc (step_in (context env) (lookup_does env)
    (fun q kas' => q = lookup_program_id -> kas' = kas)) l (st_ledger st)) as Hrtc.
  { apply Hsteps; [done|]. eapply lookup_stretched; try done; [| |apply lb_system|apply lb_des_sys].
    - intros clock Hc. by eapply env_clock_fits.
    - intros q kas' Hq Hlookup. rewrite Hq in Hlookup; [destruct (system_not_lookup Hlookup)|]. intros g Hg. rewrite lb_system in Hg.
      injection Hg as <-. by eexists. }
  destruct (steps_signed env (fun q kas' => q = lookup_program_id -> kas' = kas) kas _ _ k
    (fun kas' HQ => HQ eq_refl) Hrtc Hb) as [Heq|(ka & Hka & Hs & Ha)]; [done|].
  destruct (instruction_accounts_Ok _ _ _ _ _ Hkas ka Hka) as (i & j & key & Hi & [= <-] & Hk & ->).
  exists i, key. split_and!; [done| |done|done]. destruct Hkeys as [programs ->].
  rewrite lookup_app_l in Hk; [done|]. by eapply top_index.
Qed.
End Bank.
