(* ===== verification/CallerSafety.v ===== *)
(** * Safety of the token program under cross-program calls

    The refinement of TokenRefine.v for messages whose programs call each other: every
    verified stretch of a program is a sequence of steps of the abstract machine. *)

From Stdlib Require Import ZArith Lia.
From Stdlib Require Import Strings.Byte.
From stdpp Require Import prelude gmap list numbers relations.
From S2P Require Import Prelude Sdk Runtime SystemInstruction MessageCompile MessageFacts.
From S2P Require Import Invoke InvokeFacts InvokeRuns.
From S2P Require Import TokenState TokenInstruction TokenProcessor TokenFacts TokenSpec TokenRefine TokenSafety.
From S2P Require Import CallerFacts AssociatedFacts CallSteps.

Import Invoke.

(** The stretches of the token program are its runs; the others keep balances. *)
Definition token_does (deserialize : bytes -> option TokenInstruction) (pid : Pubkey)
    (kas : list KeyedAccount) (l l' : ledger) : Prop :=
  if decide (pid = token_program_id)
  then exists d u, process deserialize 1 d (mkKeyed false false pid :: kas) l = Ok (u, l')
  else balances_ok l -> balances_ok l'.

(** A bank with the token program: the other programs write only what they are given, and
    hand the accounts they wrote to the programs they call. *)
Class CallBank (deserialize : bytes -> option TokenInstruction) (ic : InvokeContext caller)
    : Prop := {
  cbank_deserialize : forall d i, deserialize d = Some i -> instr_ok i;
  cbank_token : find_builtin token_program_id (ic_builtin_programs ic)
    = Some (no_calls (process deserialize));
  cbank_other : forall k f, k <> token_program_id ->
    find_builtin k (ic_builtin_programs ic) = Some f ->
    well_stretched ic (token_does deserialize) (fun _ => True) k f;
}.

(** Programs that keep the promise of [cbank_other] *)
Lemma no_calls_keeps_balances deserialize ic k g :
  k <> token_program_id -> confined g -> typed g -> (forall n d kas, keeps (g n d kas)) ->
  well_stretched ic (token_does deserialize) (fun _ => True) k (no_calls g).
Proof.
  intros Hk Hc Ht Hkeep. apply no_calls_stretched; [done|done|]. intros d kas l u l' Hrun.
  unfold token_does. rewrite decide_False by done. by eapply Ht.
Qed.

Section Calls.
Context (deserialize : bytes -> option TokenInstruction) (ic : InvokeContext caller).
Context `{Hbank : !CallBank deserialize ic}.

Lemma bank_stretched p f :
  find_builtin p (ic_builtin_programs ic) = Some f -> well_stretched ic (token_does deserialize) (fun _ => True) p f.
Proof.
  intros Hf. destruct (decide (p = token_program_id)) as [->|Hp]; [|by apply cbank_other].
  rewrite cbank_token in Hf. injection Hf as <-.
  apply no_calls_stretched; [apply token_confined|apply token_keeps|].
  intros d kas l u l' Hrun. unfold token_does. rewrite decide_True by done. eauto.
Qed.

Lemma stretch_sim l l' :
  step_in ic (token_does deserialize) anyone l l' -> token_ledger_ok l ->
  simulates any_label l l'.
Proof.
  intros (pid & kas & _ & [_ Hd _ Hv]) [Hl Hinv]. unfold token_does in Hd. case_decide as Hpid.
  - subst pid. destruct Hd as (d & u & Hrun).
    apply (simulates_weaken (step_label deserialize token_program_id d)); [done|].
    eapply token_sim; try done. apply cbank_deserialize.
  - apply (simulates_weaken (step_label deserialize pid [])); [done|].
    eapply foreign_sim; try done. apply Hd. intros k. apply Hl.
Qed.

Lemma message_step_sim l l' :
  message_step ic (token_does deserialize) l l' -> token_ledger_ok l ->
  simulates any_label l l' /\ token_ledger_ok l'.
Proof.
  intros Hs Hok. assert (simulates any_label l l') as Hsim.
  { destruct Hs as [l l' Hs|msg keys index l l' Hf Ho]; [by apply stretch_sim|].
    eapply fixup_sim; [exact Hf|apply Hok|]. intros Heq. rewrite Heq, cbank_token in Ho. done. }
  split; [done|]. split; [apply Hsim|eapply simulates_inv; [done|apply Hok]].
Qed.

Lemma message_calls_sim l l' :
  rtc (message_step ic (token_does deserialize)) l l' -> token_ledger_ok l ->
  simulates any_label l l' /\ token_ledger_ok l'.
Proof.
  induction 1 as [l|l l1 l2 Hs _ IH]; intros Hok; [split; [apply simulates_refl, Hok|done]|].
  destruct (message_step_sim _ _ Hs Hok) as [Hsim1 Hok1]. destruct (IH Hok1) as [Hsim2 Hok2].
  split; [by eapply simulates_trans|done].
Qed.

(** ** Histories of the ledger *)

Lemma call_history_sim l l' :
  rtc (call_ledger_step ic) l l' -> token_ledger_ok l -> simulates any_label l l' /\ token_ledger_ok l'.
Proof.
  induction 1 as [l|l l1 l2 Hstep _ IH]; intros Hok.
  { split; [apply simulates_refl, Hok|done]. }
  assert (simulates any_label l l1 /\ token_ledger_ok l1) as [Hsim1 Hok1].
  { destruct Hstep as [msg keys pis l n l' delta Hload Hrun|l].
    - apply message_calls_sim; [|done].
      eapply (process_message_steps _ _ (fun _ => True)); try done. apply bank_stretched.
    - pose proof (sweep_sim any_label _ Hok) as Hs. split; [done|].
      split; [apply Hs|eapply simulates_inv; [done|apply Hok]]. }
  destruct (IH Hok1) as [Hsim2 Hok2]. split; [by eapply simulates_trans|done].
Qed.
End Calls.
