(* ===== verification/AssociatedExample.v ===== *)
(** * A concrete run of the token-account program

    The system, token and token-account programs in one context, and an attack: the
    account of a victim who signs nothing pays for a token account of the attacker. *)

From Stdlib Require Import ZArith Lia.
From Stdlib Require Import Strings.Byte.
From stdpp Require Import prelude gmap list numbers.
From S2P Require Import Prelude Sdk Runtime SystemInstruction SystemProgram SystemFacts SystemExample.
From S2P Require Import MessageCompile MessageFacts Invoke InvokeFacts.
From S2P Require Import TokenState TokenInstruction TokenProcessor TokenFacts TokenSafety.
From S2P Require Import AssociatedAccount CallerFacts AssociatedFacts.

Module AssociatedExample.

Definition attacker : Pubkey := pk_of_Z 1.

(** ** Encodings of the instructions that are used *)

Definition encode_system (i : SystemInstruction) : bytes :=
  match i with
  | Allocate n => x00 :: to_le_bytes 8 n
  | Assign k => x01 :: pk_bytes k
  | SysTransfer n => x02 :: to_le_bytes 8 n
  | CreateAccount x n k => x03 :: to_le_bytes 8 x ++ to_le_bytes 8 n ++ pk_bytes k
  | _ => []
  end.
Definition decode_system (d : bytes) : option SystemInstruction :=
  match d with
  | x00 :: d => Some (Allocate (from_le_bytes (take 8 d)))
  | x01 :: d => Some (Assign (new_from_array (take 32 d)))
  | x02 :: d => Some (SysTransfer (from_le_bytes (take 8 d)))
  | x03 :: d => Some (CreateAccount (from_le_bytes (take 8 d)) (from_le_bytes (take 8 (drop 8 d)))
                        (new_from_array (take 32 (drop 16 d))))
  | _ => None
  end.
Definition encode_token (i : TokenInstruction) : bytes :=
  match i with
  | InitializeAccount2 k => x00 :: pk_bytes k
  | CloseAccount => [x01]
  | _ => []
  end.
Definition decode_token (d : bytes) : option TokenInstruction :=
  match d with
  | x00 :: d => Some (InitializeAccount2 (new_from_array (take 32 d)))
  | [x01] => Some CloseAccount
  | [x02] => Some (InitializeMint [x41] [x42] 2 attacker None)
  | [x03] => Some (MintTo 50)
  | [x04] => Some (SetAuthority AtMintTokens None)
  | _ => None
  end.
Definition decode_associated (d : bytes) : option AssociatedTokenAccountInstruction :=
  match d with [] => Some Create | _ => None end.

(** ** The context *)

(** A polynomial in the bytes stands for SHA-256. *)
Definition hashv (l : list bytes) : Hash :=
  pk_of_Z (foldl (fun h b => (h * 257 + byte_to_Z b) mod 2 ^ 256) 0 (concat l)).
Definition on_curve (h : Hash) : bool := false.

Definition programs : list (Pubkey * caller) := [
  (token_account_program_id,
   process_associated hashv on_curve encode_system encode_token (Some rent_default)
     decode_associated);
  (system_program_id,
   no_calls (System.process_instruction hashv SystemExample.env decode_system));
  (token_program_id, no_calls (process decode_token))].
Definition context : InvokeContext caller :=
  mkContext rent_default programs true true true 4.

(** ** The attack *)

Definition victim : Pubkey := pk_of_Z 2.
Definition associated : Pubkey :=
  default pk_default
    (fst <$> try_find_program_address hashv on_curve
       [pk_bytes attacker; pk_bytes token_program_id; pk_bytes native_mint_id]
       token_account_program_id).

(** The victim is named as the funding account, without a signature. *)
Definition create_ix : Instruction :=
  mkInstruction token_account_program_id
    [meta_new victim false; meta_new associated false; meta_new_readonly attacker false;
     meta_new_readonly native_mint_id false; meta_new_readonly system_program_id false;
     meta_new_readonly token_program_id false] [].
(** The attacker closes the account and takes its lamports. *)
Definition close_ix : Instruction :=
  mkInstruction token_program_id
    [meta_new associated false; meta_new attacker false; meta_new_readonly attacker true]
    (encode_token CloseAccount).

Definition attack : Message :=
  match message_new (E:=unit) [create_ix; close_ix] (Some attacker) with
  | Ok m => m
  | _ => mkMessage (mkHeader 0 0 0) [] pk_default []
  end.

(** The attacker put one lamport where the account will be. *)
Definition before : ledger :=
  <[attacker := mkAccount 100 [] system_program_id false 0]>
  (<[victim := mkAccount 10000000 [] system_program_id false 0]>
  (<[associated := mkAccount 1 [] system_program_id false 0]>
  (<[token_account_program_id := mkAccount 1 [] native_loader_id true 0]>
  (<[token_program_id := mkAccount 1 [] native_loader_id true 0]>
  (<[system_program_id := mkAccount 1 [] native_loader_id true 0]> ∅))))).

(** One instruction of a message whose program is in its keys *)
Definition step (msg : Message) (n : nat) (l : ledger) (m : AccountsDataMeter)
    : outcome InstructionError InvokeState :=
  match instructions msg !! n with
  | Some ci =>
      top ← decompile msg ci;
      Invoke.process_top context (account_keys msg) msg ci [program_id_index ci] top l m
  | None => Panic
  end.

(** ** The context is as the theorems ask *)

Lemma native_ok_check l :
  forallb (fun p => implb (executable p.2) (bool_decide (owner p.2 = native_loader_id)))
    (map_to_list l) = true -> native_ok l.
Proof.
  rewrite forallb_forall. intros Hl k Hk. unfold get_account in *.
  destruct (l !! k) as [a|] eqn:E; [|done]. cbn in *.
  apply elem_of_map_to_list, list_elem_of_In, Hl in E. cbn in E. rewrite Hk in E.
  by apply bool_decide_eq_true in E.
Qed.

Lemma before_native : native_ok before.
Proof. apply native_ok_check. vm_compute. reflexivity. Qed.

Lemma take_le_bytes d : in_u64 (from_le_bytes (take 8 d)).
Proof.
  pose proof (from_le_bytes_range (take 8 d)) as [Hlo Hhi].
  assert (length (take 8 d) <= 8)%nat as Hlen by (rewrite length_take; lia).
  split; [done|]. assert (256 ^ Z.of_nat (length (take 8 d)) <= 256 ^ 8) by
    (apply Z.pow_le_mono_r; lia).
  change (256 ^ 8) with (u64_max + 1) in *. lia.
Qed.

Lemma decode_system_typed d i : decode_system d = Some i -> sys_instr_ok i.
Proof.
  intros Hd. unfold decode_system in Hd. destruct d as [|b d]; [done|].
  destruct b; try done; injection Hd as <-; cbn; try apply take_le_bytes; try done.
  split; apply take_le_bytes.
Qed.

Lemma find_builtin_elem {P} k (f : P) entries :
  find_builtin k entries = Some f -> (k, f) ∈ entries.
Proof.
  induction entries as [|[k' f'] entries IH]; [done|]. cbn.
  case_bool_decide as E; intros Hf; [|right; auto]. injection Hf as <-. rewrite E. left.
Qed.

Lemma find_builtin_hd {P} k (f : P) l : find_builtin k ((k, f) :: l) = Some f.
Proof. cbn. by rewrite bool_decide_eq_true_2. Qed.
Lemma find_builtin_tl {P} k k' (f : P) l :
  bool_decide (k' = k) = false -> find_builtin k ((k', f) :: l) = find_builtin k l.
Proof. intros Hk. cbn. by rewrite Hk. Qed.

Lemma system_caller_ok :
  caller_ok (no_calls (System.process_instruction hashv SystemExample.env decode_system)).
Proof.
  apply no_calls_ok; [|apply system_keeps].
  apply system_builtin_ok. apply decode_system_typed.
Qed.

Lemma programs_ok k f :
  find_builtin k (ic_builtin_programs context) = Some f -> caller_ok f.
Proof.
  intros Hf%find_builtin_elem.
  repeat (apply elem_of_cons in Hf as [[= -> ->]|Hf]); [..|by apply elem_of_nil in Hf].
  - apply associated_ok.
  - apply system_caller_ok.
  - apply no_calls_ok; [apply token_confined|apply token_keeps].
Qed.

Lemma take_u64 n d : in_u64 n -> from_le_bytes (take 8 (to_le_bytes 8 n ++ d)) = n.
Proof. intros Hn. rewrite take_app_length' by done. by apply from_to_le_bytes_u64. Qed.
Lemma take_key k : new_from_array (take 32 (pk_bytes k)) = k.
Proof. rewrite take_ge by (by rewrite length_pk_bytes). apply new_from_array_bytes. Qed.

Lemma decode_sent i : sent i -> decode_system (encode_system i) = Some i.
Proof.
  intros [Hi Hs]. destruct i; try done; cbn [encode_system decode_system sys_instr_ok] in *.
  - destruct Hi as [Hx Hn]. rewrite take_u64, drop_app_length', take_u64 by done.
    change 16%nat with (8 + 8)%nat. rewrite <- drop_drop, drop_app_length', drop_app_length', take_key by done.
    done.
  - by rewrite take_key.
  - rewrite <- (app_nil_r (to_le_bytes 8 _)). by rewrite take_u64.
  - rewrite <- (app_nil_r (to_le_bytes 8 _)). by rewrite take_u64.
Qed.

Lemma context_creates :
  creates hashv on_curve SystemExample.env decode_system encode_system decode_token encode_token
    decode_associated (Some rent_default) context.
Proof.
  split.
  - apply programs_ok.
  - apply find_builtin_hd.
  - cbv [context ic_builtin_programs programs].
    rewrite find_builtin_tl by (vm_compute; reflexivity). apply find_builtin_hd.
  - cbv [context ic_builtin_programs programs].
    rewrite !find_builtin_tl by (vm_compute; reflexivity). apply find_builtin_hd.
  - apply decode_sent.
  - intros w. cbn [encode_token decode_token]. by rewrite take_key.
Qed.

Lemma step_Ok msg n l m st :
  step msg n l m = Ok st ->
  exists ci top, instructions msg !! n = Some ci /\ decompile msg ci = Ok top /\
    Invoke.process_top context (account_keys msg) msg ci [program_id_index ci] top l m = Ok st.
Proof.
  unfold step. destruct (instructions msg !! n) as [ci|]; [|done].
  intros (top & Htop & Hrun)%bind_Ok. by exists ci, top.
Qed.

(** A boolean check of a run *)
Definition step_is (r : outcome InstructionError InvokeState) (P : InvokeState -> bool) : bool :=
  match r with Ok st => P st | _ => false end.
Lemma step_is_true r P : step_is r P = true -> exists st, r = Ok st /\ P st = true.
Proof. destruct r as [st| |]; [|done..]. by exists st. Qed.

Lemma attack_step0 : exists ci top st,
  instructions attack !! 0%nat = Some ci /\ decompile attack ci = Ok top /\
  Invoke.process_top context (account_keys attack) attack ci [program_id_index ci] top before
    (meter_new 0) = Ok st /\ step attack 0 before (meter_new 0) = Ok st.
Proof.
  destruct (step_is_true (step attack 0 before (meter_new 0)) (fun _ => true)) as (st & Hst & _).
  { vm_compute. reflexivity. }
  destruct (step_Ok _ _ _ _ _ Hst) as (ci & top & Hci & Htop & Hrun). exists ci, top, st.
  exact (conj Hci (conj Htop (conj Hrun Hst))).
Qed.

Lemma attack_metas ci top :
  instructions attack !! 0%nat = Some ci -> decompile attack ci = Ok top ->
  meta_pubkey <$> ix_accounts top
  = [victim; associated; attacker; native_mint_id; system_program_id; token_program_id].
Proof.
  intros Hci Htop. apply (bool_decide_eq_true_1 _).
  assert (from_option (fun ci => match decompile attack ci with
    | Ok top => bool_decide (meta_pubkey <$> ix_accounts top
        = [victim; associated; attacker; native_mint_id; system_program_id; token_program_id])
    | _ => false end) false (instructions attack !! 0%nat) = true) as Hb by (vm_compute; reflexivity).
  rewrite Hci in Hb. cbn [from_option] in Hb. rewrite Htop in Hb. exact Hb.
Qed.

Lemma attack_native ci :
  instructions attack !! 0%nat = Some ci ->
  native_program attack (account_keys attack) before ci [program_id_index ci]
    token_account_program_id.
Proof.
  intros Hci.
  assert (bool_decide (account_keys attack !! program_id_index ci = Some token_account_program_id)
          = true) as Hpid%bool_decide_eq_true.
  { assert (from_option (fun ci => bool_decide (account_keys attack !! program_id_index ci
                           = Some token_account_program_id)) false (instructions attack !! 0%nat) = true)
      as Hb by (vm_compute; reflexivity). rewrite Hci in Hb. exact Hb. }
  exists (program_id_index ci). refine (conj eq_refl (conj Hpid (conj Hpid _))).
  apply (bool_decide_eq_true_1 _). vm_compute. reflexivity.
Qed.
End AssociatedExample.
