(* ===== verification/EscalationExample.v ===== *)
(** * A concrete run of a call that gains write access

    A program calls the system program to transfer the lamports of a read-only signer.
    The metas of the call list a second read-only signer, which a later meta makes
    writable. *)

From Stdlib Require Import ZArith Lia.
From Stdlib Require Import Strings.Byte.
From stdpp Require Import prelude gmap list numbers.
From S2P Require Import Prelude Sdk Runtime SystemInstruction SystemProgram SystemFacts SystemExample.
From S2P Require Import MessageCompile Invoke AssociatedAccount AssociatedExample.

Module EscalationExample.
Import AssociatedExample.

Definition payer : Pubkey := pk_of_Z 1.
Definition bystander : Pubkey := pk_of_Z 2.
Definition recipient : Pubkey := pk_of_Z 3.
Definition relay_id : Pubkey := pk_of_Z 7.

(** The metas ask for write access to [payer] and [recipient] only. *)
Definition call_ix : Instruction :=
  mkInstruction system_program_id
    [mkMeta bystander true false; mkMeta recipient false true; mkMeta payer true false;
     mkMeta payer false true]
    (encode_system (SysTransfer 900)).
Definition relay : caller := fun _ _ _ => invoke call_ix [].

Definition relay_context : InvokeContext caller :=
  mkContext rent_default ((relay_id, relay) :: programs) true true true 4.

Definition relay_ix : Instruction :=
  mkInstruction relay_id
    [mkMeta payer true true; mkMeta bystander true false; mkMeta recipient false true;
     meta_new_readonly system_program_id false] [].
Definition relay_message : Message :=
  match message_new (E:=unit) [relay_ix] (Some payer) with
  | Ok m => m
  | _ => mkMessage (mkHeader 0 0 0) [] pk_default []
  end.

Definition relay_before : ledger :=
  <[payer := mkAccount 100 [] system_program_id false 0]>
  (<[bystander := mkAccount 1000 [] system_program_id false 0]>
  (<[relay_id := mkAccount 1 [] native_loader_id true 0]>
  (<[system_program_id := mkAccount 1 [] native_loader_id true 0]> ∅))).

(** The instructions of a message with the indices of their programs *)
Definition own_programs (msg : Message) : list (list nat) :=
  (fun ci => [program_id_index ci]) <$> instructions msg.

Definition relay_run : outcome TransactionError (ledger * Z) :=
  Invoke.process_message relay_context (account_keys relay_message) relay_message
    (own_programs relay_message) relay_before 0.

Definition attack_run : outcome TransactionError (ledger * Z) :=
  Invoke.process_message context (account_keys attack) attack (own_programs attack) before 0.

(** A program that is about to call the system program to allocate 165 bytes *)
Definition grow_state : InvokeState :=
  mkState
    [mkFrame 1 [mkKeyed false false relay_id; mkKeyed true true payer;
                mkKeyed false false system_program_id]]
    [mkPre payer (get_account relay_before payer);
     mkPre system_program_id (get_account relay_before system_program_id)]
    relay_before (meter_new 0) [(1%nat, relay_ix)].
Definition grow : outcome InstructionError InvokeState :=
  let keys := [payer; system_program_id; relay_id] in
  Invoke.native_invoke relay_context keys (Invoke.process_instruction relay_context keys 4)
    (ix_allocate encode_system payer 165) [] grow_state.

(** A boolean check of a run *)
Definition run_is (r : outcome TransactionError (ledger * Z)) (P : ledger -> Z -> bool) : bool :=
  match r with Ok (l, d) => P l d | _ => false end.
Lemma run_is_true r P : run_is r P = true -> exists l d, r = Ok (l, d) /\ P l d = true.
Proof. destruct r as [[l d]| |]; [|done..]. by exists l, d. Qed.

Definition changes (l l' : ledger) (k : Pubkey) (x : Z) : bool :=
  lamports (get_account l' k) =? lamports (get_account l k) + x.
End EscalationExample.
