(* ===== verification/CallExample.v ===== *)
(** * A history with calls

    A mint is initialized, the token-account program creates an account for it by calls
    to the system and the token program, and tokens are minted to the account; then the
    mint gives up its authority and an account of the native mint is created. *)

From Stdlib Require Import ZArith Lia.
From Stdlib Require Import Strings.Byte.
From stdpp Require Import prelude gmap list numbers relations.
From S2P Require Import Prelude Sdk Runtime SystemInstruction SystemProgram SystemFacts SystemExample.
From S2P Require Import MessageCompile MessageFacts Invoke InvokeFacts InvokeRuns.
From S2P Require Import TokenState TokenInstruction TokenProcessor TokenFacts TokenSpec TokenRefine TokenSafety TokenExample.
From S2P Require Import AssociatedAccount CallerFacts AssociatedFacts CallSteps CallerSafety AssociatedExample EscalationExample.

Module CallExample.
Import AssociatedExample EscalationExample.

#[global] Instance context_bank : CallBank decode_token context.
Proof.
  split.
  - intros d i H. unfold decode_token in H. repeat case_match; simplify_eq; done.
  - apply (cr_token _ _ _ _ _ _ _ _ _ _ context_creates).
  - intros k f Hk Hf%find_builtin_elem.
    repeat (apply elem_of_cons in Hf as [[= -> ->]|Hf]); [..|by apply elem_of_nil in Hf].
    + apply pure_stretched. intros n d kas. apply associated_pure_any.
    + destruct (system_builtin_ok hashv SystemExample.env decode_system decode_system_typed)
        as [Hc Ht]. exact (no_calls_keeps_balances _ _ _ _ Hk Hc Ht (fun n d kas => system_keeps _ _ _ _ _ _)).
    + done.
Qed.

Definition mint : Pubkey := pk_of_Z 9.
Definition holder : Pubkey :=
  default pk_default
    (fst <$> try_find_program_address hashv on_curve
       [pk_bytes attacker; pk_bytes token_program_id; pk_bytes mint] token_account_program_id).

Definition issue : Message :=
  match message_new (E:=unit)
    [mkInstruction token_program_id [meta_new mint false] [x02];
     mkInstruction token_account_program_id
       [meta_new attacker true; meta_new holder false; meta_new_readonly attacker false;
        meta_new_readonly mint false; meta_new_readonly system_program_id false;
        meta_new_readonly token_program_id false] [];
     mkInstruction token_program_id
       [meta_new mint false; meta_new holder false; meta_new_readonly attacker true] [x03]]
    (Some attacker) with
  | Ok m => m
  | _ => mkMessage (mkHeader 0 0 0) [] pk_default []
  end.

Definition genesis_ledger : ledger :=
  <[attacker := mkAccount 1000000000 [] system_program_id false 0]>
  (<[mint := mkAccount 10000000 (replicate 124 x00) token_program_id false 0]>
  (<[token_account_program_id := mkAccount 1 [] native_loader_id true 0]>
  (<[token_program_id := mkAccount 1 [] native_loader_id true 0]>
  (<[system_program_id := mkAccount 1 [] native_loader_id true 0]> ∅)))).

Definition run (ic : InvokeContext caller) (msg : Message) (l : ledger) : ledger :=
  match Invoke.process_message ic (account_keys msg) msg (own_programs msg) l 0 with
  | Ok (l', _) => l'
  | _ => ∅
  end.
Definition issued : ledger := run context issue genesis_ledger.

Definition wallet : Pubkey := pk_of_Z 5.
Definition wrapper : Pubkey :=
  default pk_default
    (fst <$> try_find_program_address hashv on_curve
       [pk_bytes wallet; pk_bytes token_program_id; pk_bytes native_mint_id] token_account_program_id).
(** The mint gives up its authority; a wallet gets an account of wrapped lamports. *)
Definition settle : Message :=
  match message_new (E:=unit)
    [mkInstruction token_program_id [meta_new mint false; meta_new_readonly attacker true] [x04];
     mkInstruction token_account_program_id
       [meta_new attacker true; meta_new wrapper false; meta_new_readonly wallet false;
        meta_new_readonly native_mint_id false; meta_new_readonly system_program_id false;
        meta_new_readonly token_program_id false] []]
    (Some attacker) with
  | Ok m => m
  | _ => mkMessage (mkHeader 0 0 0) [] pk_default []
  end.
Definition settled : ledger := run context settle issued.

Lemma run_Ok ic msg l :
  is_Ok (Invoke.process_message ic (account_keys msg) msg (own_programs msg) l 0) = true ->
  exists delta,
    Invoke.process_message ic (account_keys msg) msg (own_programs msg) l 0 = Ok (run ic msg l, delta).
Proof.
  unfold run. destruct (Invoke.process_message _ _ _ _ _ _) as [[l' d]| |]; [|discriminate..].
  intros _. exists d. reflexivity.
Qed.

(** Whether the programs of a message are its own and executable *)
Definition programs_b (keys : list Pubkey) (msg : Message) (l : ledger)
    (ixs : list (CompiledInstruction * list nat)) : bool :=
  forallb (fun '(ix, pis) =>
    match pis with
    | [p] => match keys !! p with
             | Some pid => bool_decide (account_keys msg !! program_id_index ix = Some pid)
                           && executable (get_account l pid)
             | None => false
             end
    | _ => false
    end) ixs.
Lemma programs_b_true keys msg l ixs :
  programs_b keys msg l ixs = true -> forall ix pis, (ix, pis) ∈ ixs -> program_of keys msg l ix pis.
Proof.
  unfold programs_b. rewrite forallb_forall. intros Hall ix pis Hin%list_elem_of_In%Hall.
  destruct pis as [|p []]; [done| |done]. destruct (keys !! p) as [pid|] eqn:Hp; [|done].
  apply andb_prop in Hin as [Hk%bool_decide_eq_true He]. exists p, pid. by split_and!.
Qed.

(** A boolean check that a message is loaded *)
Definition loaded_b (msg : Message) (l : ledger) : bool :=
  bool_decide (NoDup (account_keys msg))
  && programs_b (account_keys msg) msg l (zip (instructions msg) (own_programs msg))
  && forallb (fun p => implb (executable p.2) (bool_decide (owner p.2 = native_loader_id)))
       (map_to_list l)
  && negb (bool_decide (instructions_sysvar_id ∈ account_keys msg)).
Lemma loaded_b_true ic msg l :
  loaded_b msg l = true -> loaded_calls ic (account_keys msg) msg (own_programs msg) l.
Proof.
  unfold loaded_b. intros [[[Hnd Hp]%andb_prop Hn]%andb_prop Hs]%andb_prop. split.
  - exact (bool_decide_eq_true_1 _ Hnd).
  - exists []. symmetry. apply app_nil_r.
  - exact (programs_b_true _ _ _ _ Hp).
  - split; [by apply native_ok_check|]. rewrite firstn_all. intros Hin.
    apply negb_true_iff, bool_decide_eq_false in Hs. destruct (Hs Hin).
Qed.

Lemma genesis_issue : genesis genesis_ledger.
Proof.
  intros k. unfold genesis_ledger. rewrite !get_account_insert.
  assert (get_account ∅ k = account_default) as -> by (unfold get_account; by rewrite lookup_empty).
  repeat case_decide; cbn -[replicate];
    (split; [unfold in_u64, u64_max; lia|]).
  all: intros Ho; first [by destruct (Example.system_not_token Ho)
                        | by destruct (Example.loader_not_token Ho) | by exists 124%nat].
Qed.

(** A message that is loaded and runs is a step of the ledger. *)
Lemma run_step ic msg l :
  loaded_b msg l && is_Ok (Invoke.process_message ic (account_keys msg) msg (own_programs msg) l 0)
    = true ->
  call_ledger_step ic l (run ic msg l).
Proof.
  intros [Hl [delta Hrun]%run_Ok]%andb_prop.
  exact (cls_message _ _ _ _ _ _ _ _ (loaded_b_true ic _ _ Hl) Hrun).
Qed.

Lemma history_issue : rtc (call_ledger_step context) genesis_ledger issued.
Proof. apply rtc_once, run_step. vm_compute. reflexivity. Qed.
Lemma history_settle : rtc (call_ledger_step context) issued settled.
Proof. apply rtc_once, run_step. vm_compute. reflexivity. Qed.

Definition mint_of (l : ledger) : Mint :=
  default (mkMint None [] [] 0 0 false None) (ok_to_option (unpack (data (get_account l mint)))).
Definition wrapped : option TokenAccount :=
  ok_to_option (unpack (data (get_account settled wrapper))).

(** What the ledgers hold *)
Definition issued_b : bool :=
  bool_decide (owner (get_account issued mint) = token_program_id)
  && is_Ok (unpack (T:=Mint) (data (get_account issued mint)))
  && (supply (mint_of issued) =? 50).
Definition settled_b : bool :=
  bool_decide (owner (get_account settled wrapper) = token_program_id)
  && match wrapped with Some t => bool_decide (is_native t = Some 1019640) | None => false end.

Lemma issued_holds :
  owner (get_account issued mint) = token_program_id /\
  unpack (data (get_account issued mint)) = Ok (mint_of issued) /\
  supply (mint_of issued) = 50.
Proof.
  assert (issued_b = true) as Hb by (vm_compute; reflexivity).
  apply andb_prop in Hb as [[Ho Hm]%andb_prop Hs]. split; [exact (bool_decide_eq_true_1 _ Ho)|].
  split; [|exact (proj1 (Z.eqb_eq _ _) Hs)].
  unfold mint_of. destruct (unpack _) as [m| |]; [reflexivity|discriminate Hm..].
Qed.
Lemma settled_holds :
  owner (get_account settled wrapper) = token_program_id /\
  exists t, wrapped = Some t /\ unpack (data (get_account settled wrapper)) = Ok t /\
    is_native t = Some 1019640.
Proof.
  assert (settled_b = true) as Hb by (vm_compute; reflexivity).
  unfold settled_b in Hb. apply andb_prop in Hb as [Ho Hw].
  split; [exact (bool_decide_eq_true_1 _ Ho)|].
  destruct wrapped as [t|] eqn:Ht; [|discriminate Hw]. exists t. split; [reflexivity|].
  split; [|exact (bool_decide_eq_true_1 _ Hw)].
  unfold wrapped in Ht. destruct (unpack _) as [t'| |]; [|discriminate Ht..].
  cbn in Ht. injection Ht as ->. reflexivity.
Qed.
End CallExample.
