(* ===== verification/LookupExample.v ===== *)
(** * A concrete history of a lookup table

    An encoding of the state of tables with the laws that are assumed, and a table that is
    created, extended, used, deactivated, and closed when its deactivation slot is no
    longer recent. *)

From Stdlib Require Import ZArith Lia.
From Stdlib Require Import Strings.Byte.
From stdpp Require Import prelude gmap list numbers relations.
From S2P Require Import Prelude Sdk Codec Runtime SystemInstruction SystemProgram SystemFacts SystemExample.
From S2P Require Import MessageCompile MessageFacts Invoke InvokeFacts TokenSafety VoteState BinarySearch.
From S2P Require Import AssociatedAccount CallerFacts AssociatedFacts AssociatedExample EscalationExample.
From S2P Require Import LookupTable CallSteps LookupFacts LookupSafety CallExample.

Module LookupExample.
Import AssociatedExample EscalationExample CallExample Lookup.

(** ** The encoding *)

Definition c_meta : codec (Z * (Z * (Z * (option Pubkey * Z)))) :=
  c_pair (uint 8) (c_pair (uint 8) (c_pair (uint 1) (c_pair (c_opt key) (uint 2)))).

Definition encode_program_state (s : ProgramState) : bytes :=
  match s with
  | Uninitialized => to_le_bytes 4 0
  | LookupTable m =>
      to_le_bytes 4 1 ++ enc c_meta (deactivation_slot m, (last_extended_slot m,
        (last_extended_slot_start_index m, (authority m, padding m))))
  end.
Definition decode_program_state (b : bytes) : option ProgramState :=
  '(tag, b) ← dec (uint 4) b;
  match tag with
  | 0 => Some Uninitialized
  | 1 => '((d, (e, (i, (a, p)))), _) ← dec c_meta b; Some (LookupTable (mkTableMeta d e i a p))
  | _ => None
  end.

#[global] Instance program_state_bincode : Bincode ProgramState := {
  bincode_encode := encode_program_state;
  bincode_decode := decode_program_state;
}.

Lemma uint_range n b z rest : dec (uint n) b = Some (z, rest) -> 0 <= z < 256 ^ Z.of_nat n.
Proof.
  cbn. unfold raw_dec. destruct (Nat.ltb_spec (length b) n); [done|]. intros [= <- _].
  pose proof (from_le_bytes_range (take n b)) as Hr. rewrite length_take, Nat.min_l in Hr by done.
  done.
Qed.

#[global] Instance state_codec : StateCodec.
Proof.
  split; cbn [bincode_encode bincode_decode program_state_bincode].
  - intros [d e i a p] rest [H1 H2 H3 H4]. cbn in H1, H2, H3, H4.
    unfold encode_program_state, decode_program_state. rewrite <- (assoc_L (++)).
    change (to_le_bytes 4 1) with (enc (uint 4) 1). rewrite dec_enc by done.
    cbn [mbind option_bind]. rewrite (dec_enc c_meta); [done|].
    cbn [c_meta valid c_pair uint fst snd c_opt deactivation_slot last_extended_slot
         last_extended_slot_start_index padding].
    unfold in_u64, in_u8, u64_max, u8_max, u16_max in *.
    split_and!; try lia; try done.
  - intros d m. unfold decode_program_state. intros Hd.
    apply bind_Some in Hd as ([tag b] & _ & Hd). destruct tag as [|[]|]; try discriminate Hd.
    apply bind_Some in Hd as ([(x & y & i & a & p) b'] & Hm & [= <-]).
    cbn [c_meta dec c_pair] in Hm.
    repeat match goal with
    | H : _ ≫= _ = Some _ |- _ => apply bind_Some in H as ([??] & ? & ?)
    | H : Some _ = Some _ |- _ => progress simplify_eq
    | H : dec (uint _) _ = Some _ |- _ => apply uint_range in H
    end.
    change (256 ^ Z.of_nat 8) with (u64_max + 1) in *. change (256 ^ Z.of_nat 1) with (u8_max + 1) in *.
    change (256 ^ Z.of_nat 2) with (u16_max + 1) in *.
    split; cbn [deactivation_slot last_extended_slot last_extended_slot_start_index padding];
      unfold in_u64, in_u8; lia.
  - intros n m. unfold decode_program_state. intros Hd.
    apply bind_Some in Hd as ([tag b] & Ht & Hd). cbn in Ht. unfold raw_dec in Ht.
    destruct (Nat.ltb_spec (length (replicate n x00)) 4) as [|Hn]; [done|].
    rewrite length_replicate in Hn. injection Ht as <- _.
    rewrite take_replicate, Nat.min_l in Hd by done. discriminate Hd.
Qed.

(** ** The bank *)

Definition encode_lookup (i : ProgramInstruction) : bytes :=
  match i with
  | CreateLookupTable recent_slot bump_seed =>
      x00 :: to_le_bytes 8 recent_slot ++ [byte_of_Z bump_seed]
  | FreezeLookupTable => [x01]
  | ExtendLookupTable ks => x02 :: concat (pk_bytes <$> ks)
  | DeactivateLookupTable => [x03]
  | CloseLookupTable => [x04]
  end.
Definition decode_lookup (d : bytes) : option ProgramInstruction :=
  match d with
  | x00 :: d => CreateLookupTable (from_le_bytes (take 8 d)) ∘ byte_to_Z <$> d !! 8%nat
  | [x01] => Some FreezeLookupTable
  | x02 :: d => ExtendLookupTable <$> try_cast_slice d
  | [x03] => Some DeactivateLookupTable
  | [x04] => Some CloseLookupTable
  | _ => None
  end.

Definition table_programs (env : LookupEnv) : list (Pubkey * caller) := [
  (lookup_program_id, process_lookup hashv on_curve encode_system env decode_lookup);
  (system_program_id,
   no_calls (System.process_instruction hashv SystemExample.env decode_system))].
Definition table_context (env : LookupEnv) : InvokeContext caller :=
  mkContext rent_default (table_programs env) true true true 4.

#[global] Instance table_bank :
  LookupBank hashv on_curve SystemExample.env decode_system encode_system decode_lookup table_context.
Proof.
  split.
  - exact state_codec.
  - intros env. apply find_builtin_hd.
  - intros env. cbv [table_context ic_builtin_programs table_programs].
    rewrite find_builtin_tl by (vm_compute; reflexivity). apply find_builtin_hd.
  - apply decode_sent.
  - intros env k f Hk Hf%find_builtin_elem.
    repeat (apply elem_of_cons in Hf as [[= -> ->]|Hf]); [done| |by apply elem_of_nil in Hf].
    destruct (system_builtin_ok hashv SystemExample.env decode_system decode_system_typed) as [Hc Ht].
    apply no_calls_stretched; [exact Hc|intros; apply system_keeps|].
    intros d kas l u l' Hrun Hb. split; [by eapply Ht|]. intros E. by destruct (Hk E).
Qed.

(** ** The history *)

Definition env_at (slot : Z) (h : SlotHashes.t) : LookupEnv :=
  mkLookupEnv (Some (mkClock slot 0 0 0 0)) (Some rent_default) (Some h).

(** The slot hashes [n] slots after the first *)
Fixpoint hashes (n : nat) : SlotHashes.t :=
  match n with
  | O => [(999, pk_of_Z 999)]
  | S n => SlotHashes.add (hashes n) (1000 + Z.of_nat n) (pk_of_Z (1000 + Z.of_nat n))
  end.
Definition env_after (n : nat) : LookupEnv := env_at (1000 + Z.of_nat n) (hashes n).

Definition author : Pubkey := pk_of_Z 11.
Definition table_and_bump : Pubkey * Z :=
  match derive_lookup_table_address (E:=unit) hashv on_curve author 999 with
  | Ok p => p
  | _ => (pk_default, 0)
  end.
Definition table : Pubkey := table_and_bump.1.

Definition message_of (ixs : list Instruction) : Message :=
  match message_new (E:=unit) ixs (Some author) with
  | Ok m => m
  | _ => mkMessage (mkHeader 0 0 0) [] pk_default []
  end.

Definition create_ixs : list Instruction :=
  match ix_create_lookup_table (E:=unit) hashv on_curve encode_lookup author author 999 with
  | Ok (ix, _) => [ix]
  | _ => []
  end.
Definition open_message : Message :=
  message_of (create_ixs ++
    [ix_extend_lookup_table encode_lookup table author author [pk_of_Z 21; pk_of_Z 22]]).
Definition deactivate_message : Message :=
  message_of [ix_deactivate_lookup_table encode_lookup table author].
Definition close_message : Message :=
  message_of [ix_close_lookup_table encode_lookup table author author].

Definition start : ledger :=
  <[author := mkAccount 1000000000 [] system_program_id false 0]>
  (<[lookup_program_id := mkAccount 1 [] native_loader_id true 0]>
  (<[system_program_id := mkAccount 1 [] native_loader_id true 0]> ∅)).

(** The deactivation slot 1001 leaves the 512 slot hashes in slot 1514. *)
Definition opened : ledger := run (table_context (env_after 0)) open_message start.
Definition deactivated : ledger := run (table_context (env_after 1)) deactivate_message opened.
Definition closed : ledger := run (table_context (env_after 514)) close_message deactivated.

Lemma next_env n : 1000 + Z.of_nat (S n) < slot_max -> next_bank (env_after n) (env_after (S n)).
Proof.
  intros Hn. do 4 eexists. split_and!; try reflexivity; cbn [clock_slot]; lia.
Qed.

Lemma banks n m l :
  1000 + Z.of_nat (n + m) < slot_max ->
  rtc (lookup_history table_context) (env_after n, l) (env_after (n + m), l).
Proof.
  induction m as [|m IH]; intros Hm; [by rewrite Nat.add_0_r|].
  apply rtc_r with (env_after (n + m), l); [apply IH; lia|].
  rewrite Nat.add_succ_r. apply lh_slot, next_env. lia.
Qed.

Lemma message_history n msg l :
  loaded_b msg l && is_Ok (Invoke.process_message (table_context (env_after n)) (account_keys msg) msg
    (own_programs msg) l 0) = true ->
  lookup_history table_context (env_after n, l) (env_after n, run (table_context (env_after n)) msg l).
Proof. intros Hrun. by apply lh_ledger, run_step. Qed.

Lemma history_opened : rtc (lookup_history table_context) (env_after 0, start) (env_after 0, opened).
Proof. apply rtc_once, message_history. vm_compute. reflexivity. Qed.
Lemma history_used :
  rtc (lookup_history table_context) (env_after 1, opened) (env_after 1, deactivated).
Proof. apply rtc_once, message_history. vm_compute. reflexivity. Qed.
Lemma history_deactivated :
  rtc (lookup_history table_context) (env_after 0, opened) (env_after 1, deactivated).
Proof. etrans; [apply (banks 0 1); vm_compute; reflexivity|exact history_used]. Qed.
Lemma history_closed :
  rtc (lookup_history table_context) (env_after 0, opened) (env_after 514, closed).
Proof.
  etrans; [exact history_deactivated|].
  apply rtc_r with (env_after 514, deactivated); [apply (banks 1 513); vm_compute; reflexivity|].
  apply message_history. vm_compute. reflexivity.
Qed.

Lemma start_ok : tables_ok (env_after 0, start) 1000 (hashes 0).
Proof.
  split.
  - split; [by eexists|done|done| |].
    + by repeat constructor.
    + by repeat constructor.
  - intros k. unfold start. cbn [snd]. rewrite !get_account_insert.
    assert (get_account ∅ k = account_default) as -> by (unfold get_account; by rewrite lookup_empty).
    repeat case_decide; split; by vm_compute.
  - intros k t [Ho _]%table_of_Some. exfalso. revert Ho. unfold start. cbn [snd].
    rewrite !get_account_insert.
    assert (get_account ∅ k = account_default) as -> by (unfold get_account; by rewrite lookup_empty).
    repeat case_decide; apply (bool_decide_eq_false_1 _); vm_compute; reflexivity.
Qed.

Lemma env_after_ok n slot h :
  env_ok (env_after n) slot h -> slot = 1000 + Z.of_nat n /\ h = hashes n.
Proof. intros [(c & [= <-] & <-) [= <-] _ _ _]. done. Qed.

Lemma history_ok n l :
  rtc (lookup_history table_context) (env_after 0, start) (env_after n, l) ->
  tables_ok (env_after n, l) (1000 + Z.of_nat n) (hashes n).
Proof.
  intros Hr. destruct (history_fate hashv on_curve SystemExample.env decode_system encode_system
    decode_lookup table_context _ _ _ _ Hr start_ok) as (slot & h & _ & Hok & _).
  destruct (env_after_ok n slot h (tk_env _ _ _ Hok)) as [-> ->]. exact Hok.
Qed.

Lemma opened_ok : tables_ok (env_after 0, opened) 1000 (hashes 0).
Proof. exact (history_ok 0 opened history_opened). Qed.
Lemma opened_later_ok : tables_ok (env_after 1, opened) 1001 (hashes 1).
Proof.
  apply (history_ok 1 opened). etrans; [exact history_opened|]. apply (banks 0 1). vm_compute. reflexivity.
Qed.

(** The table that was opened *)
Definition opened_table : AddressLookupTable :=
  default (mkTable table_meta_default []) (table_of (get_account opened table)).
Lemma opened_holds :
  table_of (get_account opened table) = Some opened_table /\
  deactivation_slot (meta opened_table) = slot_max /\ authority (meta opened_table) = Some author.
Proof.
  assert (match table_of (get_account opened table) with
          | Some t => (deactivation_slot (meta t) =? slot_max)
                      && bool_decide (authority (meta t) = Some author)
          | None => false
          end = true) as Hb by (vm_compute; reflexivity).
  unfold opened_table. destruct (table_of _) as [t|]; [|discriminate Hb].
  apply andb_prop in Hb as [Hd Ha]. split; [reflexivity|]. split; [exact (proj1 (Z.eqb_eq _ _) Hd)|].
  exact (bool_decide_eq_true_1 _ Ha).
Qed.

(** Both addresses are looked up. *)
Definition both : MessageAddressTableLookup := mkLookup table [0] [1].
Definition both_loaded : LoadedAddresses := mkLoaded [pk_of_Z 21] [pk_of_Z 22].

(** The instruction of a message *)
Definition only_instruction (msg : Message) : option (CompiledInstruction * Instruction) :=
  match instructions msg with
  | [ci] => match decompile msg ci with
            | Ok top => Some (ci, top)
            | _ => None
            end
  | _ => None
  end.
(** The run that deactivates the table *)
Definition deactivation_run (ci : CompiledInstruction) (top : Instruction)
    : outcome InstructionError InvokeState :=
  Invoke.process_top (table_context (env_after 1)) (account_keys deactivate_message) deactivate_message
    ci [program_id_index ci] top opened (meter_new 0).
Definition table_slot (l : ledger) : option Z :=
  deactivation_slot ∘ meta <$> table_of (get_account l table).

Lemma only_instruction_Some msg ci top :
  only_instruction msg = Some (ci, top) -> decompile msg ci = Ok top.
Proof.
  unfold only_instruction. destruct (instructions msg) as [|ci' []]; [done| |done].
  destruct (decompile msg ci') eqn:Htop; [|done..]. by intros [= <- <-].
Qed.

Lemma deactivation_holds :
  exists ci top st, decompile deactivate_message ci = Ok top /\
    account_keys deactivate_message !! program_id_index ci = Some lookup_program_id /\
    deactivation_run ci top = Ok st /\ table_slot (st_ledger st) = Some 1001.
Proof.
  assert (match only_instruction deactivate_message with
          | Some (ci, top) =>
              bool_decide (account_keys deactivate_message !! program_id_index ci = Some lookup_program_id)
              && step_is (deactivation_run ci top)
                   (fun st => bool_decide (table_slot (st_ledger st) = Some 1001))
          | None => false
          end = true) as Hb by (vm_compute; reflexivity).
  destruct (only_instruction _) as [[ci top]|] eqn:Hi; [|discriminate Hb].
  apply andb_prop in Hb as [Hp (st & Hst & Hs)%step_is_true]. exists ci, top, st.
  split; [exact (only_instruction_Some _ _ _ Hi)|].
  split; [exact (bool_decide_eq_true_1 _ Hp)|]. split; [exact Hst|].
  exact (bool_decide_eq_true_1 _ Hs).
Qed.

(** The ledger and the keys of the run *)
Lemma deactivation_loaded :
  NoDup (account_keys deactivate_message) /\
  owner (get_account opened lookup_program_id) = native_loader_id /\ native_ok opened.
Proof.
  split; [apply (bool_decide_eq_true_1 _); vm_compute; reflexivity|].
  split; [apply (bool_decide_eq_true_1 _); vm_compute; reflexivity|].
  apply native_ok_check. vm_compute. reflexivity.
Qed.

Lemma both_holds : load_lookup_table_addresses opened 1001 both (hashes 1) = Ok both_loaded.
Proof. vm_compute. reflexivity. Qed.

(** The table is gone in the end. *)
Lemma closed_holds : table_of (get_account closed table) = None.
Proof.
  assert (match table_of (get_account closed table) with Some _ => false | None => true end = true)
    as Hb by (vm_compute; reflexivity).
  destruct (table_of _); [discriminate Hb|reflexivity].
Qed.
Lemma recreate_decoded :
  decode_lookup (encode_lookup (CreateLookupTable 999 table_and_bump.2))
  = Some (CreateLookupTable 999 table_and_bump.2).
Proof. vm_compute. reflexivity. Qed.
End LookupExample.
