(* ===== verification/InvokeTheorems.v ===== *)
(** * Theorems about cross-program calls *)

From Stdlib Require Import ZArith Lia.
From Stdlib Require Import Strings.Byte.
From stdpp Require Import prelude gmap list numbers relations.
From S2P Require Import Prelude Sdk Runtime SystemInstruction SystemProgram SystemFacts SystemExample.
From S2P Require Import MessageCompile MessageFacts Invoke InvokeFacts InvokeRuns.
From S2P Require Import TokenState TokenInstruction TokenProcessor TokenFacts TokenSpec TokenRefine TokenSafety TokenExample.
From S2P Require Import AssociatedAccount CallerFacts AssociatedFacts CallSteps CallerSafety.
From S2P Require Import AssociatedExample EscalationExample CallExample.

(** ** Tokens under calls *)



(** C3: In every such ledger a native token account is backed by the lamports of its
    account: its amount plus its rent reserve never exceeds them. *)
Theorem native_backed_with_calls deserialize ic `{!CallBank deserialize ic} l0 l k t r :
  genesis l0 -> rtc (call_ledger_step ic) l0 l ->
  owner (get_account l k) = token_program_id -> unpack (data (get_account l k)) = Ok t ->
  is_native t = Some r ->
  ta_mint t = native_mint_id /\ 0 < r /\ amount t + r <= lamports (get_account l k).
Proof.
  intros Hg Hr Ho Ht Hn. destruct (call_history_sim _ _ _ _ Hr (genesis_ok _ Hg)) as [_ [_ [HA _]]].
  destruct (HA k t (lamports (get_account l k))) as [_ Hok].
  { rewrite abs_accts. by apply view_acct_Some. }
  rewrite Hn in Hok. naive_solver.
Qed.

Lemma native_backed_with_calls_witness :
  exists t, CallExample.wrapped = Some t /\ ta_mint t = native_mint_id /\
    amount t + 1019640 <= lamports (get_account CallExample.settled CallExample.wrapper).
Proof.
  destruct CallExample.settled_holds as (Ho & t & Hw & Ht & Hn).
  exists t. split; [exact Hw|].
  destruct (native_backed_with_calls AssociatedExample.decode_token AssociatedExample.context
    CallExample.genesis_ledger CallExample.settled CallExample.wrapper t 1019640)
    as (Hm & _ & Hb).
  - apply CallExample.genesis_issue.
  - etransitivity; [exact CallExample.history_issue|exact CallExample.history_settle].
  - exact Ho.
  - exact Ht.
  - exact Hn.
  - exact (conj Hm Hb).
Defined.

(** C6: Once a mint has no authority its supply can never grow again and no authority can
    come back, whatever programs call the token program; the same for the freeze
    authority.  Mints are never removed. *)
Theorem fixed_supply_with_calls deserialize ic `{!CallBank deserialize ic} l l' M m :
  token_ledger_ok l -> rtc (call_ledger_step ic) l l' ->
  owner (get_account l M) = token_program_id -> unpack (data (get_account l M)) = Ok m ->
  exists m', owner (get_account l' M) = token_program_id /\
    unpack (data (get_account l' M)) = Ok m' /\
    (mint_authority m = None -> mint_authority m' = None /\ supply m' <= supply m) /\
    (freeze_authority m = None -> freeze_authority m' = None).
Proof.
  intros Hok Hr Ho Hm. destruct (call_history_sim _ _ _ _ Hr Hok) as [(_ & tr & Htr & _) _].
  destruct (tok_steps_mint tr _ _ M (abs_mint m) Htr) as (am & Ham & Hfix).
  { rewrite abs_mints. apply view_mint_Some. eauto. }
  rewrite abs_mints in Ham. apply view_mint_Some in Ham as (Ho' & m' & Hm' & ->).
  exists m'. split_and!; [done|done|apply Hfix|apply Hfix].
Qed.

Lemma fixed_supply_with_calls_witness :
  exists m', unpack (data (get_account CallExample.settled CallExample.mint)) = Ok m' /\
    (freeze_authority (CallExample.mint_of CallExample.issued) = None -> freeze_authority m' = None).
Proof.
  destruct (fixed_supply_with_calls AssociatedExample.decode_token AssociatedExample.context
    CallExample.issued CallExample.settled CallExample.mint
    (CallExample.mint_of CallExample.issued)) as (m' & _ & Hm' & _ & Hf).
  - apply (call_history_sim AssociatedExample.decode_token AssociatedExample.context
      _ _ CallExample.history_issue), genesis_ok, CallExample.genesis_issue.
  - exact CallExample.history_settle.
  - apply CallExample.issued_holds.
  - apply CallExample.issued_holds.
  - exists m'. exact (conj Hm' Hf).
Defined.

(** ** Calls *)




(** C12: Calls end.  The context refuses a call when the stack is higher than its depth, so
    the fuel of [process_top] is enough: with any more of it an instruction has the same
    outcome, and no outcome is due to the fuel. *)
Theorem call_depth_bounds_calls ic keys msg ci pis top l meter fuel :
  (ic_max_invoke_depth ic < fuel)%nat ->
  Invoke.process_instruction ic keys fuel (mkState [] [] l meter [(1%nat, top)]) msg ci pis [] []
  = Invoke.process_top ic keys msg ci pis top l meter.
Proof. intros Hf. apply process_instruction_fuel; cbn; lia. Qed.

Lemma call_depth_bounds_calls_witness :
  exists ci top st,
    Invoke.process_instruction AssociatedExample.context (account_keys AssociatedExample.attack) 100
      (mkState [] [] AssociatedExample.before (meter_new 0) [(1%nat, top)]) AssociatedExample.attack
      ci [program_id_index ci] [] [] = Ok st.
Proof.
  destruct AssociatedExample.attack_step0 as (ci & top & st & _ & _ & Hrun & _).
  exists ci, top, st. rewrite <- Hrun.
  apply (call_depth_bounds_calls AssociatedExample.context _ _ _ _ _ _ _ 100).
  apply Nat.ltb_lt. reflexivity.
Defined.

(** C38: A call is not charged to the accounts data meter, however much it makes accounts
    grow: [verify_and_update] takes the change of the length after it has updated the
    pre-account. *)
Theorem calls_not_metered ic keys fuel ix signers st st' :
  Invoke.native_invoke ic keys (Invoke.process_instruction ic keys fuel) ix signers st = Ok st' ->
  meter_typed (accounts_data_meter st) ->
  accounts_data_meter st' = accounts_data_meter st /\ invoke_stack st' = invoke_stack st.
Proof. intros [Hs Hm]%native_invoke_steady Ht. split; auto. Qed.

Lemma calls_not_metered_witness :
  exists st', EscalationExample.grow = Ok st' /\
    length (data (get_account (st_ledger st') EscalationExample.payer)) = 165%nat /\
    accounts_data_meter st' = accounts_data_meter EscalationExample.grow_state.
Proof.
  destruct (AssociatedExample.step_is_true EscalationExample.grow (fun st =>
    bool_decide (length (data (get_account (st_ledger st) EscalationExample.payer)) = 165%nat)))
    as (st' & Hst & Hlen).
  { vm_compute. reflexivity. }
  exists st'. split; [exact Hst|]. split; [exact (bool_decide_eq_true_1 _ Hlen)|].
  refine (proj1 (calls_not_metered _ _ _ _ _ _ _ Hst _)).
  split; apply Z.leb_le; reflexivity.
Defined.

(** C10: A successful Create leaves, at the address that is derived from the wallet and the
    mint and is no point of the curve, an initialized token account of that wallet and
    mint: without delegate, close authority or balance, or, for the native mint, with a
    balance of its lamports over the rent reserve, which it has in any case. *)
Theorem associated_account_created hashv on_curve env
    `{Bincode NonceVersions, Bincode (list (Hash * Z)), Bincode Rent}
    des_sys ser_sys des_tok ser_tok des cached_rent ic keys msg ci pis top l meter st
    funder assoc wallet mint rest :
  creates hashv on_curve env des_sys ser_sys des_tok ser_tok des cached_rent ic ->
  NoDup (account_keys msg) -> (length (account_keys msg) <= 255)%nat ->
  (exists programs, keys = account_keys msg ++ programs) ->
  decompile msg ci = Ok top -> native_program msg keys l ci pis token_account_program_id ->
  native_ok l -> meta_pubkey <$> ix_accounts top = funder :: assoc :: wallet :: mint :: rest ->
  in_u64 (lamports (get_account l assoc)) ->
  Invoke.process_top ic keys msg ci pis top l meter = Ok st ->
  let reserve := minimum_balance rent_default TOKEN_ACCOUNT_LEN in
  let native := bool_decide (mint = native_mint_id) in
  let a := get_account (st_ledger st) assoc in
  get_associated_token_address (E:=InstructionError) hashv on_curve wallet mint = Ok assoc /\
  on_curve assoc = false /\ reserve <= lamports a /\
  view_acct a = Some (mkTokenAccount mint wallet (if native then lamports a - reserve else 0) None
                        Initialized (if native then Some reserve else None) 0 None, lamports a).
Proof.
  intros [Hprogs Hassoc Hsys Htok Hds Hdt] Hnd Hlen Hkeys Htop Hnat Hl Hmetas Hty Hrun.
  destruct (process_top_runs ic keys msg ci pis top l token_account_program_id Hnd Hlen Hkeys Htop
    Hnat Hl Hprogs _ _ _ Hrun Hassoc) as (G & st1 & st2 & kas & Gn & Gc & HG & Hl1 & Hl2 & Hk & Hr).
  rewrite Hmetas in Hk.
  destruct kas as [|kf [|ka [|kw [|km kr]]]]; try discriminate Hk.
  injection Hk as <- <- <- <- _. unfold process_associated in Hr.
  apply runs_bind in Hr as ([] & ? & (_ & ->)%runs_lift & Hr).
  destruct (create_runs hashv on_curve env des_sys ser_sys des_tok ser_tok Hds Hdt ic keys _ Hsys Htok
    G Gn Gc cached_rent _ kf ka kw km kr st1 tt st2 Hr HG) as ((bump & Hb) & Hres & Hview).
  { rewrite Hl1. exact Hty. }
  cbv zeta. rewrite Hl2. split; [|split; [|split; [exact Hres|exact Hview]]].
  - unfold get_associated_token_address, get_associated_token_address_and_bump_seed_internal.
    cbn [unsigned_key] in Hb. rewrite Hb. reflexivity.
  - unfold find_program_address, try_find_program_address in Hb.
    destruct (find_bump _ _ _ _ _ _) as [[k b]|] eqn:Hf; [|discriminate Hb].
    injection Hb as -> ->. exact (find_bump_off_curve _ _ _ _ _ _ _ _ Hf).
Qed.

Lemma associated_account_created_witness :
  exists st, AssociatedExample.step AssociatedExample.attack 0 AssociatedExample.before (meter_new 0)
             = Ok st /\
  exists t, view_acct (get_account (st_ledger st) AssociatedExample.associated)
    = Some (t, lamports (get_account (st_ledger st) AssociatedExample.associated)) /\
    ta_mint t = native_mint_id /\ ta_owner t = AssociatedExample.attacker /\ state t = Initialized.
Proof.
  destruct AssociatedExample.attack_step0 as (ci & top & st & Hci & Htop & Hrun & Hstep).
  exists st. split; [exact Hstep|].
  destruct (associated_account_created AssociatedExample.hashv AssociatedExample.on_curve
    SystemExample.env AssociatedExample.decode_system AssociatedExample.encode_system
    AssociatedExample.decode_token AssociatedExample.encode_token
    AssociatedExample.decode_associated (Some rent_default) AssociatedExample.context
    (account_keys AssociatedExample.attack) AssociatedExample.attack ci [program_id_index ci] top
    AssociatedExample.before (meter_new 0) st AssociatedExample.victim AssociatedExample.associated
    AssociatedExample.attacker native_mint_id [system_program_id; token_program_id]
    AssociatedExample.context_creates) as (_ & _ & _ & Hview); [..|exact Htop| | | | |exact Hrun|].
  - apply (bool_decide_eq_true_1 _). vm_compute. reflexivity.
  - apply Nat.leb_le. vm_compute. reflexivity.
  - exists []. symmetry. apply app_nil_r.
  - apply AssociatedExample.attack_native. exact Hci.
  - apply AssociatedExample.before_native.
  - exact (AssociatedExample.attack_metas ci top Hci Htop).
  - split; apply Z.leb_le; vm_compute; reflexivity.
  - eexists. split; [exact Hview|]. split; [reflexivity|]. split; reflexivity.
Defined.

(** ** Behaviours that differ from what the code means to do *)


