(* ===== verification/LookupTheorems.v ===== *)
(** * Properties of lookup tables

    What holds of the tables of the ledger over the history of the bank: messages with
    calls, sweeps of empty accounts and new slots, in any order. *)

From Stdlib Require Import ZArith Lia.
From Stdlib Require Import Strings.Byte.
From stdpp Require Import prelude gmap list numbers relations.
From S2P Require Import Prelude Sdk Runtime SystemInstruction SystemProgram SystemExample.
From S2P Require Import MessageCompile MessageFacts Invoke InvokeFacts AssociatedAccount CallerFacts AssociatedExample EscalationExample.
From S2P Require Import LookupTable CallSteps LookupFacts LookupSafety CallExample LookupExample.

Import Lookup.

Section Theorems.
Context (hashv : list bytes -> Hash) (on_curve : Hash -> bool).
Context `{Bincode ProgramState, Bincode NonceVersions, Bincode (list (Hash * Z)), Bincode Rent}.
Context (sys_env : SystemEnv) (des_sys : bytes -> option SystemInstruction).
Context (ser_sys : SystemInstruction -> bytes) (des : bytes -> option ProgramInstruction).
Context (context : LookupEnv -> InvokeContext caller).
Context `{Hbank : !LookupBank hashv on_curve sys_env des_sys ser_sys des context}.
Implicit Types (s : LookupEnv * ledger) (h : SlotHashes.t).


(** C16: Only the authority changes or closes a table: when an instruction of the lookup table
    program leaves an account with another table, the message is signed by a key that the
    instruction names, and that key is the authority of the table that was there. *)
Theorem lookup_changes_signed env slot h keys msg ci pis top l meter st k :
  NoDup (account_keys msg) -> (exists programs, keys = account_keys msg ++ programs) ->
  decompile msg ci = Ok top -> native_program msg keys l ci pis lookup_program_id -> native_ok l ->
  tables_ok (env, l) slot h ->
  Invoke.process_top (context env) keys msg ci pis top l meter = Ok st ->
  table_of (get_account (st_ledger st) k) <> table_of (get_account l k) ->
  exists i key, i ∈ ci_accounts ci /\ account_keys msg !! i = Some key /\ msg_is_signer msg i = true /\
    forall t, table_of (get_account l k) = Some t -> authority (meta t) = Some key.
Proof. by eapply lookup_top_signed. Qed.

(** C14: A table is not created twice from the same slot: once a table that was active in a
    slot with [r] among its recent slots is gone, as the one whose address was derived from
    [r], no creation from [r] succeeds any more, whatever its accounts. *)
Theorem lookup_table_not_recreated s s1 s2 slot h k t r :
  tables_ok s slot h -> r ∈ h.*1 -> table_of (get_account s.2 k) = Some t ->
  deactivation_slot (meta t) = slot_max ->
  rtc (lookup_history context) s s1 -> table_of (get_account s1.2 k) = None ->
  rtc (lookup_history context) s1 s2 ->
  forall d bump_seed first kas, des d = Some (CreateLookupTable r bump_seed) ->
  exists e, process_lookup hashv on_curve ser_sys s2.1 des first d kas s2.2 = TErr e.
Proof.
  intros Hok Hr Ht Hd H01 Hgone H12 d bump first kas Hdes.
  destruct (history_spent _ _ _ _ _ _ _ _ _ _ _ r k H01 Hok) as (slot1 & h1 & Hok1 & Hsp1).
  { split; [|left; exists t; split; [done|by left]]. apply list_elem_of_fmap in Hr as (p & -> & Hp).
    exact (proj1 (list.Forall_forall _ _) (eo_older _ _ _ (tk_env _ _ _ Hok)) p Hp). }
  destruct Hsp1 as [Hlt1 [(t1 & Ht1 & _)|Hn1]]; [congruence|].
  destruct (history_not_recent _ _ _ _ _ r H12 (tk_env _ _ _ Hok1) Hlt1 Hn1)
    as (slot2 & h2 & He2 & Hn2).
  by eapply create_not_recent.
Qed.

End Theorems.

(** ** The theorems at a concrete history *)


Lemma lookup_changes_signed_witness :
  exists i, account_keys LookupExample.deactivate_message !! i = Some LookupExample.author /\
    msg_is_signer LookupExample.deactivate_message i = true.
Proof.
  destruct LookupExample.deactivation_holds as (ci & top & st & Htop & Hp & Hrun & Hslot).
  destruct LookupExample.opened_holds as (Hopen & Hd & Ha).
  destruct LookupExample.deactivation_loaded as (Hnd & Hown & Hnative).
  destruct (lookup_changes_signed AssociatedExample.hashv AssociatedExample.on_curve SystemExample.env
    AssociatedExample.decode_system AssociatedExample.encode_system LookupExample.decode_lookup
    LookupExample.table_context (LookupExample.env_after 1) 1001 (LookupExample.hashes 1)
    (account_keys LookupExample.deactivate_message) LookupExample.deactivate_message ci
    [program_id_index ci] top LookupExample.opened (meter_new 0) st LookupExample.table)
    as (i & key & _ & Hk & Hs & Hauth).
  - exact Hnd.
  - exists []. symmetry. apply app_nil_r.
  - exact Htop.
  - exists (program_id_index ci). split; [reflexivity|]. split; [exact Hp|]. split; [exact Hp|exact Hown].
  - exact Hnative.
  - exact LookupExample.opened_later_ok.
  - exact Hrun.
  - intros Heq. unfold LookupExample.table_slot in Hslot. rewrite Heq, Hopen in Hslot.
    cbn in Hslot. rewrite Hd in Hslot. discriminate Hslot.
  - exists i. split; [|exact Hs]. rewrite Hk, <- Ha. symmetry. exact (Hauth _ Hopen).
Defined.

(** The table is closed in slot 1514, and cannot be created again from slot 999. *)
Lemma lookup_table_not_recreated_witness :
  exists e, process_lookup AssociatedExample.hashv AssociatedExample.on_curve
    AssociatedExample.encode_system (LookupExample.env_after 514) LookupExample.decode_lookup 1
    (LookupExample.encode_lookup (CreateLookupTable 999 LookupExample.table_and_bump.2)) []
    LookupExample.closed = TErr e.
Proof.
  destruct LookupExample.opened_holds as (Hopen & Hd & _).
  refine (lookup_table_not_recreated AssociatedExample.hashv AssociatedExample.on_curve
    SystemExample.env AssociatedExample.decode_system AssociatedExample.encode_system
    LookupExample.decode_lookup LookupExample.table_context _ _
    (LookupExample.env_after 514, LookupExample.closed) _ _ LookupExample.table _ 999
    LookupExample.opened_ok _ Hopen Hd LookupExample.history_closed _ (rtc_refl _ _)
    _ LookupExample.table_and_bump.2 1 [] _).
  - left.
  - exact LookupExample.closed_holds.
  - exact LookupExample.recreate_decoded.
Defined.

